(** * PolyPaste: translation-and-layout-QA pipeline

    A shallow embedding of the core of the PolyPaste Figma plugin
    (duplicate.ts, qa.ts, translate.ts, openai.ts, lang.ts, the
    controller code.ts and the run, queue and rewrite-shorter parts of
    ui.ts), with the properties of its specification, and further
    properties of the code, stated and proved over that embedding.

    Conventions of the embedding.
    - A JavaScript [number] is a value of [Num.num]: a rational or one of
      NaN, +Infinity, -Infinity; the sign of zero is not modelled, and
      division by zero yields the IEEE special values as in JavaScript.
      The arithmetic of qa.ts, whose tests sit on a tolerance, and of
      the line heights the scan hands to it is that of binary64 (scope
      [f64]): an operand is read as the binary64 value nearest to it and
      the exact result is rounded to the nearest binary64 value, a tie
      going to the even one ([Num.round64]).  The arithmetic of the
      placement of the clones (scope [num]) is exact.
    - A JavaScript string is a [string]: the bytes of its UTF-8 encoding.
    - A [Map<string, TextNode>] is an association list in insertion order
      (the order [for ... of] visits it); a [Record<string, string>] used as
      a dictionary is a [gmap string string].
    - The host (the Figma document model and the network) is not part of
      the repository.  What the code reads from it is a record field or a
      [Section] variable; what the code writes to it is a function on the
      node that is written. *)

From Stdlib Require Import QArith Qround Qpower ZArith Lia String Ascii List
  Bool.
From Stdlib Require SpecFloat.
From stdpp Require Import base option list strings gmap pretty.

Local Open Scope string_scope.

(* ================================================================= *)
(** ** JavaScript numbers *)

Module Num.

Inductive num : Type :=
| Fin (q : Q)
| PInf
| NInf
| NaN.

Definition of_Z (z : Z) : num := Fin (inject_Z z).
Definition of_nat (n : nat) : num := of_Z (Z.of_nat n).

(** Sign of a rational: [Lt], [Eq] or [Gt] against zero. *)
Definition Qsign (q : Q) : comparison := (Qnum q ?= 0)%Z.

Definition neg (a : num) : num :=
  match a with
  | Fin q => Fin (Qred (- q))
  | PInf => NInf
  | NInf => PInf
  | NaN => NaN
  end.

(** [a + b] *)
Definition add (a b : num) : num :=
  match a, b with
  | NaN, _ | _, NaN => NaN
  | Fin p, Fin q => Fin (Qred (p + q))
  | PInf, NInf | NInf, PInf => NaN
  | PInf, _ | _, PInf => PInf
  | NInf, _ | _, NInf => NInf
  end.

(** [a - b] *)
Definition sub (a b : num) : num := add a (neg b).

(** An infinity of the sign of [c] ([NaN] for [Eq]: infinity times zero). *)
Definition inf_of_sign (c : comparison) : num :=
  match c with Gt => PInf | Lt => NInf | Eq => NaN end.

Definition sign (a : num) : comparison :=
  match a with
  | Fin q => Qsign q
  | PInf => Gt
  | NInf => Lt
  | NaN => Eq
  end.

Definition mul_sign (c d : comparison) : comparison :=
  match c, d with
  | Eq, _ | _, Eq => Eq
  | Gt, Gt | Lt, Lt => Gt
  | _, _ => Lt
  end.

(** [a * b] *)
Definition mul (a b : num) : num :=
  match a, b with
  | NaN, _ | _, NaN => NaN
  | Fin p, Fin q => Fin (Qred (p * q))
  | _, _ => inf_of_sign (mul_sign (sign a) (sign b))
  end.

(** [a / b]: a finite, non-zero [a] over zero is an infinity of the sign
    of [a]; zero over zero is NaN. *)
Definition div (a b : num) : num :=
  match a, b with
  | NaN, _ | _, NaN => NaN
  | Fin p, Fin q =>
      match Qsign q with
      | Eq => inf_of_sign (Qsign p)
      | _ => Fin (Qred (p / q))
      end
  | Fin _, _ => Fin 0
  | _, Fin q =>
      match Qsign q with
      | Lt => neg a
      | _ => a
      end
  | _, _ => NaN
  end.

(** [a < b]; false as soon as one side is NaN. *)
Definition lt (a b : num) : bool :=
  match a, b with
  | NaN, _ | _, NaN => false
  | Fin p, Fin q => negb (Qle_bool q p)
  | NInf, NInf | PInf, _ | _, NInf => false
  | _, _ => true
  end.

(** [a > b] *)
Definition gt (a b : num) : bool := lt b a.

(** [a === b] on numbers. *)
Definition strict_eq (a b : num) : bool :=
  match a, b with
  | Fin p, Fin q => Qeq_bool p q
  | PInf, PInf | NInf, NInf => true
  | _, _ => false
  end.

(** Truthiness of a number: every number but 0 and NaN. *)
Definition truthy (a : num) : bool :=
  match a with
  | Fin q => negb (Qeq_bool q 0)
  | NaN => false
  | _ => true
  end.

(** [Math.max(a, b)] *)
Definition max (a b : num) : num :=
  match a, b with
  | NaN, _ | _, NaN => NaN
  | _, _ => if lt a b then b else a
  end.

(** [Math.floor(a)] *)
Definition floor (a : num) : num :=
  match a with
  | Fin q => of_Z (Qfloor q)
  | _ => a
  end.

(** [Math.round(a)]: the nearest integer, a tie going up. *)
Definition round (a : num) : num :=
  match a with
  | Fin q => of_Z (Qfloor (q + (1 # 2)))
  | _ => a
  end.

(** Truncation toward zero of a rational. *)
Definition Qtrunc (q : Q) : Z :=
  match Qsign q with
  | Lt => (- Qfloor (- q))%Z
  | _ => Qfloor q
  end.

(** [a % b]: the remainder of the truncated division, of the sign of
    [a]. *)
Definition rem (a b : num) : num :=
  match a, b with
  | Fin p, Fin q =>
      match Qsign q with
      | Eq => NaN
      | _ => Fin (Qred (p - q * inject_Z (Qtrunc (p / q))))
      end
  | Fin p, (PInf | NInf) => Fin p
  | _, _ => NaN
  end.

(** The text a template literal gives a number.  Exact for the integers
    (below 10^21 in absolute value, where JavaScript switches to the
    exponent form) and for the special values; a fraction is printed by
    its integer part (the line count of qa.ts, the one number printed, is
    never a fraction). *)
Definition to_string (a : num) : string :=
  match a with
  | Fin q => pretty (Qtrunc q)
  | PInf => "Infinity"
  | NInf => "-Infinity"
  | NaN => "NaN"
  end.

Definition is_integer (a : num) : bool :=
  match a with
  | Fin q => Qeq_bool q (inject_Z (Qfloor q))
  | _ => false
  end.

(** *** binary64

    The finite values of binary64 are the multiples [m * 2^e] with
    [|m| < 2^53] and [-1074 <= e <= 971]. *)

Definition pow2 (e : Z) : Q := Qpower 2 e.

(** The integer [k] with [2^k <= q < 2^(k+1)], for [q > 0]. *)
Definition ilog2 (q : Q) : Z :=
  let k := (Z.log2 (Qnum q) - Z.log2 (Zpos (Qden q)))%Z in
  if Qle_bool (pow2 k) q then k else (k - 1)%Z.

(** The exponent of the spacing of binary64 around [q > 0]: 53
    significant bits, the subnormal numbers being spaced by
    [2^-1074]. *)
Definition ulp_exp (q : Q) : Z := Z.max (-1074) (ilog2 q - 52).

(** The nearest integer, a tie going to the even one. *)
Definition rne (q : Q) : Z :=
  let f := Qfloor q in
  match ((q - inject_Z f) ?= (1 # 2))%Q with
  | Lt => f
  | Gt => (f + 1)%Z
  | Eq => if Z.even f then f else (f + 1)%Z
  end.

(** [q > 0] rounded to binary64: what reaches [2^1024] after rounding
    overflows. *)
Definition round_pos (q : Q) : num :=
  let e := ulp_exp q in
  let v := (inject_Z (rne (q * pow2 (- e))) * pow2 e)%Q in
  if Qle_bool (pow2 1024) v then PInf else Fin (Qred v).

Definition round64 (q : Q) : num :=
  match Qsign q with
  | Eq => Fin 0
  | Gt => round_pos q
  | Lt => neg (round_pos (- q)%Q)
  end.

(** The binary64 value a number is read as. *)
Definition fl (a : num) : num :=
  match a with
  | Fin q => round64 q
  | _ => a
  end.

(** The operations of binary64 on [a] and [b]. *)
Definition fadd (a b : num) : num := fl (add (fl a) (fl b)).
Definition fsub (a b : num) : num := fl (sub (fl a) (fl b)).
Definition fmul (a b : num) : num := fl (mul (fl a) (fl b)).
Definition fdiv (a b : num) : num := fl (div (fl a) (fl b)).
Definition flt (a b : num) : bool := lt (fl a) (fl b).
Definition fgt (a b : num) : bool := flt b a.

End Num.

Abbreviation num := Num.num.

Declare Scope num_scope.
Delimit Scope num_scope with num.
Bind Scope num_scope with Num.num.
Infix "+" := Num.add : num_scope.
Infix "-" := Num.sub : num_scope.
Infix "*" := Num.mul : num_scope.
Infix "/" := Num.div : num_scope.
Infix "<?" := Num.lt : num_scope.
Infix ">?" := Num.gt : num_scope.

(** The operators of JavaScript where they are those of binary64. *)
Declare Scope f64_scope.
Delimit Scope f64_scope with f64.
Arguments Num.fadd (a b)%_f64.
Arguments Num.fsub (a b)%_f64.
Arguments Num.fmul (a b)%_f64.
Arguments Num.fdiv (a b)%_f64.
Arguments Num.flt (a b)%_f64.
Arguments Num.fgt (a b)%_f64.
Infix "+" := Num.fadd : f64_scope.
Infix "-" := Num.fsub : f64_scope.
Infix "*" := Num.fmul : f64_scope.
Infix "/" := Num.fdiv : f64_scope.
Infix "<?" := Num.flt : f64_scope.
Infix ">?" := Num.fgt : f64_scope.

(** Decimal literals of the source. *)
Definition n0 : num := Num.of_Z 0.
Definition n1 : num := Num.of_Z 1.
Definition n4 : num := Num.of_Z 4.
Definition n0_5 : num := Num.Fin (1 # 2).
Definition n0_8 : num := Num.Fin (4 # 5).
Definition n1_4 : num := Num.Fin (7 # 5).
Definition n1_2 : num := Num.Fin (6 # 5).


(* ================================================================= *)
(** ** Data model (types.ts, and the host's nodes as the code sees them) *)

(** [node.type] *)
Inductive NodeType : Type :=
| TEXT | FRAME | COMPONENT | INSTANCE | GROUP | SECTION | PAGE | DOCUMENT
| OTHER_NODE.

(** [textAutoResize] *)
Inductive AutoResize : Type :=
| AR_NONE | AR_WIDTH_AND_HEIGHT | AR_HEIGHT | AR_TRUNCATE.

(** [textAlignHorizontal] *)
Inductive AlignH : Type := LEFT | CENTER | RIGHT | JUSTIFIED.

(** [layoutMode] of a frame; the property is absent on some nodes. *)
Inductive LayoutMode : Type := LM_NONE | HORIZONTAL | VERTICAL.

(** [primaryAxisSizingMode], [counterAxisSizingMode] *)
Inductive SizingMode : Type := FIXED | AUTO.

Inductive Axis : Type := horizontal | vertical.

(** [lineHeight] of a text node: [figma.mixed], a value with a unit, or
    automatic. *)
Inductive LineHeight : Type :=
| LH_mixed
| LH_PIXELS (value : num)
| LH_PERCENT (value : num)
| LH_AUTO.

Record FontName : Type := mkFontName { family : string; style : string }.

Record Rect : Type := mkRect {
  r_x : num; r_y : num; r_width : num; r_height : num }.

(** A node met on a parent chain ([BaseNode]).  [b_locked] is [None] when
    the node has no [locked] property (a page, the document). *)
Record BaseNode : Type := mkBaseNode {
  b_type : NodeType;
  b_name : string;
  b_locked : option bool;
  b_absoluteBoundingBox : option Rect;
  b_layoutMode : option LayoutMode;
  b_primaryAxisSizingMode : SizingMode;
  b_counterAxisSizingMode : SizingMode }.

(** A text node, the live handle the code reads and writes.
    [tn_parents] is the chain [parent], [parent.parent], ... up to the
    first [null]; it is empty when [parent] is [null].  [tn_fontSize] and
    [tn_fontName] are [None] for [figma.mixed].  [tn_x] and [tn_y] are
    relative to the parent; [tn_absolute] is the absolute position of the
    box of the node, [None] when the host reports no box.
    [tn_paragraphRTL] tells whether [paragraphDirection] is ['RTL']; it
    is [None] on a host whose text nodes have no such property, where a
    write to it throws.
    [tn_fontsLoaded] is the host's condition for accepting a write that
    changes the layout of the text: such a write throws on a node whose
    fonts are not loaded. *)
Record TextNode : Type := mkTextNode {
  tn_id : string;
  tn_name : string;
  tn_parents : list BaseNode;
  tn_locked : bool;
  tn_characters : string;
  tn_fontSize : option num;
  tn_lineHeight : LineHeight;
  tn_fontName : option FontName;
  tn_x : num;
  tn_y : num;
  tn_width : num;
  tn_height : num;
  tn_textAutoResize : AutoResize;
  tn_textAlignHorizontal : AlignH;
  tn_paragraphRTL : option bool;
  tn_absolute : option (num * num);
  tn_fontsLoaded : bool }.

(** [node.absoluteBoundingBox] of a text node: its size at its absolute
    position (a rotation of the node is not modelled). *)
Definition tn_absoluteBoundingBox (t : TextNode) : option Rect :=
  match tn_absolute t with
  | Some (x, y) => Some (mkRect x y (tn_width t) (tn_height t))
  | None => None
  end.

(** Properties every scene node has. *)
Record NodeProps : Type := mkNodeProps {
  p_type : NodeType;
  p_id : string;
  p_name : string;
  p_locked : bool;
  p_x : num;
  p_y : num;
  p_width : num;
  p_height : num;
  p_layoutMode : option LayoutMode }.

(** A subtree of the document.  A text node has no [children] property;
    another node has the list of its children, empty when it has none or
    has no such property. *)
#[local] Unset Elimination Schemes.
Inductive SceneNode : Type :=
| TextLeaf (t : TextNode)
| Node (p : NodeProps) (children : list SceneNode).
#[local] Set Elimination Schemes.

Record Language : Type := mkLanguage {
  code : string;
  l_name : string;
  nativeName : string;
  isRTL : bool }.

Inductive LayoutSetting : Type := row | wrap | column.

(** The settings the modelled code reads (the prompt rules, the key and
    the model name only travel to the network). *)
Record PluginSettings : Type := mkSettings {
  layoutMode : LayoutSetting;
  gap : num;
  wrapColumns : num;
  showLabels : bool;
  autoRTL : bool;
  setDirectionRTL : bool;
  mirrorLayout : bool;
  allowFontFallback : bool }.

(** A scanned text unit.  Of the source's fields, [isLabelLike] and
    [fontName] are left out: nothing in the pipeline reads them. *)
Record TextEntry : Type := mkTextEntry {
  e_id : string;
  e_nodeId : string;
  e_nodeName : string;
  e_characters : string;
  e_fontSize : num;
  e_width : num;
  e_height : num;
  e_textAutoResize : AutoResize;
  e_textAlignHorizontal : AlignH;
  e_lineHeight : num }.

Inductive Severity : Type := green | amber | red.

Inductive IssueType : Type := text_overflow | container_overflow | font_load.

Record QAIssue : Type := mkIssue {
  severity : Severity;
  i_type : IssueType;
  i_nodeId : string;
  i_nodeName : string;
  message : string }.

Record QAReport : Type := mkReport {
  langCode : string;
  langName : string;
  status : Severity;
  issues : list QAIssue;
  issueEntryIds : list string;
  amberIssues : nat;
  redIssues : nat }.

Inductive LangStatus : Type :=
| pending | duplicating | translating | applying | qa | done | error
| cancelled.

Record LangProgress : Type := mkProgress {
  lp_langCode : string;
  lp_langName : string;
  lp_status : LangStatus;
  detail : option string;
  qaReport : option QAReport }.

(** [Map<string, V>]: the entries in insertion order, keys distinct. *)
Module JsMap.
Section WithValue.
Context {V : Type}.

Definition t : Type := list (string * V).

Definition empty : t := [].

Fixpoint get (k : string) (m : t) : option V :=
  match m with
  | [] => None
  | (k', v) :: m' => if String.eqb k k' then Some v else get k m'
  end.

(** [m.set(k, v)]: a key already there keeps its place. *)
Fixpoint set (k : string) (v : V) (m : t) : t :=
  match m with
  | [] => [(k, v)]
  | (k', v') :: m' =>
      if String.eqb k k' then (k, v) :: m' else (k', v') :: set k v m'
  end.

Definition keys (m : t) : list string := map fst m.
Definition size (m : t) : nat := length m.
End WithValue.
Arguments t : clear implicits.
End JsMap.

(* ================================================================= *)
(** ** duplicate.ts: scanning, text-node mapping, placement *)

Module Duplicate.

(** [!s.trim()]: [s] holds white space and line terminators only
    (U+0009..U+000D, U+0020, U+00A0, U+1680, U+2000..U+200A, U+2028,
    U+2029, U+202F, U+205F, U+3000, U+FEFF, in UTF-8). *)
Fixpoint is_blank (s : string) : bool :=
  match s with
  | EmptyString => true
  | String c s1 =>
      match N_of_ascii c with
      | 9 | 10 | 11 | 12 | 13 | 32 => is_blank s1
      | 194 =>
          match s1 with
          | String c2 s2 =>
              if N.eqb (N_of_ascii c2) 160 then is_blank s2 else false
          | _ => false
          end
      | 225 =>
          match s1 with
          | String c2 (String c3 s3) =>
              if N.eqb (N_of_ascii c2) 154 && N.eqb (N_of_ascii c3) 128
              then is_blank s3 else false
          | _ => false
          end
      | 226 =>
          match s1 with
          | String c2 (String c3 s3) =>
              let b2 := N_of_ascii c2 in
              let b3 := N_of_ascii c3 in
              if (N.eqb b2 128
                  && ((N.leb 128 b3 && N.leb b3 138)
                      || N.eqb b3 168 || N.eqb b3 169 || N.eqb b3 175))
                 || (N.eqb b2 129 && N.eqb b3 159)
              then is_blank s3 else false
          | _ => false
          end
      | 227 =>
          match s1 with
          | String c2 (String c3 s3) =>
              if N.eqb (N_of_ascii c2) 128 && N.eqb (N_of_ascii c3) 128
              then is_blank s3 else false
          | _ => false
          end
      | 239 =>
          match s1 with
          | String c2 (String c3 s3) =>
              if N.eqb (N_of_ascii c2) 187 && N.eqb (N_of_ascii c3) 191
              then is_blank s3 else false
          | _ => false
          end
      | _ => false
      end%N
  end.

(** The loop of [isInLockedChain] over the parents: it stops at the
    first node without a [locked] property. *)
Fixpoint parents_locked (chain : list BaseNode) : bool :=
  match chain with
  | [] => false
  | b :: chain' =>
      match b_locked b with
      | None => false
      | Some true => true
      | Some false => parents_locked chain'
      end
  end.

Definition isInLockedChain (node : TextNode) : bool :=
  if tn_locked node then true else parents_locked (tn_parents node).

(** [typeof node.fontSize === 'number' ? node.fontSize : 14] *)
Definition fontSize_or_14 (node : TextNode) : num :=
  match tn_fontSize node with
  | Some fs => fs
  | None => Num.of_Z 14
  end.

Definition resolveLineHeight (node : TextNode) : num :=
  let fallbackFs := fontSize_or_14 node in
  match tn_lineHeight node with
  | LH_mixed => (fallbackFs * n1_2)%f64
  | LH_PIXELS value => value
  | LH_PERCENT value => (fallbackFs * (value / Num.of_Z 100))%f64
  | LH_AUTO => (fallbackFs * n1_2)%f64
  end.

(** The variables [walk] of [scanTextNodes] closes over. *)
Record ScanState : Type := mkScan {
  entries : list TextEntry;
  totalTextNodes : nat;
  skippedEmpty : nat;
  skippedLocked : nat;
  idx : nat }.

Definition entry_of (tn : TextNode) (i : nat) : TextEntry :=
  {| e_id := "t" ++ pretty i;
     e_nodeId := tn_id tn;
     e_nodeName := tn_name tn;
     e_characters := tn_characters tn;
     e_fontSize := fontSize_or_14 tn;
     e_width := tn_width tn;
     e_height := tn_height tn;
     e_textAutoResize := tn_textAutoResize tn;
     e_textAlignHorizontal := tn_textAlignHorizontal tn;
     e_lineHeight := resolveLineHeight tn |}.

Definition scan_text (tn : TextNode) (st : ScanState) : ScanState :=
  let total := S (totalTextNodes st) in
  if is_blank (tn_characters tn) then
    mkScan (entries st) total (S (skippedEmpty st)) (skippedLocked st)
           (idx st)
  else if isInLockedChain tn then
    mkScan (entries st) total (skippedEmpty st) (S (skippedLocked st))
           (idx st)
  else
    mkScan (entries st ++ [entry_of tn (idx st)]) total (skippedEmpty st)
           (skippedLocked st) (S (idx st)).

(** [walk] of [scanTextNodes]. *)
Fixpoint scan_walk (node : SceneNode) (st : ScanState) : ScanState :=
  match node with
  | TextLeaf tn => scan_text tn st
  | Node _ children =>
      fold_left (fun st' child => scan_walk child st') children st
  end.

Definition scanTextNodes (root : SceneNode) : ScanState :=
  scan_walk root (mkScan [] 0 0 0 0).

(** [walk] of [collectTextNodes], [result] being the array it pushes
    to. *)
Fixpoint collect_walk (n : SceneNode) (result : list TextNode)
  : list TextNode :=
  match n with
  | TextLeaf t => result ++ [t]
  | Node _ children =>
      fold_left (fun acc child => collect_walk child acc) children result
  end.

Definition collectTextNodes (node : SceneNode) : list TextNode :=
  collect_walk node [].

(** Reads and writes of the properties every scene node has. *)
Definition sn_name (n : SceneNode) : string :=
  match n with TextLeaf t => tn_name t | Node p _ => p_name p end.
Definition sn_x (n : SceneNode) : num :=
  match n with TextLeaf t => tn_x t | Node p _ => p_x p end.
Definition sn_y (n : SceneNode) : num :=
  match n with TextLeaf t => tn_y t | Node p _ => p_y p end.
Definition sn_width (n : SceneNode) : num :=
  match n with TextLeaf t => tn_width t | Node p _ => p_width p end.
Definition sn_height (n : SceneNode) : num :=
  match n with TextLeaf t => tn_height t | Node p _ => p_height p end.

Definition tn_with_name_pos (name : string) (x y : num) (t : TextNode)
  : TextNode :=
  mkTextNode (tn_id t) name (tn_parents t) (tn_locked t)
    (tn_characters t) (tn_fontSize t) (tn_lineHeight t) (tn_fontName t)
    x y (tn_width t) (tn_height t) (tn_textAutoResize t)
    (tn_textAlignHorizontal t) (tn_paragraphRTL t)
    (tn_absolute t) (tn_fontsLoaded t).

Definition sn_with_name_pos (name : string) (x y : num) (n : SceneNode)
  : SceneNode :=
  match n with
  | TextLeaf t => TextLeaf (tn_with_name_pos name x y t)
  | Node p cs =>
      Node (mkNodeProps (p_type p) (p_id p) name (p_locked p) x y
              (p_width p) (p_height p) (p_layoutMode p)) cs
  end.

(** The position [duplicateAndPlace] gives the clone of index
    [langIndex]. *)
Definition place (original : SceneNode) (langIndex : num)
    (settings : PluginSettings) : num * num :=
  let gap := gap settings in
  let wrapColumns := wrapColumns settings in
  match layoutMode settings with
  | row =>
      ((sn_x original + (langIndex + n1) * (sn_width original + gap))%num,
       sn_y original)
  | column =>
      (sn_x original,
       (sn_y original + (langIndex + n1) * (sn_height original + gap))%num)
  | wrap =>
      let col := Num.rem langIndex wrapColumns in
      let row := Num.floor (langIndex / wrapColumns)%num in
      ((sn_x original + (col + n1) * (sn_width original + gap))%num,
       (sn_y original + row * (sn_height original + gap))%num)
  end.

(** The loop that fills [textNodeMap]: index [i] runs while it is below
    both lengths. *)
Fixpoint build_map (originalEntries : list TextEntry)
    (origTexts cloneTexts : list TextNode)
    (textNodeMap : JsMap.t TextNode) : JsMap.t TextNode :=
  match origTexts, cloneTexts with
  | o :: origTexts', c :: cloneTexts' =>
      let entry :=
        List.find (fun e => String.eqb (e_nodeId e) (tn_id o))
                  originalEntries in
      build_map originalEntries origTexts' cloneTexts'
        match entry with
        | Some e => JsMap.set (e_id e) c textNodeMap
        | None => textNodeMap
        end
  | _, _ => textNodeMap
  end.

Record Duplicated : Type := mkDuplicated {
  clone : SceneNode;
  textNodeMap : JsMap.t TextNode }.

(** [duplicateAndPlace]; [cloned] is the node [original.clone()]
    returned.  Appending the clone to the parent of the original is an
    effect on the document around the clone: it changes neither the
    subtree nor the map returned here. *)
Definition duplicateAndPlace (cloned : SceneNode) (original : SceneNode)
    (langIndex : num) (language : Language) (settings : PluginSettings)
    (originalEntries : list TextEntry) : Duplicated :=
  let name :=
    sn_name original ++ " – " ++ l_name language ++ " (" ++ code language
      ++ ")" in
  let '(x, y) := place original langIndex settings in
  let clone := sn_with_name_pos name x y cloned in
  let origTexts := collectTextNodes original in
  let cloneTexts := collectTextNodes clone in
  mkDuplicated clone
    (build_map originalEntries origTexts cloneTexts JsMap.empty).

End Duplicate.

(* ================================================================= *)
(** ** The host's text layout, as far as qa.ts writes to it *)

Module Host.

Definition with_layout (mode : AutoResize) (w h : num) (t : TextNode)
  : TextNode :=
  mkTextNode (tn_id t) (tn_name t) (tn_parents t) (tn_locked t)
    (tn_characters t) (tn_fontSize t) (tn_lineHeight t) (tn_fontName t)
    (tn_x t) (tn_y t) w h mode
    (tn_textAlignHorizontal t) (tn_paragraphRTL t)
    (tn_absolute t) (tn_fontsLoaded t).

Section Layout.
(** The height the host's layout gives the text of a node at the width
    the node has (what [height] reads once the node grows
    vertically). *)
Variable reflowHeight : TextNode -> num.
(** The width and height the host gives a node that grows both ways. *)
Variable naturalSize : TextNode -> num * num.

(** [t.textAutoResize = mode].  [None]: the write throws and the node
    is as it was. *)
Definition set_textAutoResize (mode : AutoResize) (t : TextNode)
  : option TextNode :=
  if tn_fontsLoaded t then
    Some match mode with
         | AR_HEIGHT => with_layout mode (tn_width t) (reflowHeight t) t
         | AR_WIDTH_AND_HEIGHT =>
             with_layout mode (fst (naturalSize t)) (snd (naturalSize t))
               t
         | AR_NONE | AR_TRUNCATE =>
             with_layout mode (tn_width t) (tn_height t) t
         end
  else None.

(** [t.resize(w, h)] on a node whose box is fixed. *)
Definition resize (w h : num) (t : TextNode) : option TextNode :=
  if tn_fontsLoaded t then
    Some (with_layout (tn_textAutoResize t) w h t)
  else None.
End Layout.

End Host.

(* ================================================================= *)
(** ** qa.ts: layout checks *)

Module QA.

Definition isFrameLike (node : BaseNode) : bool :=
  match b_type node with
  | FRAME | COMPONENT | INSTANCE => true
  | _ => false
  end.

Definition is_FIXED (m : SizingMode) : bool :=
  match m with FIXED => true | AUTO => false end.

Definition isFixedOnAxis (frame : BaseNode) (axis : Axis) : bool :=
  match b_layoutMode frame with
  | None | Some LM_NONE => true
  | Some HORIZONTAL =>
      match axis with
      | horizontal => is_FIXED (b_primaryAxisSizingMode frame)
      | vertical => is_FIXED (b_counterAxisSizingMode frame)
      end
  | Some VERTICAL =>
      match axis with
      | vertical => is_FIXED (b_primaryAxisSizingMode frame)
      | horizontal => is_FIXED (b_counterAxisSizingMode frame)
      end
  end.

Record ParentCheck : Type := mkParentCheck {
  overflows : bool;
  parentName : string }.

(** [nodeBounds.x + nodeBounds.width > fb.x + fb.width + T], [T = 1] *)
Definition overflowH (nodeBounds fb : Rect) : bool :=
  (r_x nodeBounds + r_width nodeBounds >? r_x fb + r_width fb + n1)%f64.

(** [nodeBounds.y + nodeBounds.height > fb.y + fb.height + T] *)
Definition overflowV (nodeBounds fb : Rect) : bool :=
  (r_y nodeBounds + r_height nodeBounds >? r_y fb + r_height fb + n1)%f64.

Definition is_root_type (ty : NodeType) : bool :=
  match ty with PAGE | DOCUMENT => true | _ => false end.

(** The [while] loop of [checkParentOverflow], [chain] being [current]
    and the parents above it. *)
Fixpoint parent_walk (nodeBounds : Rect) (chain : list BaseNode)
  : ParentCheck :=
  match chain with
  | [] => mkParentCheck false ""
  | current :: chain' =>
      if is_root_type (b_type current) then mkParentCheck false ""
      else if isFrameLike current then
        match b_absoluteBoundingBox current with
        | Some fb =>
            if overflowH nodeBounds fb && isFixedOnAxis current horizontal
            then mkParentCheck true (b_name current)
            else if overflowV nodeBounds fb
                    && isFixedOnAxis current vertical
            then mkParentCheck true (b_name current)
            else parent_walk nodeBounds chain'
        | None => parent_walk nodeBounds chain'
        end
      else parent_walk nodeBounds chain'
  end.

Definition checkParentOverflow (node : TextNode) : ParentCheck :=
  match tn_absoluteBoundingBox node with
  | None => mkParentCheck false ""
  | Some nodeBounds => parent_walk nodeBounds (tn_parents node)
  end.

Definition fixed_box (mode : AutoResize) : bool :=
  match mode with AR_NONE | AR_TRUNCATE => true | _ => false end.

Section WithHost.
Variable reflowHeight : TextNode -> num.
Variable naturalSize : TextNode -> num * num.

Let set_textAutoResize := Host.set_textAutoResize reflowHeight naturalSize.

(** The restoring statements, shared by the [try] block and its
    handler: the mode, then for a fixed box the size.  [None]: one of
    the writes throws; the node reached by then is the first
    component. *)
Definition restore (origResize : AutoResize) (origWidth origHeight : num)
    (t : TextNode) : TextNode * bool :=
  match set_textAutoResize origResize t with
  | None => (t, false)
  | Some t1 =>
      if fixed_box origResize then
        match Host.resize origWidth origHeight t1 with
        | None => (t1, false)
        | Some t2 => (t2, true)
        end
      else (t1, true)
  end.

(** [measureNeededHeight]: the height read and the node as the call
    leaves it. *)
Definition measureNeededHeight (textNode : TextNode) : num * TextNode :=
  let origWidth := tn_width textNode in
  let origHeight := tn_height textNode in
  let origResize := tn_textAutoResize textNode in
  match origResize with
  | AR_HEIGHT => (tn_height textNode, textNode)
  | _ =>
      (* the handler: a best-effort restoration, then [origHeight] *)
      let handler (t : TextNode) : num * TextNode :=
        (origHeight, fst (restore origResize origWidth origHeight t)) in
      match set_textAutoResize AR_HEIGHT textNode with
      | None => handler textNode
      | Some t1 =>
          let neededHeight := tn_height t1 in
          match restore origResize origWidth origHeight t1 with
          | (t2, true) => (neededHeight, t2)
          | (t2, false) => handler t2
          end
      end
  end.

(** The arrays [runQA] fills. *)
Record Acc : Type := mkAcc {
  acc_issues : list QAIssue;
  acc_issueEntryIds : list string }.

(** [set.add(id)] on a [Set<string>] kept in insertion order. *)
Definition set_add (id : string) (s : list string) : list string :=
  if existsb (String.eqb id) s then s else s ++ [id].

Definition flag (id : string) (i : QAIssue) (acc : Acc) : Acc :=
  mkAcc (acc_issues acc ++ [i]) (set_add id (acc_issueEntryIds acc)).

Definition effective_lineHeight (original : TextEntry) : num :=
  if Num.truthy (e_lineHeight original)
     && (e_lineHeight original >? n0)%f64
  then e_lineHeight original
  else (e_fontSize original * n1_4)%f64.

Definition extraLines (heightDelta lineHeight : num) : num :=
  Num.max n1 (Num.round (heightDelta / lineHeight)%f64).

Definition wrap_message (extraLines : num) : string :=
  if Num.strict_eq extraLines n1 then "New line"
  else "+" ++ Num.to_string extraLines ++ " lines".

Definition originalMap_of (originalEntries : list TextEntry)
  : JsMap.t TextEntry :=
  fold_left (fun m entry => JsMap.set (e_id entry) entry m)
            originalEntries JsMap.empty.

(** Checks 2 and 3 on a unit, after check 1 let it through; [resize]
    is the mode read at the top of the turn. *)
Definition checks_2_3 (id : string) (resize : AutoResize)
    (textNode : TextNode) (original : TextEntry) (acc : Acc) : Acc :=
  let origHeight := e_height original in
  let lineHeight := effective_lineHeight original in
  let acc2 :=
    match resize with
    | AR_HEIGHT =>
        let currentHeight := tn_height textNode in
        let heightDelta := (currentHeight - origHeight)%f64 in
        let threshold := Num.max (lineHeight * n0_8)%f64 n4 in
        if (heightDelta >? threshold)%f64 then
          flag id
            (mkIssue amber text_overflow (tn_id textNode)
               (tn_name textNode)
               (wrap_message (extraLines heightDelta lineHeight)))
            acc
        else acc
    | _ => acc
    end in
  if overflows (checkParentOverflow textNode) then
    flag id
      (mkIssue red container_overflow (tn_id textNode)
         (tn_name textNode) "Breaks container")
      acc2
  else acc2.

(** One turn of the loop over [textNodeMap]: the arrays and the node
    after it. *)
Definition qa_unit (originalMap : JsMap.t TextEntry) (id : string)
    (textNode : TextNode) (acc : Acc) : Acc * TextNode :=
  match tn_parents textNode with
  | [] => (acc, textNode)
  | _ :: _ =>
      match JsMap.get id originalMap with
      | None => (acc, textNode)
      | Some original =>
          let resize := tn_textAutoResize textNode in
          match resize with
          | AR_NONE =>
              let '(neededHeight, textNode') :=
                measureNeededHeight textNode in
              let fixedHeight := tn_height textNode' in
              if (neededHeight >? fixedHeight + n0_5)%f64 then
                (flag id
                   (mkIssue red text_overflow (tn_id textNode')
                      (tn_name textNode') "Overflow")
                   acc,
                 textNode')
              else (checks_2_3 id resize textNode' original acc, textNode')
          | _ => (checks_2_3 id resize textNode original acc, textNode)
          end
      end
  end.

Fixpoint qa_loop (originalMap : JsMap.t TextEntry)
    (textNodeMap : JsMap.t TextNode) (acc : Acc)
  : Acc * JsMap.t TextNode :=
  match textNodeMap with
  | [] => (acc, [])
  | (id, textNode) :: rest =>
      let '(acc1, textNode') := qa_unit originalMap id textNode acc in
      let '(acc2, rest') := qa_loop originalMap rest acc1 in
      (acc2, (id, textNode') :: rest')
  end.

Definition font_issue : QAIssue :=
  mkIssue amber font_load "" "" "Missing font".

Definition is_red (i : QAIssue) : bool :=
  match severity i with red => true | _ => false end.
Definition is_amber (i : QAIssue) : bool :=
  match severity i with amber => true | _ => false end.

(** [runQA]: the report, and [textNodeMap] with its nodes as the run
    leaves them. *)
Definition runQA (textNodeMap : JsMap.t TextNode)
    (originalEntries : list TextEntry) (language : Language)
    (fontErrors : list string) : QAReport * JsMap.t TextNode :=
  let originalMap := originalMap_of originalEntries in
  let '(acc, textNodeMap') :=
    qa_loop originalMap textNodeMap (mkAcc [] []) in
  let issues :=
    fold_left (fun (pushed : list QAIssue) _ => (pushed ++ [font_issue])%list)
              fontErrors
              (acc_issues acc) in
  let redCount := length (List.filter is_red issues) in
  let amberCount := length (List.filter is_amber issues) in
  let status :=
    if (0 <? redCount)%nat then red
    else if (0 <? amberCount)%nat then amber
    else green in
  (mkReport (code language) (l_name language) status issues
     (acc_issueEntryIds acc) amberCount redCount,
   textNodeMap').
End WithHost.

End QA.

(* ================================================================= *)
(** ** translate.ts: the translation client *)

Module Translate.

(** What the client looks at in a property of the parsed answer. *)
Inductive PropValue : Type :=
| StringValue (s : string)
| OtherValue.

(** What the client looks at in [response.data]: whether it is truthy
    and of type [object], and then its properties. *)
Inductive Data : Type :=
| NotAnObject
| Object (props : gmap string PropValue).

Record OpenAIResponse : Type := mkResponse {
  ok : bool;
  data : option Data;
  r_error : option string;
  r_status : option Z }.

Record TranslateResult : Type := mkResult {
  translations : option (gmap string string);
  t_error : option string }.

(** What a run of the client does to the outside, in order. *)
Inductive Effect : Type :=
| CallOpenAI (systemPrompt : string)
| Delay (ms : Z).

Definition SYSTEM_PROMPT : string :=
  "You are a professional UI translator. You MUST respond with valid json only — no markdown, no explanation, no prose. Output a single json object mapping each id to its translated string.".

Definition STRICT_SUFFIX : string :=
  String (ascii_of_N 10) (String (ascii_of_N 10)
    "IMPORTANT: Return ONLY valid JSON. No markdown fences, no explanation.").

(** [s || fallback] on an optional string: an absent or empty string
    gives the fallback. *)
Definition or_else (s : option string) (fallback : string) : string :=
  match s with
  | Some EmptyString | None => fallback
  | Some s' => s'
  end.

(** The extraction loop: the ids of [ids] whose property is a string,
    and how many there are. *)
Fixpoint extract (props : gmap string PropValue) (ids : list string)
    (translations : gmap string string) (valid : nat)
  : gmap string string * nat :=
  match ids with
  | [] => (translations, valid)
  | id :: ids' =>
      match props !! id with
      | Some (StringValue val) =>
          extract props ids' (<[id := val]> translations) (S valid)
      | _ => extract props ids' translations valid
      end
  end.

Section WithNetwork.
(** The answer of the [attempt]-th call, made with the given system
    prompt (the rest of the request is the same in every call). *)
Variable callOpenAI : nat -> string -> OpenAIResponse.
(** [signal?.aborted] at the top of the [attempt]-th turn. *)
Variable aborted : nat -> bool.

(** The [for] loop of [translateBatch]: [remaining] turns are left,
    the next one has index [attempt]. *)
Fixpoint attempts (entries : list TextEntry) (remaining : nat)
    (attempt : nat) (lastError : string)
  : TranslateResult * list Effect :=
  match remaining with
  | O => (mkResult None (Some lastError), [])
  | S remaining' =>
      if aborted attempt then (mkResult None (Some "Cancelled."), [])
      else
        let extra := if (0 <? attempt)%nat then STRICT_SUFFIX else "" in
        let systemPrompt := SYSTEM_PROMPT ++ extra in
        let response := callOpenAI attempt systemPrompt in
        let next (lastError' : string) (waits : list Effect) :=
          let '(res, effs) :=
            attempts entries remaining' (S attempt) lastError' in
          (res, (CallOpenAI systemPrompt :: waits ++ effs)%list) in
        if negb (ok response) then
          let lastError' := or_else (r_error response) "Unknown error" in
          match r_status response with
          | Some 401%Z =>
              (mkResult None (Some lastError'),
               [CallOpenAI systemPrompt])
          | Some 429%Z =>
              next lastError' [Delay (2000 * (Z.of_nat attempt + 1))]
          | _ => next lastError' []
          end
        else
          match data response with
          | None | Some NotAnObject =>
              next "Invalid response format from OpenAI." []
          | Some (Object props) =>
              let '(translations, valid) :=
                extract props (map e_id entries) ∅ 0 in
              match valid with
              | O => next "No valid translations in response." []
              | S _ =>
                  (mkResult (Some translations) None,
                   [CallOpenAI systemPrompt])
              end
          end
  end.

(** [translateBatch]; the turns are [attempt = 0 .. maxRetries], and
    [maxRetries] is 2 when the caller gives none. *)
Definition translateBatch (entries : list TextEntry) (maxRetries : Z)
  : TranslateResult * list Effect :=
  attempts entries (Z.to_nat (maxRetries + 1)) 0 "".
End WithNetwork.

Definition default_maxRetries : Z := 2.

Record ShortenEntry : Type := mkShorten {
  s_id : string;
  original : string;
  current : string }.

(** [shortenTranslations], [response] being the answer of its one
    call. *)
Definition shortenTranslations (entries : list ShortenEntry)
    (response : OpenAIResponse) : TranslateResult :=
  match entries with
  | [] => mkResult (Some ∅) None
  | _ =>
      if negb (ok response) then
        mkResult None (Some (or_else (r_error response) "Failed to shorten"))
      else
        match data response with
        | None | Some NotAnObject => mkResult None (Some "Invalid response")
        | Some (Object props) =>
            mkResult
              (Some (fst (extract props (map s_id entries) ∅ 0))) None
        end
  end.

End Translate.

(* ================================================================= *)
(** ** duplicate.ts: writing the translations, mirroring *)

Module Apply.

Definition with_fonts (fontName : option FontName) (loaded : bool)
    (t : TextNode) : TextNode :=
  mkTextNode (tn_id t) (tn_name t) (tn_parents t) (tn_locked t)
    (tn_characters t) (tn_fontSize t) (tn_lineHeight t) fontName
    (tn_x t) (tn_y t) (tn_width t) (tn_height t) (tn_textAutoResize t)
    (tn_textAlignHorizontal t) (tn_paragraphRTL t)
    (tn_absolute t) loaded.

Definition with_text (characters : string) (align : AlignH)
    (rtl : option bool) (t : TextNode) : TextNode :=
  mkTextNode (tn_id t) (tn_name t) (tn_parents t) (tn_locked t)
    characters (tn_fontSize t) (tn_lineHeight t) (tn_fontName t)
    (tn_x t) (tn_y t) (tn_width t) (tn_height t) (tn_textAutoResize t)
    align rtl (tn_absolute t) (tn_fontsLoaded t).

Definition fallbacks : list FontName :=
  [mkFontName "Inter" "Regular"; mkFontName "Roboto" "Regular";
   mkFontName "Arial" "Regular"].

Section WithHost.
Variable reflowHeight : TextNode -> num.
Variable naturalSize : TextNode -> num * num.
(** Whether every font of the node loads ([loadFontsForNode]). *)
Variable nodeFontsLoad : TextNode -> bool.
(** Whether [figma.loadFontAsync(font)] succeeds. *)
Variable fontLoads : FontName -> bool.

(** The size the host gives a node whose text or font changed. *)
Definition relayout (t : TextNode) : TextNode :=
  match tn_textAutoResize t with
  | AR_HEIGHT => Host.with_layout AR_HEIGHT (tn_width t) (reflowHeight t) t
  | AR_WIDTH_AND_HEIGHT =>
      Host.with_layout AR_WIDTH_AND_HEIGHT (fst (naturalSize t))
        (snd (naturalSize t)) t
  | _ => t
  end.

Definition loadFontsForNode (node : TextNode) : bool * TextNode :=
  if nodeFontsLoad node
  then (true, with_fonts (tn_fontName node) true node)
  else (false, node).

Fixpoint try_fallbacks (fonts : list FontName) (node : TextNode)
  : bool * TextNode :=
  match fonts with
  | [] => (false, node)
  | font :: fonts' =>
      if fontLoads font
      then (true, relayout (with_fonts (Some font) true node))
      else try_fallbacks fonts' node
  end.

Definition applyFallbackFont (node : TextNode) : bool * TextNode :=
  try_fallbacks fallbacks node.

Record Applied : Type := mkApplied {
  applied : nat;
  fontErrors : list string;
  nodes : JsMap.t TextNode }.

(** [try { node.paragraphDirection = 'RTL' } catch (_e) {}]: the
    write throws, and changes nothing, on a node without the
    property. *)
Definition try_direction_RTL (direction : option bool) : option bool :=
  match direction with
  | Some _ => Some true
  | None => None
  end.

(** The text, then the handling of a right-to-left language. *)
Definition write_translation (translation : string)
    (language : Language) (settings : PluginSettings) (node : TextNode)
  : TextNode :=
  let node1 :=
    relayout (with_text translation (tn_textAlignHorizontal node)
                (tn_paragraphRTL node) node) in
  if isRTL language && autoRTL settings then
    let rtl := if setDirectionRTL settings
               then try_direction_RTL (tn_paragraphRTL node1)
               else tn_paragraphRTL node1 in
    let align :=
      match tn_textAlignHorizontal node1 with
      | CENTER => CENTER
      | _ => RIGHT
      end in
    with_text (tn_characters node1) align rtl node1
  else node1.

(** One turn of the loop of [applyTranslations]. *)
Definition apply_one (language : Language) (settings : PluginSettings)
    (kv : string * string) (st : Applied) : Applied :=
  let '(id, translation) := kv in
  match JsMap.get id (nodes st) with
  | None => st
  | Some node =>
      let '(ok, node1) := loadFontsForNode node in
      let '(ok', node2) :=
        if ok then (true, node1)
        else if allowFontFallback settings then applyFallbackFont node1
        else (false, node1) in
      if ok' then
        mkApplied (S (applied st)) (fontErrors st)
          (JsMap.set id
             (write_translation translation language settings node2)
             (nodes st))
      else
        mkApplied (applied st) (fontErrors st ++ [tn_name node2])
          (JsMap.set id node2 (nodes st))
  end.

(** [applyTranslations]; the properties of [translations] are taken
    in the order of [map_to_list]. *)
Definition applyTranslations (textNodeMap : JsMap.t TextNode)
    (translations : gmap string string) (language : Language)
    (settings : PluginSettings) : Applied :=
  fold_left (fun st kv => apply_one language settings kv st)
            (map_to_list translations) (mkApplied 0 [] textNodeMap).

(** Whether re-appending the children of a frame is accepted by the
    host (it throws inside an instance). *)
Variable reorders : SceneNode -> bool.

(** [mirrorAutoLayout]: whether mirroring applied, and the node
    after. *)
Definition mirrorAutoLayout (node : SceneNode) : bool * SceneNode :=
  match node with
  | TextLeaf _ => (false, node)
  | Node p kids =>
      match p_type p with
      | FRAME | COMPONENT | INSTANCE =>
          match p_layoutMode p with
          | Some HORIZONTAL =>
              if reorders node then (true, Node p (rev kids))
              else (false, node)
          | _ => (false, node)
          end
      | _ => (false, node)
      end
  end.
End WithHost.

End Apply.

(* ================================================================= *)
(** ** code.ts: the controller *)

Module Controller.

(** Messages from the controller to the UI. *)
Inductive ControllerMessage : Type :=
| language_progress (progress : LangProgress)
| request_translation (langCode langName : string) (isRTL : bool)
    (textEntries : list TextEntry) (settings : PluginSettings)
| all_complete (reports : list QAReport)
| error_message (error : string)
| cancelled_message.

(** Messages from the UI to the controller that bear on a run. *)
Inductive UIMessage : Type :=
| translations_ready (langCode : string) (translations : gmap string string)
| translation_error (langCode : string) (error : string)
| apply_rewrites (langCode : string) (translations : gmap string string)
| cancel
| notify (message : string) (error : bool).

(** The module-level variables of the controller. *)
Record State : Type := mkState {
  settings : PluginSettings;
  cancelled_flag : bool;
  originalEntries : list TextEntry;
  cloneMap : JsMap.t Duplicate.Duplicated;
  languageMap : JsMap.t Language;
  qaReports : list QAReport;
  pendingCount : Z }.

Definition with_run (cloneMap : JsMap.t Duplicate.Duplicated)
    (qaReports : list QAReport) (pendingCount : Z) (st : State) : State :=
  mkState (settings st) (cancelled_flag st) (originalEntries st) cloneMap
    (languageMap st) qaReports pendingCount.

Definition with_cancelled (flag : bool) (st : State) : State :=
  mkState (settings st) flag (originalEntries st) (cloneMap st)
    (languageMap st) (qaReports st) (pendingCount st).

Definition progress (langCode langName : string) (status : LangStatus)
    (detail : option string) (qaReport : option QAReport)
  : ControllerMessage :=
  language_progress (mkProgress langCode langName status detail qaReport).

(** [if (pendingCount <= 0) send all-complete] *)
Definition complete_check (pendingCount : Z) (reports : list QAReport)
  : list ControllerMessage :=
  if (pendingCount <=? 0)%Z then [all_complete reports] else [].

Section WithHost.
Variable reflowHeight : TextNode -> num.
Variable naturalSize : TextNode -> num * num.
Variable nodeFontsLoad : TextNode -> bool.
Variable fontLoads : FontName -> bool.
Variable reorders : SceneNode -> bool.
(** The node the [i]-th call of [clone()] on the selection returns. *)
Variable cloneOf : nat -> SceneNode -> SceneNode.

Let applyTranslations :=
  Apply.applyTranslations reflowHeight naturalSize nodeFontsLoad fontLoads.
Let runQA := QA.runQA reflowHeight naturalSize.

(** The nodes of a clone record after a pass wrote to them. *)
Definition store_nodes (langCode : string) (entry : Duplicate.Duplicated)
    (nodes : JsMap.t TextNode) (m : JsMap.t Duplicate.Duplicated)
  : JsMap.t Duplicate.Duplicated :=
  JsMap.set langCode (Duplicate.mkDuplicated (Duplicate.clone entry) nodes)
    m.

(** [case 'translations-ready'] *)
Definition on_translations_ready (langCode : string)
    (translations : gmap string string) (st : State)
  : State * list ControllerMessage :=
  if cancelled_flag st then (st, [])
  else
    match JsMap.get langCode (cloneMap st),
          JsMap.get langCode (languageMap st) with
    | Some entry, Some language =>
        let a :=
          applyTranslations (Duplicate.textNodeMap entry) translations
            language (settings st) in
        let '(qaReport, nodes) :=
          runQA (Apply.nodes a) (originalEntries st) language
            (Apply.fontErrors a) in
        let reports := (qaReports st ++ [qaReport])%list in
        let pendingCount' := (pendingCount st - 1)%Z in
        (with_run (store_nodes langCode entry nodes (cloneMap st))
           reports pendingCount' st,
         [progress langCode (l_name language) applying None None;
          progress langCode (l_name language) qa None None;
          progress langCode (l_name language) done None (Some qaReport)]
           ++ complete_check pendingCount' reports)%list
    | _, _ =>
        (st, [error_message ("Internal: no clone for " ++ langCode ++ ".")])
    end.

(** [case 'translation-error'] *)
Definition on_translation_error (langCode error_text : string)
    (st : State)
  : State * list ControllerMessage :=
  if cancelled_flag st then
    (with_run (cloneMap st) (qaReports st) (pendingCount st - 1)%Z st, [])
  else
    let language := JsMap.get langCode (languageMap st) in
    let langName := Translate.or_else (l_name <$> language) langCode in
    let pendingCount' := (pendingCount st - 1)%Z in
    (with_run (cloneMap st) (qaReports st) pendingCount' st,
     [progress langCode langName error (Some error_text) None]
       ++ complete_check pendingCount' (qaReports st))%list.

(** [case 'apply-rewrites'] *)
Definition on_apply_rewrites (langCode : string)
    (translations : gmap string string) (st : State)
  : State * list ControllerMessage :=
  match JsMap.get langCode (cloneMap st),
        JsMap.get langCode (languageMap st) with
  | Some entry, Some language =>
      let a :=
        applyTranslations (Duplicate.textNodeMap entry) translations
          language (settings st) in
      let '(qaReport, nodes) :=
        runQA (Apply.nodes a) (originalEntries st) language
          (Apply.fontErrors a) in
      (with_run (store_nodes langCode entry nodes (cloneMap st))
         (qaReports st) (pendingCount st) st,
       [progress langCode (l_name language) applying None None;
        progress langCode (l_name language) done None (Some qaReport)])
  | _, _ => (st, [error_message ("No clone for " ++ langCode ++ ".")])
  end.

(** [case 'cancel'] *)
Definition on_cancel (st : State) : State * list ControllerMessage :=
  (with_cancelled true st, [cancelled_message]).

(** [figma.ui.onmessage], for the messages above. *)
Definition onmessage (msg : UIMessage) (st : State)
  : State * list ControllerMessage :=
  match msg with
  | translations_ready langCode translations =>
      on_translations_ready langCode translations st
  | translation_error langCode error_text =>
      on_translation_error langCode error_text st
  | apply_rewrites langCode translations =>
      on_apply_rewrites langCode translations st
  | cancel => on_cancel st
  | notify _ _ => (st, [])
  end.

(** The duplication loop of [case 'start-generate']: the state it
    reaches, and whether it ran to its end ([false]: the handler
    returned from inside the loop). *)
Fixpoint duplicate_loop (node : SceneNode) (languages : list Language)
    (i : nat) (st : State)
  : (State * bool) * list ControllerMessage :=
  match languages with
  | [] => ((st, true), [])
  | lang :: languages' =>
      if cancelled_flag st then ((st, false), [cancelled_message])
      else
        (* the label, a new node beside the clone, is no part of the
           state *)
        let d :=
          Duplicate.duplicateAndPlace (cloneOf i node) node (Num.of_nat i)
            lang (settings st) (originalEntries st) in
        let '(clone, mirror_events) :=
          if isRTL lang && autoRTL (settings st)
             && mirrorLayout (settings st)
          then
            let '(mirrored, clone') :=
              Apply.mirrorAutoLayout reorders (Duplicate.clone d) in
            (clone',
             if mirrored then []
             else [progress (code lang) (l_name lang) duplicating
                     (Some "Mirroring skipped (layout not compatible)")
                     None])
          else (Duplicate.clone d, []) in
        let st' :=
          with_run
            (JsMap.set (code lang)
               (Duplicate.mkDuplicated clone (Duplicate.textNodeMap d))
               (cloneMap st))
            (qaReports st) (pendingCount st) st in
        let '(res, events) := duplicate_loop node languages' (S i) st' in
        (res,
         (progress (code lang) (l_name lang) duplicating None None
            :: mirror_events ++ events)%list)
  end.

(** The loop of [case 'start-generate'] that asks the UI for the
    translations; the flag tells whether it ran to its end. *)
Fixpoint request_loop (languages : list Language) (st : State)
  : bool * list ControllerMessage :=
  match languages with
  | [] => (true, [])
  | lang :: languages' =>
      if cancelled_flag st then (false, [cancelled_message])
      else
        let '(finished, events) := request_loop languages' st in
        (finished,
         progress (code lang) (l_name lang) translating None None
           :: request_translation (code lang) (l_name lang) (isRTL lang)
                (originalEntries st) (settings st)
           :: events)
  end.

(** [case 'start-generate'] from the duplication loop on, for the
    selected [node]. *)
Definition generate (node : SceneNode) (languages : list Language)
    (st : State) : State * list ControllerMessage :=
  match duplicate_loop node languages 0 st with
  | ((st1, false), events) => (st1, events)
  | ((st1, true), events) =>
      let st2 :=
        with_run (cloneMap st1) (qaReports st1)
          (Z.of_nat (length languages)) st1 in
      (st2, (events ++ snd (request_loop languages st2))%list)
  end.

End WithHost.

(** [case 'start-generate'] up to its first [await]: the flag and the
    maps of the last run are reset, and the handler returns when no
    node is selected; [selection] is what [validateSelection]
    returns. *)
Definition start_generate_begin (selection : option SceneNode)
    (incoming : PluginSettings) (st : State)
  : State * list ControllerMessage :=
  match selection with
  | None =>
      (mkState (settings st) false (originalEntries st) [] [] []
         (pendingCount st),
       [error_message "Selection lost. Select a node and rescan."])
  | Some _ =>
      (mkState incoming false (originalEntries st) [] [] []
         (pendingCount st),
       [])
  end.

End Controller.

(* ================================================================= *)
(** ** ui.ts: progress of the languages, rewrite-shorter *)

Module UI.

(** The module-level variables of the UI that the rewrite path and the
    progress messages touch.  [scanResult] holds the [textEntries] of
    the last scan. *)
Record State : Type := mkState {
  generating : bool;
  scanResult : option (list TextEntry);
  langProgressMap : gmap string LangProgress;
  translationsStore : gmap string (gmap string string);
  rewritingLangs : gset string }.

Definition with_progress (m : gmap string LangProgress) (ui : State)
  : State :=
  mkState (generating ui) (scanResult ui) m (translationsStore ui)
    (rewritingLangs ui).

Definition with_rewriting (s : gset string) (ui : State) : State :=
  mkState (generating ui) (scanResult ui) (langProgressMap ui)
    (translationsStore ui) s.

Definition with_store (m : gmap string (gmap string string)) (ui : State)
  : State :=
  mkState (generating ui) (scanResult ui) (langProgressMap ui) m
    (rewritingLangs ui).

(** [updateLangProgress]: an absent argument is [None]. *)
Definition updateLangProgress (langCode : string) (status : LangStatus)
    (detail' : option string) (qaReport' : option QAReport) (ui : State)
  : State :=
  match langProgressMap ui !! langCode with
  | None => ui
  | Some existing =>
      let p :=
        mkProgress (lp_langCode existing) (lp_langName existing) status
          (match detail' with Some d => Some d | None => detail existing end)
          (match qaReport' with
           | Some r => Some r
           | None => qaReport existing
           end) in
      with_progress (<[langCode := p]> (langProgressMap ui)) ui
  end.

(** [{ ...storedTranslations, ...translations }] *)
Definition merge (storedTranslations translations : gmap string string)
  : gmap string string :=
  translations ∪ storedTranslations.

(** The loop of [triggerRewriteShorter] that gathers the units to
    shorten. *)
Definition shorten_entries (issueIds : list string)
    (storedTranslations : gmap string string)
    (textEntries : list TextEntry) : list Translate.ShortenEntry :=
  omap (fun te =>
          if existsb (String.eqb (e_id te)) issueIds then
            match storedTranslations !! e_id te with
            | Some (String c s) =>
                Some (Translate.mkShorten (e_id te) (e_characters te)
                        (String c s))
            | _ => None
            end
          else None)
       textEntries.

(** [triggerRewriteShorter] up to its call of [shortenTranslations]:
    [None] when it returns before, else the units it sends and the
    state at the call. *)
Definition rewrite_begin (langCode : string) (ui : State)
  : option (list Translate.ShortenEntry * State) :=
  match langProgressMap ui !! langCode,
        translationsStore ui !! langCode,
        scanResult ui with
  | Some prog, Some storedTranslations, Some textEntries =>
      match qaReport prog with
      | None => None
      | Some report =>
          match issueEntryIds report with
          | [] => None
          | issueIds =>
              match shorten_entries issueIds storedTranslations
                      textEntries with
              | [] => None
              | entries =>
                  Some (entries,
                        updateLangProgress langCode applying None None
                          (with_rewriting ({[langCode]} ∪ rewritingLangs ui)
                             ui))
              end
          end
      end
  | _, _, _ => None
  end.

(** [triggerRewriteShorter] from the result of [shortenTranslations]
    on; [storedTranslations] is the set read before the call. *)
Definition rewrite_finish (langCode : string)
    (storedTranslations : gmap string string)
    (result : Translate.TranslateResult) (ui : State)
  : State * list Controller.UIMessage :=
  let failed (message : string) :=
    (updateLangProgress langCode done None None
       (with_rewriting (rewritingLangs ui ∖ {[langCode]}) ui),
     [Controller.notify message true]) in
  match Translate.t_error result, Translate.translations result with
  | Some (String c s), _ => failed (String c s)
  | _, None => failed "Rewrite failed"
  | _, Some translations =>
      let merged := merge storedTranslations translations in
      (with_store (<[langCode := merged]> (translationsStore ui)) ui,
       [Controller.apply_rewrites langCode translations])
  end.

(** [case 'language-progress'] of [handleMessage] *)
Definition on_language_progress (p : LangProgress) (ui : State) : State :=
  let isRewrite := bool_decide (lp_langCode p ∈ rewritingLangs ui) in
  if negb (generating ui) && negb isRewrite then ui
  else
    let ui1 :=
      match lp_status p with
      | done | error =>
          if isRewrite
          then with_rewriting (rewritingLangs ui ∖ {[lp_langCode p]}) ui
          else ui
      | _ => ui
      end in
    updateLangProgress (lp_langCode p) (lp_status p) (detail p)
      (qaReport p) ui1.

(** The progress messages of a list of controller messages, handled in
    order; the states after each of them. *)
Fixpoint on_progress_messages (msgs : list Controller.ControllerMessage)
    (ui : State) : list State :=
  match msgs with
  | [] => []
  | Controller.language_progress p :: msgs' =>
      let ui' := on_language_progress p ui in
      ui' :: on_progress_messages msgs' ui'
  | _ :: msgs' => on_progress_messages msgs' ui
  end.

Definition status_of (langCode : string) (ui : State) : option LangStatus :=
  lp_status <$> langProgressMap ui !! langCode.

End UI.

(* ================================================================= *)
(** ** openai.ts: the call of the chat-completions API *)

Module OpenAI.
Import Translate.

(** What the [catch] clause looks at in the value thrown. *)
Inductive Thrown : Type :=
| SyntaxError
| OtherError (message : string)
| NotAnError.

(** The body of an answer whose [ok] is set: [res.json()] gives an
    object whose [choices?.[0]?.message?.content] is a string or is
    absent, or reading the body throws. *)
Inductive Body : Type :=
| Json (content : option string)
| BodyThrows (e : Thrown).

(** What [fetch] comes to.  [text] is the body of an error answer, the
    empty string when it cannot be read. *)
Inductive FetchOutcome : Type :=
| Rejected (e : Thrown)
| HttpError (status : Z) (text : string)
| HttpOk (body : Body).

Definition failure (error : string) (status : option Z) : OpenAIResponse :=
  mkResponse false None (Some error) status.

(** The [catch] clause. *)
Definition on_catch (e : Thrown) : OpenAIResponse :=
  match e with
  | SyntaxError => failure "Failed to parse JSON from OpenAI response." None
  | OtherError message => failure message None
  | NotAnError => failure "Network error." None
  end.

Section WithHost.
(** [JSON.parse]: [None] when it throws its [SyntaxError]. *)
Variable parse : string -> option Data.
(** [text.slice(0, 200)] *)
Variable slice_0_200 : string -> string.

(** [callOpenAI], by what its [fetch] comes to. *)
Definition callOpenAI (jsonMode : bool) (outcome : FetchOutcome)
  : OpenAIResponse :=
  match outcome with
  | Rejected e => on_catch e
  | HttpError status text =>
      if (status =? 401)%Z then
        failure "Invalid API key (401)." (Some 401%Z)
      else if (status =? 429)%Z then
        failure "Rate limited (429). Wait and retry." (Some 429%Z)
      else
        failure ("OpenAI " ++ pretty status ++ ": " ++ slice_0_200 text)
          (Some status)
  | HttpOk (BodyThrows e) => on_catch e
  | HttpOk (Json content) =>
      match content with
      | None | Some EmptyString =>
          failure "Empty response from OpenAI." None
      | Some content' =>
          if negb jsonMode then
            mkResponse true
              (Some (Object {["text" := StringValue content']}))
              None None
          else
            match parse content' with
            | Some parsed => mkResponse true (Some parsed) None None
            | None => on_catch SyntaxError
            end
      end
  end.

(** [testApiKey]: a call that asks for no JSON. *)
Definition testApiKey (outcome : FetchOutcome) : OpenAIResponse :=
  callOpenAI false outcome.
End WithHost.

End OpenAI.

(* ================================================================= *)
(** ** code.ts: selection, scan, start of a run, resize *)

Module Selection.
Import Controller.

Definition sn_type (n : SceneNode) : NodeType :=
  match n with TextLeaf _ => TEXT | Node p _ => p_type p end.

Definition sn_id (n : SceneNode) : string :=
  match n with TextLeaf t => tn_id t | Node p _ => p_id p end.

(** [validateSelection], [sel] being [figma.currentPage.selection]. *)
Definition validateSelection (sel : list SceneNode) : option SceneNode :=
  match sel with
  | [node] =>
      match sn_type node with
      | INSTANCE | FRAME | GROUP | SECTION | COMPONENT => Some node
      | _ => None
      end
  | _ => None
  end.

Record ScanResult : Type := mkScanResult {
  nodeName : string;
  nodeType : NodeType;
  nodeId : string;
  sr_totalTextNodes : nat;
  translatableNodes : nat;
  sr_skippedEmpty : nat;
  sr_skippedLocked : nat;
  textEntries : list TextEntry }.

Inductive ScanMessage : Type :=
| scan_error (error : string)
| scan_result (result : ScanResult).

Definition with_entries (entries : list TextEntry) (st : State) : State :=
  mkState (settings st) (cancelled_flag st) entries (cloneMap st)
    (languageMap st) (qaReports st) (pendingCount st).

(** [performScan]: what it returns, the state after, what it sends. *)
Definition performScan (sel : list SceneNode) (st : State)
  : bool * State * list ScanMessage :=
  match validateSelection sel with
  | None =>
      (false, st,
       [scan_error "Select one frame, instance, group, or section."])
  | Some node =>
      let s := Duplicate.scanTextNodes node in
      (true, with_entries (Duplicate.entries s) st,
       [scan_result
          (mkScanResult (Duplicate.sn_name node) (sn_type node)
             (sn_id node) (Duplicate.totalTextNodes s)
             (length (Duplicate.entries s)) (Duplicate.skippedEmpty s)
             (Duplicate.skippedLocked s) (Duplicate.entries s))])
  end.

(** [for (const lang of languages) languageMap.set(lang.code, lang)] *)
Definition store_languages (languages : list Language)
    (m : JsMap.t Language) : JsMap.t Language :=
  fold_left (fun m' lang => JsMap.set (code lang) lang m') languages m.

Definition with_languages (m : JsMap.t Language) (st : State) : State :=
  mkState (settings st) (cancelled_flag st) (originalEntries st)
    (cloneMap st) m (qaReports st) (pendingCount st).

Section WithHost.
Variable reorders : SceneNode -> bool.
Variable cloneOf : nat -> SceneNode -> SceneNode.

(** [case 'start-generate'], no other message being handled while it
    waits for the settings to be saved and the label font to load. *)
Definition start_generate (sel : list SceneNode)
    (languages : list Language) (incoming : PluginSettings) (st : State)
  : State * list ControllerMessage :=
  let '(st0, events0) :=
    start_generate_begin (validateSelection sel) incoming st in
  match validateSelection sel with
  | None => (st0, events0)
  | Some node =>
      let st1 :=
        with_languages (store_languages languages (languageMap st0))
          st0 in
      match originalEntries st1 with
      | [] =>
          (st1,
           [error_message "No translatable text found. Rescan first."])
      | _ :: _ => generate reorders cloneOf node languages st1
      end
  end.
End WithHost.

(** [Math.min(a, b)] *)
Definition Math_min (a b : num) : num :=
  match a, b with
  | Num.NaN, _ | _, Num.NaN => Num.NaN
  | _, _ => if (a <? b)%num then a else b
  end.

(** [case 'resize']: the size handed to [figma.ui.resize]. *)
Definition resize (width height : num) : num * num :=
  (Num.max (Num.of_Z 300) (Math_min (Num.of_Z 800) width),
   Num.max (Num.of_Z 400) (Math_min (Num.of_Z 1200) height)).

End Selection.

(* ================================================================= *)
(** ** lang.ts: the languages and the presets *)

Module Lang.

Definition LANGUAGES : list Language :=
  [
   mkLanguage "en" "English" "English" false;
   mkLanguage "es" "Spanish" "Español" false;
   mkLanguage "fr" "French" "Français" false;
   mkLanguage "de" "German" "Deutsch" false;
   mkLanguage "it" "Italian" "Italiano" false;
   mkLanguage "pt" "Portuguese" "Português" false;
   mkLanguage "pt-BR" "Portuguese (Brazil)" "Português (Brasil)" false;
   mkLanguage "nl" "Dutch" "Nederlands" false;
   mkLanguage "ru" "Russian" "Русский" false;
   mkLanguage "zh-CN" "Chinese (Simplified)" "简体中文" false;
   mkLanguage "zh-TW" "Chinese (Traditional)" "繁體中文" false;
   mkLanguage "ja" "Japanese" "日本語" false;
   mkLanguage "ko" "Korean" "한국어" false;
   mkLanguage "bg" "Bulgarian" "Български" false;
   mkLanguage "cs" "Czech" "Čeština" false;
   mkLanguage "da" "Danish" "Dansk" false;
   mkLanguage "el" "Greek" "Ελληνικά" false;
   mkLanguage "et" "Estonian" "Eesti" false;
   mkLanguage "fi" "Finnish" "Suomi" false;
   mkLanguage "ga" "Irish" "Gaeilge" false;
   mkLanguage "hr" "Croatian" "Hrvatski" false;
   mkLanguage "hu" "Hungarian" "Magyar" false;
   mkLanguage "lt" "Lithuanian" "Lietuvių" false;
   mkLanguage "lv" "Latvian" "Latviešu" false;
   mkLanguage "mt" "Maltese" "Malti" false;
   mkLanguage "pl" "Polish" "Polski" false;
   mkLanguage "ro" "Romanian" "Română" false;
   mkLanguage "sk" "Slovak" "Slovenčina" false;
   mkLanguage "sl" "Slovenian" "Slovenščina" false;
   mkLanguage "sv" "Swedish" "Svenska" false;
   mkLanguage "ar" "Arabic" "العربية" true;
   mkLanguage "he" "Hebrew" "עברית" true;
   mkLanguage "fa" "Persian" "فارسی" true;
   mkLanguage "ur" "Urdu" "اردو" true;
   mkLanguage "yi" "Yiddish" "ייִדיש" true;
   mkLanguage "ps" "Pashto" "پښتو" true;
   mkLanguage "ku" "Kurdish (Sorani)" "کوردی" true;
   mkLanguage "hi" "Hindi" "हिन्दी" false;
   mkLanguage "bn" "Bengali" "বাংলা" false;
   mkLanguage "ta" "Tamil" "தமிழ்" false;
   mkLanguage "te" "Telugu" "తెలుగు" false;
   mkLanguage "th" "Thai" "ไทย" false;
   mkLanguage "vi" "Vietnamese" "Tiếng Việt" false;
   mkLanguage "id" "Indonesian" "Bahasa Indonesia" false;
   mkLanguage "ms" "Malay" "Bahasa Melayu" false;
   mkLanguage "tr" "Turkish" "Türkçe" false;
   mkLanguage "uk" "Ukrainian" "Українська" false;
   mkLanguage "no" "Norwegian" "Norsk" false;
   mkLanguage "sw" "Swahili" "Kiswahili" false;
   mkLanguage "tl" "Filipino" "Filipino" false;
   mkLanguage "ca" "Catalan" "Català" false;
   mkLanguage "af" "Afrikaans" "Afrikaans" false
  ].

Definition getLanguageByCode (c : string) : option Language :=
  List.find (fun l => String.eqb (code l) c) LANGUAGES.

Inductive LanguagePreset : Type := common | eu | rtl | all.

Definition PRESETS (preset : LanguagePreset) : list string :=
  match preset with
  | common => ["es"; "fr"; "de"; "it"; "pt"; "nl"; "ru"; "zh-CN"; "ja"; "ko"]
  | eu =>
      ["bg"; "cs"; "da"; "de"; "el"; "es"; "et"; "fi"; "fr"; "ga";
       "hr"; "hu"; "it"; "lt"; "lv"; "mt"; "nl"; "pl"; "pt"; "ro";
       "sk"; "sl"; "sv"]
  | rtl => ["ar"; "he"; "fa"; "ur"]
  | all =>
      map code
        (List.filter (fun l => negb (String.eqb (code l) "en")) LANGUAGES)
  end.

End Lang.

(* ================================================================= *)
(** ** ui.ts: the selection of languages, a run and its queue *)

Module UIRun.
Import UI.

(** [selectedLangCodes], a [Set<string>]: its elements in insertion
    order. *)
Definition has (c : string) (s : list string) : bool :=
  existsb (String.eqb c) s.
Definition add (c : string) (s : list string) : list string :=
  if has c s then s else (s ++ [c])%list.
Definition delete (c : string) (s : list string) : list string :=
  List.filter (fun x => negb (String.eqb x c)) s.

(** [applyPreset]; [confirmed] is the answer of [confirm], when it is
    asked. *)
Definition applyPreset (preset : Lang.LanguagePreset) (confirmed : bool)
    (selectedLangCodes : list string) : list string :=
  let codes := Lang.PRESETS preset in
  let declined :=
    match preset with
    | Lang.all => (8 <? length codes)%nat && negb confirmed
    | _ => false
    end in
  if declined then selectedLangCodes
  else
    let allSelected := forallb (fun c => has c selectedLangCodes) codes in
    fold_left (fun s c => if allSelected then delete c s else add c s)
      codes selectedLangCodes.

(** An element of [translationQueue]. *)
Record Request : Type := mkRequest {
  r_langCode : string;
  r_langName : string;
  r_isRTL : bool;
  r_textEntries : list TextEntry;
  r_settings : PluginSettings }.

(** The variables of the UI a run touches. *)
Record RunState : Type := mkRun {
  ui : UI.State;
  translationQueue : list Request;
  activeTranslations : Z }.

Definition with_generating (flag : bool) (s : UI.State) : UI.State :=
  mkState flag (scanResult s) (langProgressMap s) (translationsStore s)
    (rewritingLangs s).

(** What a handler does to the outside: it starts a translation (the
    call of [translateBatch] in [processTranslation]) or sends a message
    to the controller. *)
Inductive Out : Type :=
| starts (req : Request)
| sends (msg : Controller.UIMessage)
| sends_start_generate (languages : list Language)
| shows_error (error : string).

(** The loop of [processQueue]. *)
Fixpoint processQueue_loop (queue : list Request) (active : Z)
    (s : UI.State) : list Out * RunState :=
  match queue with
  | [] => ([], mkRun s [] active)
  | req :: queue' =>
      if generating s && (active <? 2)%Z then
        let s1 := updateLangProgress (r_langCode req) translating None None
                    s in
        let '(out, st) := processQueue_loop queue' (active + 1)%Z s1 in
        (starts req :: out, st)
      else ([], mkRun s queue active)
  end.

Definition processQueue (st : RunState) : list Out * RunState :=
  processQueue_loop (translationQueue st) (activeTranslations st) (ui st).

Definition enqueueTranslation (req : Request) (st : RunState)
  : list Out * RunState :=
  if negb (generating (ui st)) then ([], st)
  else
    processQueue
      (mkRun (ui st) (translationQueue st ++ [req])%list
         (activeTranslations st)).

(** [processTranslation] from the result of [translateBatch] on. *)
Definition resumed (req : Request) (result : Translate.TranslateResult)
    (st : RunState) : list Out * RunState :=
  if negb (generating (ui st)) then ([], st)
  else
    match Translate.translations result with
    | Some translations =>
        ([sends (Controller.translations_ready (r_langCode req)
                   translations)],
         mkRun (with_store (<[r_langCode req := translations]>
                              (translationsStore (ui st))) (ui st))
           (translationQueue st) (activeTranslations st))
    | None =>
        ([sends (Controller.translation_error (r_langCode req)
                   (Translate.or_else (Translate.t_error result)
                      "Unknown error"))],
         st)
    end.

(** The [finally] callback of [processQueue]. *)
Definition settled (st : RunState) : list Out * RunState :=
  let st1 :=
    mkRun (ui st) (translationQueue st) (activeTranslations st - 1)%Z in
  if generating (ui st1) then processQueue st1 else ([], st1).

Definition mark_cancelled (prog : LangProgress) : LangProgress :=
  match lp_status prog with
  | done | error => prog
  | _ =>
      mkProgress (lp_langCode prog) (lp_langName prog) cancelled
        (detail prog) (qaReport prog)
  end.

(** [cancelGeneration]; aborting the signal acts on the calls in
    flight, not on these variables. *)
Definition cancelGeneration (st : RunState) : list Out * RunState :=
  if negb (generating (ui st)) then ([], st)
  else
    ([sends Controller.cancel],
     mkRun
       (mkState false (scanResult (ui st))
          (mark_cancelled <$> langProgressMap (ui st))
          (translationsStore (ui st)) (rewritingLangs (ui st)))
       [] (activeTranslations st)).

(** [startGeneration]; [translatableNodes] is the count of the stored
    scan result, [apiKey] the key of the settings, [confirmed] the
    answer of [confirm], when it is asked. *)
Definition startGeneration (translatableNodes : nat) (apiKey : string)
    (confirmed : bool) (selectedLangCodes : list string) (st : RunState)
  : list Out * RunState :=
  if generating (ui st) then ([], st)
  else
    match scanResult (ui st), translatableNodes with
    | None, _ | _, O =>
        ([shows_error "No translatable text. Scan first."], st)
    | Some _, S _ =>
        match selectedLangCodes, apiKey with
        | [], _ => ([shows_error "Select at least one language."], st)
        | _, EmptyString =>
            ([shows_error "Set your OpenAI API key in Settings."], st)
        | _, _ =>
            if (8 <? length selectedLangCodes)%nat && negb confirmed
            then ([], st)
            else
              let languages := omap Lang.getLanguageByCode selectedLangCodes in
              let progress :=
                fold_left
                  (fun (m : gmap string LangProgress) lang =>
                     <[code lang :=
                         mkProgress (code lang) (l_name lang) pending None
                           None]> m)
                  languages ∅ in
              ([sends_start_generate languages],
               mkRun
                 (mkState true (scanResult (ui st)) progress ∅
                    (rewritingLangs (ui st)))
                 [] 0)
        end
    end.

(** [case 'all-complete'] of [handleMessage]: the notification sent. *)
Definition is_status (s : Severity) (r : QAReport) : bool :=
  match status r, s with
  | red, red | amber, amber | green, green => true
  | _, _ => false
  end.

Definition completion_notice (reports : list QAReport)
  : Controller.UIMessage :=
  let reds := length (List.filter (is_status red) reports) in
  let ambers := length (List.filter (is_status amber) reports) in
  if (0 <? reds)%nat then
    Controller.notify ("Done. " ++ pretty reds ++ " language(s) have issues.")
      true
  else if (0 <? ambers)%nat then
    Controller.notify
      ("Done. " ++ pretty ambers ++ " language(s) have warnings.") false
  else Controller.notify "Done. All languages passed QA." false.

(** [handleMessage], for the messages that bear on a run. *)
Definition handleMessage (msg : Controller.ControllerMessage)
    (st : RunState) : list Out * RunState :=
  match msg with
  | Controller.request_translation langCode langName isRTL textEntries
      settings =>
      enqueueTranslation
        (mkRequest langCode langName isRTL textEntries settings) st
  | Controller.language_progress p =>
      ([], mkRun (on_language_progress p (ui st)) (translationQueue st)
             (activeTranslations st))
  | Controller.all_complete reports =>
      ([sends (completion_notice reports)],
       mkRun (with_generating false (ui st)) (translationQueue st)
         (activeTranslations st))
  | Controller.error_message error_text =>
      ([shows_error error_text],
       mkRun (with_generating false (ui st)) (translationQueue st)
         (activeTranslations st))
  | Controller.cancelled_message =>
      ([], mkRun (with_generating false (ui st)) (translationQueue st)
             (activeTranslations st))
  end.

(** *** The summary of the issues of a language *)

Definition is_type (ty : IssueType) (i : QAIssue) : bool :=
  match i_type i, ty with
  | text_overflow, text_overflow
  | container_overflow, container_overflow
  | font_load, font_load => true
  | _, _ => false
  end.

Definition is_severity (s : Severity) (i : QAIssue) : bool :=
  match severity i, s with
  | red, red | amber, amber | green, green => true
  | _, _ => false
  end.

Record IssueCounts : Type := mkCounts {
  overflows : nat;
  lineWraps : nat;
  containerBreaks : nat;
  fontErrors : nat }.

Definition issue_counts (nonGreen : list QAIssue) : IssueCounts :=
  mkCounts
    (length (List.filter
               (fun i => is_type text_overflow i && is_severity red i)
               nonGreen))
    (length (List.filter
               (fun i => is_type text_overflow i && is_severity amber i)
               nonGreen))
    (length (List.filter (is_type container_overflow) nonGreen))
    (length (List.filter (is_type font_load) nonGreen)).

(** [parts.join(', ')] *)
Fixpoint join (parts : list string) : string :=
  match parts with
  | [] => ""
  | [part] => part
  | part :: parts' => part ++ ", " ++ join parts'
  end.

(** [if (n > 0) parts.push(text)] *)
Definition push_if (n : nat) (text : string) (parts : list string)
  : list string :=
  if (0 <? n)%nat then (parts ++ [text])%list else parts.

Definition plural (n : nat) : string :=
  if (1 <? n)%nat then "s" else "".

Definition summary_parts (c : IssueCounts) : list string :=
  let parts := push_if (overflows c) (pretty (overflows c) ++ " overflow")
                 [] in
  let parts := push_if (lineWraps c)
                 (pretty (lineWraps c) ++ " new line"
                    ++ plural (lineWraps c)) parts in
  let parts := push_if (containerBreaks c)
                 (pretty (containerBreaks c) ++ " breaks container")
                 parts in
  push_if (fontErrors c)
    (pretty (fontErrors c) ++ " missing font" ++ plural (fontErrors c))
    parts.

Definition hasLayoutIssues (c : IssueCounts) : bool :=
  (0 <? overflows c)%nat || (0 <? lineWraps c)%nat
  || (0 <? containerBreaks c)%nat.

(** The double quote of the markup. *)
Definition dq : string := String (ascii_of_N 34) EmptyString.

(** [renderIssuesSummary] *)
Definition renderIssuesSummary (report : QAReport) (langCode : string)
    (rewriting : gset string) : string :=
  let nonGreen :=
    List.filter (fun i => negb (is_severity green i)) (issues report) in
  match nonGreen with
  | [] => ""
  | _ :: _ =>
      let c := issue_counts nonGreen in
      let summary := join (summary_parts c) in
      let isRewriting := bool_decide (langCode ∈ rewriting) in
      "<div class=" ++ dq ++ "issues-inline" ++ dq ++ ">"
      ++ "<span class=" ++ dq ++ "issues-summary" ++ dq ++ ">" ++ summary
      ++ "</span>"
      ++ (if hasLayoutIssues c && negb isRewriting
          then " <button class=" ++ dq ++ "rewrite-btn" ++ dq
               ++ " data-lang=" ++ dq ++ langCode ++ dq
               ++ ">Rewrite shorter</button>"
          else "")
      ++ (if isRewriting
          then " <span class=" ++ dq ++ "text-muted text-xs" ++ dq
               ++ ">Rewriting…</span>"
          else "")
      ++ "</div>"
  end.

End UIRun.

(* ================================================================= *)
(** * Properties *)

(** ** Numbers *)

Module NumFacts.






End NumFacts.

(** ** Placement of the clones *)

Module PlacementFacts.
Import Duplicate.








End PlacementFacts.
(** ** Rounding to binary64 *)

Module Binary64Facts.
Import Num.
#[local] Open Scope Q_scope.

(** *** Powers of two *)

Lemma pow2_pos (e : Z) : 0 < pow2 e.
Proof. apply Qpower_0_lt. reflexivity. Qed.

Lemma pow2_add (a b : Z) : pow2 (a + b) == pow2 a * pow2 b.
Proof. apply Qpower_plus. discriminate. Qed.

Lemma pow2_le (a b : Z) : (a <= b)%Z -> pow2 a <= pow2 b.
Proof. intros H. apply Qpower_le_compat_l; [exact H|discriminate]. Qed.

Lemma pow2_lt (a b : Z) : (a < b)%Z -> pow2 a < pow2 b.
Proof. intros H. apply Qpower_lt_compat_l; [exact H|reflexivity]. Qed.

Lemma pow2_lt_inv (a b : Z) : pow2 a < pow2 b -> (a < b)%Z.
Proof.
  intros H. apply (Qpower_lt_compat_l_inv 2); [exact H|reflexivity].
Qed.

Lemma pow2_Z (a : Z) : (0 <= a)%Z -> pow2 a == inject_Z (2 ^ a).
Proof.
  intros H. unfold pow2. rewrite Zpower_Qpower by exact H. reflexivity.
Qed.

Lemma pow2_cancel (e : Z) : pow2 (- e) * pow2 e == 1.
Proof.
  rewrite <- pow2_add. replace (- e + e)%Z with 0%Z by lia. reflexivity.
Qed.

(** [ilog2 q] is the integer [k] with [2^k <= q < 2^(k+1)]. *)
Lemma ilog2_spec (q : Q) :
  0 < q -> pow2 (ilog2 q) <= q /\ q < pow2 (ilog2 q + 1).
Proof.
  intros Hq. unfold ilog2.
  destruct q as [n d]. cbn [Qnum Qden].
  assert (Hn : (0 < n)%Z).
  { unfold Qlt in Hq. cbn in Hq. lia. }
  set (a := Z.log2 n). set (b := Z.log2 (Z.pos d)).
  assert (Ha : (2 ^ a <= n < 2 ^ (a + 1))%Z).
  { replace (a + 1)%Z with (Z.succ a) by lia. apply Z.log2_spec. exact Hn. }
  assert (Hb : (2 ^ b <= Z.pos d < 2 ^ (b + 1))%Z).
  { replace (b + 1)%Z with (Z.succ b) by lia. apply Z.log2_spec. lia. }
  assert (Ha0 : (0 <= a)%Z) by apply Z.log2_nonneg.
  assert (Hb0 : (0 <= b)%Z) by apply Z.log2_nonneg.
  assert (Hd : n # d == inject_Z n / inject_Z (Z.pos d)) by apply Qmake_Qdiv.
  assert (Hdpos : 0 < inject_Z (Z.pos d)) by reflexivity.
  (* 2^(a-b-1) < n/d < 2^(a-b+1) *)
  assert (Hup : n # d < pow2 (a - b + 1)).
  { rewrite Hd. apply Qlt_shift_div_r; [exact Hdpos|].
    apply Qlt_le_trans with (inject_Z (2 ^ (a + 1))).
    - rewrite <- Zlt_Qlt. lia.
    - replace (a - b + 1)%Z with ((a + 1) + - b)%Z by lia.
      rewrite pow2_add, <- (pow2_Z (a + 1)) by lia.
      rewrite <- (Qmult_1_r (pow2 (a + 1))) at 1.
      rewrite <- Qmult_assoc. apply Qmult_le_l; [apply pow2_pos|].
      rewrite <- (pow2_cancel b).
      apply Qmult_le_l; [apply pow2_pos|].
      rewrite pow2_Z by lia. rewrite <- Zle_Qle. lia. }
  assert (Hlo : pow2 (a - b - 1) <= n # d).
  { rewrite Hd. apply Qle_shift_div_l; [exact Hdpos|].
    apply Qle_trans with (inject_Z (2 ^ a)).
    - replace (a - b - 1)%Z with (a + - (b + 1))%Z by lia.
      rewrite pow2_add, <- (pow2_Z a) by lia.
      rewrite <- (Qmult_1_r (pow2 a)) at 2.
      rewrite <- Qmult_assoc. apply Qmult_le_l; [apply pow2_pos|].
      rewrite <- (pow2_cancel (b + 1)).
      apply Qmult_le_l; [apply pow2_pos|].
      rewrite pow2_Z by lia. rewrite <- Zle_Qle. lia.
    - rewrite <- Zle_Qle. lia. }
  destruct (Qle_bool (pow2 (a - b)) (n # d)) eqn:E.
  - apply Qle_bool_iff in E. split; assumption.
  - split; [exact Hlo|].
    replace (a - b - 1 + 1)%Z with (a - b)%Z by lia.
    apply Qnot_le_lt. intros H. apply Qle_bool_iff in H. congruence.
Qed.

Lemma ilog2_lt (q : Q) (K : Z) : 0 < q -> q < pow2 K -> (ilog2 q < K)%Z.
Proof.
  intros Hq H. apply pow2_lt_inv.
  apply Qle_lt_trans with q; [apply ilog2_spec; exact Hq|exact H].
Qed.

Lemma ilog2_ge (q : Q) (K : Z) : 0 < q -> pow2 K <= q -> (K <= ilog2 q)%Z.
Proof.
  intros Hq H.
  assert (K < ilog2 q + 1)%Z; [|lia].
  apply pow2_lt_inv.
  apply Qle_lt_trans with q; [exact H|apply ilog2_spec; exact Hq].
Qed.

Lemma ilog2_mono (p q : Q) : 0 < p -> p <= q -> (ilog2 p <= ilog2 q)%Z.
Proof.
  intros Hp H. apply ilog2_ge.
  - apply Qlt_le_trans with p; assumption.
  - apply Qle_trans with p; [apply ilog2_spec; exact Hp|exact H].
Qed.

(** *** Rounding to the nearest integer *)

Lemma rne_bounds (q : Q) : (Qfloor q <= rne q <= Qfloor q + 1)%Z.
Proof.
  unfold rne. destruct (q - inject_Z (Qfloor q) ?= 1 # 2);
    [destruct (Z.even (Qfloor q))|..]; lia.
Qed.

Lemma rne_Z (z : Z) : rne (inject_Z z) = z.
Proof.
  unfold rne. rewrite Qfloor_Z.
  assert (H : inject_Z z - inject_Z z == 0) by ring.
  rewrite H. reflexivity.
Qed.

Lemma rne_comp (p q : Q) : p == q -> rne p = rne q.
Proof.
  intros H. unfold rne. rewrite (Qfloor_comp _ _ H).
  assert (E : p - inject_Z (Qfloor q) == q - inject_Z (Qfloor q))
    by (rewrite H; reflexivity).
  rewrite (Qcompare_comp _ _ E _ _ (Qeq_refl (1 # 2))). reflexivity.
Qed.

Lemma rne_mono (p q : Q) : p <= q -> (rne p <= rne q)%Z.
Proof.
  intros H.
  pose proof (Qfloor_resp_le _ _ H) as Hf.
  pose proof (rne_bounds p) as Bp. pose proof (rne_bounds q) as Bq.
  destruct (Z.eq_dec (Qfloor p) (Qfloor q)) as [E|NE]; [|lia].
  unfold rne in *. rewrite E in *.
  assert (Hr : p - inject_Z (Qfloor q) <= q - inject_Z (Qfloor q)).
  { apply Qplus_le_l. exact H. }
  destruct (p - inject_Z (Qfloor q) ?= 1 # 2) eqn:Cp;
    destruct (q - inject_Z (Qfloor q) ?= 1 # 2) eqn:Cq;
    try (destruct (Z.even (Qfloor q))); try lia; exfalso.
  - apply Qeq_alt in Cp. rewrite <- Qlt_alt in Cq. rewrite Cp in Hr.
    apply (Qlt_irrefl (1 # 2)). eapply Qle_lt_trans; eassumption.
  - rewrite <- Qgt_alt in Cp. apply Qeq_alt in Cq. rewrite Cq in Hr.
    apply (Qlt_irrefl (1 # 2)). eapply Qlt_le_trans; eassumption.
  - rewrite <- Qgt_alt in Cp. rewrite <- Qlt_alt in Cq.
    apply (Qlt_irrefl (1 # 2)).
    eapply Qlt_trans; [exact Cp|]. eapply Qle_lt_trans; eassumption.
  - rewrite <- Qgt_alt in Cp. rewrite <- Qlt_alt in Cq.
    apply (Qlt_irrefl (1 # 2)).
    eapply Qlt_trans; [exact Cp|]. eapply Qle_lt_trans; eassumption.
Qed.

(** *** Rounding to the multiples of a power of two *)

(** [x] rounded to the nearest multiple of [2^e]. *)
Definition rv (e : Z) (x : Q) : Q :=
  inject_Z (rne (x * pow2 (- e))) * pow2 e.

(** [x > 0] rounded at the spacing binary64 has around it: the value
    of [round_pos x], short of the overflow. *)
Definition fv (x : Q) : Q := rv (ulp_exp x) x.

Lemma scale_back (e : Z) (z : Z) :
  inject_Z z * pow2 e * pow2 (- e) == inject_Z z.
Proof.
  rewrite <- Qmult_assoc, (Qmult_comm (pow2 e)), pow2_cancel. ring.
Qed.

Lemma rv_le_grid (e : Z) (x : Q) (z : Z) :
  x <= inject_Z z * pow2 e -> rv e x <= inject_Z z * pow2 e.
Proof.
  intros H. unfold rv. apply Qmult_le_compat_r; [|apply Qlt_le_weak, pow2_pos].
  rewrite <- Zle_Qle. rewrite <- (rne_Z z). apply rne_mono.
  rewrite <- (scale_back e z).
  apply Qmult_le_compat_r; [exact H|apply Qlt_le_weak, pow2_pos].
Qed.

Lemma rv_ge_grid (e : Z) (x : Q) (z : Z) :
  inject_Z z * pow2 e <= x -> inject_Z z * pow2 e <= rv e x.
Proof.
  intros H. unfold rv. apply Qmult_le_compat_r; [|apply Qlt_le_weak, pow2_pos].
  rewrite <- Zle_Qle. rewrite <- (rne_Z z) at 1. apply rne_mono.
  rewrite <- (scale_back e z).
  apply Qmult_le_compat_r; [exact H|apply Qlt_le_weak, pow2_pos].
Qed.

Lemma rv_mono (e : Z) (x y : Q) : x <= y -> rv e x <= rv e y.
Proof.
  intros H. unfold rv. apply Qmult_le_compat_r; [|apply Qlt_le_weak, pow2_pos].
  rewrite <- Zle_Qle. apply rne_mono.
  apply Qmult_le_compat_r; [exact H|apply Qlt_le_weak, pow2_pos].
Qed.

Lemma rv_grid (e : Z) (x : Q) (z : Z) :
  x == inject_Z z * pow2 e -> rv e x == x.
Proof.
  intros H. unfold rv.
  rewrite (rne_comp (x * pow2 (- e)) (inject_Z z)).
  - rewrite rne_Z. symmetry. exact H.
  - rewrite H. apply scale_back.
Qed.

(** A multiple of [2^e] is a multiple of [2^e'] for [e' <= e]. *)
Lemma grid_finer (e e' : Z) (z : Z) :
  (e' <= e)%Z ->
  inject_Z z * pow2 e == inject_Z (z * 2 ^ (e - e')) * pow2 e'.
Proof.
  intros H. rewrite inject_Z_mult, <- pow2_Z by lia.
  rewrite <- Qmult_assoc, <- pow2_add.
  replace (e - e' + e')%Z with e by lia. reflexivity.
Qed.

Lemma pow2_on_grid (K e : Z) :
  (e <= K)%Z -> pow2 K == inject_Z (2 ^ (K - e)) * pow2 e.
Proof.
  intros H. rewrite <- pow2_Z, <- pow2_add by lia.
  replace (K - e + e)%Z with K by lia. reflexivity.
Qed.

Lemma ulp_exp_ge (x : Q) : (-1074 <= ulp_exp x)%Z.
Proof. unfold ulp_exp. lia. Qed.

Lemma rne_nonneg (q : Q) : 0 <= q -> (0 <= rne q)%Z.
Proof.
  intros H. rewrite <- (rne_Z 0). apply rne_mono. exact H.
Qed.

Lemma fv_nonneg (x : Q) : 0 < x -> 0 <= fv x.
Proof.
  intros H. unfold fv, rv.
  apply Qmult_le_0_compat; [|apply Qlt_le_weak, pow2_pos].
  change 0 with (inject_Z 0). rewrite <- Zle_Qle. apply rne_nonneg.
  apply Qmult_le_0_compat; [apply Qlt_le_weak, H|apply Qlt_le_weak, pow2_pos].
Qed.

(** Rounding is monotone. *)
Lemma fv_mono (x y : Q) : 0 < x -> x <= y -> fv x <= fv y.
Proof.
  intros Hx Hxy.
  assert (Hy : 0 < y) by (eapply Qlt_le_trans; eassumption).
  pose proof (ilog2_mono x y Hx Hxy) as Hk.
  unfold fv.
  destruct (Z.eq_dec (ulp_exp x) (ulp_exp y)) as [E|NE].
  - rewrite E. apply rv_mono. exact Hxy.
  - assert (Hlt : (ilog2 x < ilog2 y)%Z) by (unfold ulp_exp in NE; lia).
    assert (Hey : ulp_exp y = (ilog2 y - 52)%Z) by (unfold ulp_exp in *; lia).
    assert (Hex : (ulp_exp x <= ilog2 y)%Z) by (unfold ulp_exp in *; lia).
    set (P := pow2 (ilog2 y)).
    assert (HxP : x <= P).
    { apply Qlt_le_weak. eapply Qlt_le_trans.
      - apply (ilog2_spec x Hx).
      - apply pow2_le. lia. }
    assert (HPy : P <= y) by apply (ilog2_spec y Hy).
    apply Qle_trans with P.
    + unfold P. rewrite (pow2_on_grid (ilog2 y) (ulp_exp x)) by exact Hex.
      apply rv_le_grid.
      rewrite <- (pow2_on_grid (ilog2 y) (ulp_exp x)) by exact Hex. exact HxP.
    + assert (Hg : (ulp_exp y <= ilog2 y)%Z) by lia.
      unfold P. rewrite (pow2_on_grid (ilog2 y) (ulp_exp y)) by exact Hg.
      apply rv_ge_grid.
      rewrite <- (pow2_on_grid (ilog2 y) (ulp_exp y)) by exact Hg. exact HPy.
Qed.

(** A rounded value is left as it is by rounding. *)
Lemma fv_fix (x : Q) : 0 < x -> 0 < fv x -> fv (fv x) == fv x.
Proof.
  intros Hx Hv.
  set (e := ulp_exp x). set (k := ilog2 x).
  pose proof (ulp_exp_ge x) as He. fold e in He.
  set (K := Z.max (k + 1) e).
  assert (HeK : (e <= K)%Z) by lia.
  assert (HvK : fv x <= pow2 K).
  { unfold fv. fold e. rewrite (pow2_on_grid K e HeK). apply rv_le_grid.
    rewrite <- (pow2_on_grid K e HeK). apply Qlt_le_weak.
    eapply Qlt_le_trans; [apply (ilog2_spec x Hx)|]. apply pow2_le.
    fold k. lia. }
  assert (Hgrid : exists z, fv x == inject_Z z * pow2 (ulp_exp (fv x))).
  { destruct (Qlt_le_dec (fv x) (pow2 K)) as [Hlt|Hge].
    - pose proof (ilog2_lt (fv x) K Hv Hlt) as Hl.
      assert (Hle : (ulp_exp (fv x) <= e)%Z).
      { unfold ulp_exp at 1. unfold e, ulp_exp in *. fold k in He, K, HeK |- *.
        lia. }
      eexists. unfold fv at 1, rv. fold e. apply grid_finer. exact Hle.
    - assert (Heq : fv x == pow2 K) by (apply Qle_antisym; assumption).
      assert (Hl : ilog2 (fv x) = K).
      { apply Z.le_antisymm.
        - assert (ilog2 (fv x) < K + 1)%Z; [|lia].
          apply ilog2_lt; [exact Hv|]. rewrite Heq. apply pow2_lt. lia.
        - apply ilog2_ge; [exact Hv|]. rewrite Heq. apply Qle_refl. }
      assert (Hle : (ulp_exp (fv x) <= K)%Z) by (unfold ulp_exp; lia).
      eexists. rewrite Heq at 1. apply pow2_on_grid. exact Hle. }
  destruct Hgrid as [z Hz]. unfold fv at 1. eapply rv_grid. exact Hz.
Qed.

Lemma ilog2_comp (p q : Q) : 0 < p -> p == q -> ilog2 p = ilog2 q.
Proof.
  intros Hp H.
  assert (Hq : 0 < q) by (rewrite <- H; exact Hp).
  apply Z.le_antisymm; apply ilog2_mono; try assumption;
    rewrite H; apply Qle_refl.
Qed.

Lemma fv_comp (p q : Q) : 0 < p -> p == q -> fv p == fv q.
Proof.
  intros Hp H. unfold fv, ulp_exp. rewrite (ilog2_comp p q Hp H).
  unfold rv.
  rewrite (rne_comp (p * pow2 (- Z.max (-1074) (ilog2 q - 52)))
             (q * pow2 (- Z.max (-1074) (ilog2 q - 52)))).
  - reflexivity.
  - rewrite H. reflexivity.
Qed.

(** *** Rounding to binary64 *)

(** The order of the numbers, NaN being below and above nothing. *)
Definition nle (a b : num) : Prop :=
  match a, b with
  | NaN, _ | _, NaN => False
  | Fin p, Fin q => p <= q
  | NInf, _ | _, PInf => True
  | _, _ => False
  end.

Lemma nle_not_lt (a b : num) : nle a b -> lt b a = false.
Proof.
  destruct a as [p| | |], b as [q| | |]; cbn; try tauto.
  intros H. apply Qle_bool_iff in H. rewrite H. reflexivity.
Qed.

Lemma nle_neg (a b : num) : nle a b -> nle (neg b) (neg a).
Proof.
  destruct a as [p| | |], b as [q| | |]; cbn [nle neg]; try tauto.
  intros H. rewrite !Qred_correct. apply Qopp_le_compat. exact H.
Qed.

Lemma nle_trans (a b c : num) : nle a b -> nle b c -> nle a c.
Proof.
  destruct a as [p| | |], b as [q| | |], c as [r| | |]; cbn; try tauto.
  apply Qle_trans.
Qed.

Lemma Qsign_Gt (q : Q) : Qsign q = Gt <-> 0 < q.
Proof.
  unfold Qsign, Qlt. cbn. rewrite Z.mul_1_r. rewrite Z.compare_gt_iff. tauto.
Qed.

Lemma Qsign_Lt (q : Q) : Qsign q = Lt <-> q < 0.
Proof.
  unfold Qsign, Qlt. cbn. rewrite Z.mul_1_r. rewrite Z.compare_lt_iff. tauto.
Qed.

Lemma Qsign_Eq (q : Q) : Qsign q = Eq <-> q == 0.
Proof.
  unfold Qsign, Qeq. cbn. rewrite Z.mul_1_r. rewrite Z.compare_eq_iff. tauto.
Qed.

Lemma round_pos_fv (x : Q) :
  round_pos x = if Qle_bool (pow2 1024) (fv x) then PInf else Fin (Qred (fv x)).
Proof. reflexivity. Qed.

Lemma round_pos_nonneg (x : Q) : 0 < x -> nle (Fin 0) (round_pos x).
Proof.
  intros H. rewrite round_pos_fv.
  destruct (Qle_bool (pow2 1024) (fv x)); cbn [nle]; [exact I|].
  rewrite Qred_correct. apply fv_nonneg. exact H.
Qed.

Lemma round_pos_mono (x y : Q) :
  0 < x -> x <= y -> nle (round_pos x) (round_pos y).
Proof.
  intros Hx Hxy. pose proof (fv_mono x y Hx Hxy) as Hm.
  rewrite !round_pos_fv.
  destruct (Qle_bool (pow2 1024) (fv x)) eqn:Ex;
    destruct (Qle_bool (pow2 1024) (fv y)) eqn:Ey; cbn [nle]; try exact I.
  - apply Qle_bool_iff in Ex.
    assert (H : Qle_bool (pow2 1024) (fv y) = true).
    { apply Qle_bool_iff. eapply Qle_trans; eassumption. }
    congruence.
  - rewrite !Qred_correct. exact Hm.
Qed.

(** Rounding to binary64 is monotone. *)
Lemma round64_mono (p q : Q) : p <= q -> nle (round64 p) (round64 q).
Proof.
  intros H. unfold round64.
  destruct (Qsign p) eqn:Sp; destruct (Qsign q) eqn:Sq;
    repeat match goal with
      | S : Qsign _ = Gt |- _ => apply Qsign_Gt in S
      | S : Qsign _ = Lt |- _ => apply Qsign_Lt in S
      | S : Qsign _ = Eq |- _ => apply Qsign_Eq in S
      end.
  - cbn [nle]. apply Qle_refl.
  - exfalso. rewrite Sp in H. apply (Qlt_irrefl 0).
    eapply Qle_lt_trans; eassumption.
  - apply round_pos_nonneg. exact Sq.
  - change (Fin 0) with (neg (Fin 0)). apply nle_neg, round_pos_nonneg.
    rewrite <- (Qopp_involutive 0). apply Qopp_lt_compat.
    change (- 0) with 0. exact Sp.
  - apply nle_neg, round_pos_mono.
    + change 0 with (- 0). apply Qopp_lt_compat. exact Sq.
    + apply Qopp_le_compat. exact H.
  - apply nle_trans with (Fin 0).
    + change (Fin 0) with (neg (Fin 0)). apply nle_neg, round_pos_nonneg.
      change 0 with (- 0). apply Qopp_lt_compat. exact Sp.
    + apply round_pos_nonneg. exact Sq.
  - exfalso. rewrite Sq in H. apply (Qlt_irrefl 0).
    eapply Qlt_le_trans; eassumption.
  - exfalso. apply (Qlt_irrefl 0).
    eapply Qlt_trans; [exact Sp|]. eapply Qle_lt_trans; eassumption.
  - apply round_pos_mono; assumption.
Qed.

Lemma round_pos_comp (p q : Q) :
  0 < p -> p == q -> round_pos p = round_pos q.
Proof.
  intros Hp H. rewrite !round_pos_fv.
  pose proof (fv_comp p q Hp H) as E.
  assert (Eb : Qle_bool (pow2 1024) (fv p) = Qle_bool (pow2 1024) (fv q)).
  { destruct (Qle_bool (pow2 1024) (fv q)) eqn:Eq.
    - apply Qle_bool_iff. rewrite E. apply Qle_bool_iff. exact Eq.
    - destruct (Qle_bool (pow2 1024) (fv p)) eqn:Ep; [|reflexivity].
      apply Qle_bool_iff in Ep. rewrite E in Ep. apply Qle_bool_iff in Ep.
      congruence. }
  rewrite Eb. destruct (Qle_bool (pow2 1024) (fv q)); [reflexivity|].
  f_equal. apply Qred_complete. exact E.
Qed.

(** A value of [round_pos] is rounded to itself. *)
Lemma round_pos_fix (x : Q) (v : Q) :
  0 < x -> round_pos x = Fin v -> round64 v = Fin v.
Proof.
  intros Hx. rewrite round_pos_fv.
  destruct (Qle_bool (pow2 1024) (fv x)) eqn:Eo; [discriminate|].
  intros Hv0. assert (Ev : v = Qred (fv x)) by congruence.
  subst v. clear Hv0.
  pose proof (fv_nonneg x Hx) as H0.
  unfold round64.
  destruct (Qsign (Qred (fv x))) eqn:S.
  - apply Qsign_Eq in S. rewrite Qred_correct in S. f_equal. symmetry.
    apply (Qred_complete (fv x) 0). exact S.
  - apply Qsign_Lt in S. rewrite Qred_correct in S. exfalso.
    apply (Qlt_irrefl 0). eapply Qle_lt_trans; eassumption.
  - apply Qsign_Gt in S.
    assert (Hv : 0 < fv x) by (rewrite Qred_correct in S; exact S).
    rewrite (round_pos_comp (Qred (fv x)) (fv x) S (Qred_correct _)).
    rewrite round_pos_fv.
    pose proof (fv_fix x Hx Hv) as Hf.
    assert (Eb : Qle_bool (pow2 1024) (fv (fv x)) = false).
    { destruct (Qle_bool (pow2 1024) (fv (fv x))) eqn:E; [|reflexivity].
      apply Qle_bool_iff in E. rewrite Hf in E. apply Qle_bool_iff in E.
      congruence. }
    rewrite Eb. f_equal. apply Qred_complete. exact Hf.
Qed.

Lemma round64_neg (q : Q) : 0 < q -> round64 (- q) = neg (round64 q).
Proof.
  intros H. unfold round64.
  assert (S1 : Qsign (- q) = Lt).
  { apply Qsign_Lt. change 0 with (- 0). apply Qopp_lt_compat. exact H. }
  assert (S2 : Qsign q = Gt) by (apply Qsign_Gt; exact H).
  rewrite S1, S2. f_equal. apply round_pos_comp.
  - rewrite Qopp_involutive. exact H.
  - apply Qopp_involutive.
Qed.

Lemma round64_comp (p q : Q) : p == q -> round64 p = round64 q.
Proof.
  intros H. unfold round64.
  assert (S : Qsign p = Qsign q).
  { destruct (Qsign q) eqn:Sq.
    - apply Qsign_Eq. apply Qsign_Eq in Sq. rewrite H. exact Sq.
    - apply Qsign_Lt. apply Qsign_Lt in Sq. rewrite H. exact Sq.
    - apply Qsign_Gt. apply Qsign_Gt in Sq. rewrite H. exact Sq. }
  rewrite S. destruct (Qsign q) eqn:Sq.
  - reflexivity.
  - f_equal. apply round_pos_comp.
    + apply Qsign_Lt in S. change 0 with (- 0). apply Qopp_lt_compat. exact S.
    + rewrite H. reflexivity.
  - apply round_pos_comp; [|exact H]. apply Qsign_Gt. exact S.
Qed.

(** Rounding to binary64 is idempotent. *)
Lemma fl_idem (a : num) : fl (fl a) = fl a.
Proof.
  destruct a as [q| | |]; try reflexivity. cbn [fl].
  assert (E0 : round64 q
               = match Qsign q with
                 | Eq => Fin 0
                 | Lt => neg (round_pos (- q))
                 | Gt => round_pos q
                 end) by reflexivity.
  rewrite E0. clear E0.
  destruct (Qsign q) eqn:S.
  - reflexivity.
  - apply Qsign_Lt in S.
    assert (Hq : 0 < - q).
    { change 0 with (- 0). apply Qopp_lt_compat. exact S. }
    destruct (round_pos (- q)) as [v| | |] eqn:E; try reflexivity.
    cbn [neg fl].
    pose proof (round_pos_fix (- q) v Hq E) as Hv.
    pose proof (round_pos_nonneg (- q) Hq) as Hn. rewrite E in Hn. cbn [nle] in Hn.
    destruct (Qlt_le_dec 0 v) as [Hpos|Hle].
    + rewrite (round64_comp (Qred (- v)) (- v) (Qred_correct _)).
      rewrite (round64_neg v Hpos), Hv. reflexivity.
    + assert (Hz : v == 0) by (apply Qle_antisym; assumption).
      assert (Ez : Qred (- v) = 0).
      { apply (Qred_complete (- v) 0). rewrite Hz. reflexivity. }
      rewrite Ez. reflexivity.
  - apply Qsign_Gt in S.
    destruct (round_pos q) as [v| | |] eqn:E; try reflexivity.
    cbn [fl]. eapply round_pos_fix; eassumption.
Qed.

Lemma round64_not_NaN (q : Q) : round64 q <> NaN.
Proof.
  assert (Hp : forall x, round_pos x <> NaN).
  { intros x. rewrite round_pos_fv.
    destruct (Qle_bool (pow2 1024) (fv x)); discriminate. }
  unfold round64. destruct (Qsign q); [discriminate| |apply Hp].
  pose proof (Hp (- q)) as Hn.
  destruct (round_pos (- q)); cbn [neg]; try discriminate.
  contradiction Hn. reflexivity.
Qed.

Lemma fl_mono (a b : num) : nle a b -> nle (fl a) (fl b).
Proof.
  destruct a as [p| | |], b as [q| | |]; cbn [nle fl]; try tauto.
  - apply round64_mono.
  - intros _. pose proof (round64_not_NaN p) as Hn.
    destruct (round64 p); cbn [nle]; try exact I.
    contradiction Hn. reflexivity.
  - intros _. pose proof (round64_not_NaN q) as Hn.
    destruct (round64 q); cbn [nle]; try exact I.
    contradiction Hn. reflexivity.
Qed.

(** Rounding does not take a number below a binary64 value it is
    above. *)
Lemma fl_above (d b : num) : fl d = d -> nle d b -> nle d (fl b).
Proof. intros E H. rewrite <- E. apply fl_mono. exact H. Qed.

(** *** Agreement with the Standard Library's IEEE 754

    [SpecFloat] specifies the operations of IEEE 754 on mantissa and
    exponent; binary64 is its instance at precision 53 and [emax]
    1024.  The operations of [Num] are run against it on operands
    that sit on the tolerances of qa.ts, on ties, on subnormal
    numbers and on the overflow threshold. *)

Definition prec : Z := 53.
Definition emax : Z := 1024.

(** The binary64 value nearest to a number, as [SpecFloat] reaches it:
    the numerator divided by the denominator. *)
Definition to_spec (a : num) : SpecFloat.spec_float :=
  match a with
  | NaN => SpecFloat.S754_nan
  | PInf => SpecFloat.S754_infinity false
  | NInf => SpecFloat.S754_infinity true
  | Fin q =>
      let quotient (negative : bool) (n : positive) :=
        SpecFloat.SFdiv prec emax (SpecFloat.S754_finite negative n 0)
          (SpecFloat.S754_finite false (Qden q) 0) in
      match Qnum q with
      | Z0 => SpecFloat.S754_zero false
      | Zpos n => quotient false n
      | Zneg n => quotient true n
      end
  end.

Definition of_spec (f : SpecFloat.spec_float) : num :=
  match f with
  | SpecFloat.S754_zero _ => Fin 0
  | SpecFloat.S754_infinity negative => if negative then NInf else PInf
  | SpecFloat.S754_nan => NaN
  | SpecFloat.S754_finite negative m e =>
      Fin (Qred (inject_Z (if negative then Zneg m else Zpos m) * pow2 e))
  end.

Definition same (a b : num) : bool :=
  match a, b with
  | Fin p, Fin q => Qeq_bool p q
  | PInf, PInf | NInf, NInf | NaN, NaN => true
  | _, _ => false
  end.

(** Whether every operation gives on [a] and [b] what [SpecFloat]
    gives; a division by zero is left out, the sign of zero not being
    modelled. *)
Definition agrees (ab : num * num) : bool :=
  let '(a, b) := ab in
  let x := to_spec a in
  let y := to_spec b in
  same (fl a) (of_spec x)
  && same (fadd a b) (of_spec (SpecFloat.SFadd prec emax x y))
  && same (fsub a b) (of_spec (SpecFloat.SFsub prec emax x y))
  && same (fmul a b) (of_spec (SpecFloat.SFmul prec emax x y))
  && (same (fl b) (Fin 0)
      || same (fdiv a b) (of_spec (SpecFloat.SFdiv prec emax x y)))
  && Bool.eqb (flt a b) (SpecFloat.SFltb x y)
  && Bool.eqb (fgt a b) (SpecFloat.SFltb y x).

Definition operands : list (num * num) :=
  [(Fin (156 # 10), Fin (1 # 2)); (Fin (161 # 10), Fin (161 # 10));
   (Fin (432 # 10), Fin 24); (Fin 24, Fin (4 # 5));
   (Fin (156 # 10), Fin 1); (Fin (166 # 10), Fin (166 # 10));
   (Fin 41, Fin 20); (Fin 21, Fin 20); (Fin 20, Fin (4 # 5));
   (Fin 16, Fin (7 # 5)); (Fin 14, Fin (6 # 5)); (Fin 150, Fin 100);
   (Fin (1 # 10), Fin (2 # 10)); (Fin (1 # 3), Fin 3);
   (Fin (- (1 # 3)), Fin (2 # 3)); (Fin 0, Fin 5); (Fin (-7), Fin 2);
   (Fin (9007199254740993 # 1), Fin 1);
   (Fin (9007199254740992 # 1), Fin 1);
   (Fin (9007199254740995 # 2), Fin (1 # 2));
   (Fin (pow2 (-1074)), Fin (1 # 2)); (Fin (pow2 (-1075)), Fin 3);
   (Fin (pow2 (-1022)), Fin (pow2 (-1074)));
   (Fin (3 * pow2 (-1075)), Fin (pow2 (-1000)));
   (Fin (pow2 1023), Fin (pow2 1023)); (Fin (pow2 1023), Fin 2);
   (Fin (pow2 1024 - pow2 970), Fin 1);
   (Fin (pow2 1024 - pow2 970 - 1), Fin (- pow2 1023));
   (Fin (pow2 1000), Fin (pow2 (-100))); (Fin (pow2 2000), Fin 1);
   (PInf, Fin 1); (Fin 1, PInf); (NInf, PInf); (PInf, PInf);
   (NInf, Fin (-2)); (NaN, Fin 1); (Fin 1, NaN); (Fin 5, NInf)].

Lemma operations_agree_with_SpecFloat : forallb agrees operands = true.
Proof. vm_compute. reflexivity. Qed.

End Binary64Facts.


(** ** The text-node map of a duplication *)

Module DuplicateFacts.
Import Duplicate.

(** Induction on a subtree, the children of a node taken together. *)
Fixpoint SceneNode_nested_ind (P : SceneNode -> Prop)
    (Htext : forall t, P (TextLeaf t))
    (Hnode : forall p cs, List.Forall P cs -> P (Node p cs))
    (n : SceneNode) : P n :=
  match n with
  | TextLeaf t => Htext t
  | Node p cs =>
      Hnode p cs
        ((fix all (l : list SceneNode) : List.Forall P l :=
            match l with
            | [] => @List.Forall_nil _ P
            | c :: l' =>
                @List.Forall_cons _ P c l'
                  (SceneNode_nested_ind P Htext Hnode c) (all l')
            end) cs)
  end.

(** A text leaf the scan keeps: not blank, not under a lock. *)
Definition translatable (t : TextNode) : bool :=
  negb (is_blank (tn_characters t)) && negb (isInLockedChain t).

(** The entries the scan makes of the kept leaves [ts], numbered from
    [k]. *)
Fixpoint number (k : nat) (ts : list TextNode) : list TextEntry :=
  match ts with
  | [] => []
  | t :: ts' => entry_of t k :: number (S k) ts'
  end.

(** The pairs the specification describes: the leaves of the two trees
    taken index by index while both have one, a pair being kept when
    the original leaf is translatable and keyed by the rank of that
    leaf among the translatable ones. *)
Fixpoint positional (k : nat) (origTexts cloneTexts : list TextNode)
  : JsMap.t TextNode :=
  match origTexts, cloneTexts with
  | o :: origTexts', c :: cloneTexts' =>
      if translatable o
      then ("t" ++ pretty k, c) :: positional (S k) origTexts' cloneTexts'
      else positional k origTexts' cloneTexts'
  | _, _ => []
  end.

Lemma number_app (k : nat) (ts us : list TextNode) :
  number k (ts ++ us) = (number k ts ++ number (k + length ts) us)%list.
Proof.
  revert k. induction ts as [|t ts IH]; intros k; cbn.
  - rewrite Nat.add_0_r. reflexivity.
  - rewrite IH.
    replace (S k + length ts)%nat with (k + S (length ts))%nat by lia.
    reflexivity.
Qed.

(** *** The two walks visit the same leaves in the same order *)

Lemma collect_walk_acc (n : SceneNode) (acc : list TextNode) :
  collect_walk n acc = (acc ++ collectTextNodes n)%list.
Proof.
  unfold collectTextNodes. revert acc.
  induction n as [t|p cs IH] using SceneNode_nested_ind; intros acc.
  - reflexivity.
  - cbn [collect_walk]. revert acc.
    induction IH as [|c cs Hc _ IHcs]; intros acc; cbn [fold_left].
    + rewrite app_nil_r. reflexivity.
    + rewrite IHcs, (IHcs (collect_walk c [])), Hc, app_assoc.
      reflexivity.
Qed.

Lemma collect_children (cs : list SceneNode) (acc : list TextNode) :
  fold_left (fun acc' child => collect_walk child acc') cs acc
  = (acc ++ flat_map collectTextNodes cs)%list.
Proof.
  revert acc. induction cs as [|c cs IH]; intros acc; cbn.
  - rewrite app_nil_r. reflexivity.
  - rewrite IH, collect_walk_acc, app_assoc. reflexivity.
Qed.

Lemma collect_node (p : NodeProps) (cs : list SceneNode) :
  collectTextNodes (Node p cs) = flat_map collectTextNodes cs.
Proof. apply (collect_children cs []). Qed.

(** The scan keeps the translatable leaves, in the order of
    [collectTextNodes], and numbers them from [idx]. *)
Lemma scan_walk_entries (n : SceneNode) (st : ScanState) :
  let kept := List.filter translatable (collectTextNodes n) in
  entries (scan_walk n st) = (entries st ++ number (idx st) kept)%list
  /\ idx (scan_walk n st) = (idx st + length kept)%nat.
Proof.
  revert st. induction n as [t|p cs IH] using SceneNode_nested_ind;
    intros st.
  - cbn. unfold scan_text, translatable.
    destruct (is_blank (tn_characters t)); cbn.
    + rewrite app_nil_r. split; [reflexivity|lia].
    + destruct (isInLockedChain t); cbn.
      * rewrite app_nil_r. split; [reflexivity|lia].
      * split; [reflexivity|lia].
  - rewrite collect_node. cbn [scan_walk]. revert st.
    induction IH as [|c cs Hc _ IHcs]; intros st; cbn [fold_left flat_map].
    + cbn. rewrite app_nil_r. split; [reflexivity|lia].
    + destruct (Hc st) as [Hc1 Hc2]. cbn zeta in *.
      destruct (IHcs (scan_walk c st)) as [H1 H2].
      rewrite List.filter_app, length_app, number_app.
      rewrite H1, H2, Hc1, Hc2, <- app_assoc. split; [reflexivity|lia].
Qed.

Lemma scan_entries (root : SceneNode) :
  entries (scanTextNodes root)
  = number 0 (List.filter translatable (collectTextNodes root)).
Proof.
  unfold scanTextNodes.
  destruct (scan_walk_entries root (mkScan [] 0 0 0 0)) as [H _].
  exact H.
Qed.

(** *** Finding the entry of a leaf *)

Definition entry_for (o : TextNode) (es : list TextEntry)
  : option TextEntry :=
  List.find (fun e => String.eqb (e_nodeId e) (tn_id o)) es.

Lemma entry_for_absent (o : TextNode) (k : nat) (ts : list TextNode) :
  ~ In (tn_id o) (map tn_id ts) ->
  entry_for o (number k (List.filter translatable ts)) = None.
Proof.
  unfold entry_for. revert k.
  induction ts as [|t ts IH]; intros k Hn; [reflexivity|].
  cbn [map In] in Hn. cbn [List.filter].
  destruct (translatable t); [|apply IH; tauto].
  cbn [number List.find entry_of e_nodeId].
  destruct (String.eqb_spec (tn_id t) (tn_id o)) as [E|_]; [tauto|].
  apply IH. tauto.
Qed.

(** Node ids being distinct, the entry found for a leaf is its own:
    there is one when the leaf is translatable, and its number is the
    rank of the leaf among the translatable leaves. *)
Lemma entry_for_leaf (pre post : list TextNode) (o : TextNode) (k : nat) :
  List.NoDup (map tn_id (pre ++ o :: post)) ->
  entry_for o (number k (List.filter translatable (pre ++ o :: post)))
  = if translatable o
    then Some (entry_of o (k + length (List.filter translatable pre)))
    else None.
Proof.
  revert k. induction pre as [|a pre IH]; intros k Hnd.
  - cbn [app List.filter length] in *. rewrite Nat.add_0_r.
    cbn [map] in Hnd. apply List.NoDup_cons_iff in Hnd as [Hn _].
    destruct (translatable o).
    + unfold entry_for. cbn [number List.find entry_of e_nodeId].
      rewrite String.eqb_refl. reflexivity.
    + apply entry_for_absent, Hn.
  - cbn [app map] in Hnd. apply List.NoDup_cons_iff in Hnd as [Hn Hnd].
    assert (Hne : tn_id a <> tn_id o).
    { intros E. apply Hn. rewrite E, map_app. apply in_or_app. right.
      left. reflexivity. }
    cbn [app List.filter]. destruct (translatable a).
    + unfold entry_for. cbn [number List.find entry_of e_nodeId length].
      destruct (String.eqb_spec (tn_id a) (tn_id o)) as [E|_]; [tauto|].
      fold (entry_for o (number (S k)
                           (List.filter translatable (pre ++ o :: post)))).
      rewrite (IH (S k) Hnd).
      replace (S k + length (List.filter translatable pre))%nat
        with (k + S (length (List.filter translatable pre)))%nat by lia.
      reflexivity.
    + apply IH, Hnd.
Qed.

(** *** The loop that fills the map *)

Lemma key_inj (j k : nat) : "t" ++ pretty j = "t" ++ pretty k -> j = k.
Proof. cbn. intros [= H]. exact (pretty_nat_inj _ _ H). Qed.

Lemma set_fresh {V : Type} (k : string) (v : V) (m : JsMap.t V) :
  JsMap.get k m = None -> JsMap.set k v m = (m ++ [(k, v)])%list.
Proof.
  induction m as [|[k' v'] m IH]; intros H; [reflexivity|].
  cbn in *. destruct (String.eqb k k'); [discriminate|].
  rewrite IH by exact H. reflexivity.
Qed.

(** Every key of [m] is the key of a rank below [k]. *)
Definition keys_below (k : nat) (m : JsMap.t TextNode) : Prop :=
  List.Forall (fun kv => exists j, (j < k)%nat /\ fst kv = "t" ++ pretty j) m.

Lemma get_above (k : nat) (m : JsMap.t TextNode) :
  keys_below k m -> JsMap.get ("t" ++ pretty k) m = None.
Proof.
  induction 1 as [|[key v] m (j & Hj & Hkey) _ IH]; [reflexivity|].
  cbn [fst] in Hkey. subst key. cbn [JsMap.get].
  destruct (String.eqb_spec ("t" ++ pretty k) ("t" ++ pretty j)) as [E|_].
  - apply key_inj in E. lia.
  - exact IH.
Qed.

Lemma build_map_positional (pre origTexts cloneTexts : list TextNode)
    (m : JsMap.t TextNode) :
  let all := (pre ++ origTexts)%list in
  let k := length (List.filter translatable pre) in
  List.NoDup (map tn_id all) ->
  keys_below k m ->
  build_map (number 0 (List.filter translatable all)) origTexts cloneTexts m
  = (m ++ positional k origTexts cloneTexts)%list.
Proof.
  cbn zeta. revert pre cloneTexts m.
  induction origTexts as [|o os IH]; intros pre cs m Hnd Hk.
  - cbn. rewrite app_nil_r. reflexivity.
  - destruct cs as [|c cs]; [cbn; rewrite app_nil_r; reflexivity|].
    cbn [build_map positional].
    fold (entry_for o (number 0 (List.filter translatable (pre ++ o :: os)))).
    rewrite (entry_for_leaf pre os o 0 Hnd). cbn [Nat.add].
    assert (Hall : (pre ++ o :: os = (pre ++ [o]) ++ os)%list)
      by (rewrite <- app_assoc; reflexivity).
    rewrite Hall in Hnd |- *.
    destruct (translatable o) eqn:Et.
    + cbn [entry_of e_id]. rewrite (set_fresh _ _ _ (get_above _ _ Hk)).
      rewrite (IH (pre ++ [o])%list cs _ Hnd).
      * rewrite List.filter_app, length_app. cbn [List.filter].
        rewrite Et. cbn [length]. rewrite Nat.add_1_r, <- app_assoc.
        reflexivity.
      * rewrite List.filter_app, length_app. cbn [List.filter].
        rewrite Et. cbn [length]. rewrite Nat.add_1_r.
        apply List.Forall_app. split.
        -- eapply List.Forall_impl; [|exact Hk].
           intros kv (j & Hj & E). exists j. split; [lia|exact E].
        -- constructor; [|constructor]. eexists. split; [|reflexivity].
           lia.
    + rewrite (IH (pre ++ [o])%list cs _ Hnd).
      * rewrite List.filter_app, length_app. cbn [List.filter].
        rewrite Et. cbn [length]. rewrite Nat.add_0_r. reflexivity.
      * rewrite List.filter_app, length_app. cbn [List.filter].
        rewrite Et. cbn [length]. rewrite Nat.add_0_r. exact Hk.
Qed.

(** *** The pairs *)

Lemma positional_size (k : nat) (os cs : list TextNode) :
  JsMap.size (positional k os cs)
  = length (List.filter translatable
              (firstn (Nat.min (length os) (length cs)) os)).
Proof.
  unfold JsMap.size. revert k cs.
  induction os as [|o os IH]; intros k cs; [reflexivity|].
  destruct cs as [|c cs]; [reflexivity|].
  cbn [positional length Nat.min firstn List.filter].
  destruct (translatable o); cbn [length]; rewrite IH; reflexivity.
Qed.

(** The pair of index [i]: its key is the rank of the original leaf,
    its value the leaf of the clone at the same index. *)
Lemma positional_get (k i : nat) (os cs : list TextNode) (o c : TextNode) :
  nth_error os i = Some o -> nth_error cs i = Some c ->
  translatable o = true ->
  JsMap.get
    ("t" ++ pretty (k + length (List.filter translatable (firstn i os))))
    (positional k os cs)
  = Some c.
Proof.
  revert k i cs. induction os as [|a os IH]; intros k i cs Ho Hc Ht.
  - destruct i; discriminate.
  - destruct cs as [|b cs]; [destruct i; discriminate|].
    destruct i as [|i].
    + cbn in Ho, Hc. injection Ho as ->. injection Hc as ->.
      cbn [positional firstn List.filter length]. rewrite Ht, Nat.add_0_r.
      cbn [JsMap.get]. rewrite String.eqb_refl. reflexivity.
    + cbn [nth_error] in Ho, Hc.
      cbn [positional firstn List.filter]. destruct (translatable a).
      * cbn [length JsMap.get].
        destruct (String.eqb_spec
                    ("t" ++ pretty
                       (k + S (length (List.filter translatable
                                         (firstn i os)))))
                    ("t" ++ pretty k)) as [E|_].
        { apply key_inj in E. lia. }
        replace (k + S (length (List.filter translatable (firstn i os))))%nat
          with (S k + length (List.filter translatable (firstn i os)))%nat
          by lia.
        apply IH; assumption.
      * apply IH; assumption.
Qed.

(** Every pair comes from an index both trees have a leaf at. *)
Lemma positional_in (k : nat) (os cs : list TextNode) (id : string)
    (c : TextNode) :
  In (id, c) (positional k os cs) ->
  exists i o,
    nth_error os i = Some o /\ nth_error cs i = Some c
    /\ translatable o = true
    /\ id = "t" ++ pretty
                   (k + length (List.filter translatable (firstn i os))).
Proof.
  revert k cs. induction os as [|a os IH]; intros k cs Hin; [destruct Hin|].
  destruct cs as [|b cs]; [destruct Hin|]. cbn [positional] in Hin.
  destruct (translatable a) eqn:Et.
  - destruct Hin as [[= <- <-]|Hin].
    + exists 0%nat, a. cbn. rewrite Nat.add_0_r. auto.
    + destruct (IH _ _ Hin) as (i & o & Ho & Hc & Ht & ->).
      exists (S i), o. cbn [nth_error firstn List.filter]. rewrite Et.
      cbn [length]. repeat split; auto. do 2 f_equal. lia.
  - destruct (IH _ _ Hin) as (i & o & Ho & Hc & Ht & ->).
    exists (S i), o. cbn [nth_error firstn List.filter]. rewrite Et.
    repeat split; auto.
Qed.

Lemma filter_all {A : Type} (f : A -> bool) (l : list A) :
  forallb f l = true -> List.filter f l = l.
Proof.
  induction l as [|a l IH]; [reflexivity|]. cbn.
  intros H. apply andb_true_iff in H as [Ha Hl]. rewrite Ha, IH by exact Hl.
  reflexivity.
Qed.

Lemma filter_length_le {A : Type} (f : A -> bool) (l : list A) :
  (length (List.filter f l) <= length l)%nat.
Proof.
  induction l as [|a l IH]; [reflexivity|]. cbn.
  destruct (f a); cbn; lia.
Qed.

Lemma duplicate_unfold cloned original langIndex language settings es :
  duplicateAndPlace cloned original langIndex language settings es
  = let name :=
      sn_name original ++ " – " ++ l_name language ++ " (" ++ code language
        ++ ")" in
    let pos := place original langIndex settings in
    let clone := sn_with_name_pos name (fst pos) (snd pos) cloned in
    mkDuplicated clone
      (build_map es (collectTextNodes original) (collectTextNodes clone)
         JsMap.empty).
Proof.
  unfold duplicateAndPlace.
  destruct (place original langIndex settings); reflexivity.
Qed.

(** Naming and placing the clone leaves the number of its text leaves
    as the host made it. *)
Lemma collect_placed_length (name : string) (x y : num) (n : SceneNode) :
  length (collectTextNodes (sn_with_name_pos name x y n))
  = length (collectTextNodes n).
Proof. destruct n; reflexivity. Qed.

(** C1 as amended.  With the entries of a scan of the original and
    distinct node ids, the map of a duplication is made of the leaves
    of the original and of the clone taken index by index, for the
    indices below both counts whose original leaf is translatable
    (neither blank nor under a lock): the entry of such an index maps
    the scan id of the original leaf, numbered by its rank among the
    translatable leaves, to the leaf of the clone at the same index.
    The map therefore has as many entries as there are translatable
    leaves among the first [min(N, N')], at most [min(N, N')], and
    exactly [min(N, N')] when they are all translatable. *)
Theorem text_map_positional (cloned original : SceneNode)
    (langIndex : num) (language : Language) (settings : PluginSettings) :
  let d :=
    duplicateAndPlace cloned original langIndex language settings
      (entries (scanTextNodes original)) in
  let origTexts := collectTextNodes original in
  let cloneTexts := collectTextNodes (clone d) in
  let N := length origTexts in
  let N' := length cloneTexts in
  let rank i := length (List.filter translatable (firstn i origTexts)) in
  List.NoDup (map tn_id origTexts) ->
  N' = length (collectTextNodes cloned)
  /\ textNodeMap d = positional 0 origTexts cloneTexts
  /\ JsMap.size (textNodeMap d) = rank (Nat.min N N')
  /\ (JsMap.size (textNodeMap d) <= Nat.min N N')%nat
  /\ (forallb translatable (firstn (Nat.min N N') origTexts) = true ->
      JsMap.size (textNodeMap d) = Nat.min N N')
  /\ (forall i o c,
        nth_error origTexts i = Some o -> nth_error cloneTexts i = Some c ->
        translatable o = true ->
        JsMap.get ("t" ++ pretty (rank i)) (textNodeMap d) = Some c)
  /\ (forall id c,
        In (id, c) (textNodeMap d) ->
        exists i o,
          nth_error origTexts i = Some o
          /\ nth_error cloneTexts i = Some c
          /\ translatable o = true
          /\ id = "t" ++ pretty (rank i)).
Proof.
  intros d origTexts cloneTexts N N' rank Hnd.
  assert (Hmap : textNodeMap d = positional 0 origTexts cloneTexts).
  { subst cloneTexts d. rewrite duplicate_unfold.
    cbn [textNodeMap clone]. rewrite scan_entries.
    exact (build_map_positional [] (collectTextNodes original) _ JsMap.empty
             Hnd (List.Forall_nil _)). }
  assert (Hsize : JsMap.size (textNodeMap d) = rank (Nat.min N N')).
  { rewrite Hmap. apply positional_size. }
  assert (Hle : (rank (Nat.min N N') <= Nat.min N N')%nat).
  { subst rank. cbn beta.
    etransitivity; [apply filter_length_le|].
    rewrite length_firstn. subst N. lia. }
  split.
  { subst N' cloneTexts d. rewrite duplicate_unfold. cbn [clone].
    apply collect_placed_length. }
  split; [exact Hmap|]. split; [exact Hsize|].
  split; [rewrite Hsize; exact Hle|].
  split; [|split].
  - intros Hall. rewrite Hsize. subst rank. cbn beta.
    rewrite (filter_all _ _ Hall), length_firstn. subst N. lia.
  - intros i o c Ho Hc Ht. rewrite Hmap.
    exact (positional_get 0 i origTexts cloneTexts o c Ho Hc Ht).
  - intros id c Hin. rewrite Hmap in Hin.
    exact (positional_in 0 origTexts cloneTexts id c Hin).
Qed.

End DuplicateFacts.

(** ** The container check *)

Module ContainerFacts.
Import QA.

(** The far edges of a box, as the check computes them (in
    binary64). *)
Definition right_edge (r : Rect) : num := (r_x r + r_width r)%f64.
Definition bottom_edge (r : Rect) : num := (r_y r + r_height r)%f64.

(** A frame-like ancestor with a box, fixed on an axis on which the
    box [nb] passes its far edge by more than 1. *)
Inductive Offends (nb : Rect) (b : BaseNode) : Prop :=
| offends_right (fb : Rect) :
    isFrameLike b = true -> b_absoluteBoundingBox b = Some fb ->
    isFixedOnAxis b horizontal = true ->
    (right_edge nb >? right_edge fb + n1)%f64 = true ->
    Offends nb b
| offends_bottom (fb : Rect) :
    isFrameLike b = true -> b_absoluteBoundingBox b = Some fb ->
    isFixedOnAxis b vertical = true ->
    (bottom_edge nb >? bottom_edge fb + n1)%f64 = true ->
    Offends nb b.

(** The test one turn of the walk makes. *)
Definition offending (nb : Rect) (b : BaseNode) : bool :=
  isFrameLike b
  && match b_absoluteBoundingBox b with
     | Some fb =>
         (overflowH nb fb && isFixedOnAxis b horizontal)
         || (overflowV nb fb && isFixedOnAxis b vertical)
     | None => false
     end.

Lemma offending_spec (nb : Rect) (b : BaseNode) :
  offending nb b = true <-> Offends nb b.
Proof.
  unfold offending. split.
  - intros H. apply andb_true_iff in H as [Hf H].
    destruct (b_absoluteBoundingBox b) as [fb|] eqn:Eb; [|discriminate].
    apply orb_true_iff in H as [H|H]; apply andb_true_iff in H as [Ho Hx].
    + eapply offends_right; eauto.
    + eapply offends_bottom; eauto.
  - intros [fb Hf Eb Hx Ho|fb Hf Eb Hx Ho]; rewrite Hf, Eb; cbn.
    + unfold overflowH. fold (right_edge nb) (right_edge fb).
      rewrite Ho, Hx. reflexivity.
    + unfold overflowV. fold (bottom_edge nb) (bottom_edge fb).
      rewrite Ho, Hx. apply orb_true_r.
Qed.

Lemma parent_walk_step (nb : Rect) (b : BaseNode) (chain : list BaseNode) :
  parent_walk nb (b :: chain)
  = if is_root_type (b_type b) then mkParentCheck false ""
    else if offending nb b then mkParentCheck true (b_name b)
    else parent_walk nb chain.
Proof.
  cbn [parent_walk]. unfold offending.
  destruct (is_root_type (b_type b)); [reflexivity|].
  destruct (isFrameLike b); [|reflexivity].
  destruct (b_absoluteBoundingBox b) as [fb|]; [|reflexivity]. cbn.
  destruct (overflowH nb fb && isFixedOnAxis b horizontal);
    [reflexivity|].
  destruct (overflowV nb fb && isFixedOnAxis b vertical); reflexivity.
Qed.

(** The ancestors [pre] are walked past: none is a page or the
    document, none offends. *)
Definition passed (nb : Rect) (pre : list BaseNode) : Prop :=
  Forall (fun a => is_root_type (b_type a) = false /\ ~ Offends nb a) pre.

Lemma parent_walk_true (nb : Rect) (chain : list BaseNode) :
  overflows (parent_walk nb chain) = true <->
  exists pre b post,
    chain = (pre ++ b :: post)%list /\ passed nb pre
    /\ is_root_type (b_type b) = false /\ Offends nb b
    /\ parentName (parent_walk nb chain) = b_name b.
Proof.
  induction chain as [|a chain IH].
  - split; [discriminate|].
    intros (pre & b & post & E & _). destruct pre; discriminate.
  - rewrite parent_walk_step.
    destruct (is_root_type (b_type a)) eqn:Er.
    { split; [discriminate|].
      intros (pre & b & post & E & Hp & Hb & _).
      destruct pre as [|a' pre]; injection E as -> E.
      - congruence.
      - inversion Hp as [|? ? [Ha _] _]; subst. congruence. }
    destruct (offending nb a) eqn:Eo.
    { split; [|reflexivity]. intros _.
      exists [], a, chain. repeat split; auto.
      - constructor.
      - apply offending_spec, Eo. }
    rewrite IH. split.
    + intros (pre & b & post & -> & Hp & Hb & Ho & Hn).
      exists (a :: pre), b, post. repeat split; auto.
      constructor; [split; [exact Er|]|exact Hp].
      rewrite <- offending_spec, Eo. discriminate.
    + intros (pre & b & post & E & Hp & Hb & Ho & Hn).
      destruct pre as [|a' pre]; injection E as -> E.
      * apply offending_spec in Ho. congruence.
      * exists pre, b, post. inversion Hp; subst. repeat split; auto.
Qed.

Lemma offending_edges (nb nb' : Rect) (b : BaseNode) :
  right_edge nb = right_edge nb' -> bottom_edge nb = bottom_edge nb' ->
  offending nb b = offending nb' b.
Proof.
  intros Hr Hb. unfold offending, overflowH, overflowV.
  fold (right_edge nb) (right_edge nb') (bottom_edge nb) (bottom_edge nb').
  rewrite Hr, Hb. reflexivity.
Qed.

Lemma parent_walk_edges (nb nb' : Rect) (chain : list BaseNode) :
  right_edge nb = right_edge nb' -> bottom_edge nb = bottom_edge nb' ->
  parent_walk nb chain = parent_walk nb' chain.
Proof.
  intros Hr Hb. induction chain as [|a chain IH]; [reflexivity|].
  rewrite !parent_walk_step, IH, (offending_edges nb nb' a Hr Hb).
  reflexivity.
Qed.

(** C10.  The container check reports a node exactly when, walking up
    from its parent and before any page or document, it meets a
    frame-like ancestor with a box that is fixed horizontally and whose
    right edge the node's right edge passes by more than 1, or fixed
    vertically and whose bottom edge the node's bottom edge passes by
    more than 1; the walk stops at the nearest such ancestor and names
    it.  The left and top edges play no part: two nodes under the same
    ancestors with the same right and bottom edges get the same
    answer.  The edges, the sums with 1 and the comparisons are those
    of binary64: a right edge at 16.6 does not pass one at 15.6 by
    more than 1, the sum of 15.6 and 1 being 16.6 in binary64. *)
Theorem container_check_edges (node : TextNode) :
  let res := checkParentOverflow node in
  (overflows res = true <->
   exists nb pre b post,
     tn_absoluteBoundingBox node = Some nb
     /\ tn_parents node = (pre ++ b :: post)%list
     /\ passed nb pre
     /\ is_root_type (b_type b) = false
     /\ Offends nb b
     /\ parentName res = b_name b)
  /\ (forall (node' : TextNode) (nb nb' : Rect),
        tn_parents node' = tn_parents node ->
        tn_absoluteBoundingBox node = Some nb ->
        tn_absoluteBoundingBox node' = Some nb' ->
        right_edge nb' = right_edge nb ->
        bottom_edge nb' = bottom_edge nb ->
        checkParentOverflow node' = res)
  /\ overflowH (mkRect n0 n0 (Num.Fin (166 # 10)) (Num.of_Z 20))
       (mkRect n0 n0 (Num.Fin (156 # 10)) (Num.of_Z 20))
     = false.
Proof.
  cbn zeta. unfold checkParentOverflow. split; [|split].
  - destruct (tn_absoluteBoundingBox node) as [nb|].
    + rewrite parent_walk_true. split.
      * intros (pre & b & post & H). exists nb, pre, b, post. tauto.
      * intros (nb' & pre & b & post & [= <-] & H).
        exists pre, b, post. exact H.
    + split; [discriminate|]. intros (nb & ? & ? & ? & [=] & _).
  - intros node' nb nb' Hp -> -> Hr Hb. rewrite Hp.
    apply parent_walk_edges; assumption.
  - vm_compute. reflexivity.
Qed.

End ContainerFacts.

(** ** The QA pass *)

Module QAFacts.
Import QA.

Section WithHost.
Variable reflowHeight : TextNode -> num.
Variable naturalSize : TextNode -> num * num.

#[local] Abbreviation set_textAutoResize :=
  (Host.set_textAutoResize reflowHeight naturalSize).
#[local] Abbreviation measureNeededHeight :=
  (QA.measureNeededHeight reflowHeight naturalSize).
#[local] Abbreviation qa_unit := (QA.qa_unit reflowHeight naturalSize).
#[local] Abbreviation qa_loop := (QA.qa_loop reflowHeight naturalSize).
#[local] Abbreviation runQA := (QA.runQA reflowHeight naturalSize).

(** Restoring a fixed box from any size and mode gives the node
    back. *)
Lemma restore_fixed (t : TextNode) (m : AutoResize) (w h : num) :
  fixed_box (tn_textAutoResize t) = true ->
  tn_fontsLoaded t = true ->
  restore reflowHeight naturalSize (tn_textAutoResize t) (tn_width t)
    (tn_height t) (Host.with_layout m w h t)
  = (t, true).
Proof.
  intros Hfix Hl. unfold restore, Host.set_textAutoResize, Host.resize.
  cbn [tn_fontsLoaded Host.with_layout]. rewrite Hl, Hfix.
  destruct (tn_textAutoResize t) eqn:E; try discriminate;
    cbn [tn_fontsLoaded Host.with_layout tn_textAutoResize];
    rewrite Hl, <- E; f_equal; destruct t; reflexivity.
Qed.

(** On a node whose fonts are not loaded every write throws, and the
    restoring statements leave it as it is. *)
Lemma restore_unloaded (t : TextNode) (m : AutoResize) (w h : num) :
  tn_fontsLoaded t = false ->
  restore reflowHeight naturalSize m w h t = (t, false).
Proof.
  intros Hl. unfold restore, Host.set_textAutoResize. rewrite Hl.
  reflexivity.
Qed.

(** The measurement of a fixed box: while the host accepts the
    writes, the node is switched to [HEIGHT] at its width, the height
    it then has is the one returned, and the node is given back its
    mode, width and height; when the host refuses the writes, the
    height returned is the height of the node. *)
Lemma measure_fixed (t : TextNode) :
  fixed_box (tn_textAutoResize t) = true ->
  snd (measureNeededHeight t) = t
  /\ (tn_fontsLoaded t = true ->
      exists t1,
        set_textAutoResize AR_HEIGHT t = Some t1
        /\ tn_textAutoResize t1 = AR_HEIGHT
        /\ tn_width t1 = tn_width t
        /\ tn_height t1 = reflowHeight t
        /\ fst (measureNeededHeight t) = tn_height t1)
  /\ (tn_fontsLoaded t = false ->
      fst (measureNeededHeight t) = tn_height t).
Proof.
  intros Hfix. unfold QA.measureNeededHeight.
  destruct (tn_fontsLoaded t) eqn:Hl.
  - assert (Hset : set_textAutoResize AR_HEIGHT t
                   = Some (Host.with_layout AR_HEIGHT (tn_width t)
                             (reflowHeight t) t)).
    { unfold Host.set_textAutoResize. rewrite Hl. reflexivity. }
    rewrite Hset, (restore_fixed t _ _ _ Hfix Hl).
    destruct (tn_textAutoResize t) eqn:E; try discriminate;
      (split; [reflexivity|split; [|discriminate]]);
      intros _; eexists; repeat split.
  - assert (Hset : set_textAutoResize AR_HEIGHT t = None).
    { unfold Host.set_textAutoResize. rewrite Hl. reflexivity. }
    rewrite Hset, (restore_unloaded t _ _ _ Hl).
    destruct (tn_textAutoResize t) eqn:E; try discriminate;
      (split; [reflexivity|split; [discriminate|reflexivity]]).
Qed.

(** No turn of the loop changes the node it looks at. *)
Lemma qa_unit_node (om : JsMap.t TextEntry) (id : string)
    (t : TextNode) (acc : Acc) :
  snd (qa_unit om id t acc) = t.
Proof.
  unfold QA.qa_unit.
  destruct (tn_parents t); [reflexivity|].
  destruct (JsMap.get id om); [|reflexivity].
  destruct (tn_textAutoResize t) eqn:E; try reflexivity.
  assert (Hfix : fixed_box (tn_textAutoResize t) = true)
    by (rewrite E; reflexivity).
  destruct (measure_fixed t Hfix) as [Hs _].
  destruct (measureNeededHeight t) as [needed t'].
  cbn [snd] in Hs. subst t'.
  destruct (needed >? tn_height t + n0_5)%f64; reflexivity.
Qed.

Lemma qa_loop_nodes (om : JsMap.t TextEntry) (m : JsMap.t TextNode)
    (acc : Acc) :
  snd (qa_loop om m acc) = m.
Proof.
  revert acc. induction m as [|[id t] m IH]; intros acc; [reflexivity|].
  cbn [QA.qa_loop].
  pose proof (qa_unit_node om id t acc) as Hu.
  destruct (qa_unit om id t acc) as [acc1 t']. cbn [snd] in Hu. subst t'.
  specialize (IH acc1).
  destruct (qa_loop om m acc1) as [acc2 rest']. cbn [snd] in *.
  subst rest'. reflexivity.
Qed.

(** A QA pass leaves every node of the map as it found it. *)
Lemma runQA_nodes (m : JsMap.t TextNode) (es : list TextEntry)
    (language : Language) (fontErrors : list string) :
  snd (runQA m es language fontErrors) = m.
Proof.
  unfold QA.runQA.
  pose proof (qa_loop_nodes (originalMap_of es) m (mkAcc [] [])) as H.
  destruct (qa_loop (originalMap_of es) m (mkAcc [] [])) as [acc m'].
  cbn [snd] in *. exact H.
Qed.

(** C9.  A second QA pass, run on the map as the first pass left it
    with the same baseline, language and font errors, gives the same
    report: the first pass hands every node back with the mode, width
    and height it had. *)
Theorem runQA_twice (m : JsMap.t TextNode) (es : list TextEntry)
    (language : Language) (fontErrors : list string) :
  let first := runQA m es language fontErrors in
  let second := runQA (snd first) es language fontErrors in
  fst second = fst first
  /\ snd first = m
  /\ Forall2 (fun before after =>
                fst after = fst before
                /\ tn_textAutoResize (snd after)
                   = tn_textAutoResize (snd before)
                /\ tn_width (snd after) = tn_width (snd before)
                /\ tn_height (snd after) = tn_height (snd before))
             m (snd first).
Proof.
  cbn zeta. rewrite runQA_nodes. repeat split.
  induction m as [|kv m IH]; constructor; auto.
Qed.

(** *** What a unit adds to the report *)

(** The issues one turn of the loop pushes. *)
Definition unit_issues (om : JsMap.t TextEntry) (id : string)
    (t : TextNode) : list QAIssue :=
  acc_issues (fst (qa_unit om id t (mkAcc [] []))).

(** The issue of check 3, if the check fires. *)
Definition container_issues (t : TextNode) : list QAIssue :=
  if overflows (checkParentOverflow t)
  then [mkIssue red container_overflow (tn_id t) (tn_name t)
          "Breaks container"]
  else [].

Definition overflow_issue (t : TextNode) : QAIssue :=
  mkIssue red text_overflow (tn_id t) (tn_name t) "Overflow".

Definition wrap_issue (t : TextNode) (original : TextEntry) : QAIssue :=
  mkIssue amber text_overflow (tn_id t) (tn_name t)
    (wrap_message
       (extraLines (tn_height t - e_height original)%f64
          (effective_lineHeight original))).

(** The test of check 2, in binary64 as the code computes it. *)
Definition grew_a_line (t : TextNode) (original : TextEntry) : bool :=
  ((tn_height t - e_height original)
   >? Num.max (effective_lineHeight original * n0_8)%f64 n4)%f64.

(** The test of check 1: the sum is the binary64 sum. *)
Definition exceeds (neededHeight fixedHeight : num) : bool :=
  (neededHeight >? fixedHeight + n0_5)%f64.

(** The line count is an integer, or not finite: the message prints
    it exactly. *)
Lemma extraLines_printable (heightDelta lineHeight : num) :
  match extraLines heightDelta lineHeight with
  | Num.Fin q => Num.is_integer (Num.Fin q) = true
  | _ => True
  end.
Proof.
  assert (Hz : forall z, Num.is_integer (Num.of_Z z) = true).
  { intros z. unfold Num.is_integer, Num.of_Z. rewrite Qfloor_Z.
    apply Qeq_bool_iff. reflexivity. }
  unfold extraLines.
  destruct (heightDelta / lineHeight)%f64 as [q| | |]; cbn [Num.round].
  - unfold Num.max, n1.
    destruct (Num.of_Z 1 <? Num.of_Z (Qfloor (q + (1 # 2))))%num;
      apply Hz.
  - exact I.
  - apply (Hz 1%Z).
  - exact I.
Qed.

Lemma set_add_idem (id : string) (s : list string) :
  set_add id (set_add id s) = set_add id s.
Proof.
  unfold set_add. destruct (existsb (String.eqb id) s) eqn:E.
  - rewrite E. reflexivity.
  - rewrite existsb_app. cbn.
    rewrite String.eqb_refl, orb_true_r. reflexivity.
Qed.

(** The arrays after adding the issues [new] of the unit [id]. *)
Definition pushed (id : string) (new : list QAIssue) (acc : Acc) : Acc :=
  mkAcc (acc_issues acc ++ new)
    (match new with
     | [] => acc_issueEntryIds acc
     | _ => set_add id (acc_issueEntryIds acc)
     end).

Lemma checks_2_3_pushed (id : string) (resize : AutoResize)
    (t : TextNode) (original : TextEntry) (acc : Acc) :
  checks_2_3 id resize t original acc
  = pushed id
      ((match resize with
        | AR_HEIGHT =>
            if grew_a_line t original then [wrap_issue t original]
            else []
        | _ => []
        end) ++ container_issues t)
      acc.
Proof.
  unfold checks_2_3, container_issues, pushed, flag, grew_a_line,
    wrap_issue.
  destruct acc as [pushed0 ids]. cbn [acc_issues acc_issueEntryIds].
  destruct resize;
    try (destruct (overflows (checkParentOverflow t));
         cbn [app]; rewrite ?app_nil_r; reflexivity).
  destruct ((tn_height t - e_height original
             >? Num.max (effective_lineHeight original * n0_8)%f64 n4)%f64);
    destruct (overflows (checkParentOverflow t));
    cbn [app acc_issues acc_issueEntryIds];
    rewrite ?app_nil_r, ?set_add_idem, <- ?app_assoc; reflexivity.
Qed.

(** What a turn does to the arrays, whatever they hold. *)
Lemma qa_unit_pushed (om : JsMap.t TextEntry) (id : string)
    (t : TextNode) (acc : Acc) :
  fst (qa_unit om id t acc) = pushed id (unit_issues om id t) acc.
Proof.
  unfold unit_issues, QA.qa_unit.
  destruct (tn_parents t).
  { destruct acc; unfold pushed; cbn. rewrite app_nil_r. reflexivity. }
  destruct (JsMap.get id om) as [original|].
  2:{ destruct acc; unfold pushed; cbn. rewrite app_nil_r. reflexivity. }
  assert (Hgen : forall resize t',
             checks_2_3 id resize t' original acc
             = pushed id
                 (acc_issues
                    (checks_2_3 id resize t' original (mkAcc [] [])))
                 acc).
  { intros. rewrite !checks_2_3_pushed. unfold pushed at 2.
    cbn [acc_issues app]. reflexivity. }
  destruct (tn_textAutoResize t); cbn [fst]; try apply Hgen.
  destruct (measureNeededHeight t) as [needed t'].
  destruct (needed >? tn_height t' + n0_5)%f64; cbn [fst].
  - reflexivity.
  - apply Hgen.
Qed.

Lemma pushed_app (id : string) (new : list QAIssue) (acc : Acc) :
  acc_issues (pushed id new acc) = (acc_issues acc ++ new)%list.
Proof. reflexivity. Qed.

Definition all_unit_issues (om : JsMap.t TextEntry)
    (m : JsMap.t TextNode) : list QAIssue :=
  flat_map (fun kv => unit_issues om (fst kv) (snd kv)) m.

Lemma qa_loop_issues (om : JsMap.t TextEntry) (m : JsMap.t TextNode)
    (acc : Acc) :
  acc_issues (fst (qa_loop om m acc))
  = (acc_issues acc ++ all_unit_issues om m)%list.
Proof.
  revert acc. induction m as [|[id t] m IH]; intros acc.
  - cbn. rewrite app_nil_r. reflexivity.
  - cbn [QA.qa_loop all_unit_issues flat_map fst snd].
    pose proof (qa_unit_pushed om id t acc) as Hu.
    destruct (qa_unit om id t acc) as [acc1 t']. cbn [fst] in Hu.
    specialize (IH acc1).
    destruct (qa_loop om m acc1) as [acc2 rest']. cbn [fst] in *.
    rewrite IH, Hu, pushed_app, <- app_assoc. reflexivity.
Qed.

(** The ids a pass implicates: those of the units that pushed an
    issue. *)
Lemma qa_loop_ids (om : JsMap.t TextEntry) (m : JsMap.t TextNode)
    (acc : Acc) (id : string) :
  In id (acc_issueEntryIds (fst (qa_loop om m acc))) <->
  In id (acc_issueEntryIds acc)
  \/ exists t, In (id, t) m /\ unit_issues om id t <> [].
Proof.
  assert (Hadd : forall a s, In id (set_add a s) <-> a = id \/ In id s).
  { intros a s. unfold set_add.
    destruct (existsb (String.eqb a) s) eqn:E.
    - split; [tauto|]. intros [<-|H]; [|exact H].
      apply existsb_exists in E as (x & Hx & Ex).
      apply String.eqb_eq in Ex. subst x. exact Hx.
    - rewrite in_app_iff. cbn. tauto. }
  revert acc. induction m as [|[k t] m IH]; intros acc.
  - cbn. split; [tauto|]. intros [H|(t & [] & _)]. exact H.
  - cbn [QA.qa_loop].
    pose proof (qa_unit_pushed om k t acc) as Hu.
    destruct (qa_unit om k t acc) as [acc1 t']. cbn [fst] in Hu.
    specialize (IH acc1).
    destruct (qa_loop om m acc1) as [acc2 rest']. cbn [fst] in *.
    rewrite IH, Hu. unfold pushed. cbn [acc_issueEntryIds].
    split.
    + intros [H|(t0 & Hin & Hne)].
      * destruct (unit_issues om k t) eqn:Eu; [left; exact H|].
        apply Hadd in H as [->|H]; [|left; exact H].
        right. exists t. split; [left; reflexivity|]. rewrite Eu.
        discriminate.
      * right. exists t0. split; [right; exact Hin|exact Hne].
    + intros [H|(t0 & [[= -> ->]|Hin] & Hne)].
      * left. destruct (unit_issues om k t); [exact H|].
        apply Hadd. right. exact H.
      * left. destruct (unit_issues om id t0); [congruence|].
        apply Hadd. left. reflexivity.
      * right. exists t0. split; assumption.
Qed.

Lemma font_issues_pushed (fontErrors : list string)
    (pushed_so_far : list QAIssue) :
  fold_left (fun (acc : list QAIssue) (_ : string) =>
               (acc ++ [font_issue])%list)
            fontErrors pushed_so_far
  = (pushed_so_far ++ repeat font_issue (length fontErrors))%list.
Proof.
  revert pushed_so_far.
  induction fontErrors as [|e es IH]; intros p; cbn.
  - rewrite app_nil_r. reflexivity.
  - rewrite IH, <- app_assoc. reflexivity.
Qed.

(** The issues of a report: those of the units in the order of the
    map, then one per font error. *)
Lemma runQA_issues (m : JsMap.t TextNode) (es : list TextEntry)
    (language : Language) (fontErrors : list string) :
  issues (fst (runQA m es language fontErrors))
  = (all_unit_issues (originalMap_of es) m
     ++ repeat font_issue (length fontErrors))%list.
Proof.
  unfold QA.runQA.
  pose proof (qa_loop_issues (originalMap_of es) m (mkAcc [] [])) as H.
  destruct (qa_loop (originalMap_of es) m (mkAcc [] [])) as [acc m'].
  cbn [fst acc_issues app] in *.
  rewrite font_issues_pushed, H. reflexivity.
Qed.

Lemma runQA_ids (m : JsMap.t TextNode) (es : list TextEntry)
    (language : Language) (fontErrors : list string) (id : string) :
  In id (issueEntryIds (fst (runQA m es language fontErrors))) <->
  exists t, In (id, t) m /\ unit_issues (originalMap_of es) id t <> [].
Proof.
  unfold QA.runQA.
  pose proof (qa_loop_ids (originalMap_of es) m (mkAcc [] []) id) as H.
  destruct (qa_loop (originalMap_of es) m (mkAcc [] [])) as [acc m'].
  cbn [fst issueEntryIds acc_issueEntryIds] in *.
  rewrite H. cbn. tauto.
Qed.

Lemma all_unit_issues_app (om : JsMap.t TextEntry)
    (pre post : JsMap.t TextNode) :
  all_unit_issues om (pre ++ post)%list
  = (all_unit_issues om pre ++ all_unit_issues om post)%list.
Proof. apply flat_map_app. Qed.

(** The issues of a fixed-box unit that is attached and has a
    baseline. *)
Lemma unit_issues_NONE (om : JsMap.t TextEntry) (id : string)
    (t : TextNode) (original : TextEntry) :
  tn_parents t <> [] -> JsMap.get id om = Some original ->
  tn_textAutoResize t = AR_NONE ->
  unit_issues om id t
  = if exceeds (fst (measureNeededHeight t)) (tn_height t)
    then [overflow_issue t] else container_issues t.
Proof.
  intros Hp Ho Hm. unfold unit_issues, QA.qa_unit.
  destruct (tn_parents t); [congruence|]. rewrite Ho, Hm.
  assert (Hfix : fixed_box (tn_textAutoResize t) = true)
    by (rewrite Hm; reflexivity).
  destruct (measure_fixed t Hfix) as [Hs _].
  destruct (measureNeededHeight t) as [needed t'].
  cbn [fst snd] in *. subst t'. unfold exceeds.
  destruct (needed >? tn_height t + n0_5)%f64; [reflexivity|].
  rewrite checks_2_3_pushed. reflexivity.
Qed.

(** The issues of a unit in another mode. *)
Lemma unit_issues_other (om : JsMap.t TextEntry) (id : string)
    (t : TextNode) (original : TextEntry) :
  tn_parents t <> [] -> JsMap.get id om = Some original ->
  tn_textAutoResize t <> AR_NONE ->
  unit_issues om id t
  = ((match tn_textAutoResize t with
      | AR_HEIGHT =>
          if grew_a_line t original then [wrap_issue t original] else []
      | _ => []
      end) ++ container_issues t)%list.
Proof.
  intros Hp Ho Hm. unfold unit_issues, QA.qa_unit.
  destruct (tn_parents t); [congruence|]. rewrite Ho.
  destruct (tn_textAutoResize t); try congruence;
    cbn [fst]; rewrite checks_2_3_pushed; reflexivity.
Qed.

Lemma container_issues_type (t : TextNode) :
  Forall (fun i => i_type i = container_overflow /\ severity i = red)
         (container_issues t).
Proof.
  unfold container_issues.
  destruct (overflows (checkParentOverflow t)); repeat constructor.
Qed.

(** C2.  For a unit of the map that is attached, has a baseline entry
    and is in mode [NONE]: the measurement switches the node to
    [HEIGHT] at its width, reads the height and gives the node back
    its mode, width and height; when the height read exceeds the
    fixed height by more than 0.5 (it is above the binary64 sum of
    the fixed height and 0.5) the unit contributes the one red
    text-overflow issue 'Overflow' (no other check runs for it) and
    its id is implicated; otherwise it contributes no text-overflow
    issue, only what the container check finds.  41 against 40
    exceeds, 40.3 against 40 does not, and neither does 16.1 against
    15.6, whose sum with 0.5 is 16.1 in binary64. *)
Theorem fixed_box_check (m pre post : JsMap.t TextNode)
    (es : list TextEntry) (language : Language)
    (fontErrors : list string) (id : string) (t : TextNode)
    (original : TextEntry) :
  m = (pre ++ (id, t) :: post)%list ->
  tn_parents t <> [] ->
  JsMap.get id (originalMap_of es) = Some original ->
  tn_textAutoResize t = AR_NONE ->
  let om := originalMap_of es in
  let report := fst (runQA m es language fontErrors) in
  let neededHeight := fst (measureNeededHeight t) in
  snd (measureNeededHeight t) = t
  /\ (tn_fontsLoaded t = true ->
      exists t1,
        set_textAutoResize AR_HEIGHT t = Some t1
        /\ tn_textAutoResize t1 = AR_HEIGHT
        /\ tn_width t1 = tn_width t
        /\ neededHeight = tn_height t1)
  /\ issues report
     = (all_unit_issues om pre ++ unit_issues om id t
        ++ all_unit_issues om post
        ++ repeat font_issue (length fontErrors))%list
  /\ (exceeds neededHeight (tn_height t) = true ->
      unit_issues om id t = [overflow_issue t]
      /\ In id (issueEntryIds report))
  /\ (exceeds neededHeight (tn_height t) = false ->
      unit_issues om id t = container_issues t
      /\ Forall (fun i => i_type i <> text_overflow)
                (unit_issues om id t))
  /\ exceeds (Num.of_Z 41) (Num.of_Z 40) = true
  /\ exceeds (Num.Fin (403 # 10)) (Num.of_Z 40) = false
  /\ exceeds (Num.Fin (161 # 10)) (Num.Fin (156 # 10)) = false.
Proof.
  intros Hm Hp Ho Hmode om report neededHeight.
  assert (Hfix : fixed_box (tn_textAutoResize t) = true)
    by (rewrite Hmode; reflexivity).
  destruct (measure_fixed t Hfix) as (Hs & Hl & _).
  pose proof (unit_issues_NONE om id t original Hp Ho Hmode) as Hu.
  fold neededHeight in Hu.
  split; [exact Hs|]. split.
  { intros Hloaded. destruct (Hl Hloaded) as (t1 & H1 & H2 & H3 & _ & H5).
    exists t1. repeat split; assumption. }
  split.
  { subst report. rewrite runQA_issues. fold om. subst m.
    rewrite all_unit_issues_app. cbn [all_unit_issues flat_map fst snd].
    rewrite <- !app_assoc. reflexivity. }
  split; [|split; [|repeat split; vm_compute; reflexivity]].
  - intros He. rewrite He in Hu. split; [exact Hu|].
    subst report. apply runQA_ids. exists t. split.
    + subst m. apply in_elt.
    + fold om. rewrite Hu. discriminate.
  - intros He. rewrite He in Hu. split; [exact Hu|]. rewrite Hu.
    eapply List.Forall_impl; [|apply container_issues_type].
    intros i [Hi _]. rewrite Hi. discriminate.
Qed.

(** C3.  For a unit of the map that is attached and has a baseline
    entry: in mode [HEIGHT], when the height of the node minus the
    baseline height exceeds [max(lineHeight * 0.8, 4)], the unit
    contributes an amber text-overflow issue whose message is 'New
    line' when [max(1, round(delta / lineHeight))] is 1 and '+N
    lines' otherwise, before what the container check finds, and
    its id is implicated; when it does not exceed, and in mode
    [WIDTH_AND_HEIGHT] always, the unit contributes only what the
    container check finds.  The difference, the product, the
    quotient and the comparison are those of binary64.  With line
    height 20, baseline height 20 and height 41 the difference 21
    exceeds the threshold 16, the count is 1 and the message is 'New
    line'; with line height 24, baseline height 24 and height 43.2
    the difference does not exceed the threshold, both being
    19.200000000000003 in binary64. *)
Theorem line_wrap_check (m pre post : JsMap.t TextNode)
    (es : list TextEntry) (language : Language)
    (fontErrors : list string) (id : string) (t : TextNode)
    (original : TextEntry) :
  m = (pre ++ (id, t) :: post)%list ->
  tn_parents t <> [] ->
  JsMap.get id (originalMap_of es) = Some original ->
  let om := originalMap_of es in
  let report := fst (runQA m es language fontErrors) in
  let lineHeight := effective_lineHeight original in
  let heightDelta := (tn_height t - e_height original)%f64 in
  let threshold := Num.max (lineHeight * n0_8)%f64 n4 in
  let count := Num.max n1 (Num.round (heightDelta / lineHeight)%f64) in
  issues report
  = (all_unit_issues om pre ++ unit_issues om id t
     ++ all_unit_issues om post
     ++ repeat font_issue (length fontErrors))%list
  /\ (tn_textAutoResize t = AR_HEIGHT ->
      (heightDelta >? threshold)%f64 = true ->
      unit_issues om id t
      = (mkIssue amber text_overflow (tn_id t) (tn_name t)
           (if Num.strict_eq count n1 then "New line"
            else "+" ++ Num.to_string count ++ " lines")
         :: container_issues t)%list
      /\ In id (issueEntryIds report))
  /\ (tn_textAutoResize t = AR_HEIGHT ->
      (heightDelta >? threshold)%f64 = false ->
      unit_issues om id t = container_issues t)
  /\ (tn_textAutoResize t = AR_WIDTH_AND_HEIGHT ->
      unit_issues om id t = container_issues t)
  /\ (e_lineHeight original = Num.of_Z 20 ->
      e_height original = Num.of_Z 20 ->
      tn_height t = Num.of_Z 41 ->
      heightDelta = Num.of_Z 21 /\ threshold = Num.of_Z 16
      /\ (heightDelta >? threshold)%f64 = true
      /\ count = Num.of_Z 1
      /\ message (wrap_issue t original) = "New line")
  /\ (e_lineHeight original = Num.of_Z 24 ->
      e_height original = Num.of_Z 24 ->
      tn_height t = Num.Fin (432 # 10) ->
      heightDelta = threshold
      /\ (heightDelta >? threshold)%f64 = false).
Proof.
  intros Hm Hp Ho om report lineHeight heightDelta threshold count.
  split.
  { subst report. rewrite runQA_issues. fold om. subst m.
    rewrite all_unit_issues_app. cbn [all_unit_issues flat_map fst snd].
    rewrite <- !app_assoc. reflexivity. }
  split; [|split; [|split; [|split]]].
  - intros Hmode Hgt.
    assert (Hne : tn_textAutoResize t <> AR_NONE) by congruence.
    pose proof (unit_issues_other om id t original Hp Ho Hne) as Hu.
    rewrite Hmode in Hu. unfold grew_a_line in Hu.
    fold lineHeight heightDelta threshold in Hu. rewrite Hgt in Hu.
    split; [exact Hu|].
    subst report. apply runQA_ids. exists t. split.
    + subst m. apply in_elt.
    + fold om. rewrite Hu. discriminate.
  - intros Hmode Hgt.
    assert (Hne : tn_textAutoResize t <> AR_NONE) by congruence.
    pose proof (unit_issues_other om id t original Hp Ho Hne) as Hu.
    rewrite Hmode in Hu. unfold grew_a_line in Hu.
    fold lineHeight heightDelta threshold in Hu. rewrite Hgt in Hu.
    exact Hu.
  - intros Hmode.
    assert (Hne : tn_textAutoResize t <> AR_NONE) by congruence.
    pose proof (unit_issues_other om id t original Hp Ho Hne) as Hu.
    rewrite Hmode in Hu. exact Hu.
  - intros Hlh Hh Ht.
    assert (El : lineHeight = Num.of_Z 20).
    { subst lineHeight. unfold effective_lineHeight. rewrite Hlh.
      reflexivity. }
    unfold wrap_issue, message. fold lineHeight heightDelta.
    subst heightDelta threshold count. rewrite El, Hh, Ht.
    repeat split; vm_compute; reflexivity.
  - intros Hlh Hh Ht.
    assert (El : lineHeight = Num.of_Z 24).
    { subst lineHeight. unfold effective_lineHeight. rewrite Hlh.
      reflexivity. }
    subst heightDelta threshold. rewrite El, Hh, Ht.
    split; vm_compute; reflexivity.
Qed.

End WithHost.
End QAFacts.

(** ** The retry loop of the translation client *)

Module TranslateFacts.
Import Translate.

(** How the loop takes an answer. *)
Inductive Outcome : Type :=
| Fatal (lastError : string)        (* 401: return the error *)
| RateLimited (lastError : string)  (* 429: wait, then go on *)
| Retry (lastError : string)        (* go on at once *)
| Success (translations : gmap string string).

Definition classify (entries : list TextEntry) (response : OpenAIResponse)
  : Outcome :=
  if negb (ok response) then
    let lastError := or_else (r_error response) "Unknown error" in
    match r_status response with
    | Some 401%Z => Fatal lastError
    | Some 429%Z => RateLimited lastError
    | _ => Retry lastError
    end
  else
    match data response with
    | None | Some NotAnObject => Retry "Invalid response format from OpenAI."
    | Some (Object props) =>
        match extract props (map e_id entries) ∅ 0 with
        | (_, O) => Retry "No valid translations in response."
        | (translations, S _) => Success translations
        end
    end.

(** The system prompt of the turn [attempt]. *)
Definition prompt_of (attempt : nat) : string :=
  SYSTEM_PROMPT ++ (if (0 <? attempt)%nat then STRICT_SUFFIX else "").

(** The calls among the effects. *)
Fixpoint calls (effs : list Effect) : list string :=
  match effs with
  | [] => []
  | CallOpenAI p :: effs' => p :: calls effs'
  | Delay _ :: effs' => calls effs'
  end.

Section WithNetwork.
Variable callOpenAI : nat -> string -> OpenAIResponse.
Variable aborted : nat -> bool.

#[local] Abbreviation attempts := (Translate.attempts callOpenAI aborted).
#[local] Abbreviation translateBatch :=
  (Translate.translateBatch callOpenAI aborted).

(** One turn of the loop, by the outcome of its call. *)
Lemma attempts_step (entries : list TextEntry) (remaining attempt : nat)
    (lastError : string) :
  aborted attempt = false ->
  attempts entries (S remaining) attempt lastError
  = let p := prompt_of attempt in
    match classify entries (callOpenAI attempt p) with
    | Fatal e => (mkResult None (Some e), [CallOpenAI p])
    | RateLimited e =>
        let rest := attempts entries remaining (S attempt) e in
        (fst rest,
         CallOpenAI p :: Delay (2000 * (Z.of_nat attempt + 1))
           :: snd rest)
    | Retry e =>
        let rest := attempts entries remaining (S attempt) e in
        (fst rest, CallOpenAI p :: snd rest)
    | Success translations =>
        (mkResult (Some translations) None, [CallOpenAI p])
    end.
Proof.
  intros Hab. cbn [Translate.attempts]. rewrite Hab.
  unfold classify, prompt_of. cbn zeta.
  set (p := SYSTEM_PROMPT ++ (if (0 <? attempt)%nat then STRICT_SUFFIX
                              else "")).
  set (response := callOpenAI attempt p).
  destruct (negb (ok response)).
  - destruct (r_status response) as [[|s|s]|];
      try (destruct (attempts entries remaining (S attempt) _);
           reflexivity).
    destruct (Pos.eq_dec s 401%positive) as [->|N401]; [reflexivity|].
    destruct (Pos.eq_dec s 429%positive) as [->|N429].
    { destruct (attempts entries remaining (S attempt) _); reflexivity. }
    assert (E : forall (A : Type) (a b c : A),
               match Z.pos s with
               | 401%Z => a | 429%Z => b | _ => c
               end = c).
    { intros A a b c.
      repeat (destruct s as [s|s|]; try reflexivity; try congruence). }
    rewrite !E.
    destruct (attempts entries remaining (S attempt) _); reflexivity.
  - destruct (data response) as [[|props]|];
      try (destruct (attempts entries remaining (S attempt) _);
           reflexivity).
    destruct (extract props (map e_id entries) ∅ 0) as [tr [|valid]];
      [|reflexivity].
    destruct (attempts entries remaining (S attempt) _); reflexivity.
Qed.

(** A run in which every turn is to be retried: the error of the
    last turn comes back, after one call per turn. *)
Lemma attempts_exhausted (entries : list TextEntry)
    (errors : nat -> string) (remaining attempt : nat)
    (lastError : string) :
  (forall k, (attempt <= k < attempt + remaining)%nat ->
             aborted k = false
             /\ (classify entries (callOpenAI k (prompt_of k))
                 = Retry (errors k)
                 \/ classify entries (callOpenAI k (prompt_of k))
                    = RateLimited (errors k))) ->
  let run := attempts entries remaining attempt lastError in
  fst run
  = mkResult None
      (Some (match remaining with
             | O => lastError
             | S r => errors (attempt + r)%nat
             end))
  /\ calls (snd run) = map prompt_of (seq attempt remaining).
Proof.
  revert attempt lastError.
  induction remaining as [|r IH]; intros attempt lastError H.
  - split; reflexivity.
  - destruct (H attempt ltac:(lia)) as [Hab Hc].
    cbn zeta. rewrite (attempts_step _ _ _ _ Hab). cbn zeta.
    assert (Hr : forall k, (S attempt <= k < S attempt + r)%nat ->
               aborted k = false
               /\ (classify entries (callOpenAI k (prompt_of k))
                   = Retry (errors k)
                   \/ classify entries (callOpenAI k (prompt_of k))
                      = RateLimited (errors k))).
    { intros k Hk. apply H. lia. }
    specialize (IH (S attempt) (errors attempt) Hr). cbn zeta in IH.
    destruct IH as [IH1 IH2].
    assert (Hlast : match r with
                    | O => errors attempt
                    | S r' => errors (S attempt + r')%nat
                    end = errors (attempt + r)%nat).
    { destruct r; f_equal; lia. }
    destruct Hc as [-> | ->]; cbn [fst snd calls];
      rewrite IH1, Hlast; (split; [reflexivity|]);
      cbn [seq map]; f_equal; exact IH2.
Qed.

Lemma status_other (A : Type) (s : option Z) (a b c : A) :
  s <> Some 401%Z -> s <> Some 429%Z ->
  match s with
  | Some 401%Z => a
  | Some 429%Z => b
  | _ => c
  end = c.
Proof.
  intros H1 H2. destruct s as [[|s|s]|]; try reflexivity.
  destruct (Pos.eq_dec s 401%positive) as [->|N401]; [congruence|].
  destruct (Pos.eq_dec s 429%positive) as [->|N429]; [congruence|].
  repeat (destruct s as [s|s|]; try reflexivity; try congruence).
Qed.

(** A turn that is not cancelled begins with its call. *)
Lemma attempts_head (entries : list TextEntry) (remaining attempt : nat)
    (lastError : string) :
  aborted attempt = false ->
  exists tail,
    snd (attempts entries (S remaining) attempt lastError)
    = CallOpenAI (prompt_of attempt) :: tail.
Proof.
  intros Hab. rewrite (attempts_step _ _ _ _ Hab). cbn zeta.
  destruct (classify entries (callOpenAI attempt (prompt_of attempt)));
    eexists; reflexivity.
Qed.

(** C4.  One turn of the retry loop, the signal not aborted, by the
    answer of its call: a 401 returns the error at once, with no
    further call whatever the turns left; a 429 waits
    [2000 * (attempt + 1)] ms and goes on; an answer that is not ok
    for another reason (a parse failure), that is not an object, or
    that has no string for any requested id goes on at once, without
    a wait; the call of every turn after the first appends the strict
    suffix to the system prompt.  When no turn is left the result is
    no translations with the last error; a run of [n + 1] turns that
    all ask for a retry makes [n + 1] calls and returns the error of
    the last one. *)
Theorem retry_law (entries : list TextEntry) (remaining attempt : nat)
    (lastError : string) :
  aborted attempt = false ->
  let p := prompt_of attempt in
  let response := callOpenAI attempt p in
  let lastError' := or_else (r_error response) "Unknown error" in
  let run := attempts entries (S remaining) attempt lastError in
  let rest := attempts entries remaining (S attempt) in
  (ok response = false -> r_status response = Some 401%Z ->
   run = (mkResult None (Some lastError'), [CallOpenAI p]))
  /\ (ok response = false -> r_status response = Some 429%Z ->
      run = (fst (rest lastError'),
             CallOpenAI p :: Delay (2000 * (Z.of_nat attempt + 1))
               :: snd (rest lastError')))
  /\ (ok response = false -> r_status response <> Some 401%Z ->
      r_status response <> Some 429%Z ->
      run = (fst (rest lastError'), CallOpenAI p :: snd (rest lastError')))
  /\ (ok response = true ->
      data response = None \/ data response = Some NotAnObject ->
      let e := "Invalid response format from OpenAI." in
      run = (fst (rest e), CallOpenAI p :: snd (rest e)))
  /\ (ok response = true ->
      forall props, data response = Some (Object props) ->
      snd (extract props (map e_id entries) ∅ 0) = 0%nat ->
      let e := "No valid translations in response." in
      run = (fst (rest e), CallOpenAI p :: snd (rest e)))
  /\ (forall e r, aborted (S attempt) = false -> remaining = S r ->
      exists tail,
        snd (rest e) = CallOpenAI (SYSTEM_PROMPT ++ STRICT_SUFFIX) :: tail)
  /\ (forall a e, attempts entries 0 a e = (mkResult None (Some e), []))
  /\ (forall (n : nat) (errors : nat -> string),
      (forall k, (k <= n)%nat ->
         aborted k = false
         /\ (classify entries (callOpenAI k (prompt_of k))
             = Retry (errors k)
             \/ classify entries (callOpenAI k (prompt_of k))
                = RateLimited (errors k))) ->
      fst (translateBatch entries (Z.of_nat n))
      = mkResult None (Some (errors n))
      /\ length (calls (snd (translateBatch entries (Z.of_nat n))))
         = S n).
Proof.
  intros Hab p response lastError' run rest.
  assert (Hstep := attempts_step entries remaining attempt lastError Hab).
  cbn zeta in Hstep. fold p response run in Hstep.
  unfold classify in Hstep. fold response lastError' in Hstep.
  split; [|split; [|split; [|split; [|split; [|split; [|split]]]]]].
  - intros Hok Hs. rewrite Hstep, Hok, Hs. reflexivity.
  - intros Hok Hs. rewrite Hstep, Hok, Hs. reflexivity.
  - intros Hok H1 H2. rewrite Hstep, Hok. cbn [negb].
    rewrite (status_other _ _ _ _ _ H1 H2). reflexivity.
  - intros Hok Hd e. rewrite Hstep, Hok. cbn [negb].
    destruct Hd as [-> | ->]; reflexivity.
  - intros Hok props Hd Hv e. rewrite Hstep, Hok, Hd. cbn [negb].
    destruct (extract props (map e_id entries) ∅ 0) as [tr valid].
    cbn [snd] in Hv. subst valid. reflexivity.
  - intros e r Hab' ->. subst rest.
    destruct (attempts_head entries r (S attempt) e Hab') as [tail Ht].
    exists tail. exact Ht.
  - intros a e. reflexivity.
  - intros n errors H. unfold Translate.translateBatch.
    replace (Z.to_nat (Z.of_nat n + 1)) with (S n) by lia.
    destruct (attempts_exhausted entries errors (S n) 0 "") as [H1 H2].
    { intros k Hk. apply H. lia. }
    split.
    + rewrite H1. reflexivity.
    + rewrite H2, length_map, length_seq. reflexivity.
Qed.

End WithNetwork.
End TranslateFacts.

(** ** Merging a rewrite-shorter result *)

Module MergeFacts.
Import Translate UI.

Lemma merge_lookup (stored translations : gmap string string)
    (id : string) :
  merge stored translations !! id
  = match translations !! id with
    | Some v => Some v
    | None => stored !! id
    end.
Proof.
  unfold merge. rewrite lookup_union.
  destruct (translations !! id), (stored !! id); reflexivity.
Qed.

(** What the extraction loop leaves under an id. *)
Lemma extract_lookup (props : gmap string PropValue) (ids : list string)
    (acc : gmap string string) (valid : nat) (id : string) :
  fst (extract props ids acc valid) !! id
  = match props !! id with
    | Some (StringValue v) => if bool_decide (id ∈ ids) then Some v
                              else acc !! id
    | _ => acc !! id
    end.
Proof.
  revert acc valid. induction ids as [|k ids IH]; intros acc valid.
  - cbn. destruct (props !! id) as [[v|]|]; reflexivity.
  - cbn [extract].
    destruct (decide (id = k)) as [->|Hne].
    + destruct (props !! k) as [[v|]|] eqn:Ek; rewrite IH, ?Ek;
        rewrite ?lookup_insert_eq.
      * rewrite (bool_decide_eq_true_2 (k ∈ k :: ids)) by constructor.
        destruct (bool_decide (k ∈ ids)); reflexivity.
      * reflexivity.
      * reflexivity.
    + assert (Hin : bool_decide (id ∈ k :: ids) = bool_decide (id ∈ ids)).
      { apply bool_decide_ext. rewrite elem_of_cons. tauto. }
      rewrite Hin.
      destruct (props !! k) as [[v|]|]; rewrite IH;
        rewrite ?lookup_insert_ne by congruence; reflexivity.
Qed.

(** C7.  The merge of a shorten result into the stored set holds,
    under each id, the value of the result when the result has the id
    and the stored value otherwise; so every stored id is kept, and an
    id for which the response has no string keeps its translation.  The
    merged set is what the UI stores for the language before it sends
    [apply-rewrites].  For a stored set [{a, b}] and a result [{a}],
    the merge is [{a: new, b: old}]. *)
Theorem merge_law (stored translations : gmap string string) :
  (forall id,
      merge stored translations !! id
      = match translations !! id with
        | Some v => Some v
        | None => stored !! id
        end)
  /\ (forall id, is_Some (stored !! id) ->
      is_Some (merge stored translations !! id))
  /\ (forall langCode ui,
        let result := mkResult (Some translations) None in
        let out := rewrite_finish langCode stored result ui in
        translationsStore (fst out) !! langCode
        = Some (merge stored translations)
        /\ snd out = [Controller.apply_rewrites langCode translations])
  /\ (forall entries response props id,
        entries <> [] -> ok response = true ->
        data response = Some (Object props) ->
        (forall v, props !! id <> Some (StringValue v)) ->
        exists shortened,
          Translate.translations (shortenTranslations entries response)
          = Some shortened
          /\ shortened !! id = None
          /\ merge stored shortened !! id = stored !! id)
  /\ (forall a b old_a old_b new_a : string,
        a <> b ->
        merge {[a := old_a; b := old_b]} {[a := new_a]}
        = ({[a := new_a; b := old_b]} : gmap string string)).
Proof.
  split; [|split; [|split; [|split]]].
  - apply merge_lookup.
  - intros id [v Hv]. rewrite merge_lookup, Hv.
    destruct (translations !! id); eauto.
  - intros langCode ui result out. subst out result.
    unfold rewrite_finish. cbn. rewrite lookup_insert_eq.
    split; reflexivity.
  - intros entries response props id Hne Hok Hd Hnot.
    unfold shortenTranslations.
    destruct entries as [|e entries]; [congruence|].
    rewrite Hok, Hd. cbn [negb Translate.translations].
    eexists. split; [reflexivity|].
    assert (Hnone : fst (extract props (map s_id (e :: entries)) ∅ 0) !! id
                    = None).
    { rewrite extract_lookup.
      destruct (props !! id) as [[v|]|] eqn:E.
      - exfalso. eapply Hnot. reflexivity.
      - apply lookup_empty.
      - apply lookup_empty. }
    split; [exact Hnone|]. rewrite merge_lookup, Hnone. reflexivity.
  - intros a b old_a old_b new_a Hab. apply map_eq. intros k.
    rewrite merge_lookup.
    destruct (decide (k = a)) as [->|Hka].
    + rewrite lookup_singleton_eq, !lookup_insert_eq. reflexivity.
    + rewrite lookup_singleton_ne by congruence.
      rewrite !(lookup_insert_ne _ a k) by congruence. reflexivity.
Qed.

End MergeFacts.

(** ** Cancellation *)

Module CancelFacts.
Import Controller.

Definition is_request (m : ControllerMessage) : bool :=
  match m with request_translation _ _ _ _ _ => true | _ => false end.

Definition is_all_complete (m : ControllerMessage) : bool :=
  match m with all_complete _ => true | _ => false end.

(** A translation result: one of the two messages that end a
    translation. *)
Definition is_result (msg : UIMessage) : bool :=
  match msg with
  | translations_ready _ _ | translation_error _ _ => true
  | _ => false
  end.

Definition is_error_result (msg : UIMessage) : bool :=
  match msg with translation_error _ _ => true | _ => false end.

Section WithHost.
Variable reflowHeight : TextNode -> num.
Variable naturalSize : TextNode -> num * num.
Variable nodeFontsLoad : TextNode -> bool.
Variable fontLoads : FontName -> bool.
Variable reorders : SceneNode -> bool.
Variable cloneOf : nat -> SceneNode -> SceneNode.

#[local] Abbreviation onmessage :=
  (Controller.onmessage reflowHeight naturalSize nodeFontsLoad fontLoads).
#[local] Abbreviation on_translations_ready :=
  (Controller.on_translations_ready reflowHeight naturalSize
     nodeFontsLoad fontLoads).
#[local] Abbreviation generate :=
  (Controller.generate reorders cloneOf).

(** The messages of a list handled one after the other. *)
Fixpoint handle_all (msgs : list UIMessage) (st : State)
  : State * list ControllerMessage :=
  match msgs with
  | [] => (st, [])
  | msg :: msgs' =>
      let '(st1, out1) := onmessage msg st in
      let '(st2, out2) := handle_all msgs' st1 in
      (st2, (out1 ++ out2)%list)
  end.

Lemma request_loop_cancelled (languages : list Language) (st : State) :
  cancelled_flag st = true ->
  request_loop languages st
  = match languages with
    | [] => (true, [])
    | _ :: _ => (false, [cancelled_message])
    end.
Proof.
  intros Hc. destruct languages; cbn; [reflexivity|].
  rewrite Hc. reflexivity.
Qed.

Lemma generate_cancelled (node : SceneNode) (languages : list Language)
    (st : State) :
  cancelled_flag st = true ->
  existsb is_request (snd (generate node languages st)) = false.
Proof.
  intros Hc. unfold Controller.generate.
  destruct languages as [|lang languages].
  - reflexivity.
  - cbn [duplicate_loop]. rewrite Hc. reflexivity.
Qed.

Lemma results_while_cancelled (msgs : list UIMessage) (st : State) :
  cancelled_flag st = true ->
  forallb is_result msgs = true ->
  handle_all msgs st
  = (with_run (cloneMap st) (qaReports st)
       (pendingCount st
        - Z.of_nat (length (List.filter is_error_result msgs)))%Z st,
     []).
Proof.
  revert st. induction msgs as [|msg msgs IH]; intros st Hc Hr.
  - cbn. rewrite Z.sub_0_r. destruct st; reflexivity.
  - cbn [forallb] in Hr. apply andb_true_iff in Hr as [Hm Hr].
    cbn [handle_all].
    destruct msg as [langCode translations|langCode err| | |];
      try discriminate; cbn [Controller.onmessage].
    + unfold Controller.on_translations_ready. rewrite Hc.
      rewrite (IH st Hc Hr). reflexivity.
    + unfold on_translation_error. rewrite Hc.
      rewrite IH by (try exact Hr; exact Hc).
      cbn [List.filter is_error_result length app].
      rewrite Nat2Z.inj_succ. unfold with_run.
      cbn [settings cancelled_flag originalEntries cloneMap languageMap
             qaReports pendingCount].
      f_equal. f_equal. lia.
Qed.

(** The handlers while the cancel flag is set: the run sends no
    translation request (the loops send [cancelled] and return);
    [translations-ready] changes nothing and sends nothing;
    [translation-error] sends nothing either, but takes one off the
    pending count where [translations-ready] returns at once.  The
    UI sends no result between its cancel and its next
    [start-generate], which resets the flag: a late result reaches
    the controller in the next run ([Restart], below). *)
Lemma cancelled_results_dropped (st : State) :
  cancelled_flag st = true ->
  (forall node languages,
      existsb is_request (snd (generate node languages st)) = false)
  /\ (forall languages,
      existsb is_request (snd (request_loop languages st)) = false)
  /\ (forall langCode translations,
      on_translations_ready langCode translations st = (st, []))
  /\ (forall langCode error_text,
      on_translation_error langCode error_text st
      = (with_run (cloneMap st) (qaReports st) (pendingCount st - 1)%Z st,
         []))
  /\ (forall msgs, forallb is_result msgs = true ->
      snd (handle_all msgs st) = []
      /\ cancelled_flag (fst (handle_all msgs st)) = true
      /\ pendingCount (fst (handle_all msgs st))
         = (pendingCount st
            - Z.of_nat (length (List.filter is_error_result msgs)))%Z).
Proof.
  intros Hc. split; [|split; [|split; [|split]]].
  - intros node languages. apply generate_cancelled, Hc.
  - intros languages. rewrite (request_loop_cancelled _ _ Hc).
    destruct languages; reflexivity.
  - intros langCode translations.
    unfold Controller.on_translations_ready. rewrite Hc. reflexivity.
  - intros langCode error_text. unfold on_translation_error.
    rewrite Hc. reflexivity.
  - intros msgs Hr. rewrite (results_while_cancelled msgs st Hc Hr).
    cbn. repeat split. exact Hc.
Qed.

End WithHost.

(** A state of a cancelled run with two languages pending. *)
Definition cancelled_state : State :=
  mkState (mkSettings row (Num.of_Z 80) (Num.of_Z 3) true true true false
             true)
    true [] [] [] [] 2.

End CancelFacts.

(** ** The rewrite-shorter pass *)

Module RewriteFacts.
Import Controller.

(** The statuses of the progress messages of a list, in order. *)
Fixpoint statuses (msgs : list ControllerMessage) : list LangStatus :=
  match msgs with
  | [] => []
  | language_progress p :: msgs' => lp_status p :: statuses msgs'
  | _ :: msgs' => statuses msgs'
  end.

Lemma updateLangProgress_status (langCode : string) (s : LangStatus)
    (d : option string) (r : option QAReport) (ui : UI.State)
    (prog : LangProgress) :
  UI.langProgressMap ui !! langCode = Some prog ->
  UI.langProgressMap (UI.updateLangProgress langCode s d r ui) !! langCode
  = Some (mkProgress (lp_langCode prog) (lp_langName prog) s
            (match d with Some x => Some x | None => detail prog end)
            (match r with Some x => Some x | None => qaReport prog end)).
Proof.
  intros H. unfold UI.updateLangProgress. rewrite H. cbn.
  apply lookup_insert_eq.
Qed.

Lemma updateLangProgress_rewriting (langCode : string) (s : LangStatus)
    (d : option string) (r : option QAReport) (ui : UI.State) :
  UI.rewritingLangs (UI.updateLangProgress langCode s d r ui)
  = UI.rewritingLangs ui.
Proof.
  unfold UI.updateLangProgress.
  destruct (UI.langProgressMap ui !! langCode); reflexivity.
Qed.

(** Where [triggerRewriteShorter] stands when it calls the network:
    the language is marked as being rewritten and shown as
    [applying]. *)
Lemma rewrite_begin_state (langCode : string) (ui ui1 : UI.State)
    (entries : list Translate.ShortenEntry) :
  UI.rewrite_begin langCode ui = Some (entries, ui1) ->
  UI.status_of langCode ui1 = Some applying
  /\ langCode ∈ UI.rewritingLangs ui1
  /\ entries <> [].
Proof.
  unfold UI.rewrite_begin, UI.status_of.
  destruct (UI.langProgressMap ui !! langCode) as [prog|] eqn:Ep;
    [|discriminate].
  destruct (UI.translationsStore ui !! langCode) as [stored|];
    [|discriminate].
  destruct (UI.scanResult ui) as [tes|]; [|discriminate].
  destruct (qaReport prog) as [report|]; [|discriminate].
  destruct (issueEntryIds report) as [|i ids]; [discriminate|].
  destruct (UI.shorten_entries (i :: ids) stored tes) as [|e es];
    [discriminate|].
  intros [= <- <-].
  rewrite (updateLangProgress_status langCode applying None None _ prog)
    by exact Ep.
  rewrite updateLangProgress_rewriting. cbn.
  repeat split; [|discriminate].
  apply elem_of_union. left. apply elem_of_singleton. reflexivity.
Qed.

Section WithHost.
Variable reflowHeight : TextNode -> num.
Variable naturalSize : TextNode -> num * num.
Variable nodeFontsLoad : TextNode -> bool.
Variable fontLoads : FontName -> bool.

#[local] Abbreviation on_apply_rewrites :=
  (Controller.on_apply_rewrites reflowHeight naturalSize nodeFontsLoad
     fontLoads).
#[local] Abbreviation applyTranslations :=
  (Apply.applyTranslations reflowHeight naturalSize nodeFontsLoad
     fontLoads).
#[local] Abbreviation runQA := (QA.runQA reflowHeight naturalSize).

(** The report a rewrite pass computes: QA on the nodes of the clone
    once the rewrites are written to them. *)
Definition fresh_report (st : State) (entry : Duplicate.Duplicated)
    (language : Language) (translations : gmap string string)
  : QAReport :=
  let a :=
    applyTranslations (Duplicate.textNodeMap entry) translations
      language (settings st) in
  fst (runQA (Apply.nodes a) (originalEntries st) language
         (Apply.fontErrors a)).

Lemma apply_rewrites_events (st : State) (langCode : string)
    (translations : gmap string string) (entry : Duplicate.Duplicated)
    (language : Language) :
  JsMap.get langCode (cloneMap st) = Some entry ->
  JsMap.get langCode (languageMap st) = Some language ->
  snd (on_apply_rewrites langCode translations st)
  = [progress langCode (l_name language) applying None None;
     progress langCode (l_name language) done None
       (Some (fresh_report st entry language translations))].
Proof.
  intros Hc Hl. unfold Controller.on_apply_rewrites, fresh_report.
  rewrite Hc, Hl.
  destruct (QA.runQA _ _ _ _ _ _) as [report nodes]. reflexivity.
Qed.

(** A rewrite-shorter pass whose call succeeded, on a language the
    controller has a clone for: the UI shows the language as
    [applying] when it asks for the shorter texts; on their arrival
    it sends [apply-rewrites]; the controller answers with two
    progress messages, [applying] and then [done] with the report of
    a QA pass run on the nodes once the rewrites are written; the UI
    then shows [applying] and [done] with that report.  No progress
    message announces [qa]. *)
Lemma rewrite_pass_states (st : State) (ui ui1 : UI.State)
    (langCode : string) (entries : list Translate.ShortenEntry)
    (stored translations : gmap string string)
    (entry : Duplicate.Duplicated) (language : Language) :
  UI.status_of langCode ui = Some done ->
  UI.rewrite_begin langCode ui = Some (entries, ui1) ->
  JsMap.get langCode (cloneMap st) = Some entry ->
  JsMap.get langCode (languageMap st) = Some language ->
  let result := Translate.mkResult (Some translations) None in
  let ui2 := fst (UI.rewrite_finish langCode stored result ui1) in
  let sent := snd (UI.rewrite_finish langCode stored result ui1) in
  let out := on_apply_rewrites langCode translations st in
  let report := fresh_report st entry language translations in
  let shown := UI.on_progress_messages (snd out) ui2 in
  sent = [apply_rewrites langCode translations]
  /\ snd out
     = [progress langCode (l_name language) applying None None;
        progress langCode (l_name language) done None (Some report)]
  /\ statuses (snd out) = [applying; done]
  /\ map (UI.status_of langCode) (ui :: ui1 :: ui2 :: shown)
     = [Some done; Some applying; Some applying; Some applying;
        Some done]
  /\ (exists final prog,
        last shown = Some final
        /\ UI.langProgressMap final !! langCode = Some prog
        /\ qaReport prog = Some report
        /\ langCode ∉ UI.rewritingLangs final)
  /\ pendingCount (fst out) = pendingCount st
  /\ qaReports (fst out) = qaReports st.
Proof.
  intros Hdone Hbegin Hc Hl result ui2 sent out report shown.
  destruct (rewrite_begin_state _ _ _ _ Hbegin) as (Hs1 & Hin & _).
  assert (Hev := apply_rewrites_events st langCode translations entry
                   language Hc Hl).
  fold out report in Hev.
  assert (Hui2 : ui2 = UI.with_store
                         (<[langCode := UI.merge stored translations]>
                            (UI.translationsStore ui1)) ui1)
    by reflexivity.
  assert (Hp2 : UI.langProgressMap ui2 = UI.langProgressMap ui1)
    by (rewrite Hui2; reflexivity).
  assert (Hr2 : UI.rewritingLangs ui2 = UI.rewritingLangs ui1)
    by (rewrite Hui2; reflexivity).
  unfold UI.status_of in Hs1.
  destruct (UI.langProgressMap ui1 !! langCode) as [prog1|] eqn:Ep1;
    [|discriminate].
  injection Hs1 as Hs1.
  (* the two progress messages, as the UI takes them *)
  set (uiA := UI.on_language_progress
                (mkProgress langCode (l_name language) applying None None)
                ui2).
  set (uiB := UI.on_language_progress
                (mkProgress langCode (l_name language) done None
                   (Some report)) uiA).
  assert (Hshown : shown = [uiA; uiB]).
  { subst shown. rewrite Hev. reflexivity. }
  assert (HA : UI.langProgressMap uiA !! langCode
               = Some (mkProgress (lp_langCode prog1) (lp_langName prog1)
                         applying (detail prog1) (qaReport prog1))
               /\ UI.rewritingLangs uiA = UI.rewritingLangs ui1).
  { subst uiA. unfold UI.on_language_progress.
    cbn [lp_langCode lp_status detail qaReport].
    rewrite Hr2, (bool_decide_eq_true_2 _ Hin), andb_false_r.
    rewrite updateLangProgress_rewriting, Hr2. split; [|reflexivity].
    erewrite updateLangProgress_status by (rewrite Hp2; exact Ep1).
    reflexivity. }
  destruct HA as [HA1 HA2].
  assert (HB : UI.langProgressMap uiB !! langCode
               = Some (mkProgress (lp_langCode prog1) (lp_langName prog1)
                         done (detail prog1) (Some report))
               /\ UI.rewritingLangs uiB
                  = UI.rewritingLangs ui1 ∖ {[langCode]}).
  { subst uiB. unfold UI.on_language_progress.
    cbn [lp_langCode lp_status detail qaReport].
    rewrite HA2, (bool_decide_eq_true_2 _ Hin), andb_false_r.
    rewrite updateLangProgress_rewriting. cbn [UI.rewritingLangs
      UI.with_rewriting]. split; [|reflexivity].
    erewrite updateLangProgress_status by exact HA1.
    reflexivity. }
  destruct HB as [HB1 HB2].
  split; [reflexivity|]. split; [exact Hev|].
  split; [rewrite Hev; reflexivity|].
  split.
  { rewrite Hshown. cbn [map]. unfold UI.status_of at 2 3 4 5.
    rewrite Hdone, Hp2, Ep1, HA1, HB1. cbn. rewrite Hs1. reflexivity. }
  split.
  { exists uiB, (mkProgress (lp_langCode prog1) (lp_langName prog1)
                   done (detail prog1) (Some report)).
    rewrite Hshown. repeat split; [exact HB1|].
    rewrite HB2. intros [_ Hout]%elem_of_difference.
    apply Hout, elem_of_singleton. reflexivity. }
  subst out. unfold Controller.on_apply_rewrites. rewrite Hc, Hl.
  destruct (QA.runQA _ _ _ _ _ _) as [r nodes]. split; reflexivity.
Qed.

End WithHost.
End RewriteFacts.

(* ================================================================= *)
(** * Further properties *)

(** ** The QA report *)

Module ReportFacts.
Import QA QAFacts.

Lemma never_above_itself (h : num) : (h >? h + n0_5)%f64 = false.
Proof.
  unfold Num.fgt, Num.flt, Num.fadd. rewrite Binary64Facts.fl_idem.
  assert (Ec : Num.fl n0_5 = n0_5) by (vm_compute; reflexivity).
  rewrite Ec.
  pose proof (Binary64Facts.fl_idem h) as Hd.
  destruct (Num.fl h) as [q| | |]; try reflexivity.
  apply Binary64Facts.nle_not_lt, Binary64Facts.fl_above; [exact Hd|].
  unfold n0_5. cbn [Num.add Binary64Facts.nle]. rewrite Qred_correct.
  rewrite <- (Qplus_0_r q) at 1. apply Qplus_le_r. discriminate.
Qed.

Section WithHost.
Variable reflowHeight : TextNode -> num.
Variable naturalSize : TextNode -> num * num.

#[local] Abbreviation measureNeededHeight :=
  (QA.measureNeededHeight reflowHeight naturalSize).
#[local] Abbreviation runQA := (QA.runQA reflowHeight naturalSize).
#[local] Abbreviation unit_issues :=
  (QAFacts.unit_issues reflowHeight naturalSize).
#[local] Abbreviation all_unit_issues :=
  (QAFacts.all_unit_issues reflowHeight naturalSize).

(** A unit the loop skips pushes nothing. *)
Lemma unit_issues_skipped (om : JsMap.t TextEntry) (id : string)
    (t : TextNode) :
  tn_parents t = [] \/ JsMap.get id om = None ->
  unit_issues om id t = [].
Proof.
  unfold QAFacts.unit_issues, QA.qa_unit. intros [H|H].
  - rewrite H. reflexivity.
  - destruct (tn_parents t); [reflexivity|]. rewrite H. reflexivity.
Qed.

(** The issues of a unit, whatever the unit: none, the overflow
    alone, or a line wrap (in mode [HEIGHT] only) before what the
    container check finds. *)
Lemma unit_issues_cases (om : JsMap.t TextEntry) (id : string)
    (t : TextNode) :
  unit_issues om id t = []
  \/ (tn_textAutoResize t = AR_NONE
      /\ unit_issues om id t = [overflow_issue t])
  \/ unit_issues om id t = container_issues t
  \/ (tn_textAutoResize t = AR_HEIGHT
      /\ exists original,
           unit_issues om id t
           = (wrap_issue t original :: container_issues t)%list).
Proof.
  destruct (tn_parents t) as [|b bs] eqn:Ep.
  { left. apply unit_issues_skipped. left. exact Ep. }
  destruct (JsMap.get id om) as [original|] eqn:Eo.
  2:{ left. apply unit_issues_skipped. right. exact Eo. }
  assert (Hp : tn_parents t <> []) by (rewrite Ep; discriminate).
  destruct (tn_textAutoResize t) eqn:Em.
  - rewrite (unit_issues_NONE _ _ om id t original Hp Eo Em).
    destruct (exceeds _ _); [right; left; split; reflexivity|].
    right. right. left. reflexivity.
  - rewrite (unit_issues_other _ _ om id t original Hp Eo)
      by (rewrite Em; discriminate).
    rewrite Em. right. right. left. reflexivity.
  - rewrite (unit_issues_other _ _ om id t original Hp Eo)
      by (rewrite Em; discriminate).
    rewrite Em. destruct (grew_a_line t original).
    + right. right. right. split; [reflexivity|].
      exists original. reflexivity.
    + right. right. left. reflexivity.
  - rewrite (unit_issues_other _ _ om id t original Hp Eo)
      by (rewrite Em; discriminate).
    rewrite Em. right. right. left. reflexivity.
Qed.

Lemma container_issues_length (t : TextNode) :
  (length (container_issues t) <= 1)%nat.
Proof.
  unfold container_issues.
  destruct (overflows (checkParentOverflow t)); cbn; lia.
Qed.

(** Every issue of a unit names the node of the unit and is red or
    amber. *)
Lemma unit_issue_fields (om : JsMap.t TextEntry) (id : string)
    (t : TextNode) :
  List.Forall
    (fun i => i_nodeId i = tn_id t /\ i_nodeName i = tn_name t
              /\ (severity i = red \/ severity i = amber))
    (unit_issues om id t).
Proof.
  assert (Hcf : List.Forall
                  (fun i => i_nodeId i = tn_id t
                            /\ i_nodeName i = tn_name t
                            /\ (severity i = red \/ severity i = amber))
                  (container_issues t)).
  { unfold container_issues.
    destruct (overflows (checkParentOverflow t)); repeat constructor. }
  destruct (unit_issues_cases om id t)
    as [-> | [[_ ->] | [-> | [_ [original ->]]]]].
  - constructor.
  - repeat constructor.
  - exact Hcf.
  - constructor; [|exact Hcf]. cbn. auto.
Qed.

(** X4.  A unit contributes at most two issues, at most one unless
    it grows vertically; each names the node of the unit and is red
    or amber; and a red text-overflow issue is always the only issue
    of its unit. *)
Theorem unit_issue_bound (om : JsMap.t TextEntry) (id : string)
    (t : TextNode) :
  (length (unit_issues om id t) <= 2)%nat
  /\ (tn_textAutoResize t <> AR_HEIGHT ->
      (length (unit_issues om id t) <= 1)%nat)
  /\ List.Forall
       (fun i => i_nodeId i = tn_id t /\ i_nodeName i = tn_name t
                 /\ (severity i = red \/ severity i = amber))
       (unit_issues om id t)
  /\ (forall i, In i (unit_issues om id t) ->
      severity i = red -> i_type i = text_overflow ->
      unit_issues om id t = [i]).
Proof.
  pose proof (container_issues_length t) as Hc.
  assert (Hcf : List.Forall
                  (fun i => i_nodeId i = tn_id t
                            /\ i_nodeName i = tn_name t
                            /\ (severity i = red \/ severity i = amber))
                  (container_issues t)).
  { unfold container_issues.
    destruct (overflows (checkParentOverflow t)); repeat constructor. }
  assert (Hct : forall i, In i (container_issues t) ->
                          i_type i = container_overflow).
  { intros i Hi.
    pose proof (container_issues_type t) as Hty.
    rewrite List.Forall_forall in Hty. apply (Hty i Hi). }
  destruct (unit_issues_cases om id t)
    as [-> | [[Em ->] | [-> | [Em [original ->]]]]].
  - split; [cbn; lia|]. split; [cbn; lia|]. split; [constructor|].
    intros i [].
  - split; [cbn; lia|]. split; [cbn; lia|].
    split; [repeat constructor|].
    intros i [<-|[]] _ _. reflexivity.
  - split; [lia|]. split; [lia|]. split; [exact Hcf|].
    intros i Hi _ Hty. rewrite (Hct i Hi) in Hty. discriminate.
  - split; [cbn [length]; lia|]. split; [congruence|]. split.
    + constructor; [|exact Hcf]. cbn. auto.
    + intros i [<-|Hi] Hs Hty; [discriminate Hs|].
      rewrite (Hct i Hi) in Hty. discriminate.
Qed.

(** X3.  A unit whose node has no parent, or whose id has no
    baseline entry, adds nothing to the report and is not
    implicated; so a pass without any baseline entry reports the
    font errors alone. *)
Theorem skipped_units_are_silent (m : JsMap.t TextNode)
    (es : list TextEntry) (language : Language)
    (fontErrors : list string) :
  let report := fst (runQA m es language fontErrors) in
  (forall id t,
      In (id, t) m ->
      tn_parents t = [] \/ JsMap.get id (originalMap_of es) = None ->
      unit_issues (originalMap_of es) id t = [])
  /\ ((forall id t, In (id, t) m ->
         tn_parents t = []
         \/ JsMap.get id (originalMap_of es) = None) ->
      issues report = repeat font_issue (length fontErrors)
      /\ issueEntryIds report = []
      /\ redIssues report = 0%nat)
  /\ (issues (fst (runQA m [] language fontErrors))
      = repeat font_issue (length fontErrors)).
Proof.
  cbn zeta.
  assert (Hall : forall om,
             (forall id t, In (id, t) m ->
                tn_parents t = [] \/ JsMap.get id om = None) ->
             all_unit_issues om m = []).
  { intros om. unfold QAFacts.all_unit_issues.
    induction m as [|[k t] m IH]; intros H; [reflexivity|].
    cbn [flat_map fst snd].
    rewrite (unit_issues_skipped om k t (H k t (or_introl eq_refl))).
    apply IH. intros id t' Hin. apply H. right. exact Hin. }
  split; [|split].
  - intros id t _ H. apply unit_issues_skipped, H.
  - intros H.
    assert (Hi : issues (fst (runQA m es language fontErrors))
                 = repeat font_issue (length fontErrors)).
    { rewrite runQA_issues, (Hall _ H). reflexivity. }
    split; [exact Hi|]. split.
    + destruct (issueEntryIds (fst (runQA m es language fontErrors)))
        as [|id ids] eqn:E; [reflexivity|].
      assert (Hin : In id (issueEntryIds
                             (fst (runQA m es language fontErrors))))
        by (rewrite E; left; reflexivity).
      apply runQA_ids in Hin as (t & Hin & Hne).
      exfalso. apply Hne. apply unit_issues_skipped. exact (H id t Hin).
    + assert (Hred : redIssues (fst (runQA m es language fontErrors))
                     = length (List.filter is_red
                                 (issues (fst (runQA m es language
                                                 fontErrors))))).
      { unfold QA.runQA.
        destruct (QA.qa_loop _ _ _ _ _); reflexivity. }
      rewrite Hred, Hi. clear.
      induction (length fontErrors); [reflexivity|exact IHn].
  - rewrite runQA_issues, Hall; [reflexivity|].
    intros id t _. right. reflexivity.
Qed.

Lemma issue_severities (m : JsMap.t TextNode) (es : list TextEntry)
    (language : Language) (fontErrors : list string) :
  List.Forall (fun i => severity i = red \/ severity i = amber)
    (issues (fst (runQA m es language fontErrors))).
Proof.
  rewrite runQA_issues. apply List.Forall_app. split.
  - unfold QAFacts.all_unit_issues.
    induction m as [|[k t] m IH]; [constructor|].
    cbn [flat_map fst snd]. apply List.Forall_app. split; [|exact IH].
    pose proof (unit_issue_fields (originalMap_of es) k t) as H.
    eapply List.Forall_impl; [|exact H]. cbn. tauto.
  - induction (length fontErrors); constructor; auto.
Qed.

Lemma severity_counts (l : list QAIssue) :
  List.Forall (fun i => severity i = red \/ severity i = amber) l ->
  (length (List.filter is_red l) + length (List.filter is_amber l)
   = length l)%nat.
Proof.
  induction 1 as [|i l [H|H] _ IH]; [reflexivity| |];
    cbn [List.filter]; unfold is_red, is_amber in *; rewrite H;
    cbn [length]; lia.
Qed.

Lemma filter_positive {A : Type} (f : A -> bool) (l : list A) :
  (0 <? length (List.filter f l))%nat = true
  <-> exists x, In x l /\ f x = true.
Proof.
  rewrite Nat.ltb_lt. split.
  - destruct (List.filter f l) as [|x r] eqn:E; [cbn; lia|].
    intros _. exists x. apply filter_In. rewrite E. left. reflexivity.
  - intros (x & Hx & Hf).
    assert (Hin : In x (List.filter f l)) by (apply filter_In; auto).
    destruct (List.filter f l); [destruct Hin|cbn; lia].
Qed.

(** The status is green exactly when there is no issue. *)
Lemma green_iff_no_issue (m : JsMap.t TextNode) (es : list TextEntry)
    (language : Language) (fontErrors : list string) :
  status (fst (runQA m es language fontErrors)) = green
  <-> issues (fst (runQA m es language fontErrors)) = [].
Proof.
  pose proof (issue_severities m es language fontErrors) as Hsev.
  pose proof (severity_counts _ Hsev) as Hsum.
  remember (fst (runQA m es language fontErrors)) as report eqn:Er.
  assert (Hs : status report
               = (if (0 <? length (List.filter is_red (issues report)))%nat
                  then red
                  else if (0 <? length (List.filter is_amber
                                          (issues report)))%nat
                       then amber else green)).
  { subst report. unfold QA.runQA.
    destruct (QA.qa_loop _ _ _ _ _). reflexivity. }
  rewrite Hs. split.
  - destruct (0 <? length (List.filter is_red (issues report)))%nat
      eqn:E1; [discriminate|].
    destruct (0 <? length (List.filter is_amber (issues report)))%nat
      eqn:E2; [discriminate|].
    intros _. apply Nat.ltb_ge in E1, E2.
    destruct (issues report); [reflexivity|]. cbn [length] in Hsum.
    lia.
  - intros ->. reflexivity.
Qed.

(** X1.  The totals of a report: every issue counts as red or as
    amber, the status is red exactly when some issue is red, green
    exactly when there is no issue at all, amber otherwise, and
    every font error counts as one amber issue. *)
Theorem report_totals (m : JsMap.t TextNode) (es : list TextEntry)
    (language : Language) (fontErrors : list string) :
  let report := fst (runQA m es language fontErrors) in
  (redIssues report + amberIssues report = length (issues report))%nat
  /\ (status report = red
      <-> exists i, In i (issues report) /\ severity i = red)
  /\ (status report = green <-> issues report = [])
  /\ (status report = amber
      <-> issues report <> []
          /\ forall i, In i (issues report) -> severity i = amber)
  /\ (length fontErrors <= amberIssues report)%nat
  /\ langCode report = code language
  /\ langName report = l_name language.
Proof.
  cbn zeta.
  pose proof (issue_severities m es language fontErrors) as Hsev.
  pose proof (runQA_issues reflowHeight naturalSize m es language fontErrors) as Hiss.
  remember (fst (runQA m es language fontErrors)) as report eqn:Er.
  assert (Hshape :
            redIssues report = length (List.filter is_red (issues report))
            /\ amberIssues report
               = length (List.filter is_amber (issues report))
            /\ status report
               = (if (0 <? length (List.filter is_red (issues report)))%nat
                  then red
                  else if (0 <? length (List.filter is_amber
                                          (issues report)))%nat
                       then amber else green)
            /\ langCode report = code language
            /\ langName report = l_name language).
  { subst report. unfold QA.runQA.
    destruct (QA.qa_loop _ _ _ _ _). cbn. auto. }
  destruct Hshape as (Hr & Ha & Hs & Hc & Hn).
  pose proof (severity_counts _ Hsev) as Hsum.
  assert (Hred : forall i, is_red i = true <-> severity i = red).
  { intros i. unfold is_red. destruct (severity i); split;
      congruence. }
  assert (Hamb : forall i, is_amber i = true <-> severity i = amber).
  { intros i. unfold is_amber. destruct (severity i); split;
      congruence. }
  split; [rewrite Hr, Ha; exact Hsum|].
  split; [|split; [|split; [|split; [|split; [exact Hc|exact Hn]]]]].
  - rewrite Hs. split.
    + destruct (0 <? length (List.filter is_red (issues report)))%nat
        eqn:E.
      * intros _. apply filter_positive in E as (i & Hi & Hf).
        exists i. split; [exact Hi|]. apply Hred, Hf.
      * destruct (0 <? length (List.filter is_amber (issues report)))%nat;
          discriminate.
    + intros (i & Hi & Hf).
      assert (E : (0 <? length (List.filter is_red (issues report)))%nat
                  = true).
      { apply filter_positive. exists i. split; [exact Hi|]. apply Hred, Hf. }
      rewrite E. reflexivity.
  - rewrite Hs. split.
    + destruct (0 <? length (List.filter is_red (issues report)))%nat
        eqn:E1; [discriminate|].
      destruct (0 <? length (List.filter is_amber (issues report)))%nat
        eqn:E2; [discriminate|].
      intros _. apply Nat.ltb_ge in E1, E2.
      destruct (issues report); [reflexivity|]. cbn [length] in Hsum.
      lia.
    + intros ->. reflexivity.
  - rewrite Hs. split.
    + destruct (0 <? length (List.filter is_red (issues report)))%nat
        eqn:E1; [discriminate|].
      destruct (0 <? length (List.filter is_amber (issues report)))%nat
        eqn:E2; [|discriminate].
      intros _. split.
      * apply filter_positive in E2 as (i & Hi & _). intros E. rewrite E in Hi.
        destruct Hi.
      * intros i Hi. rewrite List.Forall_forall in Hsev.
        destruct (Hsev i Hi) as [H|H]; [|exact H].
        exfalso.
        assert (E : (0 <? length (List.filter is_red (issues report)))%nat
                    = true).
        { apply filter_positive. exists i. split; [exact Hi|]. apply Hred, H. }
        congruence.
    + intros [Hne Hall].
      assert (E1 : (0 <? length (List.filter is_red (issues report)))%nat
                   = false).
      { destruct (0 <? length (List.filter is_red (issues report)))%nat
          eqn:E; [|reflexivity].
        apply filter_positive in E as (i & Hi & Hf). apply Hred in Hf.
        rewrite (Hall i Hi) in Hf. discriminate. }
      rewrite E1.
      assert (E2 : (0 <? length (List.filter is_amber (issues report)))%nat
                   = true).
      { apply filter_positive. destruct (issues report) as [|i l]; [congruence|].
        exists i. split; [left; reflexivity|].
        apply Hamb, Hall. left. reflexivity. }
      rewrite E2. reflexivity.
  - rewrite Ha, Hiss, List.filter_app, length_app.
    assert (Hf : forall n,
               length (List.filter is_amber (repeat font_issue n)) = n).
    { induction n; cbn; [reflexivity|]. f_equal. exact IHn. }
    rewrite Hf. lia.
Qed.

Lemma set_add_NoDup (id : string) (s : list string) :
  List.NoDup s -> List.NoDup (set_add id s).
Proof.
  intros H. unfold set_add.
  destruct (existsb (String.eqb id) s) eqn:E; [exact H|].
  assert (Hn : ~ In id s).
  { intros Hin.
    assert (Ht : existsb (String.eqb id) s = true).
    { apply existsb_exists. exists id. split; [exact Hin|].
      apply String.eqb_refl. }
    congruence. }
  clear E. induction H as [|x l Hx _ IH]; cbn [app].
  - constructor; [intros []|constructor].
  - constructor.
    + rewrite in_app_iff. cbn. intros [Hl|[->|[]]]; [tauto|].
      apply Hn. left. reflexivity.
    + apply IH. intros Hl. apply Hn. right. exact Hl.
Qed.

Lemma qa_loop_NoDup (om : JsMap.t TextEntry) (m : JsMap.t TextNode)
    (acc : Acc) :
  List.NoDup (acc_issueEntryIds acc) ->
  List.NoDup (acc_issueEntryIds
                (fst (QA.qa_loop reflowHeight naturalSize om m acc))).
Proof.
  revert acc. induction m as [|[k t] m IH]; intros acc H; [exact H|].
  cbn [QA.qa_loop].
  pose proof (qa_unit_pushed reflowHeight naturalSize om k t acc) as Hu.
  destruct (QA.qa_unit _ _ om k t acc) as [acc1 t']. cbn [fst] in Hu.
  specialize (IH acc1).
  destruct (QA.qa_loop _ _ om m acc1) as [acc2 rest']. cbn [fst] in *.
  apply IH. rewrite Hu. unfold pushed. cbn [acc_issueEntryIds].
  destruct (QAFacts.unit_issues _ _ om k t); [exact H|].
  apply set_add_NoDup, H.
Qed.

(** X2.  The implicated ids of a report: no id is listed twice, each
    is a key of the map of cloned text nodes whose node drew an
    issue carrying that node's id into the report, and the font
    errors implicate none. *)
Theorem implicated_ids (m : JsMap.t TextNode) (es : list TextEntry)
    (language : Language) (fontErrors : list string) :
  let report := fst (runQA m es language fontErrors) in
  List.NoDup (issueEntryIds report)
  /\ (forall id, In id (issueEntryIds report) ->
      exists t i, In (id, t) m /\ In i (issues report)
                  /\ i_nodeId i = tn_id t
                  /\ i_type i <> font_load)
  /\ issueEntryIds report
     = issueEntryIds (fst (runQA m es language [])).
Proof.
  cbn zeta. split; [|split].
  - unfold QA.runQA.
    pose proof (qa_loop_NoDup (originalMap_of es) m (mkAcc [] [])
                  (List.NoDup_nil _)) as H.
    destruct (QA.qa_loop _ _ _ _ _). exact H.
  - intros id Hin. apply runQA_ids in Hin as (t & Hin & Hne).
    destruct (QAFacts.unit_issues _ _ (originalMap_of es) id t)
      as [|i rest] eqn:Eu; [congruence|].
    exists t, i. split; [exact Hin|].
    pose proof (unit_issue_fields (originalMap_of es) id t) as Hf.
    rewrite Eu in Hf. inversion Hf as [|? ? (Hid & _ & _) _]. subst.
    split; [|split; [exact Hid|]].
    + rewrite runQA_issues. apply in_or_app. left.
      unfold QAFacts.all_unit_issues. apply in_flat_map.
      exists (id, t). split; [exact Hin|]. cbn [fst snd].
      rewrite Eu. left. reflexivity.
    + destruct (unit_issues_cases (originalMap_of es) id t)
        as [E | [[_ E] | [E | [_ [original E]]]]];
        rewrite Eu in E.
      * discriminate.
      * injection E as -> _. discriminate.
      * pose proof (container_issues_type t) as Hty.
        rewrite <- E in Hty. inversion Hty as [|? ? [Hi _] _].
        rewrite Hi. discriminate.
      * injection E as -> _. discriminate.
  - unfold QA.runQA. destruct (QA.qa_loop _ _ _ _ _). reflexivity.
Qed.

(** X6.  Measuring never flags what it cannot measure: in mode
    [HEIGHT] the needed height is the current height and the node is
    not written, and a fixed box whose fonts are not loaded is
    measured at its own height, so that its unit never draws the red
    overflow issue. *)
Theorem unmeasurable_never_overflows (om : JsMap.t TextEntry)
    (id : string) (t : TextNode) :
  (tn_textAutoResize t = AR_HEIGHT ->
   measureNeededHeight t = (tn_height t, t))
  /\ (tn_textAutoResize t = AR_NONE -> tn_fontsLoaded t = false ->
      fst (measureNeededHeight t) = tn_height t
      /\ ~ In (overflow_issue t) (unit_issues om id t)).
Proof.
  split.
  - intros E. unfold QA.measureNeededHeight. rewrite E. reflexivity.
  - intros Em Ef.
    assert (Hm : fst (measureNeededHeight t) = tn_height t).
    { unfold QA.measureNeededHeight. rewrite Em.
      unfold Host.set_textAutoResize. rewrite Ef. reflexivity. }
    split; [exact Hm|].
    destruct (tn_parents t) as [|b bs] eqn:Ep.
    { rewrite unit_issues_skipped by (left; exact Ep). intros []. }
    destruct (JsMap.get id om) as [original|] eqn:Eo.
    2:{ rewrite unit_issues_skipped by (right; exact Eo). intros []. }
    assert (Hp : tn_parents t <> []) by (rewrite Ep; discriminate).
    rewrite (unit_issues_NONE _ _ om id t original Hp Eo Em).
    rewrite Hm. unfold exceeds. rewrite never_above_itself.
    intros Hin.
    pose proof (container_issues_type t) as Hty.
    rewrite List.Forall_forall in Hty.
    destruct (Hty _ Hin) as [Hc _]. discriminate Hc.
Qed.

End WithHost.
End ReportFacts.

(** ** The scope of the container check *)

Module WalkFacts.
Import QA ContainerFacts.

(** The ancestors the walk can stop at. *)
Definition relevant (b : BaseNode) : bool :=
  is_root_type (b_type b)
  || (isFrameLike b
      && match b_absoluteBoundingBox b with
         | Some _ => true
         | None => false
         end).

(** An auto-layout frame that hugs its content on both axes. *)
Definition hugs (b : BaseNode) : Prop :=
  (b_layoutMode b = Some HORIZONTAL \/ b_layoutMode b = Some VERTICAL)
  /\ b_primaryAxisSizingMode b = AUTO
  /\ b_counterAxisSizingMode b = AUTO.

Lemma hugs_not_fixed (b : BaseNode) (axis : Axis) :
  hugs b -> isFixedOnAxis b axis = false.
Proof.
  intros ([E|E] & Hp & Hc); unfold isFixedOnAxis; rewrite E, Hp, Hc;
    destruct axis; reflexivity.
Qed.

Lemma hugs_not_offending (nb : Rect) (b : BaseNode) :
  hugs b -> offending nb b = false.
Proof.
  intros H. unfold offending.
  rewrite (hugs_not_fixed b horizontal H), (hugs_not_fixed b vertical H).
  destruct (isFrameLike b), (b_absoluteBoundingBox b);
    rewrite ?andb_false_r; reflexivity.
Qed.

(** X5.  The scope of the container walk: a node without a box or
    without a parent is never reported; what lies at and above the
    first page or document plays no part; and ancestors that are not
    frames, components or instances, or have no box, are walked past
    as if they were not there. *)
Theorem container_walk_scope (node : TextNode) (nb : Rect) :
  (tn_absolute node = None \/ tn_parents node = [] ->
   checkParentOverflow node = mkParentCheck false "")
  /\ (forall pre root post,
        is_root_type (b_type root) = true ->
        parent_walk nb (pre ++ root :: post) = parent_walk nb pre)
  /\ (forall chain,
        parent_walk nb chain = parent_walk nb (List.filter relevant chain)).
Proof.
  split; [|split].
  - unfold checkParentOverflow, tn_absoluteBoundingBox.
    intros [H|H]; rewrite H; [reflexivity|].
    destruct (tn_absolute node) as [[ax ay]|]; reflexivity.
  - intros pre root post Hr. induction pre as [|b pre IH].
    + cbn [app]. rewrite parent_walk_step, Hr. reflexivity.
    + cbn [app]. rewrite !parent_walk_step, IH. reflexivity.
  - induction chain as [|b chain IH]; [reflexivity|].
    cbn [List.filter]. unfold relevant at 1.
    destruct (is_root_type (b_type b)) eqn:Er.
    + cbn [orb]. rewrite !parent_walk_step, Er. reflexivity.
    + cbn [orb]. rewrite parent_walk_step, Er.
      destruct (isFrameLike b) eqn:Ef.
      * destruct (b_absoluteBoundingBox b) as [fb|] eqn:Eb; cbn [andb].
        -- rewrite parent_walk_step, Er, IH. reflexivity.
        -- unfold offending. rewrite Ef, Eb. cbn. exact IH.
      * cbn [andb]. unfold offending. rewrite Ef. cbn. exact IH.
Qed.

(** X7.  A node all of whose frame-like ancestors are auto-layout
    frames hugging their content on both axes is never reported,
    however far it reaches out of them; and a frame without
    auto-layout is fixed on both axes. *)
Theorem hugging_ancestors_never_clip (node : TextNode) :
  (forall b, In b (tn_parents node) -> isFrameLike b = true -> hugs b) ->
  overflows (checkParentOverflow node) = false
  /\ (forall b axis,
        b_layoutMode b = None \/ b_layoutMode b = Some LM_NONE ->
        isFixedOnAxis b axis = true).
Proof.
  intros H. split.
  - unfold checkParentOverflow.
    destruct (tn_absoluteBoundingBox node) as [nb|]; [|reflexivity].
    induction (tn_parents node) as [|b chain IH]; [reflexivity|].
    rewrite parent_walk_step.
    destruct (is_root_type (b_type b)); [reflexivity|].
    assert (Ho : offending nb b = false).
    { destruct (isFrameLike b) eqn:Ef.
      - apply hugs_not_offending, H; [left; reflexivity|exact Ef].
      - unfold offending. rewrite Ef. reflexivity. }
    rewrite Ho. apply IH. intros b' Hin. apply H. right. exact Hin.
  - intros b axis [E|E]; unfold isFixedOnAxis; rewrite E; reflexivity.
Qed.

End WalkFacts.

(** ** Insertion-ordered maps *)

Module JsMapFacts.

Section WithValue.
Context {V : Type}.
Implicit Types (m : JsMap.t V) (k : string) (v : V).

Lemma get_set_eq k v m : JsMap.get k (JsMap.set k v m) = Some v.
Proof.
  induction m as [|[k' v'] m IH]; cbn.
  - rewrite String.eqb_refl. reflexivity.
  - destruct (String.eqb k k') eqn:E; cbn.
    + rewrite String.eqb_refl. reflexivity.
    + rewrite E. exact IH.
Qed.

Lemma get_set_ne k k' v m :
  k <> k' -> JsMap.get k' (JsMap.set k v m) = JsMap.get k' m.
Proof.
  intros Hne. induction m as [|[k0 v0] m IH]; cbn.
  - destruct (String.eqb_spec k' k); [congruence|reflexivity].
  - destruct (String.eqb_spec k k0) as [->|Hk]; cbn.
    + destruct (String.eqb_spec k' k0); [congruence|reflexivity].
    + destruct (String.eqb k' k0); [reflexivity|exact IH].
Qed.

Lemma keys_set_present k v m :
  JsMap.get k m <> None -> JsMap.keys (JsMap.set k v m) = JsMap.keys m.
Proof.
  unfold JsMap.keys.
  induction m as [|[k' v'] m IH]; cbn; [congruence|].
  destruct (String.eqb_spec k k') as [->|Hk]; cbn; [reflexivity|].
  intros H. rewrite IH by exact H. reflexivity.
Qed.

Lemma set_In k v m (kv : string * V) :
  In kv (JsMap.set k v m) -> kv = (k, v) \/ In kv m.
Proof.
  induction m as [|[k' v'] m IH]; cbn.
  - intros [<-|[]]. left. reflexivity.
  - destruct (String.eqb k k'); cbn.
    + intros [<-|H]; [left; reflexivity|right; right; exact H].
    + intros [<-|H]; [right; left; reflexivity|].
      destruct (IH H) as [->|Hin]; [left; reflexivity|].
      right. right. exact Hin.
Qed.

Lemma set_keys_In k v m (k' : string) :
  In k' (JsMap.keys (JsMap.set k v m)) <-> k' = k \/ In k' (JsMap.keys m).
Proof.
  unfold JsMap.keys. induction m as [|[k0 v0] m IH]; cbn.
  - intuition congruence.
  - destruct (String.eqb_spec k k0) as [->|Hk]; cbn.
    + intuition congruence.
    + rewrite IH. intuition congruence.
Qed.

Lemma set_keys_NoDup k v m :
  List.NoDup (JsMap.keys m) -> List.NoDup (JsMap.keys (JsMap.set k v m)).
Proof.
  unfold JsMap.keys. induction m as [|[k' v'] m IH]; cbn; intros H.
  - constructor; [intros []|constructor].
  - apply List.NoDup_cons_iff in H as [Hn H].
    destruct (String.eqb_spec k k') as [->|Hk]; cbn.
    + constructor; assumption.
    + constructor; [|apply IH, H].
      intros Hin. apply (set_keys_In k v m k') in Hin as [E|Hin];
        [congruence|]. apply Hn, Hin.
Qed.

Lemma set_size_le k v m :
  (JsMap.size (JsMap.set k v m) <= S (JsMap.size m))%nat.
Proof.
  unfold JsMap.size. induction m as [|[k' v'] m IH]; cbn; [lia|].
  destruct (String.eqb k k'); cbn; lia.
Qed.

Lemma get_In k v m : JsMap.get k m = Some v -> In (k, v) m.
Proof.
  induction m as [|[k' v'] m IH]; cbn; [discriminate|].
  destruct (String.eqb_spec k k') as [->|_].
  - intros [= ->]. left. reflexivity.
  - intros H. right. apply IH, H.
Qed.

Lemma get_None_keys k m :
  JsMap.get k m = None <-> ~ In k (JsMap.keys m).
Proof.
  unfold JsMap.keys. induction m as [|[k' v'] m IH]; cbn; [tauto|].
  destruct (String.eqb_spec k k') as [->|Hk].
  - split; [discriminate|]. intros H. exfalso. apply H. left.
    reflexivity.
  - rewrite IH. intuition congruence.
Qed.
End WithValue.

End JsMapFacts.

(** ** The scan and the text map *)

Module ScanFacts.
Import Duplicate DuplicateFacts JsMapFacts.

Definition blank (t : TextNode) : bool := is_blank (tn_characters t).
Definition locked_text (t : TextNode) : bool :=
  negb (blank t) && isInLockedChain t.

Lemma scan_walk_counts (n : SceneNode) (st : ScanState) :
  let leaves := collectTextNodes n in
  totalTextNodes (scan_walk n st)
  = (totalTextNodes st + length leaves)%nat
  /\ skippedEmpty (scan_walk n st)
     = (skippedEmpty st + length (List.filter blank leaves))%nat
  /\ skippedLocked (scan_walk n st)
     = (skippedLocked st + length (List.filter locked_text leaves))%nat.
Proof.
  revert st. induction n as [t|p cs IH] using SceneNode_nested_ind;
    intros st.
  - cbn. unfold scan_text, locked_text, blank.
    destruct (is_blank (tn_characters t)); cbn; [lia|].
    destruct (isInLockedChain t); cbn; lia.
  - rewrite collect_node. cbn [scan_walk]. revert st.
    induction IH as [|c cs Hc _ IHcs]; intros st; cbn [fold_left flat_map].
    + cbn. lia.
    + destruct (Hc st) as (Hc1 & Hc2 & Hc3). cbn zeta in *.
      destruct (IHcs (scan_walk c st)) as (H1 & H2 & H3).
      rewrite !List.filter_app, !length_app.
      rewrite H1, H2, H3, Hc1, Hc2, Hc3. lia.
Qed.

Lemma number_ids (k : nat) (ts : list TextNode) :
  map e_id (number k ts)
  = map (fun i : nat => "t" ++ pretty i) (seq k (length ts)).
Proof.
  revert k. induction ts as [|t ts IH]; intros k; [reflexivity|].
  cbn [number map length seq]. rewrite IH. reflexivity.
Qed.

Lemma number_length (k : nat) (ts : list TextNode) :
  length (number k ts) = length ts.
Proof.
  revert k. induction ts as [|t ts IH]; intros k; cbn; [|rewrite IH];
    reflexivity.
Qed.

Lemma number_In (k : nat) (ts : list TextNode) (e : TextEntry) :
  In e (number k ts) -> exists t i, In t ts /\ e = entry_of t i.
Proof.
  revert k. induction ts as [|t ts IH]; intros k; cbn; [intros []|].
  intros [<-|H].
  - exists t, k. split; [left|]; reflexivity.
  - destruct (IH _ H) as (t' & i & Hin & ->).
    exists t', i. split; [right; exact Hin|reflexivity].
Qed.

Lemma split_three (ts : list TextNode) :
  (length ts
   = length (List.filter translatable ts)
     + length (List.filter blank ts)
     + length (List.filter locked_text ts))%nat.
Proof.
  induction ts as [|t ts IH]; [reflexivity|].
  cbn [List.filter length]. unfold translatable, locked_text, blank in *.
  destruct (is_blank (tn_characters t)), (isInLockedChain t);
    cbn [negb andb length]; lia.
Qed.

(** Every text leaf is an entry or is skipped. *)
Lemma scan_total (root : SceneNode) :
  let s := scanTextNodes root in
  (totalTextNodes s
   = length (entries s) + skippedEmpty s + skippedLocked s)%nat.
Proof.
  cbn zeta.
  destruct (scan_walk_counts root (mkScan [] 0 0 0 0)) as (H1 & H2 & H3).
  cbn zeta in *. cbn [totalTextNodes skippedEmpty skippedLocked] in *.
  fold (scanTextNodes root) in *.
  rewrite H1, H2, H3, scan_entries, number_length. cbn [Nat.add].
  apply split_three.
Qed.

(** X8.  What a scan counts: every text leaf of the tree is counted
    once, and is either an entry, skipped as empty (blank text, locked
    or not) or skipped as locked (not blank, under a lock); the ids of
    the entries are [t0, t1, ...] without a gap, hence distinct; and
    every entry carries the id and the text of a leaf that is neither
    blank nor locked. *)
Theorem scan_counts (root : SceneNode) :
  let s := scanTextNodes root in
  let leaves := collectTextNodes root in
  totalTextNodes s = length leaves
  /\ (totalTextNodes s
      = length (entries s) + skippedEmpty s + skippedLocked s)%nat
  /\ skippedEmpty s = length (List.filter blank leaves)
  /\ skippedLocked s = length (List.filter locked_text leaves)
  /\ map e_id (entries s)
     = map (fun i : nat => "t" ++ pretty i)
         (seq 0 (length (entries s)))
  /\ List.NoDup (map e_id (entries s))
  /\ List.Forall
       (fun e =>
          is_blank (e_characters e) = false
          /\ exists t, In t leaves
                       /\ isInLockedChain t = false
                       /\ e_nodeId e = tn_id t
                       /\ e_characters e = tn_characters t)
       (entries s).
Proof.
  cbn zeta.
  destruct (scan_walk_counts root (mkScan [] 0 0 0 0)) as (H1 & H2 & H3).
  cbn zeta in *. cbn [totalTextNodes skippedEmpty skippedLocked] in *.
  fold (scanTextNodes root) in *.
  pose proof (scan_entries root) as He.
  assert (Hids : map e_id (entries (scanTextNodes root))
                 = map (fun i : nat => "t" ++ pretty i)
                     (seq 0 (length (entries (scanTextNodes root))))).
  { rewrite He, number_ids, number_length. reflexivity. }
  split; [exact H1|]. split.
  { rewrite H1, H2, H3, He, number_length. cbn [Nat.add].
    apply split_three. }
  split; [exact H2|]. split; [exact H3|]. split; [exact Hids|]. split.
  - rewrite Hids. apply Finite.Injective_map_NoDup.
    + intros i j. apply key_inj.
    + apply List.seq_NoDup.
  - rewrite He. apply List.Forall_forall. intros e Hin.
    apply number_In in Hin as (t & i & Hin & ->).
    apply filter_In in Hin as [Hin Ht].
    unfold translatable in Ht. apply andb_true_iff in Ht as [Hb Hl].
    apply negb_true_iff in Hb, Hl.
    split; [exact Hb|]. exists t. auto.
Qed.

(** *** The text map, whatever the entries *)

Lemma build_map_sound (es : list TextEntry)
    (origTexts cloneTexts : list TextNode) (m : JsMap.t TextNode)
    (P : string -> TextNode -> Prop) :
  (forall o c e,
      In o origTexts -> In c cloneTexts -> In e es ->
      e_nodeId e = tn_id o -> P (e_id e) c) ->
  List.NoDup (JsMap.keys m) ->
  (forall id c, In (id, c) m -> P id c) ->
  let m' := build_map es origTexts cloneTexts m in
  List.NoDup (JsMap.keys m')
  /\ (forall id c, In (id, c) m' -> P id c)
  /\ (JsMap.size m'
      <= JsMap.size m + Nat.min (length origTexts) (length cloneTexts))%nat.
Proof.
  revert cloneTexts m.
  induction origTexts as [|o os IH]; intros cs m HP Hnd Hm.
  { cbn. split; [exact Hnd|]. split; [exact Hm|]. unfold JsMap.size. lia. }
  destruct cs as [|c cs].
  { cbn. split; [exact Hnd|]. split; [exact Hm|]. unfold JsMap.size. lia. }
  cbn [build_map length Nat.min].
  set (m1 := match List.find _ es with
             | Some e => JsMap.set (e_id e) c m
             | None => m
             end).
  assert (H1 : List.NoDup (JsMap.keys m1)
               /\ (forall id c', In (id, c') m1 -> P id c')
               /\ (JsMap.size m1 <= S (JsMap.size m))%nat).
  { subst m1.
    destruct (List.find _ es) as [e|] eqn:Ef.
    - apply find_some in Ef as [Hin He]. apply String.eqb_eq in He.
      split; [apply set_keys_NoDup, Hnd|]. split; [|apply set_size_le].
      intros id c' H. apply set_In in H as [[= -> ->]|H]; [|auto].
      apply (HP o c e); [left|left| |]; auto.
    - split; [exact Hnd|]. split; [exact Hm|]. unfold JsMap.size. lia. }
  destruct H1 as (Hnd1 & Hm1 & Hs1).
  destruct (IH cs m1) as (Ha & Hb & Hc); auto.
  { intros o' c' e Ho Hc. apply HP; right; assumption. }
  cbn zeta in *. split; [exact Ha|]. split; [exact Hb|].
  unfold JsMap.size in *. lia.
Qed.

(** X9.  The text map of a duplication, whatever entries it is given:
    its keys are distinct ids of entries whose node id is that of a
    text leaf of the original, its values are text leaves of the
    clone, it has at most as many entries as the smaller of the two
    trees has text leaves, and none when there is no entry. *)
Theorem text_map_sound (cloned original : SceneNode) (langIndex : num)
    (language : Language) (settings : PluginSettings)
    (es : list TextEntry) :
  let d :=
    duplicateAndPlace cloned original langIndex language settings es in
  List.NoDup (JsMap.keys (textNodeMap d))
  /\ (forall id c,
        In (id, c) (textNodeMap d) ->
        In c (collectTextNodes (clone d))
        /\ exists e o,
             In e es /\ e_id e = id
             /\ In o (collectTextNodes original)
             /\ e_nodeId e = tn_id o)
  /\ (JsMap.size (textNodeMap d)
      <= Nat.min (length (collectTextNodes original))
           (length (collectTextNodes cloned)))%nat
  /\ (es = [] -> textNodeMap d = []).
Proof.
  cbn zeta. rewrite duplicate_unfold. cbn zeta. cbn [textNodeMap clone].
  set (cl := sn_with_name_pos _ _ _ cloned).
  destruct (build_map_sound es (collectTextNodes original)
              (collectTextNodes cl) JsMap.empty
              (fun id c =>
                 In c (collectTextNodes cl)
                 /\ exists e o,
                      In e es /\ e_id e = id
                      /\ In o (collectTextNodes original)
                      /\ e_nodeId e = tn_id o))
    as (Hnd & Hin & Hsize).
  - intros o c e Ho Hc He Hid. split; [exact Hc|].
    exists e, o. auto.
  - constructor.
  - intros id c [].
  - cbn zeta in *. split; [exact Hnd|]. split; [exact Hin|]. split.
    + subst cl. rewrite collect_placed_length in Hsize. exact Hsize.
    + intros ->. clear.
      assert (H : forall os cs (m : JsMap.t TextNode),
                 build_map [] os cs m = m).
      { induction os as [|o os IH]; intros cs m; [reflexivity|].
        destruct cs as [|c cs]; [reflexivity|]. cbn. apply IH. }
      apply H.
Qed.

End ScanFacts.

(** ** Writing the translations *)

Module ApplyFacts.
Import Apply JsMapFacts.

Section WithHost.
Variable reflowHeight : TextNode -> num.
Variable naturalSize : TextNode -> num * num.
Variable nodeFontsLoad : TextNode -> bool.
Variable fontLoads : FontName -> bool.

#[local] Abbreviation relayout := (Apply.relayout reflowHeight naturalSize).
#[local] Abbreviation try_fallbacks :=
  (Apply.try_fallbacks reflowHeight naturalSize fontLoads).
#[local] Abbreviation applyFallbackFont :=
  (Apply.applyFallbackFont reflowHeight naturalSize fontLoads).
#[local] Abbreviation write_translation :=
  (Apply.write_translation reflowHeight naturalSize).
#[local] Abbreviation apply_one :=
  (Apply.apply_one reflowHeight naturalSize nodeFontsLoad fontLoads).
#[local] Abbreviation applyTranslations :=
  (Apply.applyTranslations reflowHeight naturalSize nodeFontsLoad
     fontLoads).

(** *** The fallback fonts *)

Lemma relayout_keeps (t : TextNode) :
  tn_id (relayout t) = tn_id t
  /\ tn_name (relayout t) = tn_name t
  /\ tn_characters (relayout t) = tn_characters t
  /\ tn_fontName (relayout t) = tn_fontName t
  /\ tn_fontsLoaded (relayout t) = tn_fontsLoaded t
  /\ tn_textAlignHorizontal (relayout t) = tn_textAlignHorizontal t
  /\ tn_paragraphRTL (relayout t) = tn_paragraphRTL t
  /\ tn_textAutoResize (relayout t) = tn_textAutoResize t.
Proof.
  unfold Apply.relayout.
  destruct (tn_textAutoResize t) eqn:E; cbn; rewrite ?E; auto 10.
Qed.

Lemma try_fallbacks_spec (fonts : list FontName) (node : TextNode) :
  match List.find fontLoads fonts with
  | Some font =>
      try_fallbacks fonts node
      = (true, relayout (with_fonts (Some font) true node))
  | None => try_fallbacks fonts node = (false, node)
  end.
Proof.
  induction fonts as [|f fonts IH]; [reflexivity|].
  cbn. destruct (fontLoads f); [reflexivity|exact IH].
Qed.

(** X12.  The fallback font of a node is the first of Inter, Roboto
    and Arial (Regular) that loads: the node then has that font, its
    fonts count as loaded and its text is untouched; when none loads
    the call fails and the node is left as it was. *)
Theorem fallback_font_order (node : TextNode) :
  let inter := mkFontName "Inter" "Regular" in
  let roboto := mkFontName "Roboto" "Regular" in
  let arial := mkFontName "Arial" "Regular" in
  let res := applyFallbackFont node in
  (fst res = true
   <-> fontLoads inter = true \/ fontLoads roboto = true
       \/ fontLoads arial = true)
  /\ (fst res = false -> snd res = node)
  /\ (fst res = true ->
      tn_fontsLoaded (snd res) = true
      /\ tn_characters (snd res) = tn_characters node
      /\ tn_id (snd res) = tn_id node
      /\ tn_fontName (snd res)
         = Some (if fontLoads inter then inter
                 else if fontLoads roboto then roboto else arial)).
Proof.
  cbn zeta. unfold Apply.applyFallbackFont, fallbacks.
  pose proof (try_fallbacks_spec
                [mkFontName "Inter" "Regular";
                 mkFontName "Roboto" "Regular";
                 mkFontName "Arial" "Regular"] node) as H.
  cbn [List.find] in H.
  assert (Hgen : forall font,
             let n := relayout (with_fonts (Some font) true node) in
             tn_fontsLoaded n = true
             /\ tn_characters n = tn_characters node
             /\ tn_id n = tn_id node
             /\ tn_fontName n = Some font).
  { intros font.
    destruct (relayout_keeps (with_fonts (Some font) true node))
      as (K1 & K2 & K3 & K4 & K5 & _).
    cbn zeta. rewrite K1, K3, K4, K5. auto. }
  destruct (fontLoads (mkFontName "Inter" "Regular")) eqn:E1.
  { rewrite H. cbn [fst snd]. split; [split; auto|].
    split; [discriminate|]. intros _. apply Hgen. }
  destruct (fontLoads (mkFontName "Roboto" "Regular")) eqn:E2.
  { rewrite H. cbn [fst snd]. split; [split; auto|].
    split; [discriminate|]. intros _. apply Hgen. }
  destruct (fontLoads (mkFontName "Arial" "Regular")) eqn:E3.
  { rewrite H. cbn [fst snd]. split; [split; auto|].
    split; [discriminate|]. intros _. apply Hgen. }
  rewrite H. cbn [fst snd].
  split; [split; [discriminate|intros [?|[?|?]]; discriminate]|].
  split; [reflexivity|discriminate].
Qed.

(** *** One turn, and the turns of the other ids *)

(** The font loading of a turn. *)
Definition prepared (settings : PluginSettings) (node : TextNode)
  : bool * TextNode :=
  let '(ok, node1) :=
    Apply.loadFontsForNode nodeFontsLoad node in
  if ok then (true, node1)
  else if allowFontFallback settings then applyFallbackFont node1
  else (false, node1).

Lemma apply_one_unfold (language : Language) (settings : PluginSettings)
    (id translation : string) (st : Applied) :
  apply_one language settings (id, translation) st
  = match JsMap.get id (nodes st) with
    | None => st
    | Some node =>
        if fst (prepared settings node) then
          mkApplied (S (applied st)) (fontErrors st)
            (JsMap.set id
               (write_translation translation language settings
                  (snd (prepared settings node)))
               (nodes st))
        else
          mkApplied (applied st)
            (fontErrors st ++ [tn_name (snd (prepared settings node))])
            (JsMap.set id (snd (prepared settings node)) (nodes st))
    end.
Proof.
  unfold Apply.apply_one, prepared.
  destruct (JsMap.get id (nodes st)) as [node|]; [|reflexivity].
  destruct (Apply.loadFontsForNode nodeFontsLoad node) as [[] node1].
  - reflexivity.
  - destruct (allowFontFallback settings); [|reflexivity].
    destruct (applyFallbackFont node1) as [[] node2]; reflexivity.
Qed.

Lemma apply_one_keys language settings kv st :
  JsMap.keys (nodes (apply_one language settings kv st))
  = JsMap.keys (nodes st).
Proof.
  destruct kv as [id tr]. rewrite apply_one_unfold.
  destruct (JsMap.get id (nodes st)) as [node|] eqn:E; [|reflexivity].
  destruct (fst (prepared settings node)); cbn [nodes];
    apply keys_set_present; congruence.
Qed.

Lemma apply_one_other language settings k tr st id :
  k <> id ->
  JsMap.get id (nodes (apply_one language settings (k, tr) st))
  = JsMap.get id (nodes st).
Proof.
  intros Hne. rewrite apply_one_unfold.
  destruct (JsMap.get k (nodes st)) as [node|]; [|reflexivity].
  destruct (fst (prepared settings node)); cbn [nodes];
    apply get_set_ne, Hne.
Qed.

#[local] Abbreviation run language settings l st0 :=
  (fold_left (fun st kv => apply_one language settings kv st) l st0).

Lemma run_keys language settings l st :
  JsMap.keys (nodes (run language settings l st)) = JsMap.keys (nodes st).
Proof.
  revert st. induction l as [|kv l IH]; intros st; [reflexivity|].
  cbn [fold_left]. rewrite IH. apply apply_one_keys.
Qed.

Lemma run_other language settings l st id :
  ~ In id (map fst l) ->
  JsMap.get id (nodes (run language settings l st))
  = JsMap.get id (nodes st).
Proof.
  revert st. induction l as [|[k tr] l IH]; intros st Hn; [reflexivity|].
  cbn [fold_left]. cbn [map fst In] in Hn.
  rewrite IH by tauto. apply apply_one_other. tauto.
Qed.

(** Whether a pair of [translations] names a node of the map. *)
Definition known (m : JsMap.t TextNode) (kv : string * string) : bool :=
  match JsMap.get (fst kv) m with Some _ => true | None => false end.

Lemma known_keys (m m' : JsMap.t TextNode) (kv : string * string) :
  JsMap.keys m' = JsMap.keys m -> known m' kv = known m kv.
Proof.
  intros H. unfold known.
  destruct (JsMap.get (fst kv) m') eqn:E1,
           (JsMap.get (fst kv) m) eqn:E2; try reflexivity.
  - apply get_None_keys in E2. rewrite <- H in E2.
    apply get_None_keys in E2. congruence.
  - apply get_None_keys in E1. rewrite H in E1.
    apply get_None_keys in E1. congruence.
Qed.

Lemma run_count language settings l st :
  let r := run language settings l st in
  (applied r + length (fontErrors r)
   = applied st + length (fontErrors st)
     + length (List.filter (known (nodes st)) l))%nat.
Proof.
  revert st. induction l as [|[k tr] l IH]; intros st; cbn zeta.
  - cbn. lia.
  - cbn [fold_left List.filter]. rewrite IH.
    rewrite (List.filter_ext _ _
               (fun kv => known_keys (nodes st) _ kv
                            (apply_one_keys language settings (k, tr) st))).
    rewrite apply_one_unfold. unfold known at 2. cbn [fst].
    destruct (JsMap.get k (nodes st)) as [node|]; [|lia].
    destruct (fst (prepared settings node));
      cbn [applied fontErrors length]; rewrite ?length_app; cbn; lia.
Qed.

(** All fonts loading, nothing is reported. *)
Lemma run_no_errors language settings l st :
  List.NoDup (map fst l) ->
  (forall id node, In id (map fst l) ->
                   JsMap.get id (nodes st) = Some node ->
                   nodeFontsLoad node = true) ->
  fontErrors (run language settings l st) = fontErrors st.
Proof.
  revert st. induction l as [|[k tr] l IH]; intros st Hnd H;
    [reflexivity|].
  cbn [map fst] in Hnd. apply List.NoDup_cons_iff in Hnd as [Hk Hnd].
  cbn [fold_left]. rewrite IH; [|exact Hnd|].
  - rewrite apply_one_unfold.
    destruct (JsMap.get k (nodes st)) as [node|] eqn:E; [|reflexivity].
    unfold prepared, Apply.loadFontsForNode.
    rewrite (H k node (or_introl eq_refl) E). reflexivity.
  - intros id node Hin Hg. apply (H id node); [right; exact Hin|].
    rewrite <- Hg. symmetry. apply apply_one_other.
    intros ->. apply Hk, Hin.
Qed.

Lemma run_at language settings l st id tr node :
  List.NoDup (map fst l) -> In (id, tr) l ->
  JsMap.get id (nodes st) = Some node ->
  let r := run language settings l st in
  JsMap.get id (nodes r)
  = Some (if fst (prepared settings node)
          then write_translation tr language settings
                 (snd (prepared settings node))
          else snd (prepared settings node))
  /\ (fst (prepared settings node) = false ->
      In (tn_name (snd (prepared settings node))) (fontErrors r)).
Proof.
  assert (Hkeep : forall l st e,
             In e (fontErrors st) ->
             In e (fontErrors (run language settings l st))).
  { clear. induction l as [|[k t] l IH]; intros st e H; [exact H|].
    cbn [fold_left]. apply IH. rewrite apply_one_unfold.
    destruct (JsMap.get k (nodes st)) as [n|]; [|exact H].
    destruct (fst (prepared settings n)); cbn [fontErrors]; [exact H|].
    apply in_or_app. left. exact H. }
  revert st. induction l as [|[k t] l IH]; intros st Hnd Hin Hg;
    [destruct Hin|].
  cbn [map fst] in Hnd. apply List.NoDup_cons_iff in Hnd as [Hk Hnd].
  cbn zeta. cbn [fold_left].
  destruct Hin as [[= -> ->]|Hin].
  - rewrite run_other by exact Hk.
    rewrite apply_one_unfold, Hg.
    destruct (fst (prepared settings node)) eqn:Ep; cbn [nodes].
    + split; [apply get_set_eq|discriminate].
    + split; [apply get_set_eq|]. intros _. apply Hkeep.
      cbn [fontErrors]. apply in_or_app. right. left. reflexivity.
  - apply IH; [exact Hnd|exact Hin|].
    rewrite apply_one_other; [exact Hg|].
    intros ->. apply Hk. apply (in_map fst) in Hin. exact Hin.
Qed.

Lemma translations_listed (translations : gmap string string) :
  List.NoDup (map fst (map_to_list translations))
  /\ (forall id tr,
        In (id, tr) (map_to_list translations)
        <-> translations !! id = Some tr).
Proof.
  split.
  - pose proof (NoDup_fst_map_to_list translations) as H.
    assert (E : forall l : list (string * string), l.*1 = map fst l).
    { induction l as [|kv l IH]; [reflexivity|]. cbn. congruence. }
    rewrite <- E. apply NoDup_ListNoDup, H.
  - intros id tr. rewrite <- list_elem_of_In.
    apply elem_of_map_to_list.
Qed.

(** X10.  The accounting of [applyTranslations]: the map keeps its
    keys in their order; every translation whose id keys the map is
    counted once, as applied or as a font error, and the others are
    skipped; a node whose id has no translation is left as it was;
    and when the fonts of every node load there is no font error. *)
Theorem apply_accounting (m : JsMap.t TextNode)
    (translations : gmap string string) (language : Language)
    (settings : PluginSettings) :
  let r := applyTranslations m translations language settings in
  JsMap.keys (nodes r) = JsMap.keys m
  /\ (applied r + length (fontErrors r)
      = length (List.filter (known m) (map_to_list translations)))%nat
  /\ (applied r + length (fontErrors r) <= JsMap.size m)%nat
  /\ (forall id, translations !! id = None ->
                 JsMap.get id (nodes r) = JsMap.get id m)
  /\ ((forall id node, JsMap.get id m = Some node ->
                       nodeFontsLoad node = true) ->
      fontErrors r = []
      /\ applied r
         = length (List.filter (known m) (map_to_list translations))).
Proof.
  cbn zeta. unfold Apply.applyTranslations.
  destruct (translations_listed translations) as [Hnd Hl].
  pose proof (run_count language settings (map_to_list translations)
                (mkApplied 0 [] m)) as Hc.
  cbn zeta in Hc. cbn [applied fontErrors nodes length Nat.add] in Hc.
  split; [apply run_keys|]. split; [exact Hc|]. split; [|split].
  - rewrite Hc. clear Hc.
    (* distinct ids that key the map are no more than its keys *)
    assert (Hincl : incl (map fst (List.filter (known m)
                                     (map_to_list translations)))
                         (JsMap.keys m)).
    { intros id Hin. apply in_map_iff in Hin as ([k tr] & <- & Hin).
      apply filter_In in Hin as [_ Hk]. unfold known in Hk. cbn [fst] in *.
      destruct (JsMap.get k m) eqn:E; [|discriminate].
      destruct (in_dec string_dec k (JsMap.keys m)) as [Hi|Hn];
        [exact Hi|].
      apply get_None_keys in Hn. congruence. }
    assert (Hnd' : List.NoDup (map fst (List.filter (known m)
                                          (map_to_list translations)))).
    { clear Hincl Hl.
      induction (map_to_list translations) as [|[k tr] l IH];
        [constructor|].
      cbn [map fst] in Hnd. apply List.NoDup_cons_iff in Hnd as [Hk Hnd].
      cbn [List.filter]. destruct (known m (k, tr)); [|apply IH, Hnd].
      cbn [map fst]. constructor; [|apply IH, Hnd].
      intros Hin. apply Hk. apply in_map_iff in Hin as (kv & E & Hin).
      apply filter_In in Hin as [Hin _]. apply in_map_iff.
      exists kv. split; assumption. }
    pose proof (List.NoDup_incl_length Hnd' Hincl) as Hlen.
    rewrite length_map in Hlen. unfold JsMap.size, JsMap.keys in *.
    rewrite length_map in Hlen. exact Hlen.
  - intros id Hid. rewrite run_other; [reflexivity|].
    intros Hin. apply in_map_iff in Hin as ([k tr] & E & Hin).
    cbn [fst] in E. subst k. apply Hl in Hin. congruence.
  - intros Hall.
    assert (He : fontErrors
                   (run language settings (map_to_list translations)
                      (mkApplied 0 [] m)) = []).
    { rewrite run_no_errors; [reflexivity|exact Hnd|].
      intros id node _ Hg. apply (Hall id node Hg). }
    split; [exact He|]. rewrite He in Hc. cbn [length] in Hc. lia.
Qed.

(** X11.  What [applyTranslations] writes to a node that has a
    translation.  When its fonts load (or a fallback does), the node
    holds the translation and keeps its id; for a right-to-left
    language with [autoRTL] it is right-aligned unless it was
    centred, and when [setDirectionRTL] is set the write of the
    right-to-left paragraph direction is attempted: the direction is
    right-to-left after it on a node that has the property, and the
    node is left without it on a host where the write throws;
    otherwise alignment and direction are untouched.  When neither
    its fonts nor a permitted fallback load, its text is not written
    and its name is recorded as a font error. *)
Theorem apply_writes (m : JsMap.t TextNode)
    (translations : gmap string string) (language : Language)
    (settings : PluginSettings) (id translation : string)
    (node : TextNode) :
  JsMap.get id m = Some node ->
  translations !! id = Some translation ->
  let r := applyTranslations m translations language settings in
  let fallback :=
    allowFontFallback settings
    && existsb fontLoads fallbacks in
  exists node',
    JsMap.get id (nodes r) = Some node'
    /\ tn_id node' = tn_id node
    /\ (nodeFontsLoad node || fallback = true ->
        tn_characters node' = translation
        /\ tn_fontsLoaded node' = true
        /\ tn_textAlignHorizontal node'
           = (if isRTL language && autoRTL settings
              then match tn_textAlignHorizontal node with
                   | CENTER => CENTER
                   | _ => RIGHT
                   end
              else tn_textAlignHorizontal node)
        /\ tn_paragraphRTL node'
           = (if isRTL language && autoRTL settings
                 && setDirectionRTL settings
              then match tn_paragraphRTL node with
                   | Some _ => Some true
                   | None => None
                   end
              else tn_paragraphRTL node))
    /\ (nodeFontsLoad node = true ->
        tn_fontName node' = tn_fontName node)
    /\ (nodeFontsLoad node || fallback = false ->
        node' = node /\ In (tn_name node) (fontErrors r)).
Proof.
  intros Hg Ht. cbn zeta. unfold Apply.applyTranslations.
  destruct (translations_listed translations) as [Hnd Hl].
  apply Hl in Ht.
  destruct (run_at language settings (map_to_list translations)
              (mkApplied 0 [] m) id translation node Hnd Ht Hg)
    as [Hr He].
  cbn zeta in Hr, He.
  (* the fonts of the turn *)
  assert (Hprep :
            (nodeFontsLoad node = true ->
             prepared settings node
             = (true, with_fonts (tn_fontName node) true node))
            /\ (nodeFontsLoad node = false ->
                allowFontFallback settings
                && existsb fontLoads fallbacks = true ->
                exists font,
                  prepared settings node
                  = (true, relayout (with_fonts (Some font) true node)))
            /\ (nodeFontsLoad node = false ->
                allowFontFallback settings
                && existsb fontLoads fallbacks = false ->
                prepared settings node = (false, node))).
  { unfold prepared, Apply.loadFontsForNode.
    split; [intros ->; reflexivity|].
    pose proof (try_fallbacks_spec fallbacks node) as Hf.
    split; intros -> Hfb.
    - apply andb_true_iff in Hfb as [-> Hex].
      unfold Apply.applyFallbackFont.
      destruct (List.find fontLoads fallbacks) as [font|] eqn:Efind.
      + exists font. exact Hf.
      + apply existsb_exists in Hex as (f & Hin & Hload).
        pose proof (find_none _ _ Efind f Hin). congruence.
    - destruct (allowFontFallback settings); [|reflexivity].
      cbn [andb] in Hfb. unfold Apply.applyFallbackFont.
      destruct (List.find fontLoads fallbacks) as [font|] eqn:Efind;
        [|exact Hf].
      apply find_some in Efind as [Hin Hload].
      assert (existsb fontLoads fallbacks = true)
        by (apply existsb_exists; eauto).
      congruence. }
  destruct Hprep as (Hp1 & Hp2 & Hp3).
  assert (Hwrite : forall n,
             tn_id n = tn_id node ->
             tn_fontsLoaded n = true ->
             tn_textAlignHorizontal n = tn_textAlignHorizontal node ->
             tn_paragraphRTL n = tn_paragraphRTL node ->
             let w := write_translation translation language settings n in
             tn_id w = tn_id node
             /\ tn_characters w = translation
             /\ tn_fontsLoaded w = true
             /\ tn_textAlignHorizontal w
                = (if isRTL language && autoRTL settings
                   then match tn_textAlignHorizontal node with
                        | CENTER => CENTER
                        | _ => RIGHT
                        end
                   else tn_textAlignHorizontal node)
             /\ tn_paragraphRTL w
                = (if isRTL language && autoRTL settings
                      && setDirectionRTL settings
                   then match tn_paragraphRTL node with
                        | Some _ => Some true
                        | None => None
                        end
                   else tn_paragraphRTL node)
             /\ tn_fontName w = tn_fontName n).
  { intros n H1 H2 H3 H4. cbn zeta. unfold Apply.write_translation.
    destruct (relayout_keeps
                (with_text translation (tn_textAlignHorizontal n)
                   (tn_paragraphRTL n) n))
      as (K1 & K2 & K3 & K4 & K5 & K6 & K7 & K8).
    cbn [with_text tn_id tn_name tn_characters tn_fontName
         tn_fontsLoaded tn_textAlignHorizontal tn_paragraphRTL
         tn_textAutoResize] in K1, K2, K3, K4, K5, K6, K7, K8.
    destruct (isRTL language && autoRTL settings);
      cbn [andb with_text tn_id tn_characters tn_fontsLoaded
           tn_textAlignHorizontal tn_paragraphRTL tn_fontName].
    - rewrite K1, K3, K4, K5, K6, K7, H1, H2, H3, H4.
      unfold Apply.try_direction_RTL.
      destruct (setDirectionRTL settings); auto 10.
    - rewrite K1, K3, K4, K5, K6, K7, H1, H2, H3, H4. auto 10. }
  destruct (nodeFontsLoad node) eqn:El.
  - rewrite (Hp1 eq_refl) in Hr. cbn [fst snd] in Hr.
    destruct (Hwrite (with_fonts (tn_fontName node) true node))
      as (W1 & W2 & W3 & W4 & W5 & W6); try reflexivity.
    eexists. split; [exact Hr|]. split; [exact W1|].
    split; [intros _; auto|]. split; [intros _; exact W6|].
    cbn [orb]. discriminate.
  - cbn [orb].
    destruct (allowFontFallback settings && existsb fontLoads fallbacks)
      eqn:Efb.
    + destruct (Hp2 eq_refl eq_refl) as [font Hp].
      rewrite Hp in Hr. cbn [fst snd] in Hr.
      destruct (relayout_keeps (with_fonts (Some font) true node))
        as (K1 & K2 & K3 & K4 & K5 & K6 & K7 & K8).
      destruct (Hwrite (relayout (with_fonts (Some font) true node)))
        as (W1 & W2 & W3 & W4 & W5 & W6);
        try (rewrite ?K1, ?K5, ?K6, ?K7; reflexivity).
      eexists. split; [exact Hr|]. split; [exact W1|].
      split; [intros _; auto|]. split; discriminate.
    + rewrite (Hp3 eq_refl eq_refl) in Hr, He. cbn [fst snd] in Hr, He.
      exists node. split; [exact Hr|]. split; [reflexivity|].
      split; [discriminate|]. split; [discriminate|].
      intros _. split; [reflexivity|]. apply He. reflexivity.
Qed.

(** *** Mirroring *)

Variable reorders : SceneNode -> bool.

#[local] Abbreviation mirrorAutoLayout :=
  (Apply.mirrorAutoLayout reorders).

(** X13.  Mirroring applies only to a frame, component or instance
    with horizontal auto-layout that accepts the reordering; it then
    reverses the order of the children of that node and nothing
    else: the children themselves (nested frames included) and the
    properties of the node are as before, the text leaves below it
    are the same up to order, and mirroring the result again, if
    accepted, gives the node back.  In every other case the node is
    left as it was. *)
Theorem mirror_reverses_children (node : SceneNode) :
  let res := mirrorAutoLayout node in
  (fst res = false -> snd res = node)
  /\ (fst res = true ->
      exists p kids,
        node = Node p kids /\ snd res = Node p (rev kids)
        /\ (p_type p = FRAME \/ p_type p = COMPONENT
            \/ p_type p = INSTANCE)
        /\ p_layoutMode p = Some HORIZONTAL
        /\ (reorders (snd res) = true ->
            mirrorAutoLayout (snd res) = (true, node)))
  /\ Permutation (Duplicate.collectTextNodes (snd res))
       (Duplicate.collectTextNodes node).
Proof.
  cbn zeta. unfold Apply.mirrorAutoLayout.
  destruct node as [t|p kids]; cbn [fst snd].
  { split; [reflexivity|]. split; [discriminate|]. reflexivity. }
  assert (Hperm : Permutation
                    (Duplicate.collectTextNodes (Node p (rev kids)))
                    (Duplicate.collectTextNodes (Node p kids))).
  { rewrite !DuplicateFacts.collect_node.
    apply Permutation_flat_map, Permutation_sym, Permutation_rev. }
  destruct (p_type p) eqn:Et;
    try (split; [reflexivity|]; split; [discriminate|reflexivity]);
    (destruct (p_layoutMode p) as [[]|] eqn:El;
     try (split; [reflexivity|]; split; [discriminate|reflexivity]);
     destruct (reorders (Node p kids)) eqn:Er; cbn [fst snd];
     [|split; [reflexivity|]; split; [discriminate|reflexivity]];
     split; [discriminate|]; split; [|exact Hperm];
     intros _; exists p, kids;
     split; [reflexivity|]; split; [reflexivity|];
     split; [auto|]; split; [exact El|];
     intros Hr; rewrite Et, El, Hr, rev_involutive; reflexivity).
Qed.

End WithHost.
End ApplyFacts.

(** ** The runs of the translation client *)

Module BatchFacts.
Import Translate TranslateFacts MergeFacts.

(** The waits among the effects, added up. *)
Fixpoint total_wait (effs : list Effect) : Z :=
  match effs with
  | [] => 0
  | CallOpenAI _ :: effs' => total_wait effs'
  | Delay ms :: effs' => ms + total_wait effs'
  end.

Lemma extract_valid (props : gmap string PropValue) (ids : list string)
    (acc : gmap string string) (valid : nat) :
  (valid <= snd (extract props ids acc valid))%nat
  /\ ((valid < snd (extract props ids acc valid))%nat ->
      exists id v, In id ids /\ props !! id = Some (StringValue v)).
Proof.
  revert acc valid. induction ids as [|k ids IH]; intros acc valid.
  - cbn. split; lia.
  - cbn [extract].
    destruct (props !! k) as [[v|]|] eqn:Ek.
    + destruct (IH (<[k := v]> acc) (S valid)) as [H1 _].
      split; [lia|]. intros _. exists k, v. split; [left|]; auto.
    + destruct (IH acc valid) as [H1 H2]. split; [exact H1|].
      intros H. destruct (H2 H) as (id & v & Hin & Hp).
      exists id, v. split; [right|]; auto.
    + destruct (IH acc valid) as [H1 H2]. split; [exact H1|].
      intros H. destruct (H2 H) as (id & v & Hin & Hp).
      exists id, v. split; [right|]; auto.
Qed.

(** The translations taken from an answer: under an id there is the
    string the answer has under it, if the id was asked for. *)
Lemma extracted (props : gmap string PropValue) (ids : list string)
    (id v : string) :
  fst (extract props ids ∅ 0) !! id = Some v
  <-> In id ids /\ props !! id = Some (StringValue v).
Proof.
  rewrite extract_lookup, lookup_empty.
  destruct (props !! id) as [[w|]|];
    try (split; [discriminate|intros [_ H]; discriminate H]).
  destruct (bool_decide (id ∈ ids)) eqn:E.
  - apply bool_decide_eq_true_1 in E. apply list_elem_of_In in E.
    split; [intros [= ->]; auto|intros [_ [= ->]]; reflexivity].
  - apply bool_decide_eq_false_1 in E.
    split; [discriminate|]. intros [Hin _]. exfalso. apply E.
    apply list_elem_of_In, Hin.
Qed.

Lemma classify_success (entries : list TextEntry)
    (response : OpenAIResponse) (tr : gmap string string) :
  classify entries response = Success tr ->
  ok response = true
  /\ exists props,
       data response = Some (Object props)
       /\ tr = fst (extract props (map e_id entries) ∅ 0)
       /\ tr <> ∅.
Proof.
  unfold classify. destruct (ok response); cbn [negb].
  2:{ destruct (r_status response) as [[|s|s]|]; try discriminate.
      destruct (Pos.eq_dec s 401%positive) as [->|N1]; [discriminate|].
      destruct (Pos.eq_dec s 429%positive) as [->|N2]; [discriminate|].
      intros H. exfalso. revert H.
      repeat (destruct s as [s|s|]; try discriminate; try congruence). }
  destruct (data response) as [[|props]|]; try discriminate.
  destruct (extract props (map e_id entries) ∅ 0) as [t valid] eqn:E.
  destruct valid as [|valid]; [discriminate|]. intros [= <-].
  split; [reflexivity|]. exists props. split; [reflexivity|].
  rewrite E. split; [reflexivity|].
  destruct (extract_valid props (map e_id entries) ∅ 0) as [_ H].
  rewrite E in H. cbn [snd] in H.
  destruct H as (id & v & Hin & Hp); [lia|].
  assert (Hl : fst (extract props (map e_id entries) ∅ 0) !! id = Some v)
    by (apply extracted; auto).
  rewrite E in Hl. cbn [fst] in Hl. intros ->.
  rewrite lookup_empty in Hl. discriminate.
Qed.

Section WithNetwork.
Variable callOpenAI : nat -> string -> OpenAIResponse.
Variable aborted : nat -> bool.

#[local] Abbreviation attempts := (Translate.attempts callOpenAI aborted).
#[local] Abbreviation translateBatch :=
  (Translate.translateBatch callOpenAI aborted).

(** The answer of the turn [k]. *)
Definition answer (k : nat) : OpenAIResponse :=
  callOpenAI k (prompt_of k).

Definition rate_limited (k : nat) : bool :=
  negb (ok (answer k))
  && match r_status (answer k) with
     | Some 429%Z => true
     | _ => false
     end.

(** What the turn [k] does to the outside, when it is made. *)
Definition turn (k : nat) : list Effect :=
  CallOpenAI (prompt_of k)
    :: (if rate_limited k then [Delay (2000 * (Z.of_nat k + 1))] else []).

(** How a run ends. *)
Inductive Ending (entries : list TextEntry) (remaining first n : nat)
    (lastError : string) (res : TranslateResult) : Prop :=
| ended_cancelled :
    aborted (first + n) = true ->
    res = mkResult None (Some "Cancelled.") ->
    Ending entries remaining first n lastError res
| ended_exhausted (e : string) :
    n = remaining ->
    res = mkResult None (Some e) ->
    (n = 0%nat -> e = lastError) ->
    (forall m, n = S m ->
       classify entries (answer (first + m)) = Retry e
       \/ classify entries (answer (first + m)) = RateLimited e) ->
    Ending entries remaining first n lastError res
| ended_fatal (m : nat) (e : string) :
    n = S m -> classify entries (answer (first + m)) = Fatal e ->
    res = mkResult None (Some e) ->
    Ending entries remaining first n lastError res
| ended_success (m : nat) (tr : gmap string string) :
    n = S m -> classify entries (answer (first + m)) = Success tr ->
    res = mkResult (Some tr) None ->
    Ending entries remaining first n lastError res.

Lemma classify_rate_limited (entries : list TextEntry) (k : nat) :
  rate_limited k
  = match classify entries (answer k) with
    | RateLimited _ => true
    | _ => false
    end.
Proof.
  unfold rate_limited, classify.
  destruct (ok (answer k)); cbn [negb andb].
  - destruct (data (answer k)) as [[|props]|]; try reflexivity.
    destruct (extract props (map e_id entries) ∅ 0) as [t [|v]];
      reflexivity.
  - destruct (r_status (answer k)) as [[|s|s]|]; try reflexivity.
    destruct (Pos.eq_dec s 401%positive) as [->|N1]; [reflexivity|].
    destruct (Pos.eq_dec s 429%positive) as [->|N2]; [reflexivity|].
    repeat (destruct s as [s|s|]; try reflexivity; try congruence).
Qed.

Lemma attempts_trace (entries : list TextEntry) (remaining first : nat)
    (lastError : string) :
  let run := attempts entries remaining first lastError in
  exists n,
    (n <= remaining)%nat
    /\ snd run = flat_map turn (seq first n)
    /\ (forall k, (first <= k < first + n)%nat -> aborted k = false)
    /\ Ending entries remaining first n lastError (fst run).
Proof.
  revert first lastError.
  induction remaining as [|r IH]; intros first lastError; cbn zeta.
  { exists 0%nat. cbn. split; [lia|]. split; [reflexivity|].
    split; [intros k Hk; lia|].
    eapply ended_exhausted; [reflexivity|reflexivity|auto|discriminate]. }
  destruct (aborted first) eqn:Hab.
  { exists 0%nat. cbn [Translate.attempts]. rewrite Hab. cbn.
    split; [lia|]. split; [reflexivity|].
    split; [intros k Hk; lia|].
    apply ended_cancelled; [rewrite Nat.add_0_r; exact Hab|reflexivity]. }
  rewrite (attempts_step callOpenAI aborted entries r first lastError Hab).
  cbn zeta. fold (answer first).
  pose proof (classify_rate_limited entries first) as Hrl.
  assert (Hshift : forall (e : string),
             let rest := attempts entries r (S first) e in
             forall waits,
               turn first = (CallOpenAI (prompt_of first) :: waits)%list ->
               (classify entries (answer first) = Retry e
                \/ classify entries (answer first) = RateLimited e) ->
               exists n,
                 (n <= S r)%nat
                 /\ (CallOpenAI (prompt_of first) :: waits ++ snd rest)%list
                    = flat_map turn (seq first n)
                 /\ (forall k, (first <= k < first + n)%nat ->
                               aborted k = false)
                 /\ Ending entries (S r) first n lastError (fst rest)).
  { intros e rest waits Hturn Hcl.
    destruct (IH (S first) e) as (n & Hn & Htr & Hnab & Hend).
    cbn zeta in *. fold rest in Htr, Hend.
    exists (S n). split; [lia|]. split.
    { cbn [seq flat_map]. rewrite Hturn, <- Htr. reflexivity. }
    split.
    { intros k Hk. destruct (Nat.eq_dec k first) as [->|Hne];
        [exact Hab|]. apply Hnab. lia. }
    destruct Hend as [Ha Hr|e' En Hr H0 HS|m e' En Hc Hr|m tr En Hc Hr].
    - apply ended_cancelled; [|exact Hr].
      replace (first + S n)%nat with (S first + n)%nat by lia.
      exact Ha.
    - eapply ended_exhausted; [congruence|exact Hr|discriminate|].
      intros m [= <-]. destruct n as [|n'].
      + rewrite Nat.add_0_r, (H0 eq_refl). exact Hcl.
      + replace (first + S n')%nat with (S first + n')%nat by lia.
        apply (HS n' eq_refl).
    - eapply (ended_fatal _ _ _ _ _ _ n e'); [reflexivity| |exact Hr].
      subst n. replace (first + S m)%nat with (S first + m)%nat by lia.
      exact Hc.
    - eapply (ended_success _ _ _ _ _ _ n tr); [reflexivity| |exact Hr].
      subst n. replace (first + S m)%nat with (S first + m)%nat by lia.
      exact Hc. }
  destruct (classify entries (answer first)) as [e|e|e|tr] eqn:Ec.
  - exists 1%nat. cbn [fst snd seq flat_map app].
    split; [lia|]. split.
    { unfold turn. rewrite Hrl. reflexivity. }
    split.
    { intros k Hk. replace k with first by lia. exact Hab. }
    eapply (ended_fatal _ _ _ _ _ _ 0%nat e); [reflexivity| |reflexivity].
    rewrite Nat.add_0_r. exact Ec.
  - cbn [fst snd].
    apply (Hshift e [Delay (2000 * (Z.of_nat first + 1))]).
    + unfold turn. rewrite Hrl. reflexivity.
    + right. reflexivity.
  - cbn [fst snd]. apply (Hshift e []).
    + unfold turn. rewrite Hrl. reflexivity.
    + left. reflexivity.
  - exists 1%nat. cbn [fst snd seq flat_map app].
    split; [lia|]. split.
    { unfold turn. rewrite Hrl. reflexivity. }
    split.
    { intros k Hk. replace k with first by lia. exact Hab. }
    eapply (ended_success _ _ _ _ _ _ 0%nat tr);
      [reflexivity| |reflexivity].
    rewrite Nat.add_0_r. exact Ec.
Qed.

Lemma wait_bound (first n : nat) :
  (0 <= total_wait (flat_map turn (seq first n))
   <= 1000 * Z.of_nat n * (2 * Z.of_nat first + Z.of_nat n + 1))%Z.
Proof.
  revert first. induction n as [|n IH]; intros first; [cbn; lia|].
  cbn [seq flat_map]. unfold turn at 1 3.
  specialize (IH (S first)).
  destruct (rate_limited first); cbn [app total_wait]; nia.
Qed.

(** X14.  The trace of a batch, whatever the answers: the turns made
    are the first [n] of the [maxRetries + 1] allowed, each is one
    call, followed by a wait of [2000 * (k + 1)] ms exactly when the
    answer of turn [k] is a 429; the first call has the plain system
    prompt and every later one the strict suffix; no call is made in
    or after a turn that finds the signal aborted; the waits add up
    to at most [1000 * n * (n + 1)] ms, so to at most 12 s over at
    most 3 calls for the default of 2 retries; and a negative
    [maxRetries] makes no call and returns the empty error. *)
Theorem batch_trace (entries : list TextEntry) (maxRetries : Z) :
  let run := translateBatch entries maxRetries in
  exists n,
    (n <= Z.to_nat (maxRetries + 1))%nat
    /\ snd run = flat_map turn (seq 0 n)
    /\ calls (snd run)
       = map (fun k => match k with
                       | O => SYSTEM_PROMPT
                       | S _ => SYSTEM_PROMPT ++ STRICT_SUFFIX
                       end) (seq 0 n)
    /\ (forall k, aborted k = true -> (n <= k)%nat)
    /\ (0 <= total_wait (snd run)
        <= 1000 * Z.of_nat n * (Z.of_nat n + 1))%Z
    /\ (maxRetries = default_maxRetries ->
        (n <= 3)%nat /\ (total_wait (snd run) <= 12000)%Z)
    /\ ((maxRetries < 0)%Z -> run = (mkResult None (Some ""), [])).
Proof.
  cbn zeta. unfold Translate.translateBatch.
  destruct (attempts_trace entries (Z.to_nat (maxRetries + 1)) 0 "")
    as (n & Hn & Htr & Hnab & _).
  cbn zeta in *.
  pose proof (wait_bound 0 n) as Hw. rewrite <- Htr in Hw.
  exists n. split; [exact Hn|]. split; [exact Htr|]. split.
  { rewrite Htr. clear. generalize 0%nat as first.
    assert (H : forall first,
               calls (flat_map turn (seq first n))
               = map prompt_of (seq first n)).
    { induction n as [|n IH]; intros first; [reflexivity|].
      cbn [seq flat_map map]. unfold turn at 1.
      destruct (rate_limited first); cbn [app calls]; rewrite IH;
        reflexivity. }
    intros first. rewrite H. apply map_ext_in. intros k _.
    unfold prompt_of. destruct k; cbn [Nat.ltb Nat.leb].
    - reflexivity.
    - reflexivity. }
  split.
  { intros k Hk. destruct (Nat.lt_ge_cases k n) as [Hlt|Hge];
      [|exact Hge].
    rewrite Hnab in Hk by lia. discriminate. }
  split; [lia|]. split.
  - intros ->. unfold default_maxRetries in Hn.
    change (Z.to_nat (2 + 1)) with 3%nat in Hn. split; [exact Hn|]. nia.
  - intros Hneg. replace (Z.to_nat (maxRetries + 1)) with 0%nat by lia.
    reflexivity.
Qed.

(** X15.  The result of a batch, whatever the answers: either there
    are no translations and an error, or there are translations and
    no error; in the latter case the translations come from the
    answer of the last call made: they are not empty, every id in
    them is the id of an entry, and under it is the string that
    answer has under that id; strings under other ids are
    dropped. *)
Theorem batch_result (entries : list TextEntry) (maxRetries : Z) :
  let run := translateBatch entries maxRetries in
  let n := length (calls (snd run)) in
  (translations (fst run) = None /\ exists e, t_error (fst run) = Some e)
  \/ (exists tr m props,
        fst run = mkResult (Some tr) None
        /\ n = S m
        /\ ok (answer m) = true
        /\ data (answer m) = Some (Object props)
        /\ tr <> ∅
        /\ (forall id v,
              tr !! id = Some v
              <-> In id (map e_id entries)
                  /\ props !! id = Some (StringValue v))).
Proof.
  cbn zeta. unfold Translate.translateBatch.
  destruct (attempts_trace entries (Z.to_nat (maxRetries + 1)) 0 "")
    as (n & Hn & Htr & _ & Hend).
  cbn zeta in *.
  assert (Hcalls : length (calls (snd (attempts entries
                                         (Z.to_nat (maxRetries + 1)) 0 "")))
                   = n).
  { rewrite Htr. clear. generalize 0%nat as first.
    induction n as [|n IH]; intros first; [reflexivity|].
    cbn [seq flat_map]. unfold turn at 1.
    destruct (rate_limited first); cbn [app calls length]; rewrite IH;
      reflexivity. }
  destruct Hend as [_ Hr|e _ Hr _ _|m e _ _ Hr|m tr En Hc Hr].
  - left. rewrite Hr. split; [reflexivity|eauto].
  - left. rewrite Hr. split; [reflexivity|eauto].
  - left. rewrite Hr. split; [reflexivity|eauto].
  - right. cbn [Nat.add] in Hc.
    apply classify_success in Hc as (Hok & props & Hd & Etr & Hne).
    exists tr, m, props. split; [exact Hr|]. split; [congruence|].
    split; [exact Hok|]. split; [exact Hd|]. split; [exact Hne|].
    intros id v. rewrite Etr. apply extracted.
Qed.

(** X16.  Cancelling a batch: if the signal is found aborted at the
    top of turn [k], one of the turns allowed, and not before, then
    either the run ended before turn [k], on a 401 or on valid
    translations, or exactly [k] calls were made and the result is
    the error [Cancelled.] with no translations. *)
Theorem abort_ends_batch (entries : list TextEntry) (maxRetries : Z)
    (k : nat) :
  (Z.of_nat k <= maxRetries)%Z ->
  aborted k = true ->
  (forall j, (j < k)%nat -> aborted j = false) ->
  let run := translateBatch entries maxRetries in
  let n := length (calls (snd run)) in
  (n = k /\ fst run = mkResult None (Some "Cancelled."))
  \/ (exists m, n = S m /\ (m < k)%nat
                /\ ((exists e, classify entries (answer m) = Fatal e
                               /\ fst run = mkResult None (Some e))
                    \/ exists tr,
                         classify entries (answer m) = Success tr
                         /\ fst run = mkResult (Some tr) None)).
Proof.
  intros Hk Hab Hbefore. cbn zeta. unfold Translate.translateBatch.
  destruct (attempts_trace entries (Z.to_nat (maxRetries + 1)) 0 "")
    as (n & Hn & Htr & Hnab & Hend).
  cbn zeta in *.
  assert (Hcalls : length (calls (snd (attempts entries
                                         (Z.to_nat (maxRetries + 1)) 0 "")))
                   = n).
  { rewrite Htr. clear. generalize 0%nat as first.
    induction n as [|n IH]; intros first; [reflexivity|].
    cbn [seq flat_map]. unfold turn at 1.
    destruct (rate_limited first); cbn [app calls length]; rewrite IH;
      reflexivity. }
  rewrite Hcalls.
  assert (Hle : (n <= k)%nat).
  { destruct (Nat.lt_ge_cases k n) as [Hlt|Hge]; [|exact Hge].
    rewrite Hnab in Hab by lia. discriminate. }
  destruct Hend as [Ha Hr|e En Hr _ _|m e En Hc Hr|m tr En Hc Hr].
  - left. split; [|exact Hr]. cbn [Nat.add] in Ha.
    destruct (Nat.eq_dec n k) as [E|Hne]; [exact E|].
    rewrite Hbefore in Ha by lia. discriminate.
  - (* the turns cannot run out before the turn [k] *)
    lia.
  - right. exists m. cbn [Nat.add] in Hc. split; [exact En|].
    split; [lia|]. left. eauto.
  - right. exists m. cbn [Nat.add] in Hc. split; [exact En|].
    split; [lia|]. right. eauto.
Qed.

End WithNetwork.
End BatchFacts.

(** ** The answers of the API, and the batch over them *)

Module OpenAIFacts.
Import Translate TranslateFacts BatchFacts OpenAI.

Section WithHost.
Variable parse : string -> option Data.
Variable slice_0_200 : string -> string.

#[local] Abbreviation callOpenAI := (OpenAI.callOpenAI parse slice_0_200).
#[local] Abbreviation testApiKey := (OpenAI.testApiKey parse slice_0_200).

Lemma on_catch_failure (e : Thrown) :
  exists error, on_catch e = failure error None.
Proof. destruct e; eexists; reflexivity. Qed.

Lemma http_error_failure (status : Z) (text : string) (jsonMode : bool) :
  exists error,
    callOpenAI jsonMode (HttpError status text)
    = failure error (Some status).
Proof.
  cbn. destruct (Z.eqb_spec status 401) as [->|_]; [eauto|].
  destruct (Z.eqb_spec status 429) as [->|_]; eauto.
Qed.

(** X18.  The answer of [callOpenAI], whatever [fetch] comes to: it
    is ok exactly when the API answered ok with a non-empty content
    that, when JSON is asked for, parses; an ok answer carries data,
    no error and no status; an answer that is not ok carries an
    error, no data, and a status exactly when the API answered with
    an HTTP error, the status being that of the answer.  The key
    test asks for no JSON: it never parses, and returns the content
    under [text]. *)
Theorem response_shape (jsonMode : bool) (outcome : FetchOutcome) :
  let r := callOpenAI jsonMode outcome in
  (ok r = true
   <-> exists content,
         outcome = HttpOk (Json (Some content)) /\ content <> ""
         /\ (jsonMode = true -> parse content <> None))
  /\ (ok r = true ->
      (exists d, data r = Some d) /\ r_error r = None
      /\ r_status r = None)
  /\ (ok r = false -> (exists e, r_error r = Some e) /\ data r = None)
  /\ (forall s, r_status r = Some s
                <-> exists text, outcome = HttpError s text)
  /\ (forall content,
        outcome = HttpOk (Json (Some content)) -> content <> "" ->
        testApiKey outcome
        = mkResponse true
            (Some (Object {["text" := StringValue content]})) None None).
Proof.
  cbn zeta.
  destruct outcome as [e|status text|[[content|]|e]].
  - destruct (on_catch_failure e) as [error He]. cbn. rewrite He. cbn.
    split; [split; [discriminate|intros (c & H & _); discriminate H]|].
    split; [discriminate|]. split; [eauto|].
    split; [|intros c H; discriminate H].
    intros s. split; [discriminate|intros [t H]; discriminate H].
  - destruct (http_error_failure status text jsonMode) as [error He].
    rewrite He. cbn.
    split; [split; [discriminate|intros (c & H & _); discriminate H]|].
    split; [discriminate|]. split; [eauto|].
    split; [|intros c H; discriminate H].
    intros s. split; [intros [= ->]; eauto|intros [t [= ->]]; reflexivity].
  - destruct content as [|a content].
    { cbn.
      split; [split; [discriminate|]|].
      { intros (c & [= <-] & Hne & _). congruence. }
      split; [discriminate|]. split; [eauto|].
      split; [|intros c [= <-] Hne; congruence].
      intros s. split; [discriminate|intros [t H]; discriminate H]. }
    cbn [OpenAI.callOpenAI OpenAI.testApiKey].
    destruct jsonMode; cbn [negb].
    + destruct (parse (String a content)) as [parsed|] eqn:Ep; cbn.
      * split; [split; [intros _|reflexivity]|].
        { exists (String a content). rewrite Ep.
          split; [reflexivity|]. split; discriminate. }
        split; [intros _; eauto|]. split; [discriminate|].
        split; [|intros c [= <-] _; reflexivity].
        intros s. split; [discriminate|intros [t H]; discriminate H].
      * split; [split; [discriminate|]|].
        { intros (c & [= <-] & _ & Hp). destruct (Hp eq_refl Ep). }
        split; [discriminate|]. split; [eauto|].
        split; [|intros c [= <-] _; reflexivity].
        intros s. split; [discriminate|intros [t H]; discriminate H].
    + cbn.
      split; [split; [intros _|reflexivity]|].
      { exists (String a content). split; [reflexivity|].
        split; discriminate. }
      split; [intros _; eauto|]. split; [discriminate|].
      split; [|intros c [= <-] _; reflexivity].
      intros s. split; [discriminate|intros [t H]; discriminate H].
  - cbn.
    split; [split; [discriminate|]|].
    { intros (c & H & _). discriminate H. }
    split; [discriminate|]. split; [eauto|].
    split; [|intros c H; discriminate H].
    intros s. split; [discriminate|intros [t H]; discriminate H].
  - destruct (on_catch_failure e) as [error He]. cbn. rewrite He. cbn.
    split; [split; [discriminate|intros (c & H & _); discriminate H]|].
    split; [discriminate|]. split; [eauto|].
    split; [|intros c H; discriminate H].
    intros s. split; [discriminate|intros [t H]; discriminate H].
Qed.

(** *** The batch over HTTP *)

(** What the [k]-th [fetch] of a batch comes to. *)
Variable fetch : nat -> string -> FetchOutcome.
Variable aborted : nat -> bool.

Definition call (k : nat) (systemPrompt : string) : OpenAIResponse :=
  callOpenAI true (fetch k systemPrompt).

#[local] Abbreviation translateBatch :=
  (Translate.translateBatch call aborted).

(** How the retry loop takes what a [fetch] comes to. *)
Lemma classify_http (entries : list TextEntry) (outcome : FetchOutcome) :
  classify entries (callOpenAI true outcome)
  = match outcome with
    | HttpError 401%Z _ => Fatal "Invalid API key (401)."
    | HttpError 429%Z _ =>
        RateLimited "Rate limited (429). Wait and retry."
    | HttpError status text =>
        Retry ("OpenAI " ++ pretty status ++ ": " ++ slice_0_200 text)
    | Rejected SyntaxError | HttpOk (BodyThrows SyntaxError) =>
        Retry "Failed to parse JSON from OpenAI response."
    | Rejected (OtherError message)
    | HttpOk (BodyThrows (OtherError message)) =>
        Retry (or_else (Some message) "Unknown error")
    | Rejected NotAnError | HttpOk (BodyThrows NotAnError) =>
        Retry "Network error."
    | HttpOk (Json None) | HttpOk (Json (Some EmptyString)) =>
        Retry "Empty response from OpenAI."
    | HttpOk (Json (Some content)) =>
        match parse content with
        | None => Retry "Failed to parse JSON from OpenAI response."
        | Some NotAnObject =>
            Retry "Invalid response format from OpenAI."
        | Some (Object props) =>
            match extract props (map e_id entries) ∅ 0 with
            | (_, O) => Retry "No valid translations in response."
            | (translations, S _) => Success translations
            end
        end
    end.
Proof.
  destruct outcome as [[|m|]|status text|[[[|a content]|]|[|m|]]];
    try reflexivity.
  - unfold OpenAI.callOpenAI.
    destruct (Z.eqb_spec status 401) as [->|N1]; [reflexivity|].
    destruct (Z.eqb_spec status 429) as [->|N2]; [reflexivity|].
    unfold classify, failure. cbn [ok negb r_error r_status or_else].
    assert (S1 : Some status <> Some 401%Z) by congruence.
    assert (S2 : Some status <> Some 429%Z) by congruence.
    rewrite (status_other _ (Some status) _ _ _ S1 S2).
    assert (Hne : exists c s,
               "OpenAI " ++ pretty status ++ ": " ++ slice_0_200 text
               = String c s) by (cbn; eauto).
    destruct Hne as (c & s & ->).
    destruct status as [|p|p]; try reflexivity.
    destruct (Pos.eq_dec p 401%positive) as [->|H1]; [congruence|].
    destruct (Pos.eq_dec p 429%positive) as [->|H2]; [congruence|].
    clear N1 N2 S1 S2.
    repeat (destruct p as [p|p|]; try reflexivity; try congruence).
  - cbn [OpenAI.callOpenAI negb].
    destruct (parse (String a content)) as [[|props]|]; reflexivity.
Qed.

Lemma turn_effects (k : nat) :
  BatchFacts.turn call k
  = CallOpenAI (prompt_of k)
      :: match fetch k (prompt_of k) with
         | HttpError 429%Z _ => [Delay (2000 * (Z.of_nat k + 1))]
         | _ => []
         end.
Proof.
  unfold BatchFacts.turn. f_equal.
  rewrite (classify_rate_limited call [] k).
  unfold BatchFacts.answer, call. rewrite classify_http.
  destruct (fetch k (prompt_of k)) as [[|m|]|s t|[[[|a c]|]|[|m|]]];
    try reflexivity.
  - destruct s as [|p|p]; try reflexivity.
    destruct (Pos.eq_dec p 401%positive) as [->|H1]; [reflexivity|].
    destruct (Pos.eq_dec p 429%positive) as [->|H2]; [reflexivity|].
    repeat (destruct p as [p|p|]; try reflexivity; try congruence).
  - destruct (parse (String a c)) as [[|props]|]; reflexivity.
Qed.

(** X19.  A batch over HTTP, the signal never aborted and
    [maxRetries] not negative.  An API that answers 401 is called
    once.  An API that answers anything but 401 and valid
    translations (another HTTP error, a network failure, an empty or
    unparsable content, a content that is no object or has no string
    for any entry) is called [maxRetries + 1] times, the batch
    waiting [2000 * (k + 1)] ms after the call [k] exactly when its
    answer is a 429; the batch then fails with the error of the last
    call. *)
Theorem batch_over_http (entries : list TextEntry) (maxRetries : Z) :
  (0 <= maxRetries)%Z ->
  (forall k, aborted k = false) ->
  let run := translateBatch entries maxRetries in
  let turns := Z.to_nat (maxRetries + 1) in
  ((exists text, fetch 0 SYSTEM_PROMPT = HttpError 401 text) ->
   run = (mkResult None (Some "Invalid API key (401)."),
          [CallOpenAI SYSTEM_PROMPT]))
  /\ (forall errors : nat -> string,
        (forall k, (k < turns)%nat ->
           classify entries (call k (prompt_of k)) = Retry (errors k)
           \/ classify entries (call k (prompt_of k))
              = RateLimited (errors k)) ->
        fst run = mkResult None (Some (errors (turns - 1)%nat))
        /\ snd run
           = flat_map
               (fun k =>
                  CallOpenAI (prompt_of k)
                    :: match fetch k (prompt_of k) with
                       | HttpError 429%Z _ =>
                           [Delay (2000 * (Z.of_nat k + 1))]
                       | _ => []
                       end)
               (seq 0 turns))
  /\ ((forall k, exists text,
         fetch k (prompt_of k) = HttpError 429 text) ->
      fst run
      = mkResult None (Some "Rate limited (429). Wait and retry.")
      /\ length (calls (snd run)) = turns
      /\ total_wait (snd run)
         = (1000 * Z.of_nat turns * (Z.of_nat turns + 1))%Z)
  /\ ((forall k, fetch k (prompt_of k) = Rejected NotAnError) ->
      fst run = mkResult None (Some "Network error.")
      /\ length (calls (snd run)) = turns
      /\ total_wait (snd run) = 0%Z).
Proof.
  intros Hmax Hab. cbn zeta. unfold Translate.translateBatch.
  set (turns := Z.to_nat (maxRetries + 1)).
  assert (Hturns : exists r, turns = S r).
  { exists (Z.to_nat maxRetries). subst turns. lia. }
  destruct Hturns as [r Hr].
  assert (Hexh : forall errors : nat -> string,
             (forall k, (k < turns)%nat ->
                classify entries (call k (prompt_of k)) = Retry (errors k)
                \/ classify entries (call k (prompt_of k))
                   = RateLimited (errors k)) ->
             fst (Translate.attempts call aborted entries turns 0 "")
             = mkResult None (Some (errors (turns - 1)%nat))
             /\ snd (Translate.attempts call aborted entries turns 0 "")
                = flat_map (BatchFacts.turn call) (seq 0 turns)).
  { intros errors H.
    destruct (attempts_exhausted call aborted entries errors turns 0 "")
      as [H1 _].
    { intros k Hk. split; [apply Hab|]. apply H. lia. }
    cbn zeta in H1. split.
    - rewrite H1, Hr. cbn [Nat.add]. do 3 f_equal. lia.
    - destruct (attempts_trace call aborted entries turns 0 "")
        as (n & Hn & Htr & _ & Hend).
      cbn zeta in *. rewrite Htr.
      destruct Hend as [Ha _|e En _ _ _|m e En Hc _|m tr En Hc _].
      + rewrite Hab in Ha. discriminate.
      + rewrite En. reflexivity.
      + cbn [Nat.add] in Hc. unfold BatchFacts.answer in Hc.
        destruct (H m ltac:(lia)) as [E|E]; congruence.
      + cbn [Nat.add] in Hc. unfold BatchFacts.answer in Hc.
        destruct (H m ltac:(lia)) as [E|E]; congruence. }
  assert (Hflat : forall n first,
             flat_map (BatchFacts.turn call) (seq first n)
             = flat_map
                 (fun k =>
                    CallOpenAI (prompt_of k)
                      :: match fetch k (prompt_of k) with
                         | HttpError 429%Z _ =>
                             [Delay (2000 * (Z.of_nat k + 1))]
                         | _ => []
                         end)
                 (seq first n)).
  { intros n first. apply flat_map_ext. intros k. apply turn_effects. }
  split; [|split; [|split]].
  - intros [text H401]. rewrite Hr.
    rewrite (attempts_step call aborted entries r 0 "" (Hab 0%nat)).
    cbn zeta. unfold call.
    change (prompt_of 0) with SYSTEM_PROMPT.
    rewrite H401, classify_http. reflexivity.
  - intros errors H. destruct (Hexh errors H) as [H1 H2].
    split; [exact H1|]. rewrite H2. apply Hflat.
  - intros H429.
    destruct (Hexh (fun _ => "Rate limited (429). Wait and retry."))
      as [H1 H2].
    { intros k _. right. unfold call.
      destruct (H429 k) as [text ->]. apply classify_http. }
    split; [exact H1|]. rewrite H2, Hflat. clear - H429.
    assert (Hgen : forall n first,
               let effs :=
                 flat_map
                   (fun k =>
                      CallOpenAI (prompt_of k)
                        :: match fetch k (prompt_of k) with
                           | HttpError 429%Z _ =>
                               [Delay (2000 * (Z.of_nat k + 1))]
                           | _ => []
                           end)
                   (seq first n) in
               length (calls effs) = n
               /\ total_wait effs
                  = (1000 * Z.of_nat n
                     * (2 * Z.of_nat first + Z.of_nat n + 1))%Z).
    { induction n as [|n IH]; intros first; [split; reflexivity|].
      cbn zeta. cbn [seq flat_map]. destruct (H429 first) as [text ->].
      destruct (IH (S first)) as [IH1 IH2]. cbn zeta in IH1, IH2.
      cbn [app calls length total_wait]. rewrite IH1, IH2.
      split; [reflexivity|]. nia. }
    destruct (Hgen turns 0%nat) as [G1 G2]. cbn zeta in G1, G2.
    split; [exact G1|]. rewrite G2. nia.
  - intros Hnet.
    destruct (Hexh (fun _ => "Network error.")) as [H1 H2].
    { intros k _. left. unfold call. rewrite Hnet. apply classify_http. }
    split; [exact H1|]. rewrite H2, Hflat. clear - Hnet.
    generalize 0%nat as first. generalize turns as n.
    induction n as [|n IH]; intros first; [split; reflexivity|].
    cbn [seq flat_map]. rewrite Hnet.
    destruct (IH (S first)) as [IH1 IH2].
    cbn [app calls length total_wait]. rewrite IH1, IH2.
    split; reflexivity.
Qed.

End WithHost.
End OpenAIFacts.

(** ** Selection, scan and the course of a run *)

Module RunFacts.
Import Controller Selection CancelFacts JsMapFacts.

(** X20.  The selection a scan accepts is a single frame, component,
    instance, group or section, never a text node alone and never
    several nodes.  A scan of anything else reports an error and
    leaves the entries of the last scan in place; a scan of a valid
    selection replaces them by the entries it reports, and its counts
    add up: the text nodes are the translatable ones, as many as there
    are entries, plus the skipped ones. *)
Theorem scan_message (sel : list SceneNode) (st : State) :
  let res := performScan sel st in
  (forall node,
      validateSelection sel = Some node
      <-> sel = [node]
          /\ (sn_type node = INSTANCE \/ sn_type node = FRAME
              \/ sn_type node = GROUP \/ sn_type node = SECTION
              \/ sn_type node = COMPONENT))
  /\ (forall t, validateSelection [TextLeaf t] = None)
  /\ (validateSelection sel = None ->
      res = (false, st,
             [scan_error "Select one frame, instance, group, or section."]))
  /\ (forall node,
        validateSelection sel = Some node ->
        exists result,
          res = (true, with_entries (textEntries result) st,
                 [scan_result result])
          /\ textEntries result
             = Duplicate.entries (Duplicate.scanTextNodes node)
          /\ translatableNodes result = length (textEntries result)
          /\ (sr_totalTextNodes result
              = translatableNodes result + sr_skippedEmpty result
                + sr_skippedLocked result)%nat
          /\ nodeId result = sn_id node
          /\ nodeName result = Duplicate.sn_name node).
Proof.
  cbn zeta. split; [|split; [|split]].
  - intros node. unfold validateSelection.
    destruct sel as [|n [|n' sel]].
    + split; [discriminate|intros [H _]; discriminate H].
    + destruct (sn_type n) eqn:Et;
        (split;
         [intros [= <-]; rewrite Et; auto 10
         |intros [[= <-] H]; rewrite Et in H;
          try reflexivity; intuition discriminate]);
        discriminate.
    + split; [discriminate|intros [H _]; discriminate H].
  - reflexivity.
  - intros H. unfold performScan. rewrite H. reflexivity.
  - intros node H. unfold performScan. rewrite H.
    pose proof (ScanFacts.scan_total node) as Hsum.
    cbn zeta in Hsum.
    set (s := Duplicate.scanTextNodes node) in *.
    exists (mkScanResult (Duplicate.sn_name node) (sn_type node)
              (sn_id node) (Duplicate.totalTextNodes s)
              (length (Duplicate.entries s)) (Duplicate.skippedEmpty s)
              (Duplicate.skippedLocked s) (Duplicate.entries s)).
    split; [reflexivity|].
    cbn [textEntries translatableNodes sr_totalTextNodes sr_skippedEmpty
         sr_skippedLocked nodeId nodeName].
    auto 10.
Qed.

(** X23.  The size a [resize] message sets: a width that is a number
    is brought into [300, 800] and a height into [400, 1200], a value
    already in range being kept; a width or height that is NaN stays
    NaN. *)
Theorem resize_clamp (width height : num) :
  let clamp lo hi v := Num.max (Num.of_Z lo) (Math_min (Num.of_Z hi) v) in
  resize width height = (clamp 300 800 width, clamp 400 1200 height)%Z
  /\ (forall lo hi v,
        (lo <= hi)%Z ->
        match v with
        | Num.NaN => clamp lo hi v = Num.NaN
        | Num.PInf => clamp lo hi v = Num.of_Z hi
        | Num.NInf => clamp lo hi v = Num.of_Z lo
        | Num.Fin q =>
            exists q',
              clamp lo hi v = Num.Fin q'
              /\ inject_Z lo <= q' <= inject_Z hi
              /\ (inject_Z lo <= q <= inject_Z hi -> q' == q)
              /\ (q < inject_Z lo -> q' = inject_Z lo)
              /\ (inject_Z hi < q -> q' = inject_Z hi)
        end%Q).
Proof.
  cbn zeta. split; [reflexivity|].
  intros lo hi v Hle.
  assert (Hq : (inject_Z lo <= inject_Z hi)%Q)
    by (rewrite <- Zle_Qle; exact Hle).
  destruct v as [q| | |]; try reflexivity.
  - unfold Math_min, Num.max, Num.of_Z, Num.lt.
    destruct (Qle_bool q (inject_Z hi)) eqn:E1; cbn [negb].
    + apply Qle_bool_iff in E1.
      destruct (Qle_bool q (inject_Z lo)) eqn:E2; cbn [negb].
      * apply Qle_bool_iff in E2. exists (inject_Z lo).
        split; [reflexivity|]. split; [split; [apply Qle_refl|exact Hq]|].
        split; [|split; [reflexivity|]].
        -- intros [H _]. apply Qle_antisym; assumption.
        -- intros H. exfalso. apply (Qlt_irrefl q).
           eapply Qle_lt_trans; [exact E1|exact H].
      * assert (Hlt : (inject_Z lo < q)%Q).
        { apply Qnot_le_lt. intros H. apply Qle_bool_iff in H. congruence. }
        exists q. split; [reflexivity|].
        split; [split; [apply Qlt_le_weak, Hlt|exact E1]|].
        split; [reflexivity|]. split.
        -- intros H. exfalso. apply (Qlt_irrefl q).
           eapply Qlt_trans; [exact H|exact Hlt].
        -- intros H. exfalso. apply (Qlt_irrefl q).
           eapply Qle_lt_trans; [exact E1|exact H].
    + assert (Hlt : (inject_Z hi < q)%Q).
      { apply Qnot_le_lt. intros H. apply Qle_bool_iff in H. congruence. }
      destruct (Qle_bool (inject_Z hi) (inject_Z lo)) eqn:E2; cbn [negb].
      * apply Qle_bool_iff in E2. exists (inject_Z lo).
        split; [reflexivity|]. split; [split; [apply Qle_refl|exact Hq]|].
        split; [|split; [reflexivity|]].
        -- intros [_ H]. exfalso. apply (Qlt_irrefl q).
           eapply Qle_lt_trans; [exact H|exact Hlt].
        -- intros _. f_equal.
           assert (hi <= lo)%Z by (rewrite Zle_Qle; exact E2). lia.
      * exists (inject_Z hi). split; [reflexivity|].
        split; [split; [exact Hq|apply Qle_refl]|].
        split; [|split; [|reflexivity]].
        -- intros [_ H]. exfalso. apply (Qlt_irrefl q).
           eapply Qle_lt_trans; [exact H|exact Hlt].
        -- intros H. exfalso. apply (Qlt_irrefl q).
           eapply Qlt_trans; [exact H|].
           eapply Qle_lt_trans; [exact Hq|exact Hlt].
  - unfold Math_min, Num.max, Num.of_Z, Num.lt.
    destruct (Qle_bool (inject_Z hi) (inject_Z lo)) eqn:E2; cbn [negb];
      [|reflexivity].
    apply Qle_bool_iff in E2. f_equal. f_equal.
    assert (hi <= lo)%Z by (rewrite Zle_Qle; exact E2). lia.
Qed.

Section WithHost.
Variable reflowHeight : TextNode -> num.
Variable naturalSize : TextNode -> num * num.
Variable nodeFontsLoad : TextNode -> bool.
Variable fontLoads : FontName -> bool.
Variable reorders : SceneNode -> bool.
Variable cloneOf : nat -> SceneNode -> SceneNode.

#[local] Abbreviation onmessage :=
  (Controller.onmessage reflowHeight naturalSize nodeFontsLoad fontLoads).
#[local] Abbreviation handle_all :=
  (CancelFacts.handle_all reflowHeight naturalSize nodeFontsLoad
     fontLoads).
#[local] Abbreviation generate := (Controller.generate reorders cloneOf).
#[local] Abbreviation duplicate_loop :=
  (Controller.duplicate_loop reorders cloneOf).
#[local] Abbreviation start_generate :=
  (Selection.start_generate reorders cloneOf).

(** *** The events of a run that is not cancelled *)

Definition is_duplicating (m : ControllerMessage) : Prop :=
  exists langCode langName d,
    m = progress langCode langName duplicating d None.

(** The language a message announces as being duplicated, its note
    about mirroring apart. *)
Definition announced (m : ControllerMessage) : option string :=
  match m with
  | language_progress p =>
      match lp_status p, detail p with
      | duplicating, None => Some (lp_langCode p)
      | _, _ => None
      end
  | _ => None
  end.

Definition requests (st : State) (languages : list Language)
  : list ControllerMessage :=
  flat_map
    (fun lang =>
       [progress (code lang) (l_name lang) translating None None;
        request_translation (code lang) (l_name lang) (isRTL lang)
          (originalEntries st) (settings st)])
    languages.

Lemma request_loop_running (languages : list Language) (st : State) :
  cancelled_flag st = false ->
  request_loop languages st = (true, requests st languages).
Proof.
  intros Hc. induction languages as [|lang languages IH]; [reflexivity|].
  cbn [request_loop]. rewrite Hc, IH. reflexivity.
Qed.

Lemma duplicate_loop_running (node : SceneNode)
    (languages : list Language) (i : nat) (st : State) :
  cancelled_flag st = false ->
  let res := duplicate_loop node languages i st in
  let st' := fst (fst res) in
  snd (fst res) = true
  /\ List.Forall is_duplicating (snd res)
  /\ omap announced (snd res) = map code languages
  /\ settings st' = settings st
  /\ cancelled_flag st' = false
  /\ originalEntries st' = originalEntries st
  /\ languageMap st' = languageMap st
  /\ qaReports st' = qaReports st
  /\ pendingCount st' = pendingCount st
  /\ (forall c, In c (JsMap.keys (cloneMap st'))
                <-> In c (JsMap.keys (cloneMap st))
                    \/ In c (map code languages)).
Proof.
  revert i st.
  induction languages as [|lang languages IH]; intros i st Hc.
  { cbn. repeat split; auto; try constructor. tauto. }
  cbn zeta. cbn [Controller.duplicate_loop]. rewrite Hc.
  set (d := Duplicate.duplicateAndPlace _ _ _ _ _ _).
  set (mir := if isRTL lang && autoRTL (settings st)
                 && mirrorLayout (settings st)
              then _ else _).
  assert (Hmir : List.Forall is_duplicating (snd mir)
                 /\ omap announced (snd mir) = []).
  { subst mir. destruct (isRTL lang && autoRTL (settings st)
                         && mirrorLayout (settings st));
      [|split; [constructor|reflexivity]].
    destruct (Apply.mirrorAutoLayout reorders (Duplicate.clone d))
      as [[] clone']; cbn [snd].
    - split; [constructor|reflexivity].
    - split; [|reflexivity]. constructor; [|constructor].
      eexists _, _, _. reflexivity. }
  destruct mir as [clone mirror_events]. cbn [snd] in Hmir.
  destruct Hmir as [Hm1 Hm2].
  set (st1 := with_run _ _ _ st).
  specialize (IH (S i) st1 Hc). cbn zeta in IH.
  destruct (duplicate_loop node languages (S i) st1) as [res events].
  cbn [fst snd] in *.
  destruct IH as (I1 & I2 & I3 & I4 & I5 & I6 & I7 & I8 & I9 & I10).
  split; [exact I1|]. split.
  { constructor; [eexists _, _, _; reflexivity|].
    apply List.Forall_app. split; assumption. }
  split.
  { assert (Hcons : forall m l,
               omap announced (m :: l)
               = match announced m with
                 | Some c => c :: omap announced l
                 | None => omap announced l
                 end) by reflexivity.
    rewrite Hcons. cbn [announced progress lp_status detail lp_langCode].
    rewrite omap_app, Hm2, I3. reflexivity. }
  split; [exact I4|]. split; [exact I5|]. split; [exact I6|].
  split; [exact I7|]. split; [exact I8|]. split; [exact I9|].
  intros c. rewrite I10. subst st1. cbn [with_run cloneMap map].
  rewrite set_keys_In. cbn [In]. intuition congruence.
Qed.

(** The state and the events of [generate], the run not being
    cancelled. *)
Lemma generate_running (node : SceneNode) (languages : list Language)
    (st : State) :
  cancelled_flag st = false ->
  let out := generate node languages st in
  exists duplications,
    snd out = (duplications ++ requests st languages)%list
    /\ List.Forall is_duplicating duplications
    /\ omap announced duplications = map code languages
    /\ pendingCount (fst out) = Z.of_nat (length languages)
    /\ (forall c, In c (map code languages) ->
          JsMap.get c (cloneMap (fst out)) <> None)
    /\ cancelled_flag (fst out) = false
    /\ languageMap (fst out) = languageMap st
    /\ originalEntries (fst out) = originalEntries st
    /\ qaReports (fst out) = qaReports st.
Proof.
  intros Hc. cbn zeta. unfold Controller.generate.
  pose proof (duplicate_loop_running node languages 0 st Hc) as H.
  cbn zeta in H.
  destruct (duplicate_loop node languages 0 st) as [[st1 flag] events].
  cbn [fst snd] in H.
  destruct H as (-> & H2 & H3 & H4 & H5 & H6 & H7 & H8 & H9 & H10).
  cbn [fst snd]. exists events.
  rewrite request_loop_running by exact H5. cbn [snd].
  split.
  { unfold requests. cbn [with_run originalEntries settings].
    rewrite H4, H6. reflexivity. }
  split; [exact H2|]. split; [exact H3|]. split; [reflexivity|].
  split; [|cbn; auto].
  intros c Hin. cbn [with_run cloneMap].
  intros Hnone. apply get_None_keys in Hnone. apply Hnone.
  apply H10. right. exact Hin.
Qed.

(** X21.  A run that is not cancelled: the controller first
    announces the duplication of every language, in the order asked
    for, adding a note for a clone it could not mirror; only then
    does it announce and request the translations, one request per
    language in the same order, each with the scanned entries and the
    settings; afterwards as many results are pending as there are
    languages and there is a clone for each. *)
Theorem generate_order (node : SceneNode) (languages : list Language)
    (st : State) :
  cancelled_flag st = false ->
  let out := generate node languages st in
  exists duplications,
    snd out = (duplications ++ requests st languages)%list
    /\ List.Forall is_duplicating duplications
    /\ omap announced duplications = map code languages
    /\ pendingCount (fst out) = Z.of_nat (length languages)
    /\ (forall lang, In lang languages ->
          JsMap.get (code lang) (cloneMap (fst out)) <> None)
    /\ cancelled_flag (fst out) = false
    /\ languageMap (fst out) = languageMap st
    /\ originalEntries (fst out) = originalEntries st.
Proof.
  intros Hc. cbn zeta.
  destruct (generate_running node languages st Hc)
    as (duplications & Hout & Hd & Hann & Hp & Hclones & Hcf & Hl & He
        & _).
  cbn zeta in *. exists duplications.
  split; [exact Hout|]. split; [exact Hd|]. split; [exact Hann|].
  split; [exact Hp|]. split; [|auto].
  intros lang Hin. apply Hclones, in_map, Hin.
Qed.

(** *** The end of a run *)

(** A translation result for one of the languages [codes]. *)
Definition result_for (codes : list string) (msg : UIMessage) : Prop :=
  match msg with
  | translations_ready langCode _ | translation_error langCode _ =>
      In langCode codes
  | _ => False
  end.

Definition is_ready (msg : UIMessage) : bool :=
  match msg with translations_ready _ _ => true | _ => false end.

(** The clones and the languages of [codes] are on record and the
    run is not cancelled. *)
Definition running (codes : list string) (st : State) : Prop :=
  cancelled_flag st = false
  /\ forall c, In c codes ->
               JsMap.get c (cloneMap st) <> None
               /\ JsMap.get c (languageMap st) <> None.

Definition completions (out : list ControllerMessage) : nat :=
  length (List.filter is_all_complete out).

Lemma complete_check_spec (n : Z) (reports : list QAReport) :
  complete_check n reports
  = if (n <=? 0)%Z then [all_complete reports] else [].
Proof. reflexivity. Qed.

Lemma result_step (codes : list string) (msg : UIMessage) (st : State) :
  running codes st -> result_for codes msg ->
  let res := onmessage msg st in
  running codes (fst res)
  /\ pendingCount (fst res) = (pendingCount st - 1)%Z
  /\ length (qaReports (fst res))
     = (length (qaReports st) + (if is_ready msg then 1 else 0))%nat
  /\ exists shown,
       List.filter is_all_complete shown = []
       /\ snd res
          = (shown
             ++ complete_check (pendingCount (fst res))
                  (qaReports (fst res)))%list.
Proof.
  intros [Hc Hk] Hmsg. cbn zeta.
  destruct msg as [langCode translations|langCode err| | |];
    try destruct Hmsg; cbn [Controller.onmessage is_ready].
  - unfold Controller.on_translations_ready. rewrite Hc.
    destruct (Hk langCode Hmsg) as [H1 H2].
    destruct (JsMap.get langCode (cloneMap st)) as [entry|] eqn:Ee;
      [|congruence].
    destruct (JsMap.get langCode (languageMap st)) as [language|] eqn:El;
      [|congruence].
    destruct (QA.runQA _ _ _ _ _ _) as [qaReport nodes].
    cbn [fst snd with_run pendingCount qaReports].
    split; [|split; [reflexivity|split]].
    + split; [exact Hc|]. intros c Hin.
      destruct (Hk c Hin) as [K1 K2].
      cbn [with_run cloneMap languageMap]. split; [|exact K2].
      unfold Controller.store_nodes.
      destruct (string_dec langCode c) as [->|Hne].
      * rewrite get_set_eq. discriminate.
      * rewrite get_set_ne by exact Hne. exact K1.
    + rewrite length_app. reflexivity.
    + eexists. split; [|reflexivity]. reflexivity.
  - unfold Controller.on_translation_error. rewrite Hc.
    cbn [fst snd with_run pendingCount qaReports].
    split; [|split; [reflexivity|split]].
    + split; [exact Hc|]. intros c Hin. apply (Hk c Hin).
    + lia.
    + eexists. split; [|reflexivity]. reflexivity.
Qed.

Lemma results_steps (codes : list string) (msgs : list UIMessage)
    (st : State) :
  running codes st -> List.Forall (result_for codes) msgs ->
  let res := handle_all msgs st in
  running codes (fst res)
  /\ pendingCount (fst res)
     = (pendingCount st - Z.of_nat (length msgs))%Z
  /\ length (qaReports (fst res))
     = (length (qaReports st)
        + length (List.filter is_ready msgs))%nat
  /\ ((Z.of_nat (length msgs) < pendingCount st)%Z ->
      completions (snd res) = 0%nat)
  /\ (msgs <> [] -> Z.of_nat (length msgs) = pendingCount st ->
      completions (snd res) = 1%nat
      /\ exists shown,
           snd res
           = (shown ++ [all_complete (qaReports (fst res))])%list).
Proof.
  revert st. induction msgs as [|msg msgs IH]; intros st Hrun Hall.
  { cbn [CancelFacts.handle_all fst snd length List.filter].
    split; [exact Hrun|]. split; [cbn; lia|]. split; [lia|].
    split; [reflexivity|]. intros H. congruence. }
  apply List.Forall_cons_iff in Hall as [Hmsg Hall].
  destruct (result_step codes msg st Hrun Hmsg)
    as (Hrun1 & Hp1 & Hq1 & shown & Hs1 & Hout1).
  cbn zeta in *. cbn [CancelFacts.handle_all].
  destruct (onmessage msg st) as [st1 out1]. cbn [fst snd] in *.
  specialize (IH st1 Hrun1 Hall). cbn zeta in IH.
  destruct (handle_all msgs st1) as [st2 out2] eqn:Eh. cbn [fst snd] in *.
  destruct IH as (I1 & I2 & I3 & I4 & I5).
  split; [exact I1|]. split; [rewrite I2, Hp1; cbn [length]; lia|].
  split.
  { rewrite I3, Hq1. cbn [List.filter].
    destruct (is_ready msg); cbn [length]; lia. }
  unfold completions in *. rewrite List.filter_app, length_app, Hout1,
    List.filter_app, Hs1, complete_check_spec.
  cbn [app length]. split.
  - intros Hlt. cbn [length] in Hlt.
    destruct (Z.leb_spec (pendingCount st1) 0) as [Hle|Hgt]; [lia|].
    cbn [List.filter length]. apply I4. lia.
  - intros _ Hlen. cbn [length] in Hlen.
    destruct msgs as [|msg' msgs'].
    + cbn in Hlen. cbn [CancelFacts.handle_all] in Eh.
      injection Eh as <- <-.
      destruct (Z.leb_spec (pendingCount st1) 0) as [Hle|Hgt]; [|lia].
      split; [reflexivity|]. exists shown. rewrite app_nil_r.
      reflexivity.
    + destruct (Z.leb_spec (pendingCount st1) 0) as [Hle|Hgt];
        [cbn [length] in Hlen; lia|].
      cbn [List.filter length Nat.add].
      destruct I5 as [I5 [shown2 I6]]; [discriminate|lia|].
      split; [exact I5|].
      exists (shown ++ shown2)%list. rewrite I6, app_nil_r, app_assoc.
      reflexivity.
Qed.

Lemma store_languages_keys (languages : list Language)
    (m : JsMap.t Language) (c : string) :
  In c (JsMap.keys (store_languages languages m))
  <-> In c (JsMap.keys m) \/ In c (map code languages).
Proof.
  unfold store_languages. revert m.
  induction languages as [|lang languages IH]; intros m; cbn [fold_left].
  - cbn. tauto.
  - rewrite IH, set_keys_In. cbn [map In]. intuition congruence.
Qed.

Lemma no_completion_in_requests (st : State) (languages : list Language) :
  List.filter is_all_complete (requests st languages) = [].
Proof.
  induction languages as [|lang languages IH]; [reflexivity|exact IH].
Qed.

Lemma no_completion_in_duplications (events : list ControllerMessage) :
  List.Forall is_duplicating events ->
  List.filter is_all_complete events = [].
Proof.
  induction 1 as [|m events (c & n & d & ->) _ IH]; [reflexivity|].
  exact IH.
Qed.

(** X22.  The end of a run started on a valid selection with scanned
    entries and not cancelled: starting it sends no [all-complete];
    every result that arrives for one of its languages, ready or in
    error, takes one off the pending count; no [all-complete] is sent
    while fewer results than languages have arrived; and the handler
    of the result that makes up the number sends exactly one, as its
    last message, with one report per ready result.  A run without
    any language sends nothing, so it never completes. *)
Theorem completion_once (sel : list SceneNode) (node : SceneNode)
    (languages : list Language) (incoming : PluginSettings) (st : State)
    (msgs : list UIMessage) :
  validateSelection sel = Some node ->
  originalEntries st <> [] ->
  List.Forall (result_for (map code languages)) msgs ->
  let started := start_generate sel languages incoming st in
  let finished := handle_all msgs (fst started) in
  completions (snd started) = 0%nat
  /\ pendingCount (fst finished)
     = (Z.of_nat (length languages) - Z.of_nat (length msgs))%Z
  /\ ((length msgs < length languages)%nat ->
      completions (snd started ++ snd finished) = 0%nat)
  /\ (msgs <> [] -> length msgs = length languages ->
      completions (snd started ++ snd finished) = 1%nat
      /\ (exists shown,
            snd finished
            = (shown ++ [all_complete (qaReports (fst finished))])%list)
      /\ length (qaReports (fst finished))
         = length (List.filter is_ready msgs))
  /\ (languages = [] -> snd started = []).
Proof.
  intros Hsel Hentries Hmsgs. cbn zeta.
  unfold Selection.start_generate. rewrite Hsel.
  cbn [start_generate_begin].
  set (st0 := mkState incoming false (originalEntries st) [] [] []
                (pendingCount st)).
  set (st1 := with_languages
                (store_languages languages (languageMap st0)) st0).
  assert (He : originalEntries st1 = originalEntries st) by reflexivity.
  destruct (originalEntries st1) as [|e es] eqn:Ee; [congruence|].
  destruct (generate_running node languages st1 eq_refl)
    as (dups & Hout & Hd & _ & Hp & Hclones & Hc & Hl & _ & Hq0).
  cbn zeta in *.
  set (out := generate node languages st1) in *.
  assert (Hrun : running (map code languages) (fst out)).
  { split; [exact Hc|]. intros c Hin.
    split; [apply Hclones, Hin|]. rewrite Hl.
    intros Hnone. apply get_None_keys in Hnone. apply Hnone.
    subst st1. cbn [with_languages languageMap].
    apply store_languages_keys. right. exact Hin. }
  assert (Hstart : completions (snd out) = 0%nat).
  { unfold completions. rewrite Hout, List.filter_app,
      (no_completion_in_duplications _ Hd), no_completion_in_requests.
    reflexivity. }
  destruct (results_steps (map code languages) msgs (fst out) Hrun Hmsgs)
    as (_ & R2 & R3 & R4 & R5).
  cbn zeta in *. rewrite Hp in *.
  split; [exact Hstart|]. split; [exact R2|].
  unfold completions in *. rewrite List.filter_app, length_app, Hstart.
  split; [|split].
  - intros Hlt. apply R4. lia.
  - intros Hne Hlen. destruct R5 as [R5 R6]; [exact Hne|lia|].
    split; [exact R5|]. split; [exact R6|].
    rewrite R3, Hq0. reflexivity.
  - intros ->. subst out. reflexivity.
Qed.

End WithHost.
End RunFacts.

(** ** Asking for shorter texts *)

Module ShortenFacts.
Import Translate UI BatchFacts RewriteFacts.

(** X17.  The result of [shortenTranslations]: without entries it is
    the empty set of translations, whatever the answer; otherwise it
    is an error, never empty, when the answer is not ok or is not an
    object, and else the strings the answer has under the ids of the
    entries, strings under other ids being dropped.  Unlike a batch,
    an answer without any such string is no error: the result is then
    the empty set. *)
Theorem shorten_result (entries : list ShortenEntry)
    (response : OpenAIResponse) :
  let res := shortenTranslations entries response in
  (entries = [] -> res = mkResult (Some ∅) None)
  /\ (entries <> [] ->
      ok response = false \/ data response = None
      \/ data response = Some NotAnObject ->
      exists e, res = mkResult None (Some e) /\ e <> "")
  /\ (forall props,
        entries <> [] -> ok response = true ->
        data response = Some (Object props) ->
        exists tr,
          res = mkResult (Some tr) None
          /\ (forall id v,
                tr !! id = Some v
                <-> In id (map s_id entries)
                    /\ props !! id = Some (StringValue v))
          /\ ((forall id v, In id (map s_id entries) ->
                            props !! id <> Some (StringValue v)) ->
              tr = ∅)).
Proof.
  cbn zeta. split; [intros ->; reflexivity|]. split.
  - intros Hne H. destruct entries as [|e0 es]; [congruence|].
    cbn [shortenTranslations].
    destruct (ok response); cbn [negb].
    + destruct H as [H|[H|H]]; [discriminate| |]; rewrite H;
        eexists; split; [reflexivity|discriminate|reflexivity|discriminate].
    + eexists. split; [reflexivity|].
      destruct (r_error response) as [[|c s]|]; discriminate.
  - intros props Hne Hok Hd. destruct entries as [|e0 es]; [congruence|].
    cbn [shortenTranslations]. rewrite Hok, Hd. cbn [negb].
    eexists. split; [reflexivity|]. split.
    + intros id v. apply extracted.
    + intros Hnone. apply map_eq. intros id. rewrite lookup_empty.
      destruct (fst (extract props (map s_id (e0 :: es)) ∅ 0) !! id)
        as [v|] eqn:E; [|reflexivity].
      apply extracted in E as [Hin Hp]. destruct (Hnone id v Hin Hp).
Qed.

Lemma shorten_entries_In (issueIds : list string)
    (stored : gmap string string) (textEntries : list TextEntry)
    (e : ShortenEntry) :
  In e (shorten_entries issueIds stored textEntries)
  <-> exists te,
        In te textEntries
        /\ In (e_id te) issueIds
        /\ stored !! e_id te = Some (current e)
        /\ current e <> ""
        /\ e = mkShorten (e_id te) (e_characters te) (current e).
Proof.
  unfold shorten_entries. rewrite <- list_elem_of_In, list_elem_of_omap.
  split.
  - intros (te & Hin & H). exists te. apply list_elem_of_In in Hin.
    destruct (existsb (String.eqb (e_id te)) issueIds) eqn:Ex;
      [|discriminate].
    apply existsb_exists in Ex as (x & Hx & Heq).
    apply String.eqb_eq in Heq. subst x.
    destruct (stored !! e_id te) as [[|c s]|] eqn:Es; try discriminate.
    injection H as <-. cbn [current].
    split; [exact Hin|]. split; [exact Hx|]. split; [reflexivity|].
    split; [discriminate|reflexivity].
  - intros (te & Hin & Hid & Hs & Hne & He). exists te.
    split; [apply list_elem_of_In, Hin|].
    assert (Ex : existsb (String.eqb (e_id te)) issueIds = true).
    { apply existsb_exists. exists (e_id te).
      split; [exact Hid|apply String.eqb_refl]. }
    rewrite Ex, Hs. destruct (current e) as [|c s] eqn:Ec; [congruence|].
    rewrite He. reflexivity.
Qed.

(** X26.  What a rewrite asks for.  It asks for nothing unless the
    language has a report that implicates an id, stored translations
    and a scan; it then sends, in the order of the scan, the entries
    whose id the report implicates and whose stored translation is
    not empty, each with the text scanned and that translation.  If
    the answer is an error or has no translations, the language is
    shown as done again and is no longer being rewritten, the stored
    translations are untouched, and the controller is only asked to
    notify the error. *)
Theorem rewrite_request (langCode : string) (ui0 ui1 : State)
    (entries : list ShortenEntry) :
  rewrite_begin langCode ui0 = Some (entries, ui1) ->
  (exists prog report stored textEntries,
      langProgressMap ui0 !! langCode = Some prog
      /\ qaReport prog = Some report
      /\ translationsStore ui0 !! langCode = Some stored
      /\ scanResult ui0 = Some textEntries
      /\ entries = shorten_entries (issueEntryIds report) stored textEntries
      /\ (forall e,
            In e entries
            <-> exists te,
                  In te textEntries
                  /\ In (e_id te) (issueEntryIds report)
                  /\ stored !! e_id te = Some (current e)
                  /\ current e <> ""
                  /\ e = mkShorten (e_id te) (e_characters te) (current e)))
  /\ entries <> []
  /\ translationsStore ui1 = translationsStore ui0
  /\ (forall stored result,
        (exists c s, t_error result = Some (String c s))
        \/ translations result = None ->
        let out := rewrite_finish langCode stored result ui1 in
        status_of langCode (fst out) = Some done
        /\ (langCode ∉ rewritingLangs (fst out))
        /\ translationsStore (fst out) = translationsStore ui0
        /\ exists message, snd out = [Controller.notify message true]
                           /\ message <> "").
Proof.
  intros Hbegin.
  destruct (rewrite_begin_state _ _ _ _ Hbegin) as (Hs1 & Hin1 & Hne).
  unfold rewrite_begin in Hbegin.
  destruct (langProgressMap ui0 !! langCode) as [prog|] eqn:Ep;
    [|discriminate].
  destruct (translationsStore ui0 !! langCode) as [stored|] eqn:Es;
    [|discriminate].
  destruct (scanResult ui0) as [tes|] eqn:Et; [|discriminate].
  destruct (qaReport prog) as [report|] eqn:Er; [|discriminate].
  destruct (issueEntryIds report) as [|i ids] eqn:Ei; [discriminate|].
  destruct (shorten_entries (i :: ids) stored tes) as [|e es] eqn:Ee;
    [discriminate|].
  injection Hbegin as <- <-.
  assert (Hstore : translationsStore
                     (updateLangProgress langCode applying None None
                        (with_rewriting ({[langCode]} ∪ rewritingLangs ui0)
                           ui0))
                   = translationsStore ui0).
  { unfold updateLangProgress. cbn [with_rewriting langProgressMap].
    rewrite Ep. reflexivity. }
  split; [|split; [discriminate|split; [exact Hstore|]]].
  - exists prog, report, stored, tes. rewrite Ei.
    split; [reflexivity|]. split; [exact Er|]. split; [reflexivity|].
    split; [reflexivity|]. split; [symmetry; exact Ee|].
    intros e'. rewrite <- Ee. apply shorten_entries_In.
  - intros stored' result Hfail. cbn zeta.
    set (ui1 := updateLangProgress langCode applying None None _) in *.
    unfold status_of in Hs1.
    destruct (langProgressMap ui1 !! langCode) as [prog1|] eqn:Ep1;
      [|discriminate].
    assert (Hfailed :
               let st :=
                 updateLangProgress langCode done None None
                   (with_rewriting (rewritingLangs ui1 ∖ {[langCode]}) ui1)
               in
               status_of langCode st = Some done
               /\ (langCode ∉ rewritingLangs st)
               /\ translationsStore st = translationsStore ui0).
    { cbn zeta. split; [|split].
      - unfold status_of.
        rewrite (updateLangProgress_status langCode done None None _ prog1)
          by exact Ep1.
        reflexivity.
      - rewrite updateLangProgress_rewriting. cbn [with_rewriting
          rewritingLangs].
        rewrite elem_of_difference, elem_of_singleton. tauto.
      - unfold updateLangProgress at 1.
        cbn [with_rewriting langProgressMap]. rewrite Ep1.
        cbn [with_progress translationsStore]. exact Hstore. }
    unfold rewrite_finish.
    destruct (t_error result) as [[|c s]|] eqn:Eerr.
    + destruct Hfail as [(c & s & H)|Hnone]; [discriminate|].
      rewrite Hnone. cbn [fst snd].
      destruct Hfailed as (F1 & F2 & F3).
      split; [exact F1|]. split; [exact F2|]. split; [exact F3|].
      eexists. split; [reflexivity|discriminate].
    + cbn [fst snd]. destruct Hfailed as (F1 & F2 & F3).
      split; [exact F1|]. split; [exact F2|]. split; [exact F3|].
      eexists. split; [reflexivity|discriminate].
    + destruct Hfail as [(c & s & H)|Hnone]; [discriminate|].
      rewrite Hnone. cbn [fst snd].
      destruct Hfailed as (F1 & F2 & F3).
      split; [exact F1|]. split; [exact F2|]. split; [exact F3|].
      eexists. split; [reflexivity|discriminate].
Qed.

End ShortenFacts.

(** ** The queue of translations *)

Module QueueFacts.
Import UI UIRun.

(** What happens in the UI during a run. *)
Inductive Event : Type :=
| Received (msg : Controller.ControllerMessage)
| Resumed (req : Request) (result : Translate.TranslateResult)
| Settled
| CancelClicked.

Definition handle (e : Event) (st : RunState) : list Out * RunState :=
  match e with
  | Received msg => handleMessage msg st
  | Resumed req result => resumed req result st
  | Settled => settled st
  | CancelClicked => cancelGeneration st
  end.

(** The translations a handler starts. *)
Definition started (out : list Out) : list Request :=
  omap (fun o => match o with starts req => Some req | _ => None end) out.

(** The translations the controller asks for. *)
Definition requested (events : list Event) : list Request :=
  omap (fun e =>
          match e with
          | Received (Controller.request_translation c n r tes s) =>
              Some (mkRequest c n r tes s)
          | _ => None
          end) events.

(** The events handled in order; [inflight] counts the translations
    started and not yet settled.  [None]: an event [Settled] occurs
    with no translation in flight. *)
Fixpoint run (events : list Event) (st : RunState) (inflight : nat)
  : option (list Out * RunState * nat) :=
  match events with
  | [] => Some ([], st, inflight)
  | e :: events' =>
      let '(out1, st1) := handle e st in
      let before :=
        match e, inflight with
        | Settled, O => None
        | Settled, S n => Some n
        | _, _ => Some inflight
        end in
      match before with
      | None => None
      | Some n =>
          match run events' st1 (n + length (started out1)) with
          | Some (out2, st2, n') => Some ((out1 ++ out2)%list, st2, n')
          | None => None
          end
      end
  end.

Lemma updateLangProgress_generating (langCode : string) (s : LangStatus)
    (d : option string) (r : option QAReport) (u : State) :
  generating (updateLangProgress langCode s d r u) = generating u.
Proof.
  unfold updateLangProgress.
  destruct (langProgressMap u !! langCode); reflexivity.
Qed.

Lemma started_app (a b : list Out) :
  started (a ++ b) = (started a ++ started b)%list.
Proof. apply omap_app. Qed.

(** The loop of [processQueue]: it starts the head of the queue while
    fewer than two translations are active. *)
Lemma processQueue_loop_spec (queue : list Request) (k : nat) (s : State) :
  (k <= 2)%nat ->
  let res := processQueue_loop queue (Z.of_nat k) s in
  let n := if generating s then Nat.min (2 - k) (length queue) else 0%nat in
  started (fst res) = firstn n queue
  /\ length (fst res) = n
  /\ translationQueue (snd res) = skipn n queue
  /\ activeTranslations (snd res) = Z.of_nat (k + n)
  /\ generating (ui (snd res)) = generating s.
Proof.
  revert k s. induction queue as [|req queue IH]; intros k s Hk; cbn zeta.
  { cbn. destruct (generating s); rewrite ?Nat.min_0_r, ?Nat.add_0_r;
      auto. }
  cbn [processQueue_loop length].
  destruct (generating s) eqn:Eg; cbn [andb].
  2:{ cbn. rewrite Eg, Nat.add_0_r. auto. }
  destruct (Z.ltb_spec (Z.of_nat k) 2) as [Hlt|Hge].
  - specialize (IH (S k)
                  (updateLangProgress (r_langCode req) translating None None
                     s) ltac:(lia)).
    cbn zeta in IH. rewrite updateLangProgress_generating, Eg in IH.
    replace (Z.of_nat k + 1)%Z with (Z.of_nat (S k)) by lia.
    destruct (processQueue_loop queue (Z.of_nat (S k)) _) as [out st].
    cbn [fst snd] in *. destruct IH as (I1 & I2 & I3 & I4 & I5).
    replace (Nat.min (2 - k) (S (length queue)))
      with (S (Nat.min (2 - S k) (length queue))) by lia.
    cbn [firstn skipn length].
    split; [cbn; f_equal; exact I1|]. split; [f_equal; exact I2|].
    split; [exact I3|]. split; [rewrite I4; f_equal; lia|exact I5].
  - replace (2 - k)%nat with 0%nat by lia. cbn.
    rewrite Eg, Nat.add_0_r. auto.
Qed.

(** The state of a run: the counter is the number of translations in
    flight, at most two; what was started is the head of what was asked
    for; and while the run lasts, what waits is the rest of it, and
    waits only because two translations are in flight. *)
Definition consistent (asked begun : list Request) (st : RunState)
    (inflight : nat) : Prop :=
  activeTranslations st = Z.of_nat inflight
  /\ (inflight <= 2)%nat
  /\ exists rest,
       asked = (begun ++ rest)%list
       /\ (generating (ui st) = true ->
           translationQueue st = rest
           /\ (rest <> [] -> inflight = 2%nat)).

Lemma handle_consistent (e : Event) (asked begun : list Request)
    (st : RunState) (inflight : nat) :
  consistent asked begun st inflight ->
  (e = Settled -> (0 < inflight)%nat) ->
  let out := fst (handle e st) in
  let st' := snd (handle e st) in
  let inflight' :=
    match e with
    | Settled => Nat.pred (inflight + length (started out))
    | _ => (inflight + length (started out))%nat
    end in
  consistent (asked ++ requested [e]) (begun ++ started out) st' inflight'
  /\ (generating (ui st) = false -> generating (ui st') = false)
  /\ (generating (ui st) = false -> started out = []).
Proof.
  intros (Ha & Hk & rest & Hasked & Hgen) Hsettled. cbn zeta.
  destruct e as [msg|req result| |]; cbn [handle requested omap list_omap].
  - destruct msg as [p|c n r tes s|reports|err|];
      cbn [handleMessage fst snd started omap list_omap length];
      rewrite ?app_nil_r, ?Nat.add_0_r.
    + (* language-progress *)
      split; [|split; [|reflexivity]].
      * split; [exact Ha|]. split; [exact Hk|]. exists rest.
        split; [exact Hasked|]. cbn [ui translationQueue].
        intros Hg. apply Hgen.
        unfold on_language_progress in Hg.
        destruct (negb (generating (ui st))
                  && negb (bool_decide (lp_langCode p
                                        ∈ rewritingLangs (ui st))));
          [exact Hg|].
        rewrite updateLangProgress_generating in Hg.
        destruct (lp_status p);
          try destruct (bool_decide (lp_langCode p
                                     ∈ rewritingLangs (ui st)));
          exact Hg.
      * cbn [ui]. intros Hg. unfold on_language_progress.
        destruct (negb (generating (ui st))
                  && negb (bool_decide (lp_langCode p
                                        ∈ rewritingLangs (ui st))));
          [exact Hg|].
        rewrite updateLangProgress_generating.
        destruct (lp_status p);
          try destruct (bool_decide (lp_langCode p
                                     ∈ rewritingLangs (ui st)));
          exact Hg.
    + (* request-translation *)
      unfold enqueueTranslation.
      destruct (generating (ui st)) eqn:Eg; cbn [negb].
      * destruct (Hgen eq_refl) as [Hq Hfull].
        unfold processQueue. cbn [translationQueue activeTranslations ui].
        rewrite Ha.
        pose proof (processQueue_loop_spec
                      (translationQueue st ++ [mkRequest c n r tes s])
                      inflight (ui st) Hk) as H.
        cbn zeta in H. rewrite Eg in H.
        destruct (processQueue_loop _ _ _) as [out st']. cbn [fst snd] in *.
        destruct H as (H1 & H2 & H3 & H4 & H5).
        set (m := Nat.min (2 - inflight)
                    (length (translationQueue st
                             ++ [mkRequest c n r tes s]))) in *.
        assert (Hlen : length (started out) = m).
        { rewrite H1, length_firstn. subst m. lia. }
        split; [|split; discriminate].
        split; [rewrite H4, Hlen; reflexivity|].
        split; [rewrite Hlen; subst m; lia|].
        exists (skipn m (translationQueue st ++ [mkRequest c n r tes s])).
        split.
        { rewrite Hasked, H1, <- !List.app_assoc. f_equal.
          rewrite firstn_skipn, Hq. reflexivity. }
        intros _. split; [exact H3|]. intros Hne. rewrite Hlen.
        destruct (Nat.le_gt_cases (2 - inflight)
                    (length (translationQueue st
                             ++ [mkRequest c n r tes s]))) as [Hle|Hgt].
        -- subst m. lia.
        -- exfalso. apply Hne. apply skipn_all2. subst m. lia.
      * cbn [fst snd started omap list_omap length].
        rewrite app_nil_r, Nat.add_0_r.
        split; [|split; [intros _; exact Eg|reflexivity]].
        split; [exact Ha|]. split; [exact Hk|].
        exists (rest ++ [mkRequest c n r tes s])%list.
        split; [rewrite Hasked, app_assoc; reflexivity|].
        rewrite Eg. discriminate.
    + (* all-complete *)
      split; [|split; reflexivity].
      split; [exact Ha|]. split; [exact Hk|]. exists rest.
      split; [exact Hasked|]. cbn. discriminate.
    + (* error *)
      split; [|split; reflexivity].
      split; [exact Ha|]. split; [exact Hk|]. exists rest.
      split; [exact Hasked|]. cbn. discriminate.
    + (* cancelled *)
      split; [|split; reflexivity].
      split; [exact Ha|]. split; [exact Hk|]. exists rest.
      split; [exact Hasked|]. cbn. discriminate.
  - (* a translation returns *)
    unfold resumed. rewrite !app_nil_r.
    destruct (generating (ui st)) eqn:Eg; cbn [negb].
    + destruct (Translate.translations result);
        cbn [fst snd started omap list_omap length];
        rewrite ?app_nil_r, ?Nat.add_0_r;
        (split; [|split; discriminate]);
        (split; [exact Ha|]); (split; [exact Hk|]); exists rest;
        (split; [exact Hasked|]); cbn [ui translationQueue with_store
                                        generating];
        intros _; apply Hgen; try exact Eg; reflexivity.
    + cbn [fst snd started omap list_omap length].
      rewrite app_nil_r, Nat.add_0_r.
      split; [|split; [intros _; exact Eg|reflexivity]].
      split; [exact Ha|]. split; [exact Hk|]. exists rest.
      split; [exact Hasked|]. rewrite Eg. discriminate.
  - (* a translation settles *)
    specialize (Hsettled eq_refl). rewrite !app_nil_r.
    unfold settled. cbn [ui translationQueue activeTranslations].
    destruct (generating (ui st)) eqn:Eg.
    + destruct (Hgen eq_refl) as [Hq Hfull].
      unfold processQueue. cbn [translationQueue activeTranslations ui].
      rewrite Ha.
      replace (Z.of_nat inflight - 1)%Z with (Z.of_nat (Nat.pred inflight))
        by lia.
      pose proof (processQueue_loop_spec (translationQueue st)
                    (Nat.pred inflight) (ui st) ltac:(lia)) as H.
      cbn zeta in H. rewrite Eg in H.
      destruct (processQueue_loop _ _ _) as [out st']. cbn [fst snd] in *.
      destruct H as (H1 & H2 & H3 & H4 & H5).
      set (m := Nat.min (2 - Nat.pred inflight)
                  (length (translationQueue st))) in *.
      assert (Hlen : length (started out) = m).
      { rewrite H1, length_firstn. subst m. lia. }
      split; [|split; discriminate].
      split; [rewrite H4, Hlen; f_equal; lia|].
      split; [rewrite Hlen; subst m; lia|].
      exists (skipn m (translationQueue st)).
      split.
      { rewrite Hasked, H1, <- !List.app_assoc. f_equal.
        rewrite firstn_skipn, Hq. reflexivity. }
      intros _. split; [exact H3|]. intros Hne. rewrite Hlen.
      destruct (Nat.le_gt_cases (2 - Nat.pred inflight)
                  (length (translationQueue st))) as [Hle|Hgt].
      * subst m. lia.
      * exfalso. apply Hne. apply skipn_all2. subst m. lia.
    + cbn [fst snd started omap list_omap length].
      rewrite app_nil_r, Nat.add_0_r.
      split; [|split; [intros _; exact Eg|reflexivity]].
      split; [cbn [activeTranslations]; lia|]. split; [lia|].
      exists rest. split; [exact Hasked|].
      cbn [ui]. rewrite Eg. discriminate.
  - (* the user cancels *)
    unfold cancelGeneration. rewrite !app_nil_r.
    destruct (generating (ui st)) eqn:Eg; cbn [negb];
      cbn [fst snd started omap list_omap length];
      rewrite ?app_nil_r, ?Nat.add_0_r.
    + split; [|split; discriminate].
      split; [exact Ha|]. split; [exact Hk|]. exists rest.
      split; [exact Hasked|]. cbn. discriminate.
    + split; [|split; [intros _; exact Eg|reflexivity]].
      split; [exact Ha|]. split; [exact Hk|]. exists rest.
      split; [exact Hasked|]. rewrite Eg. discriminate.
Qed.

Lemma run_consistent (events : list Event) (asked begun : list Request)
    (st : RunState) (inflight : nat) (out : list Out) (st' : RunState)
    (inflight' : nat) :
  consistent asked begun st inflight ->
  run events st inflight = Some (out, st', inflight') ->
  consistent (asked ++ requested events) (begun ++ started out) st'
    inflight'
  /\ (generating (ui st) = false ->
      generating (ui st') = false /\ started out = []).
Proof.
  revert asked begun st inflight out st' inflight'.
  induction events as [|e events IH];
    intros asked begun st inflight out st' inflight' Hc Hrun.
  { cbn in Hrun. injection Hrun as <- <- <-. cbn. rewrite !app_nil_r.
    auto. }
  cbn [run] in Hrun.
  assert (Hreq : requested (e :: events)
                 = (requested [e] ++ requested events)%list)
    by (apply (omap_app _ [e] events)).
  rewrite Hreq, app_assoc.
  destruct (handle e st) as [out1 st1] eqn:Eh.
  assert (Hstep := handle_consistent e asked begun st inflight Hc).
  cbn zeta in Hstep. rewrite Eh in Hstep. cbn [fst snd] in Hstep.
  assert (Hgo : forall k,
             consistent (asked ++ requested [e]) (begun ++ started out1)
               st1 k ->
             (generating (ui st) = false ->
              generating (ui st1) = false) ->
             (generating (ui st) = false -> started out1 = []) ->
             match run events st1 k with
             | Some (out2, st2, n) => Some ((out1 ++ out2)%list, st2, n)
             | None => None
             end = Some (out, st', inflight') ->
             consistent ((asked ++ requested [e]) ++ requested events)
               (begun ++ started out) st' inflight'
             /\ (generating (ui st) = false ->
                 generating (ui st') = false /\ started out = [])).
  { intros k Hk Hg1 Hg2 H.
    destruct (run events st1 k) as [[[out2 st2] n]|] eqn:Er;
      [|discriminate].
    injection H as <- <- <-.
    destruct (IH _ _ _ _ _ _ _ Hk Er) as [I1 I2].
    rewrite started_app, app_assoc. split; [exact I1|].
    intros Hg. destruct (I2 (Hg1 Hg)) as [I3 I4].
    split; [exact I3|]. rewrite (Hg2 Hg), I4. reflexivity. }
  destruct e as [msg|req result| |].
  - destruct Hstep as (S1 & S2 & S3); [discriminate|].
    apply (Hgo _ S1 S2 S3 Hrun).
  - destruct Hstep as (S1 & S2 & S3); [discriminate|].
    apply (Hgo _ S1 S2 S3 Hrun).
  - destruct inflight as [|i]; [discriminate|].
    destruct Hstep as (S1 & S2 & S3); [intros _; lia|].
    apply (Hgo _ S1 S2 S3 Hrun).
  - destruct Hstep as (S1 & S2 & S3); [discriminate|].
    apply (Hgo _ S1 S2 S3 Hrun).
Qed.

(** X24.  The queue of a run, from a state with no translation
    waiting or active and whatever happens next (messages of the
    controller, translations returning and settling, the user
    cancelling): never more than two translations are in flight, and
    the counter of the UI is their number; the translations are
    started in the order the controller asked for them, each at most
    once; while the run lasts, a request waits only when two
    translations are in flight; and nothing is started once the run
    is over. *)
Theorem queue_cap (events : list Event) (st st' : RunState)
    (out : list Out) (inflight : nat) :
  translationQueue st = [] ->
  activeTranslations st = 0%Z ->
  run events st 0 = Some (out, st', inflight) ->
  (inflight <= 2)%nat
  /\ activeTranslations st' = Z.of_nat inflight
  /\ (exists rest,
        requested events = (started out ++ rest)%list
        /\ (generating (ui st') = true ->
            translationQueue st' = rest
            /\ (rest <> [] -> inflight = 2%nat)))
  /\ (generating (ui st) = false ->
      generating (ui st') = false /\ started out = []).
Proof.
  intros Hq Ha Hrun.
  assert (Hc : consistent [] [] st 0).
  { split; [exact Ha|]. split; [lia|]. exists [].
    split; [reflexivity|]. intros _. split; [exact Hq|congruence]. }
  destruct (run_consistent events [] [] st 0 out st' inflight Hc Hrun)
    as [(C1 & C2 & rest & C3 & C4) Hg].
  cbn [app] in C3.
  split; [exact C2|]. split; [exact C1|]. split; [|exact Hg].
  exists rest. split; [exact C3|exact C4].
Qed.

(** X25.  Cancelling a run in the UI: the controller is told, the
    run is over and nothing waits any more; every language is shown
    as cancelled unless it was done or in error, which it stays;
    afterwards the result of a translation that returns is dropped
    (neither translations nor an error is sent to the controller), a
    request of the controller is ignored, and so is the progress of a
    language that is not being rewritten; cancelling again does
    nothing. *)
Theorem cancel_freezes (st : RunState) :
  generating (ui st) = true ->
  let out := fst (cancelGeneration st) in
  let st' := snd (cancelGeneration st) in
  out = [sends Controller.cancel]
  /\ generating (ui st') = false
  /\ translationQueue st' = []
  /\ rewritingLangs (ui st') = rewritingLangs (ui st)
  /\ (forall c,
        status_of c (ui st')
        = match status_of c (ui st) with
          | Some done => Some done
          | Some error => Some error
          | Some _ => Some cancelled
          | None => None
          end)
  /\ (forall req result, resumed req result st' = ([], st'))
  /\ (forall req, enqueueTranslation req st' = ([], st'))
  /\ (forall p, lp_langCode p ∉ rewritingLangs (ui st) ->
                handleMessage (Controller.language_progress p) st'
                = ([], st'))
  /\ cancelGeneration st' = ([], st').
Proof.
  intros Hg. cbn zeta.
  assert (E : cancelGeneration st
              = ([sends Controller.cancel],
                 mkRun
                   (mkState false (scanResult (ui st))
                      (mark_cancelled <$> langProgressMap (ui st))
                      (translationsStore (ui st)) (rewritingLangs (ui st)))
                   [] (activeTranslations st))).
  { unfold cancelGeneration. rewrite Hg. reflexivity. }
  rewrite E. cbn [negb fst snd ui translationQueue generating
                  rewritingLangs].
  split; [reflexivity|]. split; [reflexivity|]. split; [reflexivity|].
  split; [reflexivity|]. split.
  { intros c. unfold status_of. cbn [langProgressMap].
    rewrite lookup_fmap.
    destruct (langProgressMap (ui st) !! c) as [prog|]; [|reflexivity].
    cbn. unfold mark_cancelled. destruct (lp_status prog) eqn:Es; cbn;
      rewrite ?Es; reflexivity. }
  split; [reflexivity|]. split; [reflexivity|]. split; [|reflexivity].
  intros p Hp. cbn [handleMessage ui translationQueue activeTranslations].
  unfold on_language_progress. cbn [generating rewritingLangs negb andb].
  rewrite bool_decide_eq_false_2 by exact Hp. reflexivity.
Qed.

End QueueFacts.

(** ** Languages, presets and the start of a run *)

Module LangFacts.
Import UI UIRun Lang.

Lemma has_In (c : string) (s : list string) : has c s = true <-> In c s.
Proof.
  unfold has. rewrite existsb_exists. split.
  - intros (x & Hx & E). apply String.eqb_eq in E. subst x. exact Hx.
  - intros H. exists c. split; [exact H|apply String.eqb_refl].
Qed.

Lemma has_add (c x : string) (s : list string) :
  has c (add x s) = has c s || String.eqb c x.
Proof.
  unfold add. destruct (has x s) eqn:E.
  - destruct (String.eqb_spec c x) as [->|_];
      [rewrite E; reflexivity|rewrite orb_false_r; reflexivity].
  - unfold has. rewrite existsb_app. cbn. rewrite orb_false_r.
    reflexivity.
Qed.

Lemma has_delete (c x : string) (s : list string) :
  has c (delete x s) = has c s && negb (String.eqb c x).
Proof.
  unfold delete, has. induction s as [|y s IH]; [reflexivity|].
  cbn [List.filter existsb].
  destruct (String.eqb_spec y x) as [->|Hne]; cbn [negb existsb].
  - rewrite IH. destruct (String.eqb_spec c x); cbn;
      [rewrite andb_false_r|rewrite andb_true_r]; reflexivity.
  - rewrite IH. destruct (String.eqb_spec c y) as [->|_]; [|reflexivity].
    cbn. destruct (String.eqb_spec y x); [congruence|reflexivity].
Qed.

Lemma add_NoDup (x : string) (s : list string) :
  List.NoDup s -> List.NoDup (add x s).
Proof.
  intros H. unfold add. destruct (has x s) eqn:E; [exact H|].
  assert (Hn : ~ In x s).
  { intros Hin. apply has_In in Hin. congruence. }
  clear E. induction H as [|y l Hy _ IH]; cbn [app].
  - constructor; [intros []|constructor].
  - constructor.
    + rewrite in_app_iff. cbn. intros [Hl|[->|[]]]; [tauto|].
      apply Hn. left. reflexivity.
    + apply IH. intros Hl. apply Hn. right. exact Hl.
Qed.

Lemma delete_NoDup (x : string) (s : list string) :
  List.NoDup s -> List.NoDup (delete x s).
Proof. apply List.NoDup_filter. Qed.

Lemma add_all (codes s : list string) :
  let s' := fold_left (fun s c => add c s) codes s in
  (forall c, has c s' = has c s || has c codes)
  /\ (List.NoDup s -> List.NoDup s')
  /\ exists added, s' = (s ++ added)%list.
Proof.
  revert s. induction codes as [|x codes IH]; intros s; cbn zeta.
  - cbn. split; [intros c; rewrite orb_false_r; reflexivity|].
    split; [auto|]. exists []. rewrite app_nil_r. reflexivity.
  - cbn [fold_left]. destruct (IH (add x s)) as (I1 & I2 & added & I3).
    cbn zeta in *. split; [|split].
    + intros c. rewrite I1, has_add. cbn [has existsb].
      rewrite <- orb_assoc. reflexivity.
    + intros H. apply I2, add_NoDup, H.
    + rewrite I3. unfold add. destruct (has x s).
      * exists added. reflexivity.
      * exists (x :: added). rewrite <- app_assoc. reflexivity.
Qed.

Lemma delete_all (codes s : list string) :
  let s' := fold_left (fun s c => delete c s) codes s in
  (forall c, has c s' = has c s && negb (has c codes))
  /\ s' = List.filter (fun x => negb (has x codes)) s.
Proof.
  revert s. induction codes as [|x codes IH]; intros s; cbn zeta.
  - cbn. split; [intros c; rewrite andb_true_r; reflexivity|].
    symmetry. apply DuplicateFacts.filter_all.
    apply forallb_forall. reflexivity.
  - cbn [fold_left]. destruct (IH (delete x s)) as (I1 & I2).
    cbn zeta in *. split.
    + intros c. rewrite I1, has_delete. cbn [has existsb].
      rewrite negb_orb, andb_assoc. reflexivity.
    + rewrite I2. unfold delete. clear.
      induction s as [|y s IH]; [reflexivity|].
      cbn [List.filter has existsb].
      destruct (String.eqb_spec y x) as [->|Hne]; cbn [negb orb].
      * exact IH.
      * cbn [List.filter]. fold (has y codes).
        destruct (has y codes); cbn [negb]; [exact IH|].
        f_equal. exact IH.
Qed.

(** The table, checked by evaluation. *)
Definition table_ok : bool :=
  forallb
    (fun preset =>
       forallb
         (fun c =>
            match getLanguageByCode c with
            | Some l =>
                String.eqb (code l) c
                && match preset with rtl => isRTL l | _ => true end
            | None => false
            end)
         (PRESETS preset))
    [common; eu; rtl; all].

Lemma table_checked : table_ok = true.
Proof. vm_compute. reflexivity. Qed.

Lemma getLanguageByCode_code (c : string) (l : Language) :
  getLanguageByCode c = Some l -> code l = c /\ In l LANGUAGES.
Proof.
  unfold getLanguageByCode. intros H. apply find_some in H as [Hin E].
  apply String.eqb_eq in E. auto.
Qed.

(** X27.  A preset button.  [all] asks first, and a refusal leaves
    the selection as it is.  Otherwise, if every language of the
    preset is selected they are all removed, the rest of the selection
    keeping its order; if not, the missing ones are added after the
    selection; no language is ever selected twice.  Every code of a
    preset names a language of the table, and the languages of [rtl]
    are written right to left. *)
Theorem preset_toggle (preset : LanguagePreset) (confirmed : bool)
    (selected : list string) :
  let codes := PRESETS preset in
  let after := applyPreset preset confirmed selected in
  let declined :=
    match preset with all => negb confirmed | _ => false end in
  let allSelected := forallb (fun c => has c selected) codes in
  (declined = true -> after = selected)
  /\ (declined = false ->
      (forall c,
          has c after
          = if allSelected then has c selected && negb (has c codes)
            else has c selected || has c codes)
      /\ (allSelected = true ->
          after = List.filter (fun c => negb (has c codes)) selected)
      /\ (allSelected = false ->
          exists added, after = (selected ++ added)%list)
      /\ (List.NoDup selected -> List.NoDup after))
  /\ (forall c, In c codes ->
        exists l, getLanguageByCode c = Some l /\ code l = c
                  /\ (preset = rtl -> isRTL l = true)).
Proof.
  cbn zeta.
  assert (Hdecl : match preset with
                  | all =>
                      (8 <? length (PRESETS preset))%nat && negb confirmed
                  | _ => false
                  end
                  = match preset with all => negb confirmed | _ => false end).
  { destruct preset; reflexivity. }
  unfold applyPreset. cbn zeta. rewrite Hdecl.
  split; [intros ->; reflexivity|]. split.
  - intros ->.
    destruct (forallb (fun c => has c selected) (PRESETS preset)) eqn:Eall.
    + destruct (delete_all (PRESETS preset) selected) as [D1 D2].
      cbn zeta in *. split; [exact D1|]. split; [intros _; exact D2|].
      split; [discriminate|]. intros H. rewrite D2.
      apply List.NoDup_filter, H.
    + destruct (add_all (PRESETS preset) selected) as (A1 & A2 & A3).
      cbn zeta in *. split; [exact A1|]. split; [discriminate|].
      split; [intros _; exact A3|exact A2].
  - intros c Hin. pose proof table_checked as Ht. unfold table_ok in Ht.
    rewrite forallb_forall in Ht.
    assert (Hp : In preset [common; eu; rtl; all])
      by (destruct preset; cbn; auto).
    specialize (Ht preset Hp). rewrite forallb_forall in Ht.
    specialize (Ht c Hin).
    destruct (getLanguageByCode c) as [l|]; [|discriminate].
    apply andb_true_iff in Ht as [H1 H2]. apply String.eqb_eq in H1.
    exists l. split; [reflexivity|]. split; [exact H1|].
    intros ->. exact H2.
Qed.

(** *** The start of a run *)

Definition pending_map (languages : list Language)
    (m : gmap string LangProgress) : gmap string LangProgress :=
  fold_left
    (fun (m' : gmap string LangProgress) lang =>
       <[code lang := mkProgress (code lang) (l_name lang) pending None
                        None]> m')
    languages m.

Lemma pending_map_status (languages : list Language)
    (m : gmap string LangProgress) (c : string) :
  lp_status <$> pending_map languages m !! c
  = if bool_decide (c ∈ map code languages) then Some pending
    else lp_status <$> m !! c.
Proof.
  unfold pending_map. revert m.
  induction languages as [|lang languages IH]; intros m; [reflexivity|].
  cbn [fold_left map]. rewrite IH.
  destruct (decide (c ∈ map code languages)) as [Hin|Hn].
  - rewrite !bool_decide_eq_true_2; [reflexivity| |exact Hin].
    apply elem_of_cons. right. exact Hin.
  - rewrite (bool_decide_eq_false_2 _ Hn).
    destruct (decide (c = code lang)) as [->|Hne].
    + rewrite lookup_insert_eq, bool_decide_eq_true_2; [reflexivity|].
      apply elem_of_cons. left. reflexivity.
    + rewrite lookup_insert_ne by congruence.
      rewrite bool_decide_eq_false_2; [reflexivity|].
      rewrite elem_of_cons. tauto.
Qed.

(** X28.  [startGeneration] starts a run only when none is going on,
    a scan found translatable text, a language is selected, the API
    key is set and, for more than eight languages, the user agrees;
    otherwise the state is left as it is and nothing is sent.  A run
    that starts is sent the selected languages the table knows, in the
    order of the selection; the earlier progress, translations and
    queue are dropped, and exactly those languages are shown, as
    pending. *)
Theorem start_generation (translatableNodes : nat) (apiKey : string)
    (confirmed : bool) (selected : list string) (st : RunState) :
  let out := fst (startGeneration translatableNodes apiKey confirmed
                    selected st) in
  let st' := snd (startGeneration translatableNodes apiKey confirmed
                    selected st) in
  let ready :=
    negb (generating (ui st))
    && match scanResult (ui st) with Some _ => true | None => false end
    && (0 <? translatableNodes)%nat
    && (0 <? length selected)%nat
    && negb (String.eqb apiKey "")
    && ((length selected <=? 8)%nat || confirmed) in
  let languages := omap getLanguageByCode selected in
  (ready = false ->
   st' = st /\ forall ls, ~ In (sends_start_generate ls) out)
  /\ (ready = true ->
      out = [sends_start_generate languages]
      /\ generating (ui st') = true
      /\ translationQueue st' = []
      /\ activeTranslations st' = 0%Z
      /\ translationsStore (ui st') = ∅
      /\ rewritingLangs (ui st') = rewritingLangs (ui st)
      /\ (forall c,
            status_of c (ui st')
            = if bool_decide (c ∈ map code languages) then Some pending
              else None))
  /\ map code languages
     = List.filter
         (fun c => match getLanguageByCode c with
                   | Some _ => true
                   | None => false
                   end) selected.
Proof.
  cbn zeta. unfold startGeneration.
  assert (Hbig : (8 <? length selected)%nat
                 = negb (length selected <=? 8)%nat)
    by apply Nat.ltb_antisym.
  assert (Hpos : (0 <? length selected)%nat
                 = match selected with [] => false | _ :: _ => true end)
    by (destruct selected; reflexivity).
  assert (Htn : (0 <? translatableNodes)%nat
                = match translatableNodes with O => false | S _ => true end)
    by (destruct translatableNodes; reflexivity).
  rewrite Hbig, Hpos, Htn. clear Hbig Hpos Htn.
  set (small := (length selected <=? 8)%nat). clearbody small.
  fold (pending_map (omap getLanguageByCode selected) ∅).
  split; [|split].
  - destruct (generating (ui st)); cbn [negb andb].
    { intros _. split; [reflexivity|]. intros ls []. }
    destruct (scanResult (ui st)) as [tes|]; cbn [andb].
    2:{ intros _. split; [reflexivity|].
        intros ls [H|[]]; discriminate H. }
    destruct translatableNodes as [|n]; cbn [andb].
    { intros _. split; [reflexivity|].
      intros ls [H|[]]; discriminate H. }
    destruct selected as [|c0 cs]; cbn [andb].
    { intros _. split; [reflexivity|].
      intros ls [H|[]]; discriminate H. }
    destruct apiKey as [|a k]; cbn [String.eqb negb andb].
    { intros _. split; [reflexivity|].
      intros ls [H|[]]; discriminate H. }
    destruct small, confirmed; cbn [negb andb orb]; try discriminate.
    intros _. split; [reflexivity|]. intros ls [].
  - destruct (generating (ui st)); cbn [negb andb]; [discriminate|].
    destruct (scanResult (ui st)) as [tes|]; cbn [andb]; [|discriminate].
    destruct translatableNodes as [|n]; cbn [andb]; [discriminate|].
    destruct selected as [|c0 cs]; cbn [andb]; [discriminate|].
    destruct apiKey as [|a k]; cbn [String.eqb negb andb]; [discriminate|].
    intros Hok.
    assert (E : negb small && negb confirmed = false).
    { destruct small, confirmed; try reflexivity; discriminate Hok. }
    rewrite E. cbn [fst snd ui generating translationQueue
                    activeTranslations translationsStore rewritingLangs].
    repeat (split; [reflexivity|]).
    intros c. unfold status_of. cbn [langProgressMap].
    rewrite pending_map_status, lookup_empty. reflexivity.
  - induction selected as [|c cs IH]; [reflexivity|].
    cbn [List.filter].
    assert (Hcons : omap getLanguageByCode (c :: cs)
                    = match getLanguageByCode c with
                      | Some l => l :: omap getLanguageByCode cs
                      | None => omap getLanguageByCode cs
                      end) by reflexivity.
    rewrite Hcons.
    destruct (getLanguageByCode c) as [l|] eqn:E; [|exact IH].
    cbn [map]. rewrite IH.
    destruct (getLanguageByCode_code c l E) as [-> _]. reflexivity.
Qed.

End LangFacts.

(** ** The summary of a report in the UI *)

Module SummaryFacts.
Import QA QAFacts ReportFacts UIRun.

(** The four kinds of issue a report is made of. *)
Definition kind (i : QAIssue) : Prop :=
  (i_type i = text_overflow /\ severity i = red)
  \/ (i_type i = text_overflow /\ severity i = amber)
  \/ (i_type i = container_overflow /\ severity i = red)
  \/ (i_type i = font_load /\ severity i = amber).

Lemma counts_of_kinds (l : list QAIssue) :
  List.Forall kind l ->
  let c := issue_counts l in
  List.filter (fun i => negb (is_severity green i)) l = l
  /\ (overflows c + lineWraps c + containerBreaks c + fontErrors c
      = length l)%nat
  /\ (overflows c + containerBreaks c
      = length (List.filter is_red l))%nat
  /\ (lineWraps c + fontErrors c
      = length (List.filter is_amber l))%nat.
Proof.
  induction 1 as [|i l Hi _ IH]; [cbn; auto|].
  cbn zeta in *. destruct IH as (I1 & I2 & I3 & I4).
  unfold issue_counts in *.
  cbn [overflows lineWraps containerBreaks fontErrors] in *.
  cbn [List.filter].
  unfold is_type, is_severity, is_red, is_amber in *.
  destruct Hi as [[Ht Hs]|[[Ht Hs]|[[Ht Hs]|[Ht Hs]]]]; rewrite Ht, Hs;
    cbn [negb andb length]; rewrite I1;
    (split; [reflexivity|]); (split; [lia|]); split; lia.
Qed.

Section WithHost.
Variable reflowHeight : TextNode -> num.
Variable naturalSize : TextNode -> num * num.

#[local] Abbreviation runQA := (QA.runQA reflowHeight naturalSize).
#[local] Abbreviation all_unit_issues :=
  (QAFacts.all_unit_issues reflowHeight naturalSize).

Lemma unit_kinds (om : JsMap.t TextEntry) (id : string) (t : TextNode) :
  List.Forall (fun i => kind i /\ i_type i <> font_load)
    (QAFacts.unit_issues reflowHeight naturalSize om id t).
Proof.
  assert (Hc : List.Forall (fun i => kind i /\ i_type i <> font_load)
                 (container_issues t)).
  { pose proof (container_issues_type t) as H.
    eapply List.Forall_impl; [|exact H].
    intros i [Ht Hs]. split; [right; right; left; auto|].
    rewrite Ht. discriminate. }
  destruct (unit_issues_cases reflowHeight naturalSize om id t)
    as [-> | [[_ ->] | [-> | [_ [original ->]]]]].
  - constructor.
  - constructor; [|constructor].
    split; [left; split; reflexivity|discriminate].
  - exact Hc.
  - constructor; [|exact Hc].
    split; [right; left; split; reflexivity|discriminate].
Qed.

Lemma all_unit_kinds (om : JsMap.t TextEntry) (m : JsMap.t TextNode) :
  List.Forall (fun i => kind i /\ i_type i <> font_load)
    (all_unit_issues om m).
Proof.
  unfold QAFacts.all_unit_issues.
  induction m as [|[k t] m IH]; [constructor|].
  cbn [flat_map fst snd]. apply List.Forall_app.
  split; [apply unit_kinds|exact IH].
Qed.

(** X29.  The summary the UI shows for a report of [runQA]: no
    issue is green, so every issue is counted, once, as an overflow,
    a new line, a container break or a missing font; the overflows
    and container breaks are the red issues and the others the amber
    ones; there is one missing font per font error; the summary is
    empty exactly when the report is green; and there are layout
    issues, for which a rewrite is offered unless one is going on,
    exactly when the report implicates an id, which is what a
    rewrite needs. *)
Theorem rewrite_offer (m : JsMap.t TextNode) (es : list TextEntry)
    (language : Language) (fontErrs : list string) (langCode : string)
    (rewriting : gset string) :
  let report := fst (runQA m es language fontErrs) in
  let c := issue_counts (issues report) in
  List.filter (fun i => negb (is_severity green i)) (issues report)
  = issues report
  /\ (overflows c + lineWraps c + containerBreaks c + fontErrors c
      = length (issues report))%nat
  /\ (overflows c + containerBreaks c = redIssues report)%nat
  /\ (lineWraps c + fontErrors c = amberIssues report)%nat
  /\ fontErrors c = length fontErrs
  /\ (hasLayoutIssues c = true <-> issueEntryIds report <> [])
  /\ (renderIssuesSummary report langCode rewriting = ""
      <-> status report = green).
Proof.
  cbn zeta.
  pose proof (runQA_issues reflowHeight naturalSize m es language
                fontErrs) as Hiss.
  pose proof (all_unit_kinds (originalMap_of es) m) as Hunits.
  set (report := fst (runQA m es language fontErrs)) in *.
  set (units := all_unit_issues (originalMap_of es) m) in *.
  assert (Hfonts : forall n, List.Forall kind (repeat font_issue n)).
  { induction n; constructor; [|assumption].
    right. right. right. split; reflexivity. }
  assert (Hkinds : List.Forall kind (issues report)).
  { rewrite Hiss. apply List.Forall_app. split; [|apply Hfonts].
    eapply List.Forall_impl; [|exact Hunits]. cbn. tauto. }
  destruct (counts_of_kinds _ Hkinds) as (K1 & K2 & K3 & K4).
  cbn zeta in *.
  assert (Hshape : redIssues report
                   = length (List.filter is_red (issues report))
                   /\ amberIssues report
                      = length (List.filter is_amber (issues report))).
  { subst report. unfold QA.runQA.
    destruct (QA.qa_loop _ _ _ _ _). cbn. auto. }
  destruct Hshape as [Hr Ha].
  assert (Hfe : fontErrors (issue_counts (issues report))
                = length fontErrs).
  { unfold issue_counts. cbn [fontErrors]. rewrite Hiss, List.filter_app,
      length_app.
    assert (H1 : List.filter (is_type font_load) units = []).
    { clear - Hunits. induction Hunits as [|i l [_ Hi] _ IH];
        [reflexivity|]. cbn [List.filter]. unfold is_type at 1.
      destruct (i_type i); try exact IH. congruence. }
    assert (H2 : forall n,
               length (List.filter (is_type font_load)
                         (repeat font_issue n)) = n).
    { induction n; cbn; [reflexivity|]. f_equal. assumption. }
    rewrite H1, H2. reflexivity. }
  assert (Hlayout : hasLayoutIssues (issue_counts (issues report)) = true
                    <-> units <> []).
  { assert (Hsum : (overflows (issue_counts (issues report))
                    + lineWraps (issue_counts (issues report))
                    + containerBreaks (issue_counts (issues report))
                    = length units)%nat).
    { pose proof (f_equal (@length QAIssue) Hiss) as Hlen.
      rewrite length_app, repeat_length in Hlen.
      rewrite Hfe in K2. lia. }
    unfold hasLayoutIssues. rewrite !orb_true_iff, !Nat.ltb_lt.
    destruct units; cbn [length] in Hsum; split; intros H;
      try congruence; lia. }
  split; [exact K1|]. split; [exact K2|].
  split; [rewrite Hr; exact K3|]. split; [rewrite Ha; exact K4|].
  split; [exact Hfe|]. split.
  - rewrite Hlayout. subst units. unfold QAFacts.all_unit_issues.
    split.
    + intros Hne Hids.
      destruct (flat_map _ m) as [|i rest] eqn:Ef; [congruence|].
      assert (Hin : In i (flat_map
                            (fun kv =>
                               QAFacts.unit_issues reflowHeight
                                 naturalSize (originalMap_of es)
                                 (fst kv) (snd kv)) m))
        by (rewrite Ef; left; reflexivity).
      apply in_flat_map in Hin as ([id t] & Hm & Hi). cbn [fst snd] in Hi.
      assert (Hid : In id (issueEntryIds report)).
      { apply runQA_ids. exists t. split; [exact Hm|].
        intros E. rewrite E in Hi. destruct Hi. }
      rewrite Hids in Hid. destruct Hid.
    + intros Hids Hnil.
      destruct (issueEntryIds report) as [|id ids] eqn:E; [congruence|].
      assert (Hid : In id (issueEntryIds report))
        by (rewrite E; left; reflexivity).
      apply runQA_ids in Hid as (t & Hm & Hne).
      destruct (QAFacts.unit_issues reflowHeight naturalSize
                  (originalMap_of es) id t) as [|i rest] eqn:Eu;
        [congruence|].
      assert (Hin : In i (flat_map
                            (fun kv =>
                               QAFacts.unit_issues reflowHeight
                                 naturalSize (originalMap_of es)
                                 (fst kv) (snd kv)) m)).
      { apply in_flat_map. exists (id, t). split; [exact Hm|].
        cbn [fst snd]. rewrite Eu. left. reflexivity. }
      rewrite Hnil in Hin. destruct Hin.
  - pose proof (green_iff_no_issue reflowHeight naturalSize m es
                  language fontErrs) as Hgreen.
    fold report in Hgreen. rewrite Hgreen.
    unfold renderIssuesSummary. rewrite K1.
    destruct (issues report) as [|i rest]; [tauto|].
    split; [|discriminate]. cbn. discriminate.
Qed.

End WithHost.
End SummaryFacts.

(** ** The properties on concrete documents *)

Module Examples.

Definition page : BaseNode :=
  mkBaseNode PAGE "Page 1" None None None FIXED FIXED.

(** A frame without auto-layout, 300 by 200 at the origin. *)
Definition card : BaseNode :=
  mkBaseNode FRAME "Card" (Some false)
    (Some (mkRect n0 n0 (Num.of_Z 300) (Num.of_Z 200))) None FIXED FIXED.

Definition inter : FontName := mkFontName "Inter" "Regular".

(** A text node under [card], its box at [x], 0. *)
Definition text_node (id name characters : string) (mode : AutoResize)
    (x width height : num) : TextNode :=
  mkTextNode id name [card; page] false characters
    (Some (Num.of_Z 16)) (LH_PIXELS (Num.of_Z 20)) (Some inter)
    x n0 width height mode LEFT (Some false) (Some (x, n0)) true.

Definition french : Language := mkLanguage "fr" "French" "Français" false.

Definition defaults : PluginSettings :=
  mkSettings row (Num.of_Z 80) (Num.of_Z 3) true true true false true.

Definition natural (t : TextNode) : num * num := (tn_width t, tn_height t).

(** *** Duplication *)

(** A frame with a blank text leaf followed by a title. *)
Definition original : SceneNode :=
  Node (mkNodeProps FRAME "1:0" "Card" false (Num.of_Z 10) (Num.of_Z 20)
          (Num.of_Z 200) (Num.of_Z 100) None)
    [TextLeaf (text_node "1:1" "Spacer" " " AR_HEIGHT n0 (Num.of_Z 100)
                 (Num.of_Z 20));
     TextLeaf (text_node "1:2" "Title" "Hello" AR_HEIGHT n0 (Num.of_Z 100)
                 (Num.of_Z 20))].

(** Its clone, as the host returns it: the same tree under new ids. *)
Definition cloned : SceneNode :=
  Node (mkNodeProps FRAME "2:0" "Card" false (Num.of_Z 10) (Num.of_Z 20)
          (Num.of_Z 200) (Num.of_Z 100) None)
    [TextLeaf (text_node "2:1" "Spacer" " " AR_HEIGHT n0 (Num.of_Z 100)
                 (Num.of_Z 20));
     TextLeaf (text_node "2:2" "Title" "Hello" AR_HEIGHT n0 (Num.of_Z 100)
                 (Num.of_Z 20))].

Definition duplicated : Duplicate.Duplicated :=
  Duplicate.duplicateAndPlace cloned original (Num.of_nat 0) french defaults
    (Duplicate.entries (Duplicate.scanTextNodes original)).

(** C1 as stated fails: both trees have two text leaves, and the map
    has one entry; its id, [t0], is bound to the leaf of the clone at
    index 1, and no id is bound to the leaf at index 0. *)
Lemma blank_leaf_is_not_mapped :
  length (Duplicate.collectTextNodes original) = 2%nat
  /\ length (Duplicate.collectTextNodes (Duplicate.clone duplicated))
     = 2%nat
  /\ JsMap.size (Duplicate.textNodeMap duplicated) = 1%nat
  /\ JsMap.size (Duplicate.textNodeMap duplicated)
     <> Nat.min 2 2
  /\ (tn_id <$> JsMap.get "t0" (Duplicate.textNodeMap duplicated))
     = Some "2:2"
  /\ JsMap.get "t1" (Duplicate.textNodeMap duplicated) = None.
Proof. vm_compute. repeat split; congruence. Qed.

(** The amended C1 on that frame: its ids are distinct, and the one
    entry of the map binds [t0] to the second leaf of the clone. *)
Lemma text_map_positional_witness :
  List.NoDup (map tn_id (Duplicate.collectTextNodes original))
  /\ JsMap.size (Duplicate.textNodeMap duplicated) = 1%nat
  /\ (tn_id <$> JsMap.get "t0" (Duplicate.textNodeMap duplicated))
     = Some "2:2".
Proof.
  assert (Hnd : List.NoDup
                  (map tn_id (Duplicate.collectTextNodes original))).
  { vm_compute. repeat constructor; cbn; intuition discriminate. }
  destruct (DuplicateFacts.text_map_positional cloned original
              (Num.of_nat 0) french defaults Hnd)
    as (_ & Hmap & Hsize & _ & _ & Hget & _).
  split; [exact Hnd|]. split.
  - unfold duplicated. rewrite Hsize. vm_compute. reflexivity.
  - pose proof (Hget 1%nat
                  (text_node "1:2" "Title" "Hello" AR_HEIGHT n0
                     (Num.of_Z 100) (Num.of_Z 20))
                  (text_node "2:2" "Title" "Hello" AR_HEIGHT n0
                     (Num.of_Z 100) (Num.of_Z 20))
                  eq_refl eq_refl eq_refl) as H.
    change (JsMap.get "t0" (Duplicate.textNodeMap duplicated)
            = Some (text_node "2:2" "Title" "Hello" AR_HEIGHT n0
                      (Num.of_Z 100) (Num.of_Z 20))) in H.
    rewrite H. reflexivity.
Defined.

(** *** Placement *)


(** *** The container check *)

(** A box that starts left of the card and ends inside it, and one
    inside the card with the same right and bottom edges. *)
Definition overhang_left : TextNode :=
  text_node "3:1" "Label" "Hi" AR_NONE (Num.of_Z (-50)) (Num.of_Z 100)
    (Num.of_Z 20).
Definition inside : TextNode :=
  text_node "3:2" "Label" "Hi" AR_NONE n0 (Num.of_Z 50) (Num.of_Z 20).
(** A box that passes the right edge of the card by 2. *)
Definition overhang_right : TextNode :=
  text_node "3:3" "Label" "Hi" AR_NONE (Num.of_Z 202) (Num.of_Z 100)
    (Num.of_Z 20).

(** C10 on these boxes: the overhang on the left is not reported, the
    one on the right is, against the card. *)
Lemma container_check_edges_witness :
  QA.checkParentOverflow overhang_left = QA.mkParentCheck false ""
  /\ QA.checkParentOverflow overhang_right = QA.mkParentCheck true "Card".
Proof.
  split.
  - destruct (ContainerFacts.container_check_edges inside)
      as (_ & Hedges & _).
    rewrite (Hedges overhang_left
               (mkRect n0 n0 (Num.of_Z 50) (Num.of_Z 20))
               (mkRect (Num.of_Z (-50)) n0 (Num.of_Z 100) (Num.of_Z 20)));
      reflexivity.
  - destruct (ContainerFacts.container_check_edges overhang_right)
      as [[_ Hfound] _].
    assert (Ho : QA.overflows (QA.checkParentOverflow overhang_right)
                 = true).
    { apply Hfound.
      exists (mkRect (Num.of_Z 202) n0 (Num.of_Z 100) (Num.of_Z 20)),
        [], card, [page].
      repeat split; try constructor.
      eapply ContainerFacts.offends_right; reflexivity. }
    reflexivity.
Defined.

(** *** The QA pass *)

(** A fixed box 40 high and its baseline entry. *)
Definition fixed_box : TextNode :=
  text_node "2:2" "Title" "Bonjour tout le monde" AR_NONE n0 (Num.of_Z 100)
    (Num.of_Z 40).
Definition baseline_40 : TextEntry :=
  mkTextEntry "t0" "1:2" "Title" "Hello" (Num.of_Z 16) (Num.of_Z 100)
    (Num.of_Z 40) AR_NONE LEFT (Num.of_Z 20).

Definition needs_41 (t : TextNode) : num := Num.of_Z 41.
Definition needs_40_3 (t : TextNode) : num := Num.Fin (403 # 10).

(** C2 on that box: a text that needs 41 is an overflow, one that
    needs 40.3 is not. *)
Lemma fixed_box_check_witness :
  tn_parents fixed_box <> []
  /\ JsMap.get "t0" (QA.originalMap_of [baseline_40]) = Some baseline_40
  /\ tn_textAutoResize fixed_box = AR_NONE
  /\ issues (fst (QA.runQA needs_41 natural [("t0", fixed_box)]
                    [baseline_40] french []))
     = [mkIssue red text_overflow "2:2" "Title" "Overflow"]
  /\ issues (fst (QA.runQA needs_40_3 natural [("t0", fixed_box)]
                    [baseline_40] french []))
     = [].
Proof.
  assert (Hp : tn_parents fixed_box <> []) by discriminate.
  assert (Ho : JsMap.get "t0" (QA.originalMap_of [baseline_40])
               = Some baseline_40) by reflexivity.
  split; [exact Hp|]. split; [exact Ho|]. split; [reflexivity|]. split.
  - destruct (QAFacts.fixed_box_check needs_41 natural
                [("t0", fixed_box)] [] [] [baseline_40] french []
                "t0" fixed_box baseline_40 eq_refl Hp Ho eq_refl)
      as (_ & _ & Hissues & Hover & _).
    rewrite Hissues. destruct (Hover eq_refl) as [-> _]. reflexivity.
  - destruct (QAFacts.fixed_box_check needs_40_3 natural
                [("t0", fixed_box)] [] [] [baseline_40] french []
                "t0" fixed_box baseline_40 eq_refl Hp Ho eq_refl)
      as (_ & _ & Hissues & _ & Hwithin & _).
    rewrite Hissues. destruct (Hwithin eq_refl) as [-> _]. reflexivity.
Defined.

(** A box that grows vertically, 41 high after the translation, and
    its baseline entry, 20 high with a line height of 20. *)
Definition grown : TextNode :=
  text_node "2:2" "Title" "Bonjour tout le monde" AR_HEIGHT n0
    (Num.of_Z 100) (Num.of_Z 41).
Definition baseline_20 : TextEntry :=
  mkTextEntry "t0" "1:2" "Title" "Hello" (Num.of_Z 16) (Num.of_Z 100)
    (Num.of_Z 20) AR_HEIGHT LEFT (Num.of_Z 20).

(** C3 on that box: one new line. *)
Lemma line_wrap_check_witness :
  tn_parents grown <> []
  /\ JsMap.get "t0" (QA.originalMap_of [baseline_20]) = Some baseline_20
  /\ issues (fst (QA.runQA needs_41 natural [("t0", grown)] [baseline_20]
                    french []))
     = [mkIssue amber text_overflow "2:2" "Title" "New line"].
Proof.
  assert (Hp : tn_parents grown <> []) by discriminate.
  assert (Ho : JsMap.get "t0" (QA.originalMap_of [baseline_20])
               = Some baseline_20) by reflexivity.
  split; [exact Hp|]. split; [exact Ho|].
  destruct (QAFacts.line_wrap_check needs_41 natural [("t0", grown)] [] []
              [baseline_20] french [] "t0" grown baseline_20 eq_refl Hp Ho)
    as (Hissues & Hgrew & _).
  rewrite Hissues. destruct (Hgrew eq_refl eq_refl) as [-> _]. reflexivity.
Defined.

(** *** The retry loop *)

(** A network that answers 429, then fails to parse, then answers
    401. *)
Definition flaky (attempt : nat) (systemPrompt : string)
  : Translate.OpenAIResponse :=
  match attempt with
  | 0%nat =>
      Translate.mkResponse false None
        (Some "Rate limited (429). Wait and retry.") (Some 429%Z)
  | 1%nat =>
      Translate.mkResponse false None
        (Some "Failed to parse JSON from OpenAI response.") None
  | _ =>
      Translate.mkResponse false None (Some "Invalid API key (401).")
        (Some 401%Z)
  end.

Definition never_aborted (attempt : nat) : bool := false.

(** C4 on that network, with the default budget: a call, a wait of
    2000 ms, a strict call, a strict call, and the error of the 401. *)
Lemma retry_law_witness :
  never_aborted 0 = false
  /\ Translate.translateBatch flaky never_aborted [baseline_20]
       Translate.default_maxRetries
     = (Translate.mkResult None (Some "Invalid API key (401)."),
        [Translate.CallOpenAI Translate.SYSTEM_PROMPT;
         Translate.Delay 2000;
         Translate.CallOpenAI
           (Translate.SYSTEM_PROMPT ++ Translate.STRICT_SUFFIX);
         Translate.CallOpenAI
           (Translate.SYSTEM_PROMPT ++ Translate.STRICT_SUFFIX)]).
Proof.
  split; [reflexivity|].
  destruct (TranslateFacts.retry_law flaky never_aborted [baseline_20]
              2 0 "" eq_refl) as (_ & H429 & _).
  unfold Translate.translateBatch.
  change (Z.to_nat (Translate.default_maxRetries + 1)) with 3%nat.
  rewrite (H429 eq_refl eq_refl). reflexivity.
Defined.

(** *** Merging *)

(** C7 on a stored set of two and a result of one. *)
Lemma merge_law_witness :
  UI.merge {["t0" := "Bonjour tout le monde"; "t1" := "Annuler"]}
    {["t0" := "Bonjour"]}
  = ({["t0" := "Bonjour"; "t1" := "Annuler"]} : gmap string string).
Proof.
  destruct (MergeFacts.merge_law ∅ ∅) as (_ & _ & _ & _ & Hexample).
  apply Hexample. discriminate.
Defined.

(** *** Cancellation *)

Definition fonts_load (t : TextNode) : bool := true.
Definition font_loads (f : FontName) : bool := true.
Definition reorders (n : SceneNode) : bool := true.
Definition clone_of (i : nat) (n : SceneNode) : SceneNode := cloned.

(** The handlers on a state whose flag is set: no request is sent,
    and of two results only the error is counted. *)
Lemma cancelled_results_dropped_witness :
  Controller.cancelled_flag CancelFacts.cancelled_state = true
  /\ Controller.generate reorders clone_of original [french]
       CancelFacts.cancelled_state
     = (CancelFacts.cancelled_state, [Controller.cancelled_message])
  /\ CancelFacts.handle_all needs_41 natural fonts_load font_loads
       [Controller.translations_ready "fr" ∅;
        Controller.translation_error "de" "Cancelled."]
       CancelFacts.cancelled_state
     = (Controller.with_run [] [] 1 CancelFacts.cancelled_state, []).
Proof.
  destruct (CancelFacts.cancelled_results_dropped needs_41 natural
              fonts_load font_loads reorders clone_of
              CancelFacts.cancelled_state eq_refl)
    as (_ & _ & Hready & Herror & _).
  split; [reflexivity|]. split; [reflexivity|].
  cbn [CancelFacts.handle_all Controller.onmessage].
  rewrite Hready, Herror. reflexivity.
Defined.

(** *** The rewrite-shorter pass *)

(** A run that ended with the French clone showing a new line. *)
Definition wrapped_report : QAReport :=
  mkReport "fr" "French" amber
    [mkIssue amber text_overflow "2:2" "Title" "New line"] ["t0"] 1 0.

Definition finished : Controller.State :=
  Controller.mkState defaults false [baseline_20]
    [("fr", Duplicate.mkDuplicated cloned [("t0", grown)])]
    [("fr", french)] [wrapped_report] 0.

Definition results_shown : UI.State :=
  UI.mkState false (Some [baseline_20])
    {["fr" := mkProgress "fr" "French" done None (Some wrapped_report)]}
    {["fr" := {["t0" := "Bonjour tout le monde"]}]}
    ∅.

Definition shorter : gmap string string := {["t0" := "Bonjour"]}.

(** The height the host gives the French title: one line once it is
    shortened. *)
Definition title_height (t : TextNode) : num :=
  if String.eqb (tn_characters t) "Bonjour" then Num.of_Z 20
  else Num.of_Z 41.

Definition begun : option (list Translate.ShortenEntry * UI.State) :=
  UI.rewrite_begin "fr" results_shown.

Definition asked : list Translate.ShortenEntry :=
  match begun with Some (entries, _) => entries | None => [] end.

Definition waiting : UI.State :=
  match begun with Some (_, ui) => ui | None => results_shown end.

(** The UI once the shorter texts arrived. *)
Definition rewritten : UI.State :=
  fst (UI.rewrite_finish "fr" {["t0" := "Bonjour tout le monde"]}
         (Translate.mkResult (Some shorter) None) waiting).

(** C6.  The claim fails on that run.  For the French clone of a
    finished run, whose language is shown as [done], a rewrite-shorter
    pass is taken up and sends [apply-rewrites]; the handler answers
    with the progress messages [applying] and [done], and none for
    [qa]: the language is shown as [done], [applying], [done].  On the
    same state and texts the handler of [translations-ready] sends
    [applying], [qa] and [done]. *)
Lemma rewrite_pass_sends_no_qa :
  UI.status_of "fr" results_shown = Some done
  /\ UI.rewrite_begin "fr" results_shown = Some (asked, waiting)
  /\ snd (UI.rewrite_finish "fr" {["t0" := "Bonjour tout le monde"]}
            (Translate.mkResult (Some shorter) None) waiting)
     = [Controller.apply_rewrites "fr" shorter]
  /\ RewriteFacts.statuses
       (snd (Controller.on_apply_rewrites title_height natural fonts_load
               font_loads "fr" shorter finished))
     = [applying; done]
  /\ ~ In qa
       (RewriteFacts.statuses
          (snd (Controller.on_apply_rewrites title_height natural
                  fonts_load font_loads "fr" shorter finished)))
  /\ map (UI.status_of "fr")
       (results_shown :: waiting
          :: UI.on_progress_messages
               (snd (Controller.on_apply_rewrites title_height natural
                       fonts_load font_loads "fr" shorter finished))
               rewritten)
     = [Some done; Some applying; Some applying; Some done]
  /\ RewriteFacts.statuses
       (snd (Controller.on_translations_ready title_height natural
               fonts_load font_loads "fr" shorter finished))
     = [applying; qa; done].
Proof.
  assert (H : RewriteFacts.statuses
                (snd (Controller.on_apply_rewrites title_height natural
                        fonts_load font_loads "fr" shorter finished))
              = [applying; done]) by (vm_compute; reflexivity).
  split; [vm_compute; reflexivity|]. split; [vm_compute; reflexivity|].
  split; [vm_compute; reflexivity|]. split; [exact H|].
  split; [rewrite H; cbn; intuition discriminate|].
  split; vm_compute; reflexivity.
Qed.

(** That pass in full: it is taken up, the controller sends
    [applying] and [done], and the new report is green. *)
Lemma rewrite_pass_states_witness :
  UI.status_of "fr" results_shown = Some done
  /\ UI.rewrite_begin "fr" results_shown = Some (asked, waiting)
  /\ RewriteFacts.statuses
       (snd (Controller.on_apply_rewrites title_height natural fonts_load
               font_loads "fr" shorter finished))
     = [applying; done]
  /\ status
       (RewriteFacts.fresh_report title_height natural fonts_load
          font_loads finished
          (Duplicate.mkDuplicated cloned [("t0", grown)]) french shorter)
     = green.
Proof.
  assert (Hdone : UI.status_of "fr" results_shown = Some done)
    by (vm_compute; reflexivity).
  assert (Hbegin : UI.rewrite_begin "fr" results_shown
                   = Some (asked, waiting))
    by (vm_compute; reflexivity).
  destruct (RewriteFacts.rewrite_pass_states title_height natural
              fonts_load font_loads finished results_shown waiting "fr"
              asked {["t0" := "Bonjour tout le monde"]} shorter
              (Duplicate.mkDuplicated cloned [("t0", grown)]) french
              Hdone Hbegin eq_refl eq_refl)
    as (_ & _ & Hstatuses & _).
  split; [exact Hdone|]. split; [exact Hbegin|].
  split; [exact Hstatuses|]. vm_compute. reflexivity.
Defined.

End Examples.

(** ** The further properties on concrete documents *)

Module MoreExamples.
Import Examples.

(** *** A label that reaches out of a hugging row *)

(** An auto-layout row, 100 by 20, that hugs its content. *)
Definition row_frame : BaseNode :=
  mkBaseNode FRAME "Row" (Some false)
    (Some (mkRect n0 n0 (Num.of_Z 100) (Num.of_Z 20))) (Some HORIZONTAL)
    AUTO AUTO.

(** A label 300 wide under that row. *)
Definition wide_label : TextNode :=
  mkTextNode "4:1" "Label" [row_frame; page] false
    "Bonjour tout le monde" (Some (Num.of_Z 16)) (LH_PIXELS (Num.of_Z 20))
    (Some inter) n0 n0 (Num.of_Z 300) (Num.of_Z 20) AR_WIDTH_AND_HEIGHT
    LEFT (Some false) (Some (n0, n0)) true.

Lemma hugging_ancestors_never_clip_witness :
  QA.overflows (QA.checkParentOverflow wide_label) = false.
Proof.
  destruct (WalkFacts.hugging_ancestors_never_clip wide_label) as [H _].
  - intros b [<-|[<-|[]]] Hf.
    + split; [left; reflexivity|]. split; reflexivity.
    + discriminate Hf.
  - exact H.
Defined.

(** *** Writing an Arabic translation *)

Definition arabic : Language := mkLanguage "ar" "Arabic" "العربية" true.

Definition salam : gmap string string := {["t0" := "مرحبا"]}.

(** The same node on a host whose text nodes have no
    [paragraphDirection]. *)
Definition grown_without_direction : TextNode :=
  Apply.with_text (tn_characters grown) (tn_textAlignHorizontal grown)
    None grown.

Lemma apply_writes_witness :
  (exists node',
     JsMap.get "t0"
       (Apply.nodes
          (Apply.applyTranslations needs_41 natural fonts_load font_loads
             [("t0", grown)] salam arabic defaults))
     = Some node'
     /\ tn_characters node' = "مرحبا"
     /\ tn_textAlignHorizontal node' = RIGHT
     /\ tn_paragraphRTL node' = Some true)
  /\ (exists node',
        JsMap.get "t0"
          (Apply.nodes
             (Apply.applyTranslations needs_41 natural fonts_load
                font_loads [("t0", grown_without_direction)] salam arabic
                defaults))
        = Some node'
        /\ tn_characters node' = "مرحبا"
        /\ tn_textAlignHorizontal node' = RIGHT
        /\ tn_paragraphRTL node' = None).
Proof.
  assert (Hl : salam !! "t0" = Some "مرحبا") by (vm_compute; reflexivity).
  split.
  - destruct (ApplyFacts.apply_writes needs_41 natural fonts_load
                font_loads [("t0", grown)] salam arabic defaults "t0"
                "مرحبا" grown eq_refl Hl)
      as (node' & Hget & _ & Hwritten & _).
    destruct (Hwritten eq_refl) as (Hc & _ & Ha & Hr).
    exists node'. split; [exact Hget|]. split; [exact Hc|].
    split; [exact Ha|exact Hr].
  - destruct (ApplyFacts.apply_writes needs_41 natural fonts_load
                font_loads [("t0", grown_without_direction)] salam arabic
                defaults "t0" "مرحبا" grown_without_direction eq_refl Hl)
      as (node' & Hget & _ & Hwritten & _).
    destruct (Hwritten eq_refl) as (Hc & _ & Ha & Hr).
    exists node'. split; [exact Hget|]. split; [exact Hc|].
    split; [exact Ha|exact Hr].
Defined.

(** *** Cancelling a batch after its first call *)

Definition aborted_from_1 (attempt : nat) : bool := (1 <=? attempt)%nat.

Lemma abort_ends_batch_witness :
  Translate.translateBatch flaky aborted_from_1 [baseline_20] 2
  = (Translate.mkResult None (Some "Cancelled."),
     [Translate.CallOpenAI Translate.SYSTEM_PROMPT;
      Translate.Delay 2000]).
Proof.
  assert (Hb : forall j, (j < 1)%nat -> aborted_from_1 j = false).
  { intros j Hj. replace j with 0%nat by lia. reflexivity. }
  destruct (BatchFacts.abort_ends_batch flaky aborted_from_1 [baseline_20]
              2 1 ltac:(lia) eq_refl Hb)
    as [[_ Hres]|(m & _ & Hlt & [(e & Hc & _)|(tr & Hc & _)])].
  - reflexivity.
  - replace m with 0%nat in Hc by lia. discriminate Hc.
  - replace m with 0%nat in Hc by lia. discriminate Hc.
Defined.

(** *** A rate-limited API *)

Definition always_429 (attempt : nat) (systemPrompt : string)
  : OpenAI.FetchOutcome :=
  OpenAI.HttpError 429 "".

Definition no_parse (content : string) : option Translate.Data := None.
Definition whole (text : string) : string := text.

Lemma batch_over_http_witness :
  let run :=
    Translate.translateBatch
      (OpenAIFacts.call no_parse whole always_429) never_aborted
      [baseline_20] 2 in
  fst run
  = Translate.mkResult None (Some "Rate limited (429). Wait and retry.")
  /\ length (TranslateFacts.calls (snd run)) = 3%nat
  /\ BatchFacts.total_wait (snd run) = 12000%Z.
Proof.
  destruct (OpenAIFacts.batch_over_http no_parse whole always_429
              never_aborted [baseline_20] 2 ltac:(lia)
              (fun k => eq_refl))
    as (_ & _ & H429 & _).
  apply H429. intros k. exists "". reflexivity.
Defined.

(** *** A run for French *)

Definition scanned : Controller.State :=
  Controller.mkState defaults false [baseline_20] [] [] [] 0.

Lemma generate_order_witness :
  exists duplications,
    snd (Controller.generate reorders clone_of original [french] scanned)
    = (duplications
       ++ [Controller.progress "fr" "French" translating None None;
           Controller.request_translation "fr" "French" false [baseline_20]
             defaults])%list
    /\ omap (RunFacts.announced) duplications = ["fr"].
Proof.
  destruct (RunFacts.generate_order reorders clone_of original [french]
              scanned eq_refl)
    as (duplications & Hout & _ & Hann & _).
  exists duplications. split; [exact Hout|exact Hann].
Defined.

Lemma completion_once_witness :
  let started :=
    Selection.start_generate reorders clone_of [original] [french] defaults
      scanned in
  let finished :=
    CancelFacts.handle_all needs_41 natural fonts_load font_loads
      [Controller.translation_error "fr" "Network error."] (fst started) in
  RunFacts.completions (snd started ++ snd finished) = 1%nat.
Proof.
  assert (Hm : List.Forall (RunFacts.result_for (map code [french]))
                 [Controller.translation_error "fr" "Network error."]).
  { constructor; [left; reflexivity|constructor]. }
  destruct (RunFacts.completion_once needs_41 natural fonts_load font_loads
              reorders clone_of [original] original [french] defaults
              scanned
              [Controller.translation_error "fr" "Network error."]
              eq_refl ltac:(discriminate) Hm)
    as (_ & _ & _ & Hlast & _).
  destruct (Hlast ltac:(discriminate) eq_refl) as [H _]. exact H.
Defined.

(** *** Three requests and a queue of two *)

Definition idle_run : UIRun.RunState :=
  UIRun.mkRun (UI.mkState true (Some [baseline_20]) ∅ ∅ ∅) [] 0.

Definition request_for (langCode : string)
  : Controller.ControllerMessage :=
  Controller.request_translation langCode langCode false [baseline_20]
    defaults.

Definition three_requests : list QueueFacts.Event :=
  [QueueFacts.Received (request_for "fr");
   QueueFacts.Received (request_for "de");
   QueueFacts.Received (request_for "es")].

Lemma queue_cap_witness :
  exists out st' inflight,
    QueueFacts.run three_requests idle_run 0 = Some (out, st', inflight)
    /\ (inflight <= 2)%nat
    /\ UIRun.activeTranslations st' = Z.of_nat inflight.
Proof.
  destruct (QueueFacts.run three_requests idle_run 0)
    as [[[out st'] inflight]|] eqn:E; [|vm_compute in E; discriminate E].
  destruct (QueueFacts.queue_cap three_requests idle_run st' out inflight
              eq_refl eq_refl E)
    as (Hcap & Hactive & _).
  exists out, st', inflight.
  split; [reflexivity|]. split; [exact Hcap|exact Hactive].
Defined.

(** *** Cancelling while French is being translated *)

Definition translating_french : UIRun.RunState :=
  UIRun.mkRun
    (UI.mkState true (Some [baseline_20])
       {["fr" := mkProgress "fr" "French" translating None None]} ∅ ∅)
    [] 1.

Lemma cancel_freezes_witness :
  fst (UIRun.cancelGeneration translating_french)
  = [UIRun.sends Controller.cancel]
  /\ UI.generating (UIRun.ui (snd (UIRun.cancelGeneration
                                     translating_french))) = false.
Proof.
  destruct (QueueFacts.cancel_freezes translating_french eq_refl)
    as (Hout & Hgen & _).
  split; [exact Hout|exact Hgen].
Defined.

(** *** What the rewrite of the French title asks for *)

Lemma rewrite_request_witness :
  UI.rewrite_begin "fr" results_shown = Some (asked, waiting)
  /\ asked <> []
  /\ UI.translationsStore waiting = UI.translationsStore results_shown.
Proof.
  assert (Hbegin : UI.rewrite_begin "fr" results_shown
                   = Some (asked, waiting))
    by (vm_compute; reflexivity).
  destruct (ShortenFacts.rewrite_request "fr" results_shown waiting asked
              Hbegin)
    as (_ & Hne & Hstore & _).
  split; [exact Hbegin|]. split; [exact Hne|exact Hstore].
Defined.

End MoreExamples.
(** ** A result of a cancelled run that arrives in the next run *)

Module Restart.
Import Examples MoreExamples.

Definition german : Language := mkLanguage "de" "German" "Deutsch" false.

(** The messages of the controller, taken by the UI one after the
    other. *)
Fixpoint deliver (msgs : list Controller.ControllerMessage)
    (st : UIRun.RunState) : list UIRun.Out * UIRun.RunState :=
  match msgs with
  | [] => ([], st)
  | msg :: msgs' =>
      let '(out1, st1) := UIRun.handleMessage msg st in
      let '(out2, st2) := deliver msgs' st1 in
      ((out1 ++ out2)%list, st2)
  end.

(** The UI after a scan, before any run. *)
Definition ui_idle : UIRun.RunState :=
  UIRun.mkRun (UI.mkState false (Some [baseline_20]) ∅ ∅ ∅) [] 0.

(** *** The first run: French *)

(** The click on Generate with French selected. *)
Definition click_1 := UIRun.startGeneration 1 "sk-test" true ["fr"] ui_idle.

Definition run_1 :=
  Selection.start_generate reorders clone_of [original] [french] defaults
    scanned.

(** The UI takes the messages of the run: the request for French
    starts a call of [translateBatch]. *)
Definition ui_run_1 := deliver (snd run_1) (snd click_1).

Definition request_french : UIRun.Request :=
  UIRun.mkRequest "fr" "French" false [baseline_20] defaults.

(** That call: the API answers 429, and the signal is aborted while
    the call waits out the 2000 ms before its second attempt. *)
Definition call_1 :=
  Translate.translateBatch flaky aborted_from_1 [baseline_20] 2.

(** *** The cancel, during that wait *)

Definition click_cancel := UIRun.cancelGeneration (snd ui_run_1).

Definition cancelled_run :=
  Controller.onmessage needs_41 natural fonts_load font_loads
    Controller.cancel (fst run_1).

Definition ui_cancelled := deliver (snd cancelled_run) (snd click_cancel).

(** *** The second run: French and German *)

Definition click_2 :=
  UIRun.startGeneration 1 "sk-test" true ["fr"; "de"] (snd ui_cancelled).

Definition run_2 :=
  Selection.start_generate reorders clone_of [original] [french; german]
    defaults (fst cancelled_run).

Definition ui_run_2 := deliver (snd run_2) (snd click_2).

(** *** The call of the first run returns *)

(** The messages a handler of the UI sent to the controller. *)
Definition sent (out : list UIRun.Out) : list Controller.UIMessage :=
  omap (fun o => match o with UIRun.sends msg => Some msg | _ => None end)
    out.

(** [processTranslation] of the first run, from the result of its call
    on. *)
Definition late := UIRun.resumed request_french (fst call_1) (snd ui_run_2).

(** The controller takes what the UI sent, and the UI the answer. *)
Definition after_late :=
  CancelFacts.handle_all needs_41 natural fonts_load font_loads
    (sent (fst late)) (fst run_2).

Definition ui_late := deliver (snd after_late) (snd late).

(** *** The second run goes on *)

Definition request_german : UIRun.Request :=
  UIRun.mkRequest "de" "German" false [baseline_20] defaults.

Definition german_ready : Controller.UIMessage :=
  Controller.translations_ready "de" {["t0" := "Hallo"]}.

(** The German call of the second run returns; its French call has
    not. *)
Definition german_returns :=
  UIRun.resumed request_german
    (Translate.mkResult (Some {["t0" := "Hallo"]}) None) (snd ui_late).

Definition after_german :=
  CancelFacts.handle_all needs_41 natural fonts_load font_loads
    (sent (fst german_returns)) (fst after_late).

Definition ui_complete := deliver (snd after_german) (snd german_returns).

(** The French call of the second run returns. *)
Definition french_returns :=
  UIRun.resumed request_french
    (Translate.mkResult (Some {["t0" := "Bonjour"]}) None)
    (snd ui_complete).

(** C5.  The claim fails on this sequence of clicks: Generate with
    French, Cancel while the call for French waits after a 429,
    Generate with French and German.  The cancel sets the flag of the
    controller and the first call resolves afterward, with
    'Cancelled.'; the UI is generating again, so it sends the result,
    and the controller, whose flag the second run reset, takes it for
    a result of the second run: it sends the progress [error] for
    French, which the UI shows, and takes one off the pending count of
    the second run.  The German result then draws [all-complete]
    although the French call of the second run is still in flight
    (without the late result it draws none), the UI stops generating,
    and the French translation of the second run is dropped when it
    arrives. *)
Lemma late_result_joins_next_run :
  (* the first run asked for French, and its call is in flight *)
  fst click_1 = [UIRun.sends_start_generate [french]]
  /\ fst ui_run_1 = [UIRun.starts request_french]
  (* the cancel reaches the controller, which sets its flag *)
  /\ fst click_cancel = [UIRun.sends Controller.cancel]
  /\ Controller.cancelled_flag (fst cancelled_run) = true
  (* the call resolves after that, during its wait *)
  /\ call_1
     = (Translate.mkResult None (Some "Cancelled."),
        [Translate.CallOpenAI Translate.SYSTEM_PROMPT;
         Translate.Delay 2000])
  (* the second run is under way, with two results pending *)
  /\ fst click_2 = [UIRun.sends_start_generate [french; german]]
  /\ Controller.cancelled_flag (fst run_2) = false
  /\ Controller.pendingCount (fst run_2) = 2%Z
  /\ fst ui_run_2
     = [UIRun.starts request_french; UIRun.starts request_german]
  (* the late result is sent, and handled as one of the second run *)
  /\ sent (fst late) = [Controller.translation_error "fr" "Cancelled."]
  /\ snd after_late
     = [Controller.progress "fr" "French" error (Some "Cancelled.") None]
  /\ Controller.pendingCount (fst after_late) = 1%Z
  /\ UI.status_of "fr" (UIRun.ui (snd ui_run_2)) = Some translating
  /\ UI.status_of "fr" (UIRun.ui (snd ui_late)) = Some error
  (* the run is declared complete one result early *)
  /\ sent (fst german_returns) = [german_ready]
  /\ existsb CancelFacts.is_all_complete (snd after_german) = true
  /\ existsb CancelFacts.is_all_complete
       (snd (Controller.onmessage needs_41 natural fonts_load font_loads
               german_ready (fst run_2)))
     = false
  (* and its French translation is dropped *)
  /\ UI.generating (UIRun.ui (snd ui_complete)) = false
  /\ fst french_returns = [].
Proof. vm_compute. repeat split; reflexivity. Qed.

End Restart.
